(* ===== verification/_CoqProject ===== *)
-Q . S2P
Prelude.v
Double.v
Endian.v
Socket.v
Handles.v
Frame.v
Protocol.v
Paths.v
Messages.v
Connection.v
RateLimiter.v
SessionTable.v
Server.v
ServerSafety.v
ServerProtocol.v
ServerClaims.v
Pipeline.v
Channel.v
Text.v
Getopt.v
Cli.v
Address.v
Storage.v
KnownPeers.v
Config.v
Crypto.v
Evp.v
Log.v
Identity.v
Progress.v
Dialogue.v
Client.v
Handshake.v
ReliableUdp.v
UdpStream.v
Transport.v
Platform.v
Manifest.v
AeadPool.v
Sender.v
Receiver.v
ReceiverOk.v
Transfer.v
ReceiverSafety.v
Session.v
Program.v
ShardLoop.v
Kqueue.v
ServerRun.v
