(* ===== verification/Prelude.v ===== *)
(** * drop-zone, verified

    drop-zone sends files from one machine to another. Two programs share a library:
    the client ([src/client]), which sends or accepts files, and the rendezvous server
    ([src/server]), which introduces a sender to a receiver it does not trust and, when
    the two cannot reach each other, relays their bytes. The library ([src/common]) has
    the wire format, the messages, cryptography, sockets and files.

    A transfer goes through every part. The receiver says hello to the server and holds
    its name there ([Server], [SessionTable]); a sender asks for that name and the server
    passes each end what the other said ([ServerProtocol]); both ends check a proof of the
    receiver's public password over both ends' keys, pin the other's identity and derive
    session keys ([Handshake], [KnownPeers]); they look for a path, direct TCP, punched UDP
    or the relay ([Transport]), and get a channel over it ([Channel], [ReliableUdp]); the
    sender offers a manifest and streams chunks, the receiver checks and writes them
    ([Manifest], [Sender], [Receiver], [Transfer]). The commands a user runs put these
    together ([Cli], [Client], [Session], [Program]), and the server's program runs shards,
    each a thread with its own event loop ([ServerRun], [ShardLoop]).

    ** Files

    Library:
    - this file: machine integers, byte strings, the exceptions of [error.hpp], the state
      and error monad every stateful function is written in, notations, hints and the
      lemmas on lists and integers the rest shares;
    - [Endian]: [endian.hpp]; [Socket]: [socket.cpp], endpoints and the blocking loops over
      a script of the kernel's answers; [Frame]: [frame.cpp], headers, [FramedStream],
      [PayloadWriter], [PayloadReader] and the two relations used to reason about readers,
      [reads] and [yields]; [Protocol]: [protocol.cpp], every message; [Messages]: the
      class [WireMessage] that says what an encoding promises, with an instance per
      message; [Paths]: the path functions of [fileio.cpp] and [manifest.cpp];
    - [Handles]: [Fd] and [MappedFile], who owns what the process has open; [Platform]: the
      addresses of the interfaces and what other systems have in the place of Linux's calls;
    - [Double]: binary64 arithmetic as the sources use it; [Crypto]: [crypto.cpp] as the rest
      takes it to be, and [Evp]: the same file call by call of libcrypto, with the calls that
      fail;
      [AeadPool]: [aead_pool.cpp]; [Text]: hexadecimal of [secure.cpp] and number parsing;
      [Storage]: writing and reading a small file; [Address]: [Endpoint::parse] and
      [to_string]; [Log]: [log.cpp]; [Getopt]: [getopt_long] as both programs use it.

    Server:
    - [Connection]: [connection.cpp]; [RateLimiter]: [rate_limiter.cpp];
      [SessionTable]: [session_table.cpp]; [Server]: [server.cpp], all handlers, the
      service of a connection, accepting, teardown, wake-ups and maintenance;
    - [ServerSafety], [ServerClaims], [ServerProtocol]: the theorems about [Server];
    - [ShardLoop]: the wait of the Linux half of [poller.cpp] and [run_shard], whose turns are
      steps of [Server] between the steps of everybody else; [Kqueue]: the other half, and what
      both have registered with their kernels; [ServerRun]: [server/src/main.cpp],
      start-up and stop.

    Client:
    - [Config]: [config.cpp]; [Identity]: [identity.cpp]; [KnownPeers]: [known_peers.cpp];
      [Handshake]: [rendezvous.cpp];
    - [Pipeline]: [pipeline.cpp]; [Channel]: [channel.cpp], [transport_tcp.cpp] and
      [transport_relay.cpp] once connected, behind the class [Channel] with the laws
      [ChannelSpec]; [ReliableUdp]: the channel of [reliable_udp.cpp] and [UdpStream] its
      theorems; [Transport]: [transport.cpp] and the part of [transport_tcp.cpp],
      [transport_relay.cpp] and [reliable_udp.cpp] that finds a path, with its theorems;
      [Manifest]: [manifest.cpp]; [Sender]: [sender.cpp];
      [Receiver]: [receiver.cpp];
    - [ReceiverOk], [Transfer], [ReceiverSafety]: the theorems about a transfer, proved for
      every [ChannelSpec];
    - [Progress]: [progress.cpp], a step relation of the threads that report, and how sizes and
      rates are printed; [Dialogue]: the question before a transfer, and [cpu.cpp];
    - [Cli]: [cli.cpp]; [Client]: the commands of [main.cpp] that stay on this machine, over
      a state of files, terminal input and output; [Session]: [ControlConnection]'s
      constructor, [send_to_one] and one turn of the loop of [accept], the composition of
      [Handshake], [Transport], [Sender] and [Receiver]; [Program]: [send], [accept], [run]
      and [main].

    ** What is shown

    - A transfer between honest ends delivers every file, whatever the interleaving of
      the sender's threads and the receiver's workers ([Transfer.transfer_correct]); its
      parts are [Sender.plan_exact], [Pipeline.emitter_in_order],
      [Manifest.manifest_accepted], [Manifest.walk_reproducible] and
      [Channel.relay_tunnel].
    - Against a hostile peer the receiver touches nothing outside the paths it checked and
      no file grows past its offered size ([ReceiverSafety.receiver_contained],
      [Paths.output_paths_confined], [Paths.safe_path_correct]), with one exception that
      is a theorem as well ([ReceiverSafety.forged_chunk_overruns]).
    - The handshake of two honest ends gives mirrored keys ([Handshake.handshake_agrees]),
      each end accepts only a peer that proved the password over both ends' keys, holds its
      identity key and matches the record ([Handshake.sender_authenticates],
      [Handshake.receiver_authenticates], [Handshake.proof_inputs_separate],
      [KnownPeers.pinning_correct]). That a proof cannot be forged is a statement about
      effort and is not claimed.
    - The UDP channel is a reliable stream over a network that loses, repeats, reorders and
      delays ([UdpStream.udp_stream]), up to [2^31] packets and where its own undefined
      behaviour does not strike ([UdpStream.retransmit_dangles],
      [UdpStream.stalled_acks_overrun]). The ladder commits only to an authenticated path
      ([Transport.transport_authenticated], [Transport.tcp_ends_agree]), though not always
      at both ends ([Transport.punch_one_sided]).
    - The server handles every event in every reachable state without an undefined access
      or an escaping exception ([ServerSafety.server_never_fails]), a name has one holder
      ([ServerClaims.names_are_unique], [SessionTable.claims_refine_registry]), introductions
      and relayed data are passed on unchanged ([ServerProtocol]), buffers neither lose nor
      reorder ([Connection]), and tables, groups and limits do what they say
      ([SessionTable], [RateLimiter]). A server that starts listens with every shard on one
      port ([ServerRun.started_on_one_port]), and a shard serves until it is told to stop and
      then leaves nothing behind ([ShardLoop.shard_winds_down]).
    - The commands are what their parts make them: [send] and [accept] deal with
      authenticated peers only ([Session.send_authenticated],
      [Session.accept_authenticated]), a send to a group reports every member
      ([Program.group_send_reports]), [setup] leaves a usable installation
      ([Client.setup_usable]), settings are kept ([Client.settings_persist]), command lines
      are read back ([Cli.command_line_roundtrip], [Cli.command_line_wellformed],
      [ServerRun.server_numbers_wrap]) and every failure is an exit status
      ([Program.exit_status]).
    - The functions of [crypto.hpp] are what the rest takes them to be or throw, whatever calls
      of libcrypto fail, and free what they allocate ([Evp.crypto_calls]); no descriptor or
      mapping is lost or given back twice ([Handles.handles_released]); the two pollers are one
      ([Kqueue.pollers_agree]); every [sendfile_all] sends a beginning of the range and all of it
      if it returns ([Platform.sendfile_sends], [Platform.mac_sendfile_sends],
      [Platform.bounce_all_sends]); the progress of threads adds up ([Progress.progress_counts]).
    - Every message survives the wire and every decoder is total ([Messages]), addresses
      survive being printed ([Address.endpoint_text_roundtrip]); the files
      the client keeps are replaced whole and read back ([Config.config_roundtrip],
      [Identity.keystore_roundtrip], [KnownPeers.pinning_correct]).
    - Where the code does not do what it means to, the theorem states what it does; those
      are listed with the findings of the manifest.

    ** Conventions, bounds and fuel

    Integers are [Z] with every narrowing written as a cast; a byte string is a list of
    them. An access outside a buffer is the error [OutOfBounds], which no theorem about
    hostile input lets happen unless it says so. A call that waits for the kernel is a
    function of a script of the kernel's answers, and [Blocks] is a script that has run
    out: theorems that a call returns assume a script that goes on long enough and say how
    long. Threads are sequences of steps under the program's own locks. Structural
    recursion is on those scripts wherever the code loops on them; where it does not
    apply, fuel is the length of the data a turn of the loop must consume (paths, buffers,
    chunks, readings of the clock) or a bound on the depth of a directory tree, and the
    theorems are stated for every fuel at least that large. What else happens while a shard or
    [accept] goes round its loop is an argument of each turn. Code outside the repository, which is OpenSSL's
    primitives and the C library's address functions, is a class of functions with their documented laws, and each class has an
    instance that satisfies the laws so that theorems which assume them have a witness.

    ** Not modelled

    The resolver, [inet_pton] and [inet_ntop], whose answers are arguments; socket options;
    other messages on stderr and help texts; the advice given to the kernel about a mapping,
    memory wiping and terminal echo; signal handlers and the joining of threads; and of the
    variants for other systems preallocation and batched sending. *)

From Stdlib Require Export ZArith Lia.
From stdpp Require Export strings pretty base gmap option list_numbers list.

Declare Scope dz_scope.
Delimit Scope dz_scope with dz.
#[global] Open Scope Z_scope.

(** * Machine integers

    A [w]-bit unsigned integer is a [Z]; every conversion or operation that
    can leave the range goes through one of these casts. *)

Definition u8 (z : Z) : Z := z mod 2 ^ 8.
Definition u16 (z : Z) : Z := z mod 2 ^ 16.
Definition u32 (z : Z) : Z := z mod 2 ^ 32.
Definition u64 (z : Z) : Z := z mod 2 ^ 64.

(** [static_cast<std::int32_t>] of a 32-bit unsigned value. *)
Definition i32 (z : Z) : Z :=
  let v := u32 z in if v <? 2 ^ 31 then v else v - 2 ^ 32.

Definition is_u (w : Z) (z : Z) : Prop := 0 <= z < 2 ^ w.
Abbreviation is_u8 := (is_u 8).
Abbreviation is_u16 := (is_u 16).
Abbreviation is_u32 := (is_u 32).
Abbreviation is_u64 := (is_u 64).

#[global] Instance is_u_dec w z : Decision (is_u w z).
Proof. unfold is_u. apply _. Defined.

(** * Bytes

    [std::vector<std::uint8_t>], [std::string] and a raw pointer with a length
    are all a list of bytes. *)

Abbreviation bytes := (list Z).

Definition bytes_ok (b : bytes) : Prop := Forall is_u8 b.

#[global] Instance bytes_ok_dec b : Decision (bytes_ok b).
Proof. unfold bytes_ok. apply _. Defined.

(** Length of a container as a [std::size_t]. *)
Definition len {A} (l : list A) : Z := Z.of_nat (length l).

(** The bytes of a string literal. *)
Fixpoint str (s : string) : bytes :=
  match s with
  | String.EmptyString => []
  | String.String c s => Z.of_N (Ascii.N_of_ascii c) :: str s
  end.

(** [std::to_string] of an unsigned integer. *)
Definition to_string (z : Z) : bytes := str (pretty z).

(** Slices, with the C++ offsets and lengths as [Z]. *)
Definition ztake {A} (n : Z) (l : list A) : list A := take (Z.to_nat n) l.
Definition zdrop {A} (n : Z) (l : list A) : list A := drop (Z.to_nat n) l.

(** [std::string::find] of a character from a position, and [npos] as [None]. *)
Definition find_from (c : Z) (l : bytes) (pos : Z) : option Z :=
  if len l <? pos then None
  else (fun p => pos + Z.of_nat p.1) <$> list_find (fun x => x = c) (zdrop pos l).

(** [substr(pos, count)] with [None] for [npos]. *)
Definition substr (l : bytes) (pos : Z) (count : option Z) : bytes :=
  match count with
  | Some n => ztake n (zdrop pos l)
  | None => zdrop pos l
  end.

(** * Errors

    [Error], [UserError] and [PeerClosed] are the exception classes of
    error.hpp. [SysError] is an [Error] raised by [fail_errno]: its text is the
    operation followed by the C library's [strerror], which is kept as the errno.
    The last two are not exceptions of the program: [OutOfBounds] is an access
    outside a buffer (undefined behaviour), and [Blocks] is a call that has not
    returned because the kernel has no further event for it. *)

Inductive exn :=
  | Error (msg : bytes)
  | UserError (msg : bytes)
  | PeerClosed
  | SysError (what : bytes) (errno : Z)
  | OutOfBounds
  | Blocks.

(** What [catch (const Error&)] catches. *)
Definition is_dz_error (e : exn) : bool :=
  match e with OutOfBounds | Blocks => false | _ => true end.

Inductive result (A : Type) :=
  | Ok (a : A)
  | Err (e : exn).
Arguments Ok {A} a.
Arguments Err {A} e.

(** * The state and error monad

    A computation keeps the state it had when it threw, as C++ does. *)

Definition M (S A : Type) : Type := S -> result A * S.

Definition mret {S A} (a : A) : M S A := fun s => (Ok a, s).
Definition mthrow {S A} (e : exn) : M S A := fun s => (Err e, s).
Definition mbind {S A B} (m : M S A) (k : A -> M S B) : M S B :=
  fun s => match m s with
           | (Ok a, s') => k a s'
           | (Err e, s') => (Err e, s')
           end.
Definition mget {S} : M S S := fun s => (Ok s, s).
Definition mput {S} (s : S) : M S unit := fun _ => (Ok tt, s).
Definition mmodify {S} (f : S -> S) : M S unit := fun s => (Ok tt, f s).

Notation "'let*' x ':=' m 'in' k" := (mbind m (fun x => k))
  (at level 10, x name, m at level 100, k at level 200,
   format "'[v' 'let*'  x  ':='  m  'in' '/' k ']'") : dz_scope.
Notation "'do*' m 'in' k" := (mbind m (fun _ => k))
  (at level 10, m at level 100, k at level 200,
   format "'[v' 'do*'  m  'in' '/' k ']'") : dz_scope.
Notation "'let?' x ':=' r 'in' k" :=
  (match r with Ok x => k | Err e => Err e end)
  (at level 10, x name, r at level 100, k at level 200,
   format "'[v' 'let?'  x  ':='  r  'in' '/' k ']'") : dz_scope.
#[global] Open Scope dz_scope.

(** Run a pure fallible function inside the monad. *)
Definition mlift {S A} (r : result A) : M S A := fun s => (r, s).

(** Run a computation on a part of the state. *)
Definition mzoom {S T A} (get : S -> T) (set : T -> S -> S) (m : M T A) : M S A :=
  fun s => let '(r, t) := m (get s) in (r, set t s).

(** The [for] loop that pushes back [n] results. *)
Fixpoint mrepeat {S A} (n : nat) (m : M S A) : M S (list A) :=
  match n with
  | O => mret []
  | S n => let* x := m in let* xs := mrepeat n m in mret (x :: xs)
  end.

(** [fail] and [fail_user] of error.cpp. *)
Definition fail {S A} (msg : bytes) : M S A := mthrow (Error msg).
Definition fail_user {S A} (msg : bytes) : M S A := mthrow (UserError msg).

(** * Shared lemmas *)

Create HintDb dz.
Create Rewrite HintDb len.

Section Lists.
Context {A : Type}.
Implicit Types l k : list A.

Lemma len_nil : len (@nil A) = 0.
Proof. done. Qed.

Lemma len_cons x l : len (x :: l) = 1 + len l.
Proof. unfold len. simpl. lia. Qed.

Lemma len_app l k : len (l ++ k) = len l + len k.
Proof. unfold len. rewrite length_app. lia. Qed.

Lemma len_nonneg l : 0 <= len l.
Proof. unfold len. lia. Qed.

Lemma len_zero_nil l : len l = 0 -> l = [].
Proof. destruct l; [done|]. unfold len. simpl. lia. Qed.

Lemma len_ne_nil l : len l <> 0 -> l <> [].
Proof. by intros H ->. Qed.

Lemma zdrop_app_len l k : zdrop (len l) (l ++ k) = k.
Proof. unfold zdrop, len. rewrite Nat2Z.id. apply drop_app_length. Qed.

Lemma ztake_app_len l k : ztake (len l) (l ++ k) = l.
Proof. unfold ztake, len. rewrite Nat2Z.id. apply take_app_length. Qed.

Lemma ztake_zdrop n l : ztake n l ++ zdrop n l = l.
Proof. apply take_drop. Qed.

Lemma len_ztake n l : 0 <= n <= len l -> len (ztake n l) = n.
Proof. unfold len, ztake. intros ?. rewrite length_take. lia. Qed.

Lemma len_ztake_min n l : 0 <= n -> len (ztake n l) = Z.min n (len l).
Proof. unfold len, ztake. intros ?. rewrite length_take. lia. Qed.

Lemma len_zdrop n l : 0 <= n <= len l -> len (zdrop n l) = len l - n.
Proof. unfold len, zdrop. intros ?. rewrite length_drop. lia. Qed.

Lemma zdrop_0 l : zdrop 0 l = l.
Proof. done. Qed.

Lemma ztake_0 l : ztake 0 l = [].
Proof. done. Qed.

Lemma zdrop_zdrop n m l : 0 <= n -> 0 <= m -> zdrop n (zdrop m l) = zdrop (m + n) l.
Proof. intros. unfold zdrop. rewrite drop_drop. f_equal. lia. Qed.

Lemma zdrop_len n l : len l <= n -> zdrop n l = [].
Proof. unfold len, zdrop. intros ?. apply drop_ge. lia. Qed.

Lemma ztake_len n l : len l <= n -> ztake n l = l.
Proof. unfold len, ztake. intros ?. apply take_ge. lia. Qed.

Lemma zdrop_app_le n l k : 0 <= n <= len l -> zdrop n (l ++ k) = zdrop n l ++ k.
Proof. unfold len, zdrop. intros ?. apply drop_app_le. lia. Qed.

Lemma ztake_app_le n l k : 0 <= n <= len l -> ztake n (l ++ k) = ztake n l.
Proof. unfold len, ztake. intros ?. apply take_app_le. lia. Qed.

Lemma zdrop_elem n l x : x ∈ zdrop n l -> x ∈ l.
Proof. intros H. rewrite <- (ztake_zdrop n l). apply elem_of_app. by right. Qed.

Lemma ztake_elem n l x : x ∈ ztake n l -> x ∈ l.
Proof. intros H. rewrite <- (ztake_zdrop n l). apply elem_of_app. by left. Qed.

Lemma forallb_Forall (f : A -> bool) l : forallb f l = true <-> Forall (fun x => f x = true) l.
Proof.
  induction l as [|x l IH]; cbn; [done|]. rewrite andb_true_iff, IH, Forall_cons. done.
Qed.
End Lists.

Lemma mjoin_fmap_cons {A B} (f : A -> list B) x xs :
  mjoin (f <$> x :: xs) = f x ++ mjoin (f <$> xs).
Proof. done. Qed.

Lemma len_omap {A B} (f : A -> option B) l : len (omap f l) <= len l.
Proof.
  induction l as [|x l IH]; [done|]. csimpl. destruct (f x); rewrite ?len_cons; lia.
Qed.

Section Words.
Lemma u8_range z : is_u8 (u8 z).
Proof. unfold is_u, u8. apply Z.mod_pos_bound. lia. Qed.
Lemma u16_range z : is_u16 (u16 z).
Proof. unfold is_u, u16. apply Z.mod_pos_bound. lia. Qed.
Lemma u32_range z : is_u32 (u32 z).
Proof. unfold is_u, u32. apply Z.mod_pos_bound. lia. Qed.
Lemma u64_range z : is_u64 (u64 z).
Proof. unfold is_u, u64. apply Z.mod_pos_bound. lia. Qed.

Lemma u8_small z : is_u8 z -> u8 z = z.
Proof. apply Z.mod_small. Qed.
Lemma u16_small z : is_u16 z -> u16 z = z.
Proof. apply Z.mod_small. Qed.
Lemma u32_small z : is_u32 z -> u32 z = z.
Proof. apply Z.mod_small. Qed.
Lemma u64_small z : is_u64 z -> u64 z = z.
Proof. apply Z.mod_small. Qed.

(** Or-ing a shifted value over a narrower one is addition. *)
Lemma lor_shiftl_add a b n :
  0 <= n -> 0 <= a < 2 ^ n -> 0 <= b -> Z.lor a (Z.shiftl b n) = a + b * 2 ^ n.
Proof.
  intros Hn Ha Hb. rewrite <- Z.shiftl_mul_pow2 by done.
  assert (Z.land a (Z.shiftl b n) = 0) as Hz.
  { apply Z.bits_inj'. intros i Hi. rewrite Z.land_spec, Z.bits_0.
    destruct (Z.lt_ge_cases i n).
    - rewrite Z.shiftl_spec_low by done. apply andb_false_r.
    - destruct (decide (a = 0)) as [->|]; [by rewrite Z.bits_0|].
      rewrite (Z.bits_above_log2 a i); [done|lia|].
      enough (Z.log2 a < n) by lia. apply Z.log2_lt_pow2; lia. }
  by rewrite <- Z.lxor_lor, <- Z.add_nocarry_lxor by done.
Qed.

Lemma i32_small z : 0 <= z < 2 ^ 31 -> i32 z = z.
Proof.
  intros ?. unfold i32. rewrite u32_small by (unfold is_u; lia).
  destruct (Z.ltb_spec z (2 ^ 31)); lia.
Qed.
End Words.

Section BytesOk.
Lemma bytes_ok_app a b : bytes_ok (a ++ b) <-> bytes_ok a /\ bytes_ok b.
Proof. apply Forall_app. Qed.

Lemma bytes_ok_ztake n b : bytes_ok b -> bytes_ok (ztake n b).
Proof. apply Forall_take. Qed.

Lemma bytes_ok_zdrop n b : bytes_ok b -> bytes_ok (zdrop n b).
Proof. apply Forall_drop. Qed.

Lemma bytes_ok_str s : bytes_ok (str s).
Proof.
  induction s as [|c s IH]; simpl; constructor; [|done].
  unfold is_u. pose proof (Ascii.N_ascii_bounded c). lia.
Qed.
End BytesOk.

#[export] Hint Resolve u8_range u16_range u32_range u64_range : dz.
#[export] Hint Resolve bytes_ok_ztake bytes_ok_zdrop bytes_ok_str : dz.
#[export] Hint Resolve len_nonneg : dz.
#[export] Hint Rewrite @len_app @len_cons @len_nil : len.

Ltac len_simpl := autorewrite with len in *.

(** Split every conditional of the goal or of a hypothesis once, turning the
    boolean comparisons into propositions. *)
Ltac bool_cases :=
  repeat match goal with
  | |- context [?a <? ?b] => destruct (Z.ltb_spec a b)
  | |- context [?a <=? ?b] => destruct (Z.leb_spec a b)
  | |- context [?a =? ?b] => destruct (Z.eqb_spec a b)
  | H : context [?a <? ?b] |- _ => destruct (Z.ltb_spec a b)
  | H : context [?a <=? ?b] |- _ => destruct (Z.leb_spec a b)
  | H : context [?a =? ?b] |- _ => destruct (Z.eqb_spec a b)
  end.

Section MonadLaws.
Context {S A B C : Type}.

Lemma mbind_ret (a : A) (k : A -> M S B) s : mbind (mret a) k s = k a s.
Proof. done. Qed.

Lemma mbind_assoc (m : M S A) (k : A -> M S B) (h : B -> M S C) s :
  mbind (mbind m k) h s = mbind m (fun a => mbind (k a) h) s.
Proof. unfold mbind. destruct (m s) as [[a|e] s']; done. Qed.

Lemma mbind_ok (m : M S A) (k : A -> M S B) s s' a :
  m s = (Ok a, s') -> mbind m k s = k a s'.
Proof. unfold mbind. by intros ->. Qed.

Lemma mbind_ok_inv (m : M S A) (k : A -> M S B) s s' b :
  mbind m k s = (Ok b, s') -> exists a s1, m s = (Ok a, s1) /\ k a s1 = (Ok b, s').
Proof. unfold mbind. destruct (m s) as [[a|e] s1]; naive_solver. Qed.
End MonadLaws.

(** * Sums over a list *)

Section Tally.
Context {A : Type} (f : A -> Z).

Fixpoint tally (ts : list A) : Z := match ts with [] => 0 | t :: ts => f t + tally ts end.

Lemma tally_app ts us : tally (ts ++ us) = tally ts + tally us.
Proof. induction ts as [|t ts IH]; cbn; lia. Qed.

Lemma tally_insert ts : forall i t t', ts !! i = Some t -> tally (<[i := t']> ts) = tally ts - f t + f t'.
Proof.
  induction ts as [|u ts IH]; intros [|i] t t' Hi; [done|done|injection Hi as ->; cbn; lia|].
  change (<[S i := t']> (u :: ts)) with (u :: <[i := t']> ts). cbn [tally]. rewrite (IH i t t' Hi). lia.
Qed.

Lemma tally_nonneg ts : Forall (fun u => 0 <= f u) ts -> 0 <= tally ts.
Proof. induction 1; cbn; lia. Qed.

Lemma tally_elem ts t : Forall (fun u => 0 <= f u) ts -> t ∈ ts -> f t <= tally ts.
Proof.
  induction 1 as [|u ts Hu Hf IH]; [by intros ?%not_elem_of_nil|]. cbn. pose proof (tally_nonneg _ Hf).
  intros [->|Hin]%elem_of_cons; [lia|]. specialize (IH Hin). lia.
Qed.

#[export] Instance tally_perm : Proper ((≡ₚ) ==> eq) tally.
Proof. intros ts us. induction 1; cbn; lia. Qed.
End Tally.
