(* ===== verification/Double.v ===== *)
(** IEEE doubles: [SpecFloat] at precision 53, rounding to nearest even, so that a witness
    computes the very numbers the program computes. *)

From Stdlib Require Import Floats.SpecFloat.
From S2P Require Import Prelude.

Abbreviation double := spec_float.
Definition d_add : double -> double -> double := SFadd 53 1024.
Definition d_sub : double -> double -> double := SFsub 53 1024.
Definition d_mul : double -> double -> double := SFmul 53 1024.
Definition d_div : double -> double -> double := SFdiv 53 1024.
Definition d_ltb : double -> double -> bool := SFltb.
(** [static_cast<double>] of an integer. *)
Definition d_of_Z (z : Z) : double := binary_normalize 53 1024 z 0 false.

#[global] Instance double_eq_dec : EqDecision double.
Proof. solve_decision. Defined.

Definition d_geb (a b : double) : bool := SFleb b a.

(** [std::max]. *)
Definition d_max (a b : double) : double := if d_ltb a b then b else a.

(** [static_cast<std::uint64_t>] of a value that is not negative: the fraction is cut off. *)
Definition d_to_u64 (d : double) : Z :=
  match d with
  | S754_finite false m e => u64 (if 0 <=? e then Z.shiftl (Zpos m) e else Z.shiftr (Zpos m) (- e))
  | _ => 0
  end.
