(* ===== verification/Endian.v ===== *)
(** Fixed-width little-endian encoding, [common/include/dz/endian.hpp].

    [store_uN] writes the [N/8] bytes at the start of its output pointer: it
    returns them. [load_uN] reads through its input pointer, so it is given the
    bytes from that pointer to the end of the buffer, and reading past that end
    is [OutOfBounds]. *)

From S2P Require Import Prelude.

Definition store_u16 (value : Z) : bytes :=
  [u8 value; u8 (Z.shiftr value 8)].

Definition store_u32 (value : Z) : bytes :=
  [u8 value; u8 (Z.shiftr value 8); u8 (Z.shiftr value 16); u8 (Z.shiftr value 24)].

Definition store_u64 (value : Z) : bytes :=
  (fun i => u8 (Z.shiftr value (8 * i))) <$> seqZ 0 8.

Definition load_u16 (inp : bytes) : result Z :=
  match inp with
  | b0 :: b1 :: _ => Ok (u16 (Z.lor (u16 b0) (Z.shiftl (u16 b1) 8)))
  | _ => Err OutOfBounds
  end.

Definition load_u32 (inp : bytes) : result Z :=
  match inp with
  | b0 :: b1 :: b2 :: b3 :: _ =>
      Ok (Z.lor (Z.lor (Z.lor (u32 b0) (u32 (Z.shiftl (u32 b1) 8)))
                       (u32 (Z.shiftl (u32 b2) 16)))
                (u32 (Z.shiftl (u32 b3) 24)))
  | _ => Err OutOfBounds
  end.

(** The loop [for i < 8: value |= in[i] << (8 * i)], from index [i] on. *)
Fixpoint load_u64_loop (n : nat) (i value : Z) (inp : bytes) : result Z :=
  match n with
  | O => Ok value
  | S n =>
      match inp with
      | b :: inp => load_u64_loop n (i + 1) (Z.lor value (u64 (Z.shiftl (u64 b) (8 * i)))) inp
      | [] => Err OutOfBounds
      end
  end.

Definition load_u64 (inp : bytes) : result Z := load_u64_loop 8 0 0 inp.

(** ** Sizes and ranges *)

Lemma store_u16_len v : len (store_u16 v) = 2.
Proof. done. Qed.
Lemma store_u32_len v : len (store_u32 v) = 4.
Proof. done. Qed.
Lemma store_u64_len v : len (store_u64 v) = 8.
Proof. done. Qed.

Lemma store_u16_ok v : bytes_ok (store_u16 v).
Proof. repeat constructor; apply u8_range. Qed.
Lemma store_u32_ok v : bytes_ok (store_u32 v).
Proof. repeat constructor; apply u8_range. Qed.
Lemma store_u64_ok v : bytes_ok (store_u64 v).
Proof. apply Forall_fmap, Forall_true. intros ?. apply u8_range. Qed.

#[export] Hint Resolve store_u16_ok store_u32_ok store_u64_ok : dz.
#[export] Hint Rewrite store_u16_len store_u32_len store_u64_len : len.

(** ** Round trips *)

Lemma u8_shiftr v i : 0 <= i -> u8 (Z.shiftr v i) = (v / 2 ^ i) mod 256.
Proof. intros ?. unfold u8. by rewrite Z.shiftr_div_pow2. Qed.

(** One step of recombining: the low byte of the rest. *)
Lemma low_byte_split v i :
  0 <= v -> 0 <= i ->
  v mod 2 ^ i + (v / 2 ^ i) mod 256 * 2 ^ i = v mod 2 ^ (i + 8).
Proof.
  intros Hv Hi. rewrite Z.pow_add_r by lia. change (2 ^ 8) with 256.
  rewrite Z.rem_mul_r by lia. lia.
Qed.

Lemma lor_low_byte v i :
  0 <= v -> 0 <= i ->
  Z.lor (v mod 2 ^ i) (Z.shiftl ((v / 2 ^ i) mod 256) i) = v mod 2 ^ (i + 8).
Proof.
  intros Hv Hi. rewrite lor_shiftl_add.
  - by apply low_byte_split.
  - done.
  - apply Z.mod_pos_bound. lia.
  - apply Z.mod_pos_bound. lia.
Qed.

Lemma u_shift_byte w b i :
  0 <= i -> i + 8 <= w -> is_u8 b ->
  Z.shiftl b i mod 2 ^ w = Z.shiftl b i.
Proof.
  intros Hi Hw [Hb1 Hb2]. apply Z.mod_small. rewrite Z.shiftl_mul_pow2 by done.
  assert (2 ^ (i + 8) <= 2 ^ w) by (apply Z.pow_le_mono_r; lia).
  rewrite Z.pow_add_r in * by lia. nia.
Qed.

Lemma u_byte w b : 8 <= w -> is_u8 b -> b mod 2 ^ w = b.
Proof.
  intros Hw [Hb1 Hb2]. apply Z.mod_small.
  assert (2 ^ 8 <= 2 ^ w) by (apply Z.pow_le_mono_r; lia). lia.
Qed.

Lemma byte_of v i : is_u8 ((v / 2 ^ i) mod 256).
Proof. apply (Z.mod_pos_bound _ 256). lia. Qed.

Lemma load_store_u32 v rest : is_u32 v -> load_u32 (store_u32 v ++ rest) = Ok v.
Proof.
  intros [Hv1 Hv2]. unfold store_u32, load_u32; simpl.
  rewrite !u8_shiftr by lia. unfold u32, u8.
  rewrite (u_byte 32 (v mod _)) by (lia || apply u8_range).
  rewrite !(u_byte 32 ((v / _) mod _)) by (lia || apply byte_of).
  rewrite !(u_shift_byte 32) by (lia || apply byte_of).
  rewrite (lor_low_byte v 8) by lia. change (8 + 8) with 16.
  rewrite (lor_low_byte v 16) by lia. change (16 + 8) with 24.
  rewrite (lor_low_byte v 24) by lia.
  simpl. by rewrite Z.mod_small by lia.
Qed.

Lemma load_store_u16 v rest : is_u16 v -> load_u16 (store_u16 v ++ rest) = Ok v.
Proof.
  intros [Hv1 Hv2]. unfold store_u16, load_u16; simpl.
  rewrite !u8_shiftr by lia. unfold u16, u8.
  rewrite (u_byte 16 (v mod _)) by (lia || apply u8_range).
  rewrite (u_byte 16 ((v / _) mod _)) by (lia || apply byte_of).
  rewrite (lor_low_byte v 8) by lia. change (8 + 8) with 16.
  by rewrite Z.mod_mod, Z.mod_small by lia.
Qed.

Lemma load_u64_loop_store n i v rest :
  0 <= v -> 0 <= i -> 8 * (i + Z.of_nat n) <= 64 ->
  load_u64_loop n i (v mod 2 ^ (8 * i))
    (((fun j => u8 (Z.shiftr v (8 * j))) <$> seqZ i (Z.of_nat n)) ++ rest)
  = Ok (v mod 2 ^ (8 * (i + Z.of_nat n))).
Proof.
  revert i. induction n as [|n IH]; intros i Hv Hi Hn.
  - simpl. by rewrite Z.add_0_r.
  - rewrite seqZ_cons by lia. simpl fmap. simpl app. cbn [load_u64_loop].
    rewrite u8_shiftr by lia. unfold u64.
    rewrite (u_byte 64 ((v / _) mod _)) by (lia || apply byte_of).
    rewrite (u_shift_byte 64) by (lia || apply byte_of).
    rewrite lor_low_byte by lia.
    replace (8 * i + 8) with (8 * (i + 1)) by lia.
    replace (Z.pred (Z.of_nat (S n))) with (Z.of_nat n) by lia.
    unfold Z.succ. rewrite IH by lia. do 3 f_equal. lia.
Qed.

Lemma load_store_u64 v rest : is_u64 v -> load_u64 (store_u64 v ++ rest) = Ok v.
Proof.
  intros [Hv1 Hv2]. unfold load_u64, store_u64.
  pose proof (load_u64_loop_store 8 0 v rest) as H.
  rewrite Z.mul_0_r, Z.pow_0_r, Z.mod_1_r in H. change (Z.of_nat 8) with 8 in H.
  rewrite H by lia. by rewrite Z.mod_small by lia.
Qed.

(** ** Loads in bounds succeed and stay in range *)

Lemma load_u16_total inp : 2 <= len inp -> exists v, load_u16 inp = Ok v /\ is_u16 v.
Proof.
  intros H. destruct inp as [|b0 [|b1 inp]]; len_simpl; try lia.
  eexists. split; [reflexivity|]. apply u16_range.
Qed.

Lemma lor_range w a b : 0 <= w -> is_u w a -> is_u w b -> is_u w (Z.lor a b).
Proof.
  intros Hw [] []. split; [by apply Z.lor_nonneg|].
  destruct (decide (Z.lor a b = 0)) as [->|]; [lia|].
  apply Z.log2_lt_pow2; [assert (0 <= Z.lor a b) by (by apply Z.lor_nonneg); lia|].
  rewrite Z.log2_lor by done.
  assert (forall x, 0 <= x < 2 ^ w -> Z.lor a b <> 0 -> x <> 0 -> Z.log2 x < w) as Hl.
  { intros x ? _ ?. apply Z.log2_lt_pow2; lia. }
  destruct (decide (a = 0)) as [->|], (decide (b = 0)) as [->|]; try done.
  - rewrite Z.max_r; [by apply Hl|]. apply Z.log2_nonneg.
  - rewrite Z.max_l; [by apply Hl|]. apply Z.log2_nonneg.
  - apply Z.max_lub_lt; by apply Hl.
Qed.

Lemma load_u32_total inp : 4 <= len inp -> exists v, load_u32 inp = Ok v /\ is_u32 v.
Proof.
  intros H. destruct inp as [|b0 [|b1 [|b2 [|b3 inp]]]]; len_simpl; try lia.
  eexists. split; [reflexivity|].
  repeat (apply lor_range; [lia| |]); apply u32_range.
Qed.

Lemma load_u64_loop_total n i value inp :
  Z.of_nat n <= len inp -> is_u64 value ->
  exists v, load_u64_loop n i value inp = Ok v /\ is_u64 v.
Proof.
  revert i value inp. induction n as [|n IH]; intros i value inp Hn Hv; simpl; [eauto|].
  destruct inp as [|b inp]; len_simpl; [lia|].
  apply IH; [lia|]. apply lor_range; [lia|done|apply u64_range].
Qed.

Lemma load_u64_total inp : 8 <= len inp -> exists v, load_u64 inp = Ok v /\ is_u64 v.
Proof. intros H. apply load_u64_loop_total; [done|]. unfold is_u. lia. Qed.
