(* ===== verification/Socket.v ===== *)
(** Addresses and blocking stream I/O, [common/src/socket.cpp].

    [Endpoint] is the class of the same name: a [sockaddr_storage] whose family
    selects the variant. Ports are kept as numbers, the network byte order of
    [sin_port] being invisible through [port] and [set_port].

    A socket is seen through the script of results the kernel gives to the
    successive calls made on it, and through the bytes it has accepted. *)

From S2P Require Import Prelude.

(** * Endpoint *)

Definition AF_UNSPEC : Z := 0.
Definition AF_INET : Z := 2.
Definition AF_INET6 : Z := 10.

Inductive Endpoint :=
  | EpV4 (sin_port : Z) (sin_addr : bytes)
  | EpV6 (sin6_port sin6_flowinfo : Z) (sin6_addr : bytes) (sin6_scope_id : Z)
  | EpOther (ss_family : Z).

#[global] Instance Endpoint_eq_dec : EqDecision Endpoint.
Proof. solve_decision. Defined.

(** The default constructor. *)
Definition Endpoint_default : Endpoint := EpOther AF_UNSPEC.

Definition sizeof_sockaddr_storage : Z := 128.
Definition sizeof_sockaddr_in : Z := 16.
Definition sizeof_sockaddr_in6 : Z := 28.

(** [::ffff:0:0/96]: eighty zero bits, sixteen one bits. *)
Definition v4_mapped_prefix : bytes := repeat 0 10 ++ [255; 255].

Definition IN6_IS_ADDR_V4MAPPED (addr : bytes) : bool :=
  bool_decide (ztake 12 addr = v4_mapped_prefix).

Definition from_sockaddr (addr : Endpoint) (alen : Z) : result Endpoint :=
  if sizeof_sockaddr_storage <? alen then
    Err (Error (str "socket address larger than sockaddr_storage"))
  else
    match addr with
    | EpV6 port _ a _ =>
        if IN6_IS_ADDR_V4MAPPED a then Ok (EpV4 port (zdrop 12 a)) else Ok addr
    | _ => Ok addr
    end.

Definition family (e : Endpoint) : Z :=
  match e with
  | EpV4 _ _ => AF_INET
  | EpV6 _ _ _ _ => AF_INET6
  | EpOther f => f
  end.

Definition port (e : Endpoint) : Z :=
  match e with
  | EpV4 p _ => p
  | EpV6 p _ _ _ => p
  | EpOther _ => 0
  end.

Definition set_port (p : Z) (e : Endpoint) : Endpoint :=
  match e with
  | EpV4 _ a => EpV4 p a
  | EpV6 _ fl a sc => EpV6 p fl a sc
  | EpOther f => EpOther f
  end.

(** Byte [i] of an address. *)
Definition octet (i : nat) (a : bytes) : Z := default 0 (a !! i).

Definition in6addr_loopback : bytes := repeat 0 15 ++ [1].

Definition is_unspecified (e : Endpoint) : bool :=
  match e with
  | EpV4 _ a => bool_decide (a = repeat 0 4)
  | EpV6 _ _ a _ => bool_decide (a = repeat 0 16)
  | EpOther _ => true
  end.

Definition is_loopback (e : Endpoint) : bool :=
  match e with
  | EpV4 _ a => octet 0 a =? 127
  | EpV6 _ _ a _ => bool_decide (a = in6addr_loopback)
  | EpOther _ => false
  end.

Definition is_private (e : Endpoint) : bool :=
  match e with
  | EpV4 _ a =>
      let first := octet 0 a in
      let second := octet 1 a in
      if first =? 10 then true
      else if (first =? 172) && (16 <=? second) && (second <=? 31) then true
      else if (first =? 192) && (second =? 168) then true
      else if (first =? 169) && (second =? 254) then true
      else if first =? 127 then true
      else false
  | EpV6 _ _ a _ =>
      if bool_decide (a = in6addr_loopback) then true
      else if (octet 0 a =? 254) && (Z.land (octet 1 a) 192 =? 128) then true
      else if (octet 0 a =? 254) && (Z.land (octet 1 a) 192 =? 192) then true
      else Z.land (octet 0 a) 254 =? 252
  | EpOther _ => false
  end.

(** [operator==]: the scope id and flow label are left out. *)
Definition endpoint_eqb (a b : Endpoint) : bool :=
  if negb (family a =? family b) then false
  else match a, b with
       | EpV4 pa aa, EpV4 pb ab => (pa =? pb) && bool_decide (aa = ab)
       | EpV6 pa _ aa _, EpV6 pb _ ab _ => (pa =? pb) && bool_decide (aa = ab)
       | _, _ => true
       end.

Definition as_v4_mapped (e : Endpoint) : Endpoint :=
  match e with
  | EpV4 p a => EpV6 p 0 (v4_mapped_prefix ++ a) 0
  | _ => e
  end.

(** [Some] is a true return with the adapted endpoint in [out]. *)
Definition adapt_endpoint_for_socket (target : Endpoint) (socket_family : Z) : option Endpoint :=
  if family target =? socket_family then Some target
  else if (socket_family =? AF_INET6) && (family target =? AF_INET) then
    Some (as_v4_mapped target)
  else None.

(** Addresses have the width their family has, ports are 16 bits, and a mapped
    IPv4 address is never kept in its IPv6 form: what every constructor of the
    program establishes. *)
Definition endpoint_ok (e : Endpoint) : Prop :=
  match e with
  | EpV4 p a => is_u16 p /\ len a = 4 /\ bytes_ok a
  | EpV6 p fl a sc =>
      is_u16 p /\ len a = 16 /\ bytes_ok a /\ IN6_IS_ADDR_V4MAPPED a = false
  | EpOther f => f <> AF_INET /\ f <> AF_INET6
  end.

#[global] Instance endpoint_ok_dec e : Decision (endpoint_ok e).
Proof. destruct e; apply _. Defined.

(** An endpoint as the other peer sees it: the wire carries family, port and
    address only. *)
Definition wire_view (e : Endpoint) : Endpoint :=
  match e with
  | EpV4 p a => EpV4 p a
  | EpV6 p _ a _ => EpV6 p 0 a 0
  | EpOther _ => Endpoint_default
  end.

Lemma set_port_ok p e : is_u16 p -> endpoint_ok e -> endpoint_ok (set_port p e).
Proof. destruct e; simpl; naive_solver. Qed.

Lemma port_set_port p e :
  family e = AF_INET \/ family e = AF_INET6 -> endpoint_ok e -> port (set_port p e) = p.
Proof. destruct e; simpl; naive_solver. Qed.

Lemma ztake_app_len_eq {A} n (l k : list A) : len l = n -> ztake n (l ++ k) = l.
Proof. intros <-. apply ztake_app_len. Qed.

Lemma zdrop_app_len_eq {A} n (l k : list A) : len l = n -> zdrop n (l ++ k) = k.
Proof. intros <-. apply zdrop_app_len. Qed.

Lemma as_v4_mapped_is_mapped a :
  IN6_IS_ADDR_V4MAPPED (v4_mapped_prefix ++ a) = true.
Proof.
  unfold IN6_IS_ADDR_V4MAPPED. rewrite ztake_app_len_eq by done.
  by apply bool_decide_eq_true_2.
Qed.

(** Unwrapping undoes mapping. *)
Lemma from_sockaddr_as_v4_mapped p a alen :
  alen <= sizeof_sockaddr_storage ->
  from_sockaddr (as_v4_mapped (EpV4 p a)) alen = Ok (EpV4 p a).
Proof.
  intros H. unfold from_sockaddr, sizeof_sockaddr_storage in *. cbn [as_v4_mapped].
  destruct (Z.ltb_spec 128 alen); [lia|].
  by rewrite as_v4_mapped_is_mapped, zdrop_app_len_eq.
Qed.

(** What [from_sockaddr] returns never needs unwrapping again. *)
Lemma from_sockaddr_not_mapped addr alen e p fl a sc :
  from_sockaddr addr alen = Ok e -> e = EpV6 p fl a sc -> IN6_IS_ADDR_V4MAPPED a = false.
Proof.
  unfold from_sockaddr. destruct (_ <? _); [done|].
  destruct addr as [|p' fl' a' sc'|]; [naive_solver| |naive_solver].
  destruct (IN6_IS_ADDR_V4MAPPED a') eqn:E; naive_solver.
Qed.

(** * Stream sockets *)

(** What the next [recv] finds. [RxAgain b] is [EAGAIN] with the answer [b] of
    the wait that follows it. *)
Inductive rx_event :=
  | RxData (bs : bytes)
  | RxEof
  | RxEintr
  | RxAgain (ready : bool)
  | RxFail (errno : Z).

(** What the next [send], [write] or [writev] does. *)
Inductive tx_event :=
  | TxWrote (n : Z)
  | TxEintr
  | TxAgain (ready : bool)
  | TxFail (errno : Z).

Record ksock := mk_ksock {
  rx : list rx_event;
  tx : list tx_event;
  wire : bytes;
}.

(** Bytes one call moves when the kernel offers [n] and [avail] are wanted. *)
Definition moved (n avail : Z) : Z := Z.min (Z.max n 0) avail.

Fixpoint write_all_loop (evs : list tx_event) (data sent : bytes)
  : result unit * (list tx_event * bytes) :=
  if len data <=? 0 then (Ok tt, (evs, sent))
  else match evs with
       | [] => (Err Blocks, ([], sent))
       | TxEintr :: evs => write_all_loop evs data sent
       | TxAgain true :: evs => write_all_loop evs data sent
       | TxAgain false :: evs => (Err (Error (str "socket write timed out")), (evs, sent))
       | TxFail e :: evs => (Err (SysError (str "write to socket failed") e), (evs, sent))
       | TxWrote n :: evs =>
           let written := moved n (len data) in
           write_all_loop evs (zdrop written data) (sent ++ ztake written data)
       end.

Definition write_all (data : bytes) : M ksock unit := fun s =>
  let '(r, (tx', wire')) := write_all_loop (tx s) data (wire s) in
  (r, mk_ksock (rx s) tx' wire').

(** A [recv] of zero bytes is the end of the stream. *)
Fixpoint read_exact_loop (evs : list rx_event) (remaining : Z) (got : bytes)
  : result bytes * list rx_event :=
  if remaining <=? 0 then (Ok got, evs)
  else match evs with
       | [] => (Err Blocks, [])
       | RxEof :: _ | RxData [] :: _ => (Err PeerClosed, evs)
       | RxEintr :: evs => read_exact_loop evs remaining got
       | RxAgain true :: evs => read_exact_loop evs remaining got
       | RxAgain false :: evs => (Err (Error (str "socket read timed out")), evs)
       | RxFail e :: evs => (Err (SysError (str "read from socket failed") e), evs)
       | RxData bs :: evs =>
           if remaining <? len bs then
             (Ok (got ++ ztake remaining bs), RxData (zdrop remaining bs) :: evs)
           else read_exact_loop evs (remaining - len bs) (got ++ bs)
       end.

Definition read_exact (n : Z) : M ksock bytes := fun s =>
  let '(r, rx') := read_exact_loop (rx s) n [] in
  (r, mk_ksock rx' (tx s) (wire s)).

(** The advance of the [iovec] cursor after a partial [writev]: [parts] is
    [parts + index] of the code. *)
Fixpoint advance_parts (parts : list bytes) (consumed : Z) : list bytes :=
  match parts with
  | [] => []
  | p :: ps =>
      if len p <=? consumed then advance_parts ps (consumed - len p)
      else if 0 <? consumed then zdrop consumed p :: ps
      else p :: ps
  end.

(** The [writev] loop; [waits] says whether the caller polls on [EAGAIN] (errno 11)
    or reports it like any other error. *)
Fixpoint writev_loop (what timeout : string) (waits : bool) (evs : list tx_event)
    (parts : list bytes) (total sent : Z) (out : bytes)
  : result unit * (list tx_event * bytes) :=
  if total <=? sent then (Ok tt, (evs, out))
  else match evs with
       | [] => (Err Blocks, ([], out))
       | TxEintr :: evs => writev_loop what timeout waits evs parts total sent out
       | TxAgain ready :: evs =>
           if waits then
             if ready then writev_loop what timeout waits evs parts total sent out
             else (Err (Error (str timeout)), (evs, out))
           else (Err (SysError (str what) 11), (evs, out))
       | TxFail e :: evs => (Err (SysError (str what) e), (evs, out))
       | TxWrote n :: evs =>
           let written := moved n (len (concat parts)) in
           writev_loop what timeout waits evs (advance_parts parts written) total
             (sent + written) (out ++ ztake written (concat parts))
       end.

(** ** What the loops do *)

(** The bytes a script delivers before the stream ends or fails. *)
Fixpoint rx_stream (evs : list rx_event) : bytes :=
  match evs with
  | RxData [] :: _ => []
  | RxData bs :: evs => bs ++ rx_stream evs
  | RxEintr :: evs | RxAgain true :: evs => rx_stream evs
  | _ => []
  end.

Lemma moved_range n k : 0 <= k -> 0 <= moved n k <= k.
Proof. unfold moved. lia. Qed.

(** A write that returns has put exactly its data on the wire; one that throws
    has put a prefix of it there. *)
Lemma write_all_loop_spec evs data sent r evs' sent' :
  write_all_loop evs data sent = (r, (evs', sent')) ->
  exists done_ left_, data = done_ ++ left_ /\ sent' = sent ++ done_ /\
    (r = Ok tt -> left_ = []).
Proof.
  revert data sent. induction evs as [|ev evs IH]; intros data sent; simpl;
    destruct (Z.leb_spec (len data) 0) as [Hle|Hgt].
  1,3: intros [= <- <- <-]; pose proof (len_nonneg data);
    exists [], data; rewrite app_nil_r; repeat split; intros _; apply len_zero_nil; lia.
  - intros [= <- <- <-]. exists [], data. rewrite app_nil_r. done.
  - destruct ev as [n| |[]|e]; try apply IH;
      try (intros [= <- <- <-]; exists [], data; by rewrite app_nil_r).
    intros (d & l & Hd & Hs & Hr)%IH.
    exists (ztake (moved n (len data)) data ++ d), l. split_and!; [|by rewrite Hs, app_assoc|done].
    by rewrite <- app_assoc, <- Hd, ztake_zdrop.
Qed.

Lemma read_exact_loop_spec evs n got r evs' :
  read_exact_loop evs n got = (Ok r, evs') -> 0 <= n ->
  exists bs, r = got ++ bs /\ len bs = n /\ rx_stream evs = bs ++ rx_stream evs'.
Proof.
  revert n got. induction evs as [|ev evs IH]; intros n got; simpl;
    destruct (Z.leb_spec n 0) as [Hle|Hgt].
  1,3: intros [= <- <-] ?; exists []; rewrite app_nil_r, len_nil; repeat split; lia.
  - done.
  - destruct ev as [bs| | |[]|e]; try done; try apply IH.
    destruct bs as [|b bs]; [done|]. set (w := b :: bs).
    destruct (Z.ltb_spec n (len w)) as [Hlt|Hge].
    + intros [= <- <-] ?. exists (ztake n w).
      split_and!; [done|by rewrite len_ztake by lia|].
      assert (zdrop n w <> []) as Hne.
      { intros E%(f_equal len). rewrite len_zdrop, len_nil in E by lia. lia. }
      cbn [rx_stream]. destruct (zdrop n w) as [|c cs] eqn:E; [done|].
      rewrite app_assoc. subst w. f_equal.
      rewrite <- E. symmetry. apply ztake_zdrop.
    + intros (d & -> & Hd & Hs)%IH _; [|lia].
      exists (w ++ d). rewrite app_assoc, len_app. split_and!; [done|lia|].
      subst w. cbn [rx_stream]. by rewrite Hs, app_assoc.
Qed.

Lemma advance_parts_concat parts k :
  0 <= k <= len (concat parts) -> concat (advance_parts parts k) = zdrop k (concat parts).
Proof.
  revert k. induction parts as [|p ps IH]; intros k; simpl.
  - intros. by rewrite zdrop_len by (rewrite ?len_nil in *; lia).
  - rewrite len_app. intros Hk. destruct (Z.leb_spec (len p) k).
    + rewrite IH by lia. pose proof (len_nonneg p).
      rewrite <- (zdrop_app_len p (concat ps)) at 1.
      rewrite zdrop_zdrop by lia. f_equal. lia.
    + rewrite zdrop_app_le by lia.
      destruct (Z.ltb_spec 0 k); [done|]. replace k with 0 by lia. done.
Qed.

Lemma writev_loop_spec what timeout waits evs parts total sent out r evs' out' :
  writev_loop what timeout waits evs parts total sent out = (r, (evs', out')) ->
  total - sent = len (concat parts) ->
  exists done_ left_, concat parts = done_ ++ left_ /\ out' = out ++ done_ /\
    (r = Ok tt -> left_ = []).
Proof.
  revert parts sent out. induction evs as [|ev evs IH]; intros parts sent out; simpl;
    destruct (Z.leb_spec total sent) as [Hle|Hgt].
  1,3: intros [= <- <- <-] Ht; pose proof (len_nonneg (concat parts));
    exists [], (concat parts); rewrite app_nil_r; repeat split; intros _; apply len_zero_nil; lia.
  - intros [= <- <- <-] _. exists [], (concat parts). rewrite app_nil_r. done.
  - intros H Ht. destruct ev as [n| |ready|e].
    + set (k := moved n (len (concat parts))) in *.
      assert (0 <= k <= len (concat parts)) as Hk by apply moved_range, len_nonneg.
      apply IH in H as (d & l & Hd & Hs & Hr).
      2: { rewrite advance_parts_concat, len_zdrop by lia. lia. }
      rewrite advance_parts_concat in Hd by lia.
      exists (ztake k (concat parts) ++ d), l.
      split_and!; [|by rewrite Hs, app_assoc|done].
      by rewrite <- app_assoc, <- Hd, ztake_zdrop.
    + by eapply IH.
    + destruct waits, ready; first [by eapply IH | injection H as <- <- <-];
        exists [], (concat parts); by rewrite app_nil_r.
    + injection H as <- <- <-. exists [], (concat parts). by rewrite app_nil_r.
Qed.

(** * Name resolution *)

(** [getaddrinfo] gives addresses with their lengths or an error code. *)
Fixpoint endpoints_of (results : list (Endpoint * Z)) : result (list Endpoint) :=
  match results with
  | [] => Ok []
  | (addr, alen) :: results =>
      let? e := from_sockaddr addr alen in
      let? es := endpoints_of results in
      Ok (e :: es)
  end.

Definition resolve (getaddrinfo : bytes -> bytes -> list (Endpoint * Z) + Z) (gai_strerror : Z -> bytes) (host : bytes) (port : Z) : result (list Endpoint) :=
  match getaddrinfo host (to_string port) with
  | inr rc => Err (Error (str "cannot resolve '" ++ host ++ str "': " ++ gai_strerror rc))
  | inl results =>
      let? endpoints := endpoints_of results in
      if len endpoints =? 0 then Err (Error (str "cannot resolve '" ++ host ++ str "': no addresses")) else Ok endpoints
  end.

Lemma from_sockaddr_error addr alen : from_sockaddr addr alen <> Err OutOfBounds.
Proof. unfold from_sockaddr. destruct (_ <? _); [done|]. destruct addr; [done| |done]. by destruct (IN6_IS_ADDR_V4MAPPED _). Qed.

Lemma endpoints_of_error results : endpoints_of results <> Err OutOfBounds.
Proof.
  induction results as [|[addr alen] results IH]; [done|]. cbn. pose proof (from_sockaddr_error addr alen) as Hf.
  destruct (from_sockaddr addr alen); [|congruence]. by destruct (endpoints_of results).
Qed.

Lemma resolve_error getaddrinfo gai_strerror host port : resolve getaddrinfo gai_strerror host port <> Err OutOfBounds.
Proof.
  unfold resolve. destruct (getaddrinfo _ _) as [results|rc]; [|done]. pose proof (endpoints_of_error results) as He.
  destruct (endpoints_of results); [|done]. by destruct (_ =? _).
Qed.
