(* ===== verification/Handles.v ===== *)
(** Ownership of descriptors and mappings: [Fd] of [common/include/dz/socket.hpp] and
    [common/src/socket.cpp], and [MappedFile] of [common/src/fileio.cpp].

    [Kernel] is what the process has open: descriptors, and mappings with their lengths.
    Closing a descriptor that is not open, or unmapping what is not mapped so, is
    [OutOfBounds]: the source ignores the result of both calls, and in a program with threads
    either may take away what another object owns. A new descriptor is the lowest one free, as
    POSIX has it.

    [Process] is the objects a program made of the two classes, in the order in which they
    were constructed, and [use] what it may do with them: construct, move, assign, reset,
    release into another, close, destroy. *)

From S2P Require Import Prelude.

Record Kernel := mk_Kernel { k_open : gset Z; k_maps : gmap Z Z }.

(** The lowest number that is not in use. *)
Definition lowest_free (used : gset Z) : Z :=
  match list_find (fun z => z ∉ used) (seqZ 0 (Z.of_nat (size used) + 1)) with
  | Some (_, z) => z
  | None => 0
  end.

(** A system call that makes a descriptor. *)
Definition k_descriptor (ok : bool) : M Kernel Z := fun k =>
  if ok then let fd := lowest_free (k_open k) in (Ok fd, mk_Kernel ({[fd]} ∪ k_open k) (k_maps k))
  else (Ok (-1), k).

Definition k_close (fd : Z) : M Kernel unit := fun k =>
  if bool_decide (fd ∈ k_open k) then (Ok tt, mk_Kernel (k_open k ∖ {[fd]}) (k_maps k)) else (Err OutOfBounds, k).

Definition k_map (size : Z) : M Kernel Z := fun k =>
  let address := lowest_free (dom (k_maps k)) in (Ok address, mk_Kernel (k_open k) (<[address := size]> (k_maps k))).

Definition k_unmap (address size : Z) : M Kernel unit := fun k =>
  if bool_decide (k_maps k !! address = Some size) then (Ok tt, mk_Kernel (k_open k) (delete address (k_maps k)))
  else (Err OutOfBounds, k).

(** * Fd *)

(** An [Fd] is its descriptor. [reset]: *)
Definition fd_reset (self fd : Z) : M Kernel Z :=
  do* (if (0 <=? self) && negb (self =? fd) then k_close self else mret tt) in
  mret fd.

(** The new object and what is left of the other one. *)
Definition fd_move (other : Z) : Z * Z := (other, -1).
Definition fd_release (self : Z) : Z * Z := (self, -1).

(** Assignment from another object. *)
Definition fd_assign (self other : Z) : M Kernel (Z * Z) :=
  do* fd_reset self (-1) in
  mret (other, -1).

(** * MappedFile *)

Record MappedFile := mk_MappedFile { mf_fd : Z; mf_data : option Z; mf_size : Z }.

Definition new_MappedFile : MappedFile := mk_MappedFile (-1) None 0.

(** How the calls of the constructor end: an [errno], whether the file is a regular one and
    its [st_size]. *)
Record mapped_answers := mk_mapped_answers { ma_open : option Z; ma_stat : Z + (bool * Z); ma_mmap : option Z }.

(** The members constructed so far are destroyed when a constructor throws. *)
Definition unwinding {A} (fd : Z) (body : M Kernel A) : M Kernel A := fun k =>
  match body k with
  | (Ok a, k) => (Ok a, k)
  | (Err e, k) => (do* fd_reset fd (-1) in mthrow e) k
  end.

Definition quoted (before path after : bytes) : bytes := before ++ str "'" ++ path ++ str "'" ++ after.

Definition mapped_open (path : bytes) (a : mapped_answers) : M Kernel MappedFile :=
  let* raw := k_descriptor (bool_decide (ma_open a = None)) in
  let* fd := fd_reset (-1) raw in
  unwinding fd (
    match ma_open a with
    | Some e => mthrow (SysError (quoted (str "cannot open ") path []) e)
    | None =>
        match ma_stat a with
        | inl e => mthrow (SysError (quoted (str "cannot stat ") path []) e)
        | inr (regular, st_size) =>
            if negb regular then fail (quoted [] path (str " is not a regular file"))
            else
              let size := u64 st_size in
              if size =? 0 then mret (mk_MappedFile fd None 0)
              else
                match ma_mmap a with
                | Some e => mthrow (SysError (quoted (str "cannot map ") path (str " into memory")) e)
                | None => let* address := k_map size in mret (mk_MappedFile fd (Some address) size)
                end
        end
    end).

Definition mapped_close (self : MappedFile) : M Kernel MappedFile :=
  do* match mf_data self with Some address => k_unmap address (mf_size self) | None => mret tt end in
  let* fd := fd_reset (mf_fd self) (-1) in
  mret (mk_MappedFile fd None 0).

Definition mapped_move (other : MappedFile) : MappedFile * MappedFile :=
  (mk_MappedFile (fd_move (mf_fd other)).1 (mf_data other) (mf_size other), mk_MappedFile (fd_move (mf_fd other)).2 None 0).

Definition mapped_assign (self other : MappedFile) : M Kernel (MappedFile * MappedFile) :=
  let* closed := mapped_close self in
  let* fds := fd_assign (mf_fd closed) (mf_fd other) in
  mret (mk_MappedFile fds.1 (mf_data other) (mf_size other), mk_MappedFile fds.2 None 0).

(** * Objects *)

Inductive object := Gone | AnFd (fd : Z) | AFile (f : MappedFile).

Record Process := mk_Process { p_kernel : Kernel; p_objects : list object }.

Definition on_kernel {A} (m : M Kernel A) : M Process A := mzoom p_kernel (fun k p => mk_Process k (p_objects p)) m.
Definition construct (o : object) : M Process unit := mmodify (fun p => mk_Process (p_kernel p) (p_objects p ++ [o])).
Definition put (x : nat) (o : object) : M Process unit := mmodify (fun p => mk_Process (p_kernel p) (<[x := o]> (p_objects p))).

(** What a destructor does. *)
Definition destroy (o : object) : M Kernel unit :=
  match o with
  | Gone => mret tt
  | AnFd fd => do* fd_reset fd (-1) in mret tt
  | AFile f => do* mapped_close f in mret tt
  end.

(** [None] for [ResetFd] is [reset()], otherwise the descriptor of a call that may fail. *)
Inductive use :=
  | NewFd | OpenFd (ok : bool) | NewFile | OpenFile (path : bytes) (a : mapped_answers)
  | Move (x : nat) | Assign (x y : nat) | ResetFd (x : nat) (from : option bool) | Release (x : nat)
  | CloseFile (x : nat) | Destroy (x : nat).

(** A use of an object that is not there, or of the other class, is not a program. *)
Definition act (u : use) : M Process unit := fun p =>
  let at_ x := default Gone (p_objects p !! x) in
  (match u with
   | NewFd => construct (AnFd (-1))
   | OpenFd ok => let* fd := on_kernel (k_descriptor ok) in construct (AnFd fd)
   | NewFile => construct (AFile new_MappedFile)
   | OpenFile path a => let* f := on_kernel (mapped_open path a) in construct (AFile f)
   | Move x =>
       match at_ x with
       | AnFd fd => let '(new, old) := fd_move fd in do* put x (AnFd old) in construct (AnFd new)
       | AFile f => let '(new, old) := mapped_move f in do* put x (AFile old) in construct (AFile new)
       | Gone => mret tt
       end
   | Assign x y =>
       if Nat.eqb x y then mret tt
       else match at_ x, at_ y with
            | AnFd fd, AnFd fd' =>
                let* pair := on_kernel (fd_assign fd fd') in do* put x (AnFd pair.1) in put y (AnFd pair.2)
            | AFile f, AFile f' =>
                let* pair := on_kernel (mapped_assign f f') in do* put x (AFile pair.1) in put y (AFile pair.2)
            | _, _ => mret tt
            end
   | ResetFd x from =>
       match at_ x with
       | AnFd fd =>
           let* raw := match from with Some ok => on_kernel (k_descriptor ok) | None => mret (-1) end in
           let* fd := on_kernel (fd_reset fd raw) in
           put x (AnFd fd)
       | _ => mret tt
       end
   | Release x =>
       match at_ x with
       | AnFd fd => let '(raw, old) := fd_release fd in do* put x (AnFd old) in construct (AnFd raw)
       | _ => mret tt
       end
   | CloseFile x =>
       match at_ x with
       | AFile f => let* f := on_kernel (mapped_close f) in put x (AFile f)
       | _ => mret tt
       end
   | Destroy x => do* on_kernel (destroy (at_ x)) in put x Gone
   end) p.

(** A program: an exception of a use is caught, and what was constructed lives on. *)
Fixpoint acts (us : list use) (p : Process) : list (result unit) * Process :=
  match us with
  | [] => ([], p)
  | u :: us => let '(r, p) := act u p in let '(rs, p) := acts us p in (r :: rs, p)
  end.

Definition new_Process (open : gset Z) : Process := mk_Process (mk_Kernel open ∅) [].

(** The end of every scope. *)
Definition destroy_all (p : Process) : list (result unit) * Process := acts (Destroy <$> seq 0 (length (p_objects p))) p.

(** * What is open is owned, once *)

Definition one_if (P : Prop) `{Decision P} : Z := if decide P then 1 else 0.

(** What a program holds: descriptors and mappings, of objects or on their way between them. *)
Inductive thing := Desc (fd : Z) | View (data : option Z) (size : Z).

Definition parts (o : object) : list thing :=
  match o with
  | Gone => []
  | AnFd fd => [Desc fd]
  | AFile f => [Desc (mf_fd f); View (mf_data f) (mf_size f)]
  end.

#[export] Instance thing_eq_dec : EqDecision thing.
Proof. solve_decision. Defined.

Definition owns (z : Z) (t : thing) : Z := match t with Desc fd => one_if (fd = z /\ 0 <= fd) | View _ _ => 0 end.
Definition views (a n : Z) (t : thing) : Z := one_if (t = View (Some a) n).

Section Balance.
Context (base : gset Z).

(** Every open descriptor but those in [base], and every mapping, is held once. *)
Record balanced (ts : list thing) (k : Kernel) : Prop := {
  bl_open : forall z, tally (owns z) ts + one_if (z ∈ base) = one_if (z ∈ k_open k);
  bl_maps : forall a n, tally (views a n) ts = one_if (k_maps k !! a = Some n);
}.

#[local] Instance balanced_perm : Proper ((≡ₚ) ==> eq ==> iff) balanced.
Proof.
  intros ts us Hp k _ <-. split; intros [H1 H2]; split; intros.
  - rewrite <- H1. by rewrite Hp.
  - rewrite <- H2. by rewrite Hp.
  - rewrite <- H1. by rewrite Hp.
  - rewrite <- H2. by rewrite Hp.
Qed.

Lemma owns_nonneg z ts : 0 <= tally (owns z) ts.
Proof. apply tally_nonneg, Forall_true. intros []; cbn; unfold one_if; repeat case_decide; lia. Qed.

Lemma views_nonneg a n ts : 0 <= tally (views a n) ts.
Proof. apply tally_nonneg, Forall_true. intros t. unfold views, one_if. case_decide; lia. Qed.

(** A null handle counts for nothing. *)
Lemma balanced_null ts k : balanced (Desc (-1) :: ts) k <-> balanced ts k.
Proof.
  assert (forall z, owns z (Desc (-1)) = 0) as Ho by (intros z; cbn; unfold one_if; case_decide; [lia|done]).
  split; intros [H1 H2]; split; intros; cbn [tally] in *; rewrite <- ?H1, <- ?H2, ?Ho; done.
Qed.

Lemma balanced_no_view n ts k : balanced (View None n :: ts) k <-> balanced ts k.
Proof.
  split; intros [H1 H2]; split; intros; cbn [tally] in *; rewrite <- ?H1, <- ?H2; unfold views, one_if; cbn; case_decide; try done.
Qed.

Lemma balanced_emptied ts us k : balanced (ts ++ parts (AFile new_MappedFile) ++ us) k <-> balanced (ts ++ us) k.
Proof.
  rewrite (app_assoc ts), (Permutation_app_comm ts), <- app_assoc. cbn [parts new_MappedFile mf_fd mf_data mf_size app].
  by rewrite balanced_null, balanced_no_view.
Qed.

Lemma lowest_free_spec used : lowest_free used ∉ used /\ 0 <= lowest_free used.
Proof.
  unfold lowest_free. destruct (list_find _ _) as [[i z]|] eqn:E.
  - apply list_find_Some in E as (Hz & Hn & _). split; [done|]. apply list_elem_of_lookup_2, elem_of_seqZ in Hz. lia.
  - apply list_find_None in E. exfalso.
    assert (list_to_set (seqZ 0 (Z.of_nat (size used) + 1)) ⊆ used) as Hs.
    { intros z Hz%elem_of_list_to_set. rewrite Forall_forall in E. specialize (E _ Hz). by apply dec_stable. }
    apply subseteq_size in Hs. rewrite size_list_to_set in Hs by apply NoDup_seqZ. rewrite length_seqZ in Hs. lia.
Qed.

Lemma descriptor_balanced ok ts k : balanced ts k ->
  exists fd k', k_descriptor ok k = (Ok fd, k') /\ balanced (Desc fd :: ts) k'.
Proof.
  intros Hb. unfold k_descriptor. destruct ok; [|eexists _, _; split; [done|by apply balanced_null]].
  destruct (lowest_free_spec (k_open k)) as [Hf Hn]. eexists _, _. split; [done|]. destruct Hb as [H1 H2]. split; cbn; [|apply H2].
  intros z. specialize (H1 z). cbn [tally]. revert H1. unfold one_if at 2 3 5. cbn. unfold one_if. repeat case_decide; set_solver by lia.
Qed.

Lemma close_balanced fd ts k : 0 <= fd -> balanced (Desc fd :: ts) k ->
  exists k', k_close fd k = (Ok tt, k') /\ balanced ts k'.
Proof.
  intros Hfd [H1 H2]. unfold k_close. assert (fd ∈ k_open k) as Hin.
  { specialize (H1 fd). cbn in H1. pose proof (owns_nonneg fd ts). unfold one_if in H1. repeat case_decide; try lia; tauto. }
  rewrite bool_decide_eq_true_2 by done. eexists. split; [done|]. split; cbn; [|apply H2].
  intros z. specialize (H1 z). cbn in H1. pose proof (owns_nonneg z ts). revert H1. unfold one_if.
  repeat case_decide; set_solver by lia.
Qed.

Lemma reset_balanced fd raw ts k : balanced (Desc fd :: Desc raw :: ts) k ->
  exists k', fd_reset fd raw k = (Ok raw, k') /\ balanced (Desc raw :: ts) k'.
Proof.
  intros Hb. unfold fd_reset, mbind. destruct (Z.leb_spec 0 fd); cbn [andb].
  - destruct (Z.eqb_spec fd raw) as [->|]; cbn [negb].
    + destruct Hb as [H1 _]. specialize (H1 raw). cbn in H1. pose proof (owns_nonneg raw ts). exfalso. revert H1.
      unfold one_if. repeat case_decide; try lia; tauto.
    + apply close_balanced in Hb as (k' & -> & Hb); [|done]. eauto.
  - eexists. split; [done|]. destruct Hb as [H1 H2]. split; [|apply H2]. intros z. rewrite <- H1. cbn.
    unfold one_if at 3. case_decide; lia.
Qed.

Lemma dropped_balanced fd ts k : balanced (Desc fd :: ts) k ->
  exists k', fd_reset fd (-1) k = (Ok (-1), k') /\ balanced ts k'.
Proof.
  intros Hb. destruct (reset_balanced fd (-1) ts k) as (k' & E & Hb').
  - by rewrite Permutation_swap, balanced_null.
  - exists k'. split; [done|by apply balanced_null].
Qed.

Lemma map_balanced n ts k : balanced ts k -> exists a k', k_map n k = (Ok a, k') /\ balanced (View (Some a) n :: ts) k'.
Proof.
  intros [H1 H2]. unfold k_map. destruct (lowest_free_spec (dom (k_maps k))) as [Hf _]. eexists _, _. split; [done|].
  set (a := lowest_free _) in *. apply not_elem_of_dom in Hf. split; cbn; [intros z; by rewrite <- H1|].
  intros b m. specialize (H2 b m). unfold views at 1. unfold one_if in *.
  destruct (decide (b = a)) as [->|Hne].
  - rewrite lookup_insert_eq. rewrite Hf in H2. repeat case_decide; naive_solver lia.
  - rewrite lookup_insert_ne by done. repeat case_decide; naive_solver lia.
Qed.

Lemma unmap_balanced a n ts k : balanced (View (Some a) n :: ts) k -> exists k', k_unmap a n k = (Ok tt, k') /\ balanced ts k'.
Proof.
  intros [H1 H2]. unfold k_unmap. assert (k_maps k !! a = Some n) as Hm.
  { specialize (H2 a n). cbn in H2. pose proof (views_nonneg a n ts). unfold views at 1, one_if in H2. repeat case_decide; naive_solver lia. }
  rewrite bool_decide_eq_true_2 by done. eexists. split; [done|]. split; cbn; [intros z; by rewrite <- H1|].
  intros b m. specialize (H2 b m). cbn in H2. pose proof (views_nonneg b m ts). unfold views at 1 in H2. unfold one_if in *.
  destruct (decide (b = a)) as [->|Hne].
  - rewrite lookup_delete_eq. repeat case_decide; naive_solver lia.
  - rewrite lookup_delete_ne by done. repeat case_decide; naive_solver lia.
Qed.

Lemma closed_balanced f ts k : balanced (parts (AFile f) ++ ts) k ->
  exists k', mapped_close f k = (Ok new_MappedFile, k') /\ balanced ts k'.
Proof.
  intros Hb. cbn in Hb. unfold mapped_close, mbind. rewrite Permutation_swap in Hb. destruct (mf_data f) as [a|].
  - apply unmap_balanced in Hb as (k1 & -> & Hb). by apply dropped_balanced in Hb as (k2 & -> & Hb); eauto.
  - rewrite balanced_no_view in Hb. cbv beta iota delta [mret]. by apply dropped_balanced in Hb as (k2 & -> & Hb); eauto.
Qed.

(** A constructor that throws leaves nothing behind. *)
Lemma open_balanced path a ts k : balanced ts k ->
  exists r k', mapped_open path a k = (r, k') /\
  match r with Ok f => balanced (parts (AFile f) ++ ts) k' | Err e => is_dz_error e = true /\ balanced ts k' end.
Proof.
  intros Hb. unfold mapped_open, mbind at 1.
  destruct (descriptor_balanced (bool_decide (ma_open a = None)) _ _ Hb) as (fd & k1 & -> & H1).
  unfold mbind at 1. cbn [fd_reset]. change (fd_reset (-1) fd k1) with (@Ok Z fd, k1). cbn iota beta.
  assert (forall e, is_dz_error e = true -> exists r k', unwinding fd (mthrow e) k1 = (r, k') /\
    match r with Ok f => balanced (parts (AFile f) ++ ts) k' | Err e => is_dz_error e = true /\ balanced ts k' end) as He.
  { intros e ?. destruct (dropped_balanced _ _ _ H1) as (k2 & E & H2). unfold unwinding. cbn. unfold mbind. rewrite E. by eexists _, k2. }
  destruct (ma_open a); [by apply He|]. destruct (ma_stat a) as [|[[] st_size]]; cbn [negb]; [by apply He| |by apply He].
  cbv zeta. destruct (_ =? 0).
  - eexists _, _. split; [done|]. cbn. by rewrite Permutation_swap, balanced_no_view.
  - destruct (ma_mmap a); [by apply He|].
    destruct (map_balanced (u64 st_size) _ _ H1) as (b & k2 & E & H2). unfold unwinding, mbind. rewrite E.
    eexists _, _. split; [done|]. cbn. by rewrite Permutation_swap.
Qed.

(** * Programs *)

Definition held (os : list object) : list thing := mjoin (parts <$> os).
Definition sound (p : Process) : Prop := balanced (held (p_objects p)) (p_kernel p).

Lemma held_construct os o : held (os ++ [o]) ≡ₚ parts o ++ held os.
Proof. unfold held. rewrite fmap_app, join_app. cbn. rewrite app_nil_r. apply Permutation_app_comm. Qed.

(** The things of an object apart. *)
Lemma held_out os x o : os !! x = Some o -> held os ≡ₚ parts o ++ held (<[x := Gone]> os).
Proof.
  intros Hx. assert (forall o', held (take x os ++ o' :: drop (S x) os) ≡ₚ parts o' ++ held (take x os ++ drop (S x) os)) as Hm.
  { intros o'. unfold held. rewrite !fmap_app, fmap_cons, !join_app. cbn. rewrite !app_assoc. by rewrite (Permutation_app_comm (parts o')). }
  rewrite insert_take_drop by by eapply lookup_lt_Some. rewrite (Hm Gone). cbn. by rewrite <- Hm, take_drop_middle.
Qed.

Lemma held_put os x o o' : os !! x = Some o -> held (<[x := o']> os) ≡ₚ parts o' ++ held (<[x := Gone]> os).
Proof.
  intros Hx%lookup_lt_Some. rewrite (held_out (<[x := o']> os) x o') by by apply list_lookup_insert_eq.
  by rewrite list_insert_insert_eq.
Qed.

Lemma held_two os x y o q : x <> y -> os !! x = Some o -> os !! y = Some q ->
  held os ≡ₚ parts o ++ parts q ++ held (<[y := Gone]> (<[x := Gone]> os)).
Proof. intros Hne Hx Hy. rewrite (held_out os x o Hx), (held_out _ y q); [done|]. by rewrite list_lookup_insert_ne. Qed.

Lemma held_put_two os x y o q o' q' : x <> y -> os !! x = Some o -> os !! y = Some q ->
  held (<[y := q']> (<[x := o']> os)) ≡ₚ parts o' ++ parts q' ++ held (<[y := Gone]> (<[x := Gone]> os)).
Proof.
  intros Hne Hx%lookup_lt_Some Hy%lookup_lt_Some. rewrite (held_two _ x y o' q').
  - by rewrite (list_insert_insert_ne _ x y), !list_insert_insert_eq by done.
  - done.
  - rewrite list_lookup_insert_ne by done. by apply list_lookup_insert_eq.
  - apply list_lookup_insert_eq. by rewrite length_insert.
Qed.

Lemma destroy_balanced o ts k : balanced (parts o ++ ts) k -> exists k', destroy o k = (Ok tt, k') /\ balanced ts k'.
Proof.
  intros Hb. destruct o as [|fd|f]; [by exists k|..]; unfold destroy, mbind.
  - destruct (dropped_balanced _ _ _ Hb) as (k' & -> & ?). by exists k'.
  - destruct (closed_balanced _ _ _ Hb) as (k' & -> & ?). by exists k'.
Qed.

(** An outcome that keeps the process sound: nothing is closed that is not open. *)
Definition orderly (o : result unit * Process) : Prop :=
  sound o.2 /\ match o.1 with Ok _ => True | Err e => is_dz_error e = true end.

Lemma orderly_construct k os o : balanced (parts o ++ held os) k -> orderly (construct o (mk_Process k os)).
Proof. intros Hb. split; [|done]. change (balanced (held (os ++ [o])) k). by rewrite held_construct. Qed.

Lemma orderly_put k os x o o' : os !! x = Some o -> balanced (parts o' ++ held (<[x := Gone]> os)) k ->
  orderly (put x o' (mk_Process k os)).
Proof. intros Hx Hb. split; [|done]. change (balanced (held (<[x := o']> os)) k). by rewrite (held_put os x o). Qed.

Lemma orderly_put_two k os x y o q o' q' : x <> y -> os !! x = Some o -> os !! y = Some q ->
  balanced (parts o' ++ parts q' ++ held (<[y := Gone]> (<[x := Gone]> os))) k ->
  orderly ((do* put x o' in put y q') (mk_Process k os)).
Proof.
  intros Hne Hx Hy Hb. split; [|done]. change (balanced (held (<[y := q']> (<[x := o']> os))) k). by rewrite (held_put_two os x y o q).
Qed.

Lemma orderly_put_construct k os x o o' new : os !! x = Some o -> balanced (parts new ++ parts o' ++ held (<[x := Gone]> os)) k ->
  orderly ((do* put x o' in construct new) (mk_Process k os)).
Proof. intros Hx Hb. apply orderly_construct. by rewrite (held_put os x o). Qed.

(** A step of the kernel first. *)
Lemma orderly_kernel {A} (m : M Kernel A) (f : A -> M Process unit) k os a k' :
  m k = (Ok a, k') -> orderly (f a (mk_Process k' os)) -> orderly (mbind (on_kernel m) f (mk_Process k os)).
Proof. intros E Hf. unfold mbind, on_kernel, mzoom. cbn. by rewrite E. Qed.

Lemma assign_balanced fd fd' ts k : balanced (Desc fd :: Desc fd' :: ts) k ->
  exists k', fd_assign fd fd' k = (Ok (fd', -1), k') /\ balanced (Desc fd' :: Desc (-1) :: ts) k'.
Proof.
  intros Hb. destruct (dropped_balanced _ _ _ Hb) as (k' & E & Hb'). unfold fd_assign, mbind. rewrite E. exists k'. split; [done|].
  by rewrite Permutation_swap, balanced_null.
Qed.

Lemma mapped_assign_balanced f f' ts k : balanced (parts (AFile f) ++ parts (AFile f') ++ ts) k ->
  exists k', mapped_assign f f' k = (Ok (f', new_MappedFile), k') /\ balanced (parts (AFile f') ++ parts (AFile new_MappedFile) ++ ts) k'.
Proof.
  intros Hb. destruct (closed_balanced _ _ _ Hb) as (k' & E & Hb'). unfold mapped_assign, mbind. rewrite E. exists k'.
  split; [by destruct f'|]. by rewrite balanced_emptied.
Qed.

Lemma destroy_sound x p : sound p ->
  exists k', act (Destroy x) p = (Ok tt, mk_Process k' (<[x := Gone]> (p_objects p))) /\ sound (mk_Process k' (<[x := Gone]> (p_objects p))).
Proof.
  destruct p as [k os]. intros Hb. change (balanced (held os) k) in Hb.
  assert (exists k', destroy (default Gone (os !! x)) k = (Ok tt, k') /\ balanced (held (<[x := Gone]> os)) k') as (k' & E & Hb').
  { destruct (os !! x) as [o|] eqn:Hx; cbn [default].
    - rewrite (held_out _ _ _ Hx) in Hb. by apply destroy_balanced.
    - exists k. split; [done|]. by rewrite list_insert_ge by by apply lookup_ge_None. }
  exists k'. split; [|exact Hb']. unfold act, mbind, on_kernel, mzoom. cbn [p_objects p_kernel]. by rewrite E.
Qed.

Lemma act_orderly u p : sound p -> orderly (act u p).
Proof.
  destruct p as [k os]. intros Hb. change (balanced (held os) k) in Hb.
  assert (forall x o, default Gone (os !! x) = o -> o <> Gone -> os !! x = Some o) as Hat by (intros x o; destruct (os !! x); cbn; congruence).
  destruct u as [|ok| |path a|x|x y|x from|x|x|x]; unfold act; cbn [p_objects].
  - apply orderly_construct. by apply balanced_null.
  - destruct (descriptor_balanced ok _ _ Hb) as (fd & k' & E & Hb'). eapply orderly_kernel; [exact E|]. by apply orderly_construct.
  - apply orderly_construct. cbn. by rewrite balanced_null, balanced_no_view.
  - destruct (open_balanced path a _ _ Hb) as ([f|e] & k' & E & Hb').
    + eapply orderly_kernel; [exact E|]. by apply orderly_construct.
    + unfold mbind, on_kernel, mzoom. cbn. rewrite E. by destruct Hb'.
  - destruct (default Gone (os !! x)) as [|fd|f] eqn:Ex; [done| |]; apply Hat in Ex as Hx; try done; rewrite (held_out _ _ _ Hx) in Hb.
    + apply (orderly_put_construct _ _ _ _ _ _ Hx). cbn. by rewrite Permutation_swap, balanced_null.
    + apply (orderly_put_construct _ _ _ _ _ _ Hx). destruct f. by apply balanced_emptied.
  - destruct (Nat.eqb_spec x y) as [|Hne]; [done|].
    destruct (default Gone (os !! x)) as [|fd|f] eqn:Ex; [done| |]; apply Hat in Ex as Hx; try done;
      destruct (default Gone (os !! y)) as [|fd'|f'] eqn:Ey; try done; apply Hat in Ey as Hy; try done;
      rewrite (held_two _ _ _ _ _ Hne Hx Hy) in Hb.
    + destruct (assign_balanced _ _ _ _ Hb) as (k' & E & Hb'). eapply orderly_kernel; [exact E|]. by eapply orderly_put_two.
    + destruct (mapped_assign_balanced _ _ _ _ Hb) as (k' & E & Hb'). eapply orderly_kernel; [exact E|]. by eapply orderly_put_two.
  - destruct (default Gone (os !! x)) as [|fd|f] eqn:Ex; try done. apply Hat in Ex as Hx; [|done]. rewrite (held_out _ _ _ Hx) in Hb.
    assert (forall raw k1, balanced (Desc raw :: Desc fd :: held (<[x := Gone]> os)) k1 ->
      orderly ((let* fd := on_kernel (fd_reset fd raw) in put x (AnFd fd)) (mk_Process k1 os))) as Hr.
    { intros raw k1 Hb1. rewrite Permutation_swap in Hb1. destruct (reset_balanced _ _ _ _ Hb1) as (k2 & E & Hb2).
      eapply orderly_kernel; [exact E|]. by eapply orderly_put. }
    destruct from as [ok|].
    + destruct (descriptor_balanced ok _ _ Hb) as (raw & k' & E & Hb'). eapply orderly_kernel; [exact E|]. by apply Hr.
    + apply (Hr (-1) k). by apply balanced_null.
  - destruct (default Gone (os !! x)) as [|fd|f] eqn:Ex; try done. apply Hat in Ex as Hx; [|done]. rewrite (held_out _ _ _ Hx) in Hb.
    apply (orderly_put_construct _ _ _ _ _ _ Hx). cbn. by rewrite Permutation_swap, balanced_null.
  - destruct (default Gone (os !! x)) as [|fd|f] eqn:Ex; try done. apply Hat in Ex as Hx; [|done]. rewrite (held_out _ _ _ Hx) in Hb.
    destruct (closed_balanced _ _ _ Hb) as (k' & E & Hb'). eapply orderly_kernel; [exact E|]. eapply orderly_put; [done|].
    by apply (balanced_emptied []).
  - destruct (destroy_sound x (mk_Process k os) Hb) as (k' & E & Hb'). unfold act in E. cbn [p_objects] in E. rewrite E. by split.
Qed.

Lemma acts_orderly us : forall p, sound p ->
  Forall (fun r => match r with Ok _ => True | Err e => is_dz_error e = true end) (acts us p).1 /\ sound (acts us p).2.
Proof.
  induction us as [|u us IH]; intros p Hp; cbn [acts]; [by split|]. destruct (act_orderly u p Hp) as [H1 H2].
  destruct (act u p) as [r p1]. destruct (IH p1 H1) as [H3 H4]. destruct (acts us p1) as [rs p2]. split; [by constructor|done].
Qed.

Lemma destroys_sound xs : forall p, sound p ->
  Forall (fun r => r = Ok tt) (acts (Destroy <$> xs) p).1 /\ sound (acts (Destroy <$> xs) p).2 /\
  p_objects (acts (Destroy <$> xs) p).2 = foldl (fun os x => <[x := Gone]> os) (p_objects p) xs.
Proof.
  induction xs as [|x xs IH]; intros p Hp; [done|]. cbn [fmap list_fmap acts foldl].
  destruct (destroy_sound x p Hp) as (k' & -> & Hp'). destruct (IH _ Hp') as (H1 & H2 & H3).
  destruct (acts (Destroy <$> xs) _) as [rs p2]. split_and!; [by constructor|done|done].
Qed.

Lemma held_nothing os : Forall (fun o => o = Gone) os -> held os = [].
Proof. induction 1 as [|o os -> _ IH]; [done|]. exact IH. Qed.

Lemma destroyed_all n : forall os, length os = n -> Forall (fun o => o = Gone) (foldl (fun os x => <[x := Gone]> os) os (seq 0 n)).
Proof.
  intros os Hl. apply Forall_lookup. intros i o. assert (forall (xs : list nat) (os : list object), (i ∈ xs \/ os !! i = Some Gone \/ os !! i = None) ->
    foldl (fun os x => <[x := Gone]> os) os xs !! i = Some o -> o = Gone) as Hg.
  { clear. induction xs as [|x xs IH]; intros os Hi; cbn [foldl].
    - destruct Hi as [?%not_elem_of_nil|[Hi|Hi]]; [done|congruence|congruence].
    - apply IH. destruct (decide (x = i)) as [->|Hne].
      + right. destruct (decide (i < length os)%nat) as [Hl|Hl]; [left; by apply list_lookup_insert_eq|right].
        apply lookup_ge_None. rewrite length_insert. lia.
      + rewrite list_lookup_insert_ne by done. destruct Hi as [[?|?]%elem_of_cons|?]; [congruence|by left|by right]. }
  apply Hg. destruct (decide (i < length os)%nat); [left; apply elem_of_seq; lia|right; right; apply lookup_ge_None; lia].
Qed.

Lemma nothing_held k : balanced [] k -> k = mk_Kernel base ∅.
Proof.
  intros [H1 H2]. destruct k as [open maps]. cbn in *. f_equal.
  - apply set_eq. intros z. specialize (H1 z). unfold one_if in H1. repeat case_decide; tauto || lia.
  - apply map_eq. intros a. rewrite lookup_empty. destruct (maps !! a) as [n|] eqn:E; [|done]. specialize (H2 a n).
    unfold one_if in H2. by case_decide.
Qed.

(** A descriptor has one owner and is open. *)
Lemma sound_owner p x y o q fd : sound p -> 0 <= fd -> p_objects p !! x = Some o -> p_objects p !! y = Some q ->
  Desc fd ∈ parts o -> Desc fd ∈ parts q -> x = y /\ fd ∈ k_open (p_kernel p) ∖ base.
Proof.
  intros Hp Hfd Hx Hy Ho Hq. destruct Hp as [H1 _]. specialize (H1 fd).
  assert (forall o, Desc fd ∈ parts o -> 1 <= tally (owns fd) (parts o)) as Hone.
  { intros o' Ho'. etransitivity; [|apply tally_elem; [|exact Ho']].
    - cbn [owns]. unfold one_if. by rewrite decide_True.
    - apply Forall_true. intros []; cbn; unfold one_if; repeat case_decide; lia. }
  split.
  - destruct (decide (x = y)) as [|Hne]; [done|]. rewrite (held_two _ _ _ _ _ Hne Hx Hy), !tally_app in H1.
    pose proof (Hone _ Ho). pose proof (Hone _ Hq). pose proof (owns_nonneg fd (held (<[y:=Gone]> (<[x:=Gone]> (p_objects p))))).
    exfalso. revert H1. unfold one_if. repeat case_decide; lia.
  - rewrite (held_out _ _ _ Hx), tally_app in H1. pose proof (Hone _ Ho). pose proof (owns_nonneg fd (held (<[x:=Gone]> (p_objects p)))).
    revert H1. unfold one_if. repeat case_decide; set_solver by lia.
Qed.
End Balance.


(** Two files, one of them empty and one that cannot be mapped; the third takes the first's place. *)
Example sample_handles :
  let opened size mmap := OpenFile (str "a") (mk_mapped_answers None (inr (true, size)) mmap) in
  let '(rs, p) := acts [opened 10 None; opened 0 None; opened 5 (Some 12); OpenFd true; ResetFd 2 (Some true); Assign 1 0; Move 2]
                    (new_Process {[0; 1; 2]}) in
  rs = [Ok tt; Ok tt; Err (SysError (str "cannot map 'a' into memory") 12); Ok tt; Ok tt; Ok tt; Ok tt] /\
  p_objects p = [AFile new_MappedFile; AFile (mk_MappedFile 3 (Some 0) 10); AnFd (-1); AnFd 6] /\
  k_maps (p_kernel p) = {[ 0 := 10 ]}.
Proof. vm_compute. repeat split; reflexivity. Qed.
