(* ===== verification/Frame.v ===== *)
(** Framing and payload encoding, [common/src/frame.cpp] and
    [common/include/dz/frame.hpp].

    [MessageType] keeps the source's enumerators, with [OtherType] for a byte
    that names none of them ([static_cast] keeps such a byte). [PayloadWriter] is
    its buffer; [PayloadReader] is the bytes it was given and its offset, and a
    read outside those bytes is [OutOfBounds]. *)

From S2P Require Import Prelude Endian Socket.

Definition kProtocolVersion : Z := 1.
Definition kFrameHeaderSize : Z := 8.
Definition kMaxFrameLength : Z := 2 * 1024 * 1024.

Inductive MessageType :=
  | ClientHelloT | ServerHelloT | SendRequestT | IncomingT | AcceptT | RejectT
  | MatchedT | RelayOpenT | RelayDataT | RelayCloseT | KeepAliveT | ByeT
  | GroupQueryT | GroupStatusT | GroupJoinT | GroupResultT | GroupSendRequestT
  | GroupRosterT
  | OfferT | DecisionT | ChunkT | TransferEndT | TransferAckT | AbortT
  | OtherType (value : Z).

#[global] Instance MessageType_eq_dec : EqDecision MessageType.
Proof. solve_decision. Defined.

(** [static_cast<std::uint8_t>(type)]. *)
Definition type_to_u8 (t : MessageType) : Z :=
  match t with
  | ClientHelloT => 1 | ServerHelloT => 2 | SendRequestT => 3 | IncomingT => 4
  | AcceptT => 5 | RejectT => 6 | MatchedT => 7 | RelayOpenT => 8 | RelayDataT => 9
  | RelayCloseT => 10 | KeepAliveT => 11 | ByeT => 12 | GroupQueryT => 13
  | GroupStatusT => 14 | GroupJoinT => 15 | GroupResultT => 16
  | GroupSendRequestT => 17 | GroupRosterT => 18
  | OfferT => 32 | DecisionT => 33 | ChunkT => 34 | TransferEndT => 35
  | TransferAckT => 36 | AbortT => 37
  | OtherType v => v
  end.

Definition known_types : list MessageType :=
  [ClientHelloT; ServerHelloT; SendRequestT; IncomingT; AcceptT; RejectT; MatchedT;
   RelayOpenT; RelayDataT; RelayCloseT; KeepAliveT; ByeT; GroupQueryT; GroupStatusT;
   GroupJoinT; GroupResultT; GroupSendRequestT; GroupRosterT; OfferT; DecisionT; ChunkT;
   TransferEndT; TransferAckT; AbortT].

(** [static_cast<MessageType>(byte)]. *)
Definition type_of_u8 (v : Z) : MessageType :=
  default (OtherType v) (list_find (fun t => type_to_u8 t = v) known_types ≫= fun p => Some p.2).

Definition message_type_name (t : MessageType) : bytes :=
  str match t with
  | ClientHelloT => "ClientHello" | ServerHelloT => "ServerHello"
  | SendRequestT => "SendRequest" | IncomingT => "Incoming" | AcceptT => "Accept"
  | RejectT => "Reject" | MatchedT => "Matched" | RelayOpenT => "RelayOpen"
  | RelayDataT => "RelayData" | RelayCloseT => "RelayClose" | KeepAliveT => "KeepAlive"
  | ByeT => "Bye" | GroupQueryT => "GroupQuery" | GroupStatusT => "GroupStatus"
  | GroupJoinT => "GroupJoin" | GroupResultT => "GroupResult"
  | GroupSendRequestT => "GroupSendRequest" | GroupRosterT => "GroupRoster"
  | OfferT => "Offer" | DecisionT => "Decision" | ChunkT => "Chunk"
  | TransferEndT => "TransferEnd" | TransferAckT => "TransferAck" | AbortT => "Abort"
  | OtherType _ => "unknown"
  end.

Record FrameHeader := mk_header {
  version : Z;
  type : MessageType;
  flags : Z;
  length_ : Z;
}.

Record Frame := mk_frame { header : FrameHeader; payload : bytes }.

#[global] Instance FrameHeader_eq_dec : EqDecision FrameHeader.
Proof. solve_decision. Defined.
#[global] Instance Frame_eq_dec : EqDecision Frame.
Proof. solve_decision. Defined.

Definition encode_frame_header (h : FrameHeader) : bytes :=
  [version h; type_to_u8 (type h)] ++ store_u16 (flags h) ++ store_u32 (length_ h).

Definition decode_frame_header (inp : bytes) : result FrameHeader :=
  match inp with
  | v :: t :: _ =>
      let? fl := load_u16 (zdrop 2 inp) in
      let? n := load_u32 (zdrop 4 inp) in
      let h := mk_header v (type_of_u8 t) fl n in
      if negb (version h =? kProtocolVersion) then
        Err (Error (str "peer speaks drop-zone protocol version " ++ to_string v ++
                    str ", this build speaks " ++ to_string kProtocolVersion))
      else if kMaxFrameLength <? length_ h then
        Err (Error (str "frame length " ++ to_string n ++ str " exceeds the " ++
                    to_string kMaxFrameLength ++ str " byte limit"))
      else Ok h
  | _ => Err OutOfBounds
  end.

(** * PayloadWriter *)

Definition put_raw (data : bytes) (w : bytes) : bytes := w ++ data.
Definition put_u8 (value : Z) (w : bytes) : bytes := w ++ [value].
Definition put_u16 (value : Z) (w : bytes) : bytes := put_raw (store_u16 value) w.
Definition put_u32 (value : Z) (w : bytes) : bytes := put_raw (store_u32 value) w.
Definition put_u64 (value : Z) (w : bytes) : bytes := put_raw (store_u64 value) w.
Definition put_bool (value : bool) (w : bytes) : bytes := put_u8 (if value then 1 else 0) w.
Definition put_bytes (data : bytes) (w : bytes) : bytes :=
  put_raw data (put_u32 (u32 (len data)) w).
Definition put_string (text : bytes) (w : bytes) : bytes := put_bytes text w.

Definition put_endpoint (e : Endpoint) (w : bytes) : bytes :=
  match e with
  | EpV4 p a => put_raw (ztake 4 a) (put_u16 p (put_u8 4 w))
  | EpV6 p _ a _ => put_raw (ztake 16 a) (put_u16 p (put_u8 6 w))
  | EpOther _ => put_u16 0 (put_u8 0 w)
  end.

Definition put_endpoints (es : list Endpoint) (w : bytes) : bytes :=
  foldl (fun w e => put_endpoint e w) (put_u16 (u16 (len es)) w) es.

(** * PayloadReader *)

Record PayloadReader := mk_reader { data_ : bytes; offset_ : Z }.

Definition new_reader (payload : bytes) : PayloadReader := mk_reader payload 0.

Definition remaining (r : PayloadReader) : Z := len (data_ r) - offset_ r.
Definition reader_empty (r : PayloadReader) : bool := remaining r =? 0.

Definition need (count : Z) : M PayloadReader unit := fun r =>
  if remaining r <? count then
    fail (str "frame payload is truncated: needed " ++ to_string count ++
          str " more bytes, have " ++ to_string (remaining r)) r
  else (Ok tt, r).

(** A load through [data_ + offset_]. *)
Definition load_at (load : bytes -> result Z) : M PayloadReader Z := fun r =>
  (load (zdrop (offset_ r) (data_ r)), r).

(** The [count] bytes at [data_ + offset_]. *)
Definition copy_at (count : Z) : M PayloadReader bytes := fun r =>
  let s := ztake count (zdrop (offset_ r) (data_ r)) in
  if len s <? count then (Err OutOfBounds, r) else (Ok s, r).

Definition advance (count : Z) : M PayloadReader unit := fun r =>
  (Ok tt, mk_reader (data_ r) (offset_ r + count)).

Definition take_u8 : M PayloadReader Z :=
  do* need 1 in
  let* v := load_at (fun p => match p with b :: _ => Ok b | [] => Err OutOfBounds end) in
  do* advance 1 in
  mret v.

Definition take_u16 : M PayloadReader Z :=
  do* need 2 in let* v := load_at load_u16 in do* advance 2 in mret v.
Definition take_u32 : M PayloadReader Z :=
  do* need 4 in let* v := load_at load_u32 in do* advance 4 in mret v.
Definition take_u64 : M PayloadReader Z :=
  do* need 8 in let* v := load_at load_u64 in do* advance 8 in mret v.
Definition take_bool : M PayloadReader bool :=
  let* v := take_u8 in mret (negb (v =? 0)).

Definition take_raw (n : Z) : M PayloadReader bytes :=
  do* need n in let* b := copy_at n in do* advance n in mret b.

Definition take_bytes : M PayloadReader bytes :=
  let* n := take_u32 in
  do* need n in let* b := copy_at n in do* advance n in mret b.

Definition take_fixed (expected_len : Z) : M PayloadReader bytes :=
  let* n := take_u32 in
  if negb (n =? expected_len) then
    fail (str "expected a " ++ to_string expected_len ++
          str " byte field but the frame declares " ++ to_string n)
  else take_raw expected_len.

Definition take_string : M PayloadReader bytes :=
  let* n := take_u32 in
  do* need n in let* b := copy_at n in do* advance n in mret b.

Definition take_endpoint : M PayloadReader Endpoint :=
  let* fam := take_u8 in
  let* p := take_u16 in
  if fam =? 4 then
    let* a := take_raw 4 in mlift (from_sockaddr (EpV4 p a) sizeof_sockaddr_in)
  else if fam =? 6 then
    let* a := take_raw 16 in mlift (from_sockaddr (EpV6 p 0 a 0) sizeof_sockaddr_in6)
  else if fam =? 0 then mret Endpoint_default
  else fail (str "unknown address family tag " ++ to_string fam ++ str " in frame").

Definition take_endpoints : M PayloadReader (list Endpoint) :=
  let* count := take_u16 in
  let* r := mget in
  if remaining r <? count * 3 then
    fail (str "endpoint list count " ++ to_string count ++ str " does not fit in the frame")
  else mrepeat (Z.to_nat count) take_endpoint.

(** * FramedStream *)

(** The header of a frame this build writes, with the length cut to 32 bits. *)
Definition out_header (t : MessageType) (fl n : Z) : FrameHeader :=
  mk_header kProtocolVersion t fl (u32 n).

Definition write_frame (t : MessageType) (data : bytes) (fl : Z) : M ksock unit :=
  if kMaxFrameLength <? len data then fail (str "refusing to send an oversized frame")
  else
    let header_bytes := encode_frame_header (out_header t fl (len data)) in
    if len data =? 0 then write_all header_bytes
    else fun s =>
      let '(r, (tx', wire')) :=
        writev_loop "writev to socket failed" "frame write timed out" true (tx s)
          [header_bytes; data] (len header_bytes + len data) 0 (wire s) in
      (r, mk_ksock (rx s) tx' wire').

Definition read_frame : M ksock Frame :=
  let* header_bytes := read_exact kFrameHeaderSize in
  let* h := mlift (decode_frame_header header_bytes) in
  let* body := (if 0 <? length_ h then read_exact (length_ h) else mret []) in
  mret (mk_frame h body).

Definition read_expected (expected : MessageType) : M ksock Frame :=
  let* f := read_frame in
  let t := type (header f) in
  if bool_decide (t = expected) then mret f
  else if bool_decide (t = AbortT) || bool_decide (t = RejectT) then
    let reason := if len (payload f) =? 0 then str "no reason given" else payload f in
    fail_user (str "peer aborted the transfer: " ++ reason)
  else fail (str "expected a " ++ message_type_name expected ++
             str " frame but received a " ++ message_type_name t).

(** * Reading back what was written

    [reads m enc a]: started at the first byte of [enc], wherever [enc] lies in
    the payload, [m] returns [a] and stops after the last byte of [enc].
    [reads_last] is the same at the end of the payload, for the optional trailing
    fields whose presence is the emptiness of the rest. *)

Definition reads {A} (m : M PayloadReader A) (enc : bytes) (a : A) : Prop :=
  forall pre suf,
    m (mk_reader (pre ++ enc ++ suf) (len pre)) =
    (Ok a, mk_reader (pre ++ enc ++ suf) (len pre + len enc)).

Definition reads_last {A} (m : M PayloadReader A) (enc : bytes) (a : A) : Prop :=
  forall pre,
    m (mk_reader (pre ++ enc) (len pre)) =
    (Ok a, mk_reader (pre ++ enc) (len pre + len enc)).

Section Reads.
Context {A B : Type}.

Lemma reads_is_last (m : M PayloadReader A) enc a : reads m enc a -> reads_last m enc a.
Proof. intros H pre. specialize (H pre []). by rewrite !app_nil_r in H. Qed.

Lemma reads_ret (a : A) : reads (mret a) [] a.
Proof. intros pre suf. unfold mret. by rewrite len_nil, Z.add_0_r. Qed.

Lemma reads_bind (m : M PayloadReader A) (k : A -> M PayloadReader B) e1 e2 a b :
  reads m e1 a -> reads (k a) e2 b -> reads (mbind m k) (e1 ++ e2) b.
Proof.
  intros Hm Hk pre suf. unfold mbind. rewrite <- (app_assoc e1), Hm, app_assoc.
  rewrite <- len_app, Hk, !len_app. by rewrite Z.add_assoc.
Qed.

Lemma reads_last_bind (m : M PayloadReader A) (k : A -> M PayloadReader B) e1 e2 a b :
  reads m e1 a -> reads_last (k a) e2 b -> reads_last (mbind m k) (e1 ++ e2) b.
Proof.
  intros Hm Hk pre. unfold mbind. rewrite Hm, app_assoc.
  rewrite <- len_app, Hk, !len_app. by rewrite Z.add_assoc.
Qed.

Lemma reads_run (m : M PayloadReader A) enc a :
  reads_last m enc a -> (m (new_reader enc)).1 = Ok a.
Proof. intros H. specialize (H []). rewrite app_nil_l, len_nil in H. unfold new_reader. by rewrite H. Qed.
End Reads.

Lemma remaining_at pre enc suf :
  remaining (mk_reader (pre ++ enc ++ suf) (len pre)) = len enc + len suf.
Proof. unfold remaining. simpl. rewrite !len_app. lia. Qed.

Lemma need_at n pre enc suf :
  n <= len enc ->
  need n (mk_reader (pre ++ enc ++ suf) (len pre)) = (Ok tt, mk_reader (pre ++ enc ++ suf) (len pre)).
Proof.
  intros. unfold need. rewrite remaining_at. pose proof (len_nonneg suf).
  destruct (Z.ltb_spec (len enc + len suf) n); [lia|done].
Qed.

Lemma reads_load (load : bytes -> result Z) n enc v :
  len enc = n -> (forall rest, load (enc ++ rest) = Ok v) ->
  reads (do* need n in let* v := load_at load in do* advance n in mret v) enc v.
Proof.
  intros Hn Hl pre suf. unfold mbind. rewrite need_at by lia.
  unfold load_at, advance, mret. simpl. by rewrite zdrop_app_len, Hl, Hn.
Qed.

Lemma reads_copy n enc :
  len enc = n ->
  reads (do* need n in let* b := copy_at n in do* advance n in mret b) enc enc.
Proof.
  intros <- pre suf. unfold mbind. rewrite need_at by lia.
  unfold copy_at, advance, mret. simpl. rewrite zdrop_app_len, ztake_app_len.
  by rewrite Z.ltb_irrefl.
Qed.

Lemma reads_u8 v : reads take_u8 [v] v.
Proof. by apply reads_load. Qed.
Lemma reads_u16 v : is_u16 v -> reads take_u16 (store_u16 v) v.
Proof. intros. apply reads_load; [done|]. intros. by apply load_store_u16. Qed.
Lemma reads_u32 v : is_u32 v -> reads take_u32 (store_u32 v) v.
Proof. intros. apply reads_load; [done|]. intros. by apply load_store_u32. Qed.
Lemma reads_u64 v : is_u64 v -> reads take_u64 (store_u64 v) v.
Proof. intros. apply reads_load; [done|]. intros. by apply load_store_u64. Qed.

Lemma reads_bool (b : bool) : reads take_bool [if b then 1 else 0] b.
Proof.
  change [if b then 1 else 0] with ([if b then 1 else 0] ++ []).
  eapply reads_bind; [apply reads_u8|]. destruct b; apply reads_ret.
Qed.

Lemma reads_raw (b : bytes) n : len b = n -> reads (take_raw n) b b.
Proof. apply reads_copy. Qed.

(** A length-prefixed field. *)
Definition field (b : bytes) : bytes := store_u32 (u32 (len b)) ++ b.

(** Lengths that survive the 32-bit prefix. *)
Definition short (b : bytes) : Prop := len b < 2 ^ 32.

Lemma u32_len b : short b -> u32 (len b) = len b.
Proof. intros. apply u32_small. split; [apply len_nonneg|done]. Qed.

Lemma reads_string b : short b -> reads take_string (field b) b.
Proof.
  intros Hb. unfold field. rewrite u32_len by done. eapply reads_bind.
  - apply reads_u32. split; [apply len_nonneg|done].
  - by apply reads_copy.
Qed.

Lemma reads_bytes b : short b -> reads take_bytes (field b) b.
Proof. apply reads_string. Qed.

Lemma reads_fixed (b : bytes) n : len b = n -> short b -> reads (take_fixed n) (field b) b.
Proof.
  intros <- Hb. unfold field. rewrite u32_len by done. eapply reads_bind.
  - apply reads_u32. split; [apply len_nonneg|done].
  - simpl. rewrite Z.eqb_refl. simpl. by apply reads_raw.
Qed.

(** The bytes [put_endpoint] appends. *)
Definition endpoint_bytes (e : Endpoint) : bytes := put_endpoint e [].

Lemma put_endpoint_app e w : put_endpoint e w = w ++ endpoint_bytes e.
Proof.
  destruct e; unfold endpoint_bytes; simpl; unfold put_raw, put_u16, put_u8, put_raw;
    by rewrite <- !app_assoc.
Qed.

Lemma put_endpoints_app es w :
  put_endpoints es w = w ++ store_u16 (u16 (len es)) ++ mjoin (endpoint_bytes <$> es).
Proof.
  unfold put_endpoints. rewrite app_assoc. unfold put_u16 at 1, put_raw at 1.
  generalize (w ++ store_u16 (u16 (len es))). clear w.
  induction es as [|e es IH]; intros w; simpl; [by rewrite app_nil_r|].
  by rewrite IH, put_endpoint_app, app_assoc.
Qed.

Lemma reads_endpoint e :
  endpoint_ok e -> reads take_endpoint (endpoint_bytes e) (wire_view e).
Proof.
  unfold endpoint_bytes. destruct e as [p a|p fl a sc|f]; simpl; unfold put_raw, put_u8; simpl.
  - intros (Hp & Ha & Hb).
    change (4 :: u8 p :: u8 (p ≫ 8) :: ztake 4 a) with ([4] ++ store_u16 p ++ ztake 4 a).
    rewrite (ztake_len 4) by lia.
    eapply reads_bind; [apply reads_u8|]. eapply reads_bind; [by apply reads_u16|]. simpl.
    rewrite <- (app_nil_r a) at 1. eapply reads_bind; [by apply reads_raw|].
    apply (reads_ret (EpV4 p a)).
  - intros (Hp & Ha & Hb & Hm).
    change (6 :: u8 p :: u8 (p ≫ 8) :: ztake 16 a) with ([6] ++ store_u16 p ++ ztake 16 a).
    rewrite (ztake_len 16) by lia.
    eapply reads_bind; [apply reads_u8|]. eapply reads_bind; [by apply reads_u16|]. simpl.
    rewrite <- (app_nil_r a) at 1. eapply reads_bind; [by apply reads_raw|].
    unfold from_sockaddr. simpl. rewrite Hm. apply (reads_ret (EpV6 p 0 a 0)).
  - intros _. apply (reads_bind _ _ [0] (store_u16 0) 0); [apply reads_u8|].
    apply (reads_bind _ _ (store_u16 0) [] 0); [by apply reads_u16|]. apply reads_ret.
Qed.

Lemma reads_repeat {A B} (m : M PayloadReader A) (enc : B -> bytes) (view : B -> A) (xs : list B) :
  Forall (fun x => reads m (enc x) (view x)) xs ->
  reads (mrepeat (length xs) m) (mjoin (enc <$> xs)) (view <$> xs).
Proof.
  induction 1 as [|x xs Hx _ IH]; simpl; [apply reads_ret|].
  eapply reads_bind; [done|]. rewrite <- (app_nil_r (mjoin _)).
  eapply reads_bind; [done|]. apply reads_ret.
Qed.

Lemma endpoint_bytes_len e : endpoint_ok e -> 3 <= len (endpoint_bytes e).
Proof.
  intros _. unfold len, endpoint_bytes. destruct e; cbn -[Z.of_nat Z.le]; rewrite ?Nat2Z.inj_succ; try lia.
Qed.

Lemma endpoints_bytes_len es :
  Forall endpoint_ok es -> len es * 3 <= len (mjoin (endpoint_bytes <$> es)).
Proof.
  induction 1 as [|e es He _ IH]; csimpl; [done|].
  rewrite len_app, len_cons. pose proof (endpoint_bytes_len e He). lia.
Qed.

Lemma reads_endpoints es :
  Forall endpoint_ok es -> len es < 2 ^ 16 ->
  reads take_endpoints (store_u16 (u16 (len es)) ++ mjoin (endpoint_bytes <$> es))
    (wire_view <$> es).
Proof.
  intros Hes Hn. rewrite u16_small by (split; [apply len_nonneg|done]).
  eapply reads_bind.
  { apply reads_u16. split; [apply len_nonneg|done]. }
  intros pre suf. unfold mbind, mget. rewrite remaining_at.
  pose proof (endpoints_bytes_len es Hes). pose proof (len_nonneg suf).
  destruct (Z.ltb_spec (len (mjoin (endpoint_bytes <$> es)) + len suf) (len es * 3)); [lia|].
  unfold len at 1. rewrite Nat2Z.id. apply reads_repeat.
  apply (Forall_impl _ _ _ Hes). intros e. apply reads_endpoint.
Qed.

(** * Reading hostile bytes

    [yields m P]: on any payload, [m] never reads outside it, keeps the offset
    inside it, and returns a value satisfying [P] or throws an exception of the
    program. *)

Definition reader_ok (r : PayloadReader) : Prop :=
  0 <= offset_ r <= len (data_ r) /\ bytes_ok (data_ r).

Definition yields {A} (m : M PayloadReader A) (P : A -> Prop) : Prop :=
  forall r, reader_ok r ->
    let '(res, r') := m r in
    reader_ok r' /\ data_ r' = data_ r /\ offset_ r <= offset_ r' /\
    match res with Ok a => P a | Err e => is_dz_error e = true end.

Section Yields.
Context {A B : Type}.

Lemma yields_ret (a : A) (P : A -> Prop) : P a -> yields (mret a) P.
Proof. intros H r Hr. simpl. split_and!; [done|done|lia|done]. Qed.

Lemma yields_throw (e : exn) (P : A -> Prop) : is_dz_error e = true -> yields (mthrow e) P.
Proof. intros H r Hr. simpl. split_and!; [done|done|lia|done]. Qed.

Lemma yields_fail msg (P : A -> Prop) : yields (fail msg) P.
Proof. by apply yields_throw. Qed.

Lemma yields_bind (m : M PayloadReader A) (k : A -> M PayloadReader B) P Q :
  yields m P -> (forall a, P a -> yields (k a) Q) -> yields (mbind m k) Q.
Proof.
  intros Hm Hk r Hr. specialize (Hm r Hr). unfold mbind.
  destruct (m r) as [[a|e] r1]; destruct Hm as (H1 & H2 & H3 & H4); [|done].
  specialize (Hk a H4 r1 H1). destruct (k a r1) as [res r2].
  destruct Hk as (K1 & K2 & K3 & K4). split_and!; [done|congruence|lia|done].
Qed.

Lemma yields_weaken (m : M PayloadReader A) (P Q : A -> Prop) :
  yields m P -> (forall a, P a -> Q a) -> yields m Q.
Proof.
  intros Hm H r Hr. specialize (Hm r Hr).
  destruct (m r) as [[a|e] r1]; naive_solver.
Qed.

Lemma yields_get (k : PayloadReader -> M PayloadReader B) Q :
  (forall r0, yields (k r0) Q) -> yields (mbind mget k) Q.
Proof. intros Hk r Hr. unfold mbind, mget. apply (Hk r r Hr). Qed.

Lemma yields_if (b : bool) (m1 m2 : M PayloadReader A) Q :
  (b = true -> yields m1 Q) -> (b = false -> yields m2 Q) -> yields (if b then m1 else m2) Q.
Proof. destruct b; auto. Qed.

Lemma yields_run (m : M PayloadReader A) P b :
  bytes_ok b -> yields m P ->
  match (m (new_reader b)).1 with Ok a => P a | Err e => is_dz_error e = true end.
Proof.
  intros Hb Hm. specialize (Hm (new_reader b)).
  destruct (m (new_reader b)) as [res r']. simpl.
  apply Hm. split; [|done]. simpl. pose proof (len_nonneg b). lia.
Qed.
End Yields.

Lemma yields_load (load : bytes -> result Z) n (P : Z -> Prop) :
  0 <= n -> (forall p, bytes_ok p -> n <= len p -> exists v, load p = Ok v /\ P v) ->
  yields (do* need n in let* v := load_at load in do* advance n in mret v) P.
Proof.
  intros Hn Hl r Hok. pose proof Hok as [Hr Hb]. unfold mbind, need, remaining.
  destruct (Z.ltb_spec (len (data_ r) - offset_ r) n).
  { simpl. split_and!; [done|done|lia|done]. }
  unfold load_at. destruct (Hl (zdrop (offset_ r) (data_ r))) as (v & -> & Hv).
  - by apply bytes_ok_zdrop.
  - rewrite len_zdrop by lia. lia.
  - simpl. unfold reader_ok. simpl. split_and!; [lia|lia|done|done|lia|done].
Qed.

Lemma yields_copy n :
  0 <= n ->
  yields (do* need n in let* b := copy_at n in do* advance n in mret b)
    (fun b => len b = n /\ bytes_ok b).
Proof.
  intros Hn r Hok. pose proof Hok as [Hr Hb]. unfold mbind, need, remaining.
  destruct (Z.ltb_spec (len (data_ r) - offset_ r) n).
  { simpl. split_and!; [done|done|lia|done]. }
  unfold copy_at. rewrite len_ztake by (rewrite len_zdrop by lia; lia).
  rewrite Z.ltb_irrefl. simpl. unfold reader_ok. simpl.
  split_and!; [lia|lia|done|done|lia| |by apply bytes_ok_ztake, bytes_ok_zdrop].
  by rewrite len_ztake by (rewrite len_zdrop by lia; lia).
Qed.

Lemma yields_u8 : yields take_u8 is_u8.
Proof.
  apply yields_load; [lia|]. intros [|b p] Hb Hp; [done|].
  inversion_clear Hb. eauto.
Qed.
Lemma yields_u16 : yields take_u16 is_u16.
Proof. apply yields_load; [lia|]. intros. by apply load_u16_total. Qed.
Lemma yields_u32 : yields take_u32 is_u32.
Proof. apply yields_load; [lia|]. intros. by apply load_u32_total. Qed.
Lemma yields_u64 : yields take_u64 is_u64.
Proof. apply yields_load; [lia|]. intros. by apply load_u64_total. Qed.
Lemma yields_bool : yields take_bool (fun _ => True).
Proof. eapply yields_bind; [apply yields_u8|]. intros. by apply yields_ret. Qed.

Lemma yields_raw n : 0 <= n -> yields (take_raw n) (fun b => len b = n /\ bytes_ok b).
Proof. apply yields_copy. Qed.

Definition short_bytes (b : bytes) : Prop := short b /\ bytes_ok b.

Lemma yields_string : yields take_string short_bytes.
Proof.
  eapply yields_bind; [apply yields_u32|]. intros n [Hn1 Hn2].
  eapply yields_weaken; [by apply yields_copy|].
  intros b [Hb Hok]. split; [|done]. unfold short. lia.
Qed.

Lemma yields_fixed n :
  0 <= n -> yields (take_fixed n) (fun b => len b = n /\ bytes_ok b).
Proof.
  intros Hn. eapply yields_bind; [apply yields_u32|]. intros m Hm.
  apply yields_if; intros _; [apply yields_fail|by apply yields_raw].
Qed.

(** An endpoint as it comes off the wire. *)
Definition wire_endpoint (e : Endpoint) : Prop := endpoint_ok e /\ wire_view e = e.

Lemma yields_endpoint : yields take_endpoint wire_endpoint.
Proof.
  eapply yields_bind; [apply yields_u8|]. intros f _.
  eapply yields_bind; [apply yields_u16|]. intros p Hp.
  apply yields_if; intros _.
  { eapply yields_bind; [by apply yields_raw|]. intros a [Ha Hb].
    by apply (yields_ret (EpV4 p a)). }
  apply yields_if; intros _.
  { eapply yields_bind; [by apply yields_raw|]. intros a [Ha Hb].
    unfold from_sockaddr. simpl. destruct (IN6_IS_ADDR_V4MAPPED a) eqn:E; apply yields_ret; split; try done.
    simpl. split_and!; [done|rewrite len_zdrop by lia; lia|by apply bytes_ok_zdrop]. }
  apply yields_if; intros _; [|apply yields_fail].
  apply yields_ret. done.
Qed.

Lemma yields_repeat {A} n (m : M PayloadReader A) (P : A -> Prop) :
  yields m P -> yields (mrepeat n m) (fun xs => length xs = n /\ Forall P xs).
Proof.
  intros Hm. induction n as [|n IH]; simpl; [by apply yields_ret|].
  eapply yields_bind; [done|]. intros x Hx.
  eapply yields_bind; [done|]. intros xs [Hn Hxs]. apply yields_ret. simpl. auto.
Qed.

Lemma yields_endpoints :
  yields take_endpoints (fun es => Forall wire_endpoint es /\ len es < 2 ^ 16).
Proof.
  eapply yields_bind; [apply yields_u16|]. intros n [Hn1 Hn2].
  apply yields_get. intros r0. apply yields_if; intros _; [apply yields_fail|].
  eapply yields_weaken; [apply yields_repeat, yields_endpoint|].
  intros es [Hl Hes]. split; [done|]. unfold len. lia.
Qed.

Create HintDb yields.
#[export] Hint Resolve yields_u8 yields_u16 yields_u32 yields_u64 yields_bool
  yields_string yields_endpoint yields_endpoints : yields.
#[export] Hint Extern 1 (yields (take_fixed _) _) => apply yields_fixed; done : yields.

(** * Frames over a stream *)

Definition type_ok (t : MessageType) : Prop := type_of_u8 (type_to_u8 t) = t.

Lemma known_type_ok t : t ∈ known_types -> type_ok t.
Proof. intros H. repeat (apply elem_of_cons in H as [->|H]; [done|]). by apply elem_of_nil in H. Qed.

Definition header_ok (h : FrameHeader) : Prop :=
  version h = kProtocolVersion /\ type_ok (type h) /\ is_u16 (flags h) /\
  0 <= length_ h <= kMaxFrameLength.

(** The bytes of one frame. *)
Definition frame_bytes (t : MessageType) (fl : Z) (data : bytes) : bytes :=
  encode_frame_header (out_header t fl (len data)) ++ data.

Lemma encode_frame_header_len h : len (encode_frame_header h) = kFrameHeaderSize.
Proof. done. Qed.

Lemma decode_encode_header h rest :
  header_ok h -> decode_frame_header (encode_frame_header h ++ rest) = Ok h.
Proof.
  destruct h as [v t fl n]. intros (Hv & Ht & Hf & Hn). simpl in Hv, Ht, Hf, Hn.
  set (inp := encode_frame_header (mk_header v t fl n) ++ rest).
  assert (load_u16 (zdrop 2 inp) = Ok fl) as E2.
  { change (zdrop 2 inp) with (store_u16 fl ++ store_u32 n ++ rest). by apply load_store_u16. }
  assert (load_u32 (zdrop 4 inp) = Ok n) as E4.
  { change (zdrop 4 inp) with (store_u32 n ++ rest). apply load_store_u32.
    unfold is_u, kMaxFrameLength in *. lia. }
  unfold decode_frame_header. rewrite E2, E4. subst inp v. simpl. rewrite Ht.
  destruct (Z.ltb_spec kMaxFrameLength n); [lia|done].
Qed.

(** A header that decodes is acceptable whatever the bytes were. *)
Lemma decode_frame_header_sound inp h :
  decode_frame_header inp = Ok h ->
  version h = kProtocolVersion /\ length_ h <= kMaxFrameLength.
Proof.
  unfold decode_frame_header. destruct inp as [|v [|t inp]]; [done..|].
  destruct (load_u16 _); [|done]. destruct (load_u32 _); [|done]. cbn [version length_].
  destruct (Z.eqb_spec v kProtocolVersion); [|done]. simpl negb. cbv iota.
  destruct (Z.ltb_spec kMaxFrameLength a0); naive_solver.
Qed.

Lemma write_frame_wire t fl data s r s' :
  write_frame t data fl s = (r, s') -> len data <= kMaxFrameLength ->
  exists done_ left_, frame_bytes t fl data = done_ ++ left_ /\ wire s' = wire s ++ done_ /\
    (r = Ok tt -> left_ = []).
Proof.
  intros H Hd. unfold write_frame in H. destruct (Z.ltb_spec kMaxFrameLength (len data)); [lia|].
  unfold frame_bytes. destruct (Z.eqb_spec (len data) 0) as [E|E].
  - apply len_zero_nil in E as ->. unfold write_all in H.
    destruct (write_all_loop _ _ _) as [r' [tx' w']] eqn:W. injection H as <- <-.
    apply write_all_loop_spec in W as (d & l & W1 & W2 & W3). exists d, l.
    rewrite app_nil_r. by split_and!.
  - destruct (writev_loop _ _ _ _ _ _ _ _) as [r' [tx' w']] eqn:W. injection H as <- <-.
    apply writev_loop_spec in W as (d & l & W1 & W2 & W3).
    + exists d, l. cbn [concat] in W1. rewrite app_nil_r in W1. by split_and!.
    + cbn [concat]. rewrite app_nil_r, (len_app (encode_frame_header _) data). lia.
Qed.

Lemma read_exact_loop_complete evs n got :
  n <= len (rx_stream evs) -> exists r evs', read_exact_loop evs n got = (Ok r, evs').
Proof.
  revert n got. induction evs as [|ev evs IH]; intros n got Hn; simpl in *;
    destruct (Z.leb_spec n 0); eauto.
  - rewrite len_nil in *. lia.
  - destruct ev as [[|b bs]| | |[]|]; try (rewrite len_nil in *; lia); eauto.
    destruct (Z.ltb_spec n (len (b :: bs))); eauto. apply IH. rewrite len_app in *. lia.
Qed.

(** A blocking read of bytes that are on their way returns them. *)
Lemma read_exact_stream b rest s :
  rx_stream (rx s) = b ++ rest ->
  exists s', read_exact (len b) s = (Ok b, s') /\ rx_stream (rx s') = rest /\
    tx s' = tx s /\ wire s' = wire s.
Proof.
  intros Hs. unfold read_exact.
  destruct (read_exact_loop_complete (rx s) (len b) []) as (r & evs' & E).
  { rewrite Hs, len_app. pose proof (len_nonneg rest). lia. }
  rewrite E. apply read_exact_loop_spec in E as (bs & -> & Hl & Hb); [|apply len_nonneg].
  rewrite Hs in Hb. apply app_inj_1 in Hb as [-> ->]; [|unfold len in Hl; lia].
  eexists. split; [reflexivity|]. done.
Qed.

Lemma read_frame_stream t fl data rest s :
  type_ok t -> is_u16 fl -> len data <= kMaxFrameLength ->
  rx_stream (rx s) = frame_bytes t fl data ++ rest ->
  exists s', read_frame s = (Ok (mk_frame (out_header t fl (len data)) data), s') /\
    rx_stream (rx s') = rest /\ tx s' = tx s /\ wire s' = wire s.
Proof.
  intros Ht Hf Hd Hs. unfold frame_bytes in Hs. rewrite <- app_assoc in Hs.
  destruct (read_exact_stream _ _ _ Hs) as (s1 & E1 & S1 & T1 & W1).
  rewrite encode_frame_header_len in E1.
  assert (u32 (len data) = len data) as Hu.
  { apply u32_small. pose proof (len_nonneg data). unfold is_u, kMaxFrameLength in *. lia. }
  unfold read_frame. erewrite mbind_ok by exact E1.
  rewrite <- (app_nil_r (encode_frame_header _)). unfold mlift, mbind at 1.
  rewrite decode_encode_header.
  2: { split_and!; [done|done|done| |]; simpl; rewrite Hu; [apply len_nonneg|done]. }
  simpl length_. rewrite Hu. destruct (Z.ltb_spec 0 (len data)) as [Hpos|Hz].
  - destruct (read_exact_stream _ _ _ S1) as (s2 & E2 & S2 & T2 & W2).
    unfold mbind. rewrite E2. eexists. split; [done|]. split_and!; congruence.
  - assert (data = []) as -> by (apply len_zero_nil; pose proof (len_nonneg data); lia).
    eexists. split; [done|]. done.
Qed.
