(* ===== verification/Protocol.v ===== *)
(** The wire protocol, [common/include/dz/protocol.hpp] and
    [common/src/protocol.cpp]: every control-plane and data-plane message with
    its encoder and decoder, the reflexive-address datagrams, chunk headers and
    the name and path validation. Fields keep the source's names behind a prefix
    per message. *)

From S2P Require Import Prelude Endian Socket Frame.

(** * Constants *)

Definition kDefaultServerPort : Z := 47654.
Definition kDefaultChunkSize : Z := Z.shiftl 1 20.
Definition kMaxUsernameLength : Z := 64.
Definition kMaxGroupMembers : Z := 32.
Definition kMaxPathLength : Z := 1024.
Definition kMaxManifestEntries : Z := 200000.
Definition kKeystoreSaltSize : Z := 16.
Definition kChunkHeaderSize : Z := 24.

Definition kSha256Size : Z := 32.
Definition kAeadKeySize : Z := 32.
Definition kAeadNonceSize : Z := 12.
Definition kAeadTagSize : Z := 16.
Definition kX25519KeySize : Z := 32.
Definition kEd25519PublicKeySize : Z := 32.
Definition kEd25519PrivateKeySize : Z := 32.
Definition kEd25519SignatureSize : Z := 64.

(** * Validation *)

Definition in_range (lo hi c : Z) : bool := (lo <=? c) && (c <=? hi).

Definition username_char (c : Z) : bool :=
  in_range 97 122 c || in_range 48 57 c || (c =? 45) || (c =? 95) || (c =? 46).

Definition is_valid_username (username : bytes) : bool :=
  if (len username =? 0) || (kMaxUsernameLength <? len username) then false
  else if negb (forallb username_char username) then false
  else match username with c :: _ => negb (c =? 46) | [] => false end.

(** The component loop of [is_safe_relative_path], from [start]. *)
Fixpoint safe_components (fuel : nat) (path : bytes) (start : Z) : bool :=
  match fuel with
  | O => false
  | S fuel =>
      if negb (start <=? len path) then true
      else
        let slash := find_from 47 path start in
        let component := substr path start ((fun s => s - start) <$> slash) in
        if len component =? 0 then false
        else if bool_decide (component = str ".") || bool_decide (component = str "..") then false
        else match slash with
             | None => true
             | Some s => safe_components fuel path (s + 1)
             end
  end.

Definition is_safe_relative_path (path : bytes) : bool :=
  if (len path =? 0) || (kMaxPathLength <? len path) then false
  else if bool_decide (head path = Some 47) then false
  else if bool_decide (is_Some (find_from 92 path 0)) then false
  else if bool_decide (is_Some (find_from 0 path 0)) then false
  else safe_components (S (length path)) path 0.

Definition sanitize_relative_path (path : bytes) : result bytes :=
  if negb (is_safe_relative_path path) then
    Err (Error (str "the peer sent an unsafe path and the transfer was stopped: '" ++ path ++
                str "'"))
  else Ok path.

(** * Enumerations *)

Inductive TransportKind := NoTransport | DirectTcp | HolePunchUdp | ServerRelay.
Inductive ClientRole := Receiver | Sender.
Inductive AeadAlgorithm := Aes256Gcm | ChaCha20Poly1305.
Inductive GroupJoinOutcome :=
  | OutCreated | OutJoined | OutWrongPassword | OutInvalidName | OutFull | OutAlreadyMember.

#[global] Instance TransportKind_eq_dec : EqDecision TransportKind.
Proof. solve_decision. Defined.
#[global] Instance ClientRole_eq_dec : EqDecision ClientRole.
Proof. solve_decision. Defined.
#[global] Instance AeadAlgorithm_eq_dec : EqDecision AeadAlgorithm.
Proof. solve_decision. Defined.
#[global] Instance GroupJoinOutcome_eq_dec : EqDecision GroupJoinOutcome.
Proof. solve_decision. Defined.

Definition transport_to_u8 (k : TransportKind) : Z :=
  match k with NoTransport => 0 | DirectTcp => 1 | HolePunchUdp => 2 | ServerRelay => 3 end.
(** [static_cast] of a byte already checked to be at most 3. *)
Definition transport_of_u8 (v : Z) : TransportKind :=
  if v =? 0 then NoTransport else if v =? 1 then DirectTcp
  else if v =? 2 then HolePunchUdp else ServerRelay.

Definition role_to_u8 (r : ClientRole) : Z := match r with Receiver => 1 | Sender => 2 end.
Definition role_of_u8 (v : Z) : ClientRole := if v =? 1 then Receiver else Sender.

Definition algorithm_to_u8 (a : AeadAlgorithm) : Z :=
  match a with Aes256Gcm => 1 | ChaCha20Poly1305 => 2 end.
Definition algorithm_of_u8 (v : Z) : AeadAlgorithm :=
  if v =? 1 then Aes256Gcm else ChaCha20Poly1305.

Definition outcome_to_u8 (o : GroupJoinOutcome) : Z :=
  match o with
  | OutCreated => 1 | OutJoined => 2 | OutWrongPassword => 3 | OutInvalidName => 4
  | OutFull => 5 | OutAlreadyMember => 6
  end.
Definition outcome_of_u8 (v : Z) : GroupJoinOutcome :=
  if v =? 1 then OutCreated else if v =? 2 then OutJoined else if v =? 3 then OutWrongPassword
  else if v =? 4 then OutInvalidName else if v =? 5 then OutFull else OutAlreadyMember.

Definition transport_kind_name (k : TransportKind) : bytes :=
  str match k with
  | NoTransport => "none" | DirectTcp => "direct TCP"
  | HolePunchUdp => "hole-punched UDP" | ServerRelay => "server relay"
  end.

Definition parse_transport_kind (text : bytes) : option TransportKind :=
  if bool_decide (text = str "auto") || bool_decide (text = str "any") then Some NoTransport
  else if bool_decide (text = str "tcp") || bool_decide (text = str "direct") then Some DirectTcp
  else if bool_decide (text = str "udp") || bool_decide (text = str "punch") then Some HolePunchUdp
  else if bool_decide (text = str "relay") || bool_decide (text = str "server") then Some ServerRelay
  else None.

(** Run a decoder over a whole payload. *)
Definition decode_with {A} (m : M PayloadReader A) (payload : bytes) : result A :=
  (m (new_reader payload)).1.

(** * ClientHello *)

Record ClientHello := mk_ClientHello {
  ch_role : ClientRole;
  ch_username : bytes;
  ch_identity_key : bytes;
  ch_session_key : bytes;
  ch_tcp_port : Z;
  ch_udp_port : Z;
  ch_local_candidates : list Endpoint;
}.

Definition ClientHello_encode (h : ClientHello) : bytes :=
  let w := put_u8 (role_to_u8 (ch_role h)) [] in
  let w := put_string (ch_username h) w in
  let w := put_bytes (ch_identity_key h) w in
  let w := put_bytes (ch_session_key h) w in
  let w := put_u16 (ch_tcp_port h) w in
  let w := put_u16 (ch_udp_port h) w in
  put_endpoints (ch_local_candidates h) w.

Definition ClientHello_read : M PayloadReader ClientHello :=
  let* role := take_u8 in
  if negb (role =? 1) && negb (role =? 2) then fail (str "ClientHello carries an unknown role")
  else
  let* username := take_string in
  if negb (is_valid_username username) then
    fail (str "ClientHello carries an invalid username")
  else
  let* identity_key := take_fixed kEd25519PublicKeySize in
  let* session_key := take_fixed kX25519KeySize in
  let* tcp_port := take_u16 in
  let* udp_port := take_u16 in
  let* candidates := take_endpoints in
  mret (mk_ClientHello (role_of_u8 role) username identity_key session_key tcp_port udp_port
          candidates).

Definition ClientHello_decode (payload : bytes) : result ClientHello :=
  decode_with ClientHello_read payload.

(** * ServerHello *)

Record ServerHello := mk_ServerHello {
  sh_claim_accepted : bool;
  sh_message : bytes;
  sh_reflexive_tcp : Endpoint;
  sh_reflexive_udp : Endpoint;
  sh_idle_timeout_seconds : Z;
}.

Definition ServerHello_encode (h : ServerHello) : bytes :=
  let w := put_bool (sh_claim_accepted h) [] in
  let w := put_string (sh_message h) w in
  let w := put_endpoint (sh_reflexive_tcp h) w in
  let w := put_endpoint (sh_reflexive_udp h) w in
  put_u32 (sh_idle_timeout_seconds h) w.

Definition ServerHello_read : M PayloadReader ServerHello :=
  let* claim_accepted := take_bool in
  let* message := take_string in
  let* reflexive_tcp := take_endpoint in
  let* reflexive_udp := take_endpoint in
  let* idle := take_u32 in
  mret (mk_ServerHello claim_accepted message reflexive_tcp reflexive_udp idle).

Definition ServerHello_decode (payload : bytes) : result ServerHello :=
  decode_with ServerHello_read payload.

(** * SendRequest *)

Record SendRequest := mk_SendRequest {
  sr_target_username : bytes;
  sr_proof : bytes;
  sr_signature : bytes;
  sr_transport_hint : TransportKind;
  sr_group_name : bytes;
}.

Definition SendRequest_encode (q : SendRequest) : bytes :=
  let w := put_string (sr_target_username q) [] in
  let w := put_bytes (sr_proof q) w in
  let w := put_bytes (sr_signature q) w in
  let w := put_u8 (transport_to_u8 (sr_transport_hint q)) w in
  if negb (len (sr_group_name q) =? 0) then put_string (sr_group_name q) w else w.

(** The optional trailing group name of a SendRequest or PeerIntroduction. *)
Definition take_group (msg : string) : M PayloadReader bytes :=
  let* r := mget in
  if negb (reader_empty r) then
    let* group := take_string in
    if negb (len group =? 0) && negb (is_valid_username group) then fail (str msg)
    else mret group
  else mret [].

Definition SendRequest_read : M PayloadReader SendRequest :=
  let* target := take_string in
  if negb (is_valid_username target) then fail (str "SendRequest names an invalid username")
  else
  let* proof := take_fixed kSha256Size in
  let* signature := take_fixed kEd25519SignatureSize in
  let* hint := take_u8 in
  if transport_to_u8 ServerRelay <? hint then
    fail (str "SendRequest names an unknown transport")
  else
  let* group := take_group "SendRequest names an invalid group" in
  mret (mk_SendRequest target proof signature (transport_of_u8 hint) group).

Definition SendRequest_decode (payload : bytes) : result SendRequest :=
  decode_with SendRequest_read payload.

(** * PeerIntroduction *)

Record PeerIntroduction := mk_PeerIntroduction {
  pi_username : bytes;
  pi_identity_key : bytes;
  pi_session_key : bytes;
  pi_candidates : list Endpoint;
  pi_proof : bytes;
  pi_signature : bytes;
  pi_pairing_id : Z;
  pi_transport_hint : TransportKind;
  pi_group_name : bytes;
}.

Definition PeerIntroduction_encode (p : PeerIntroduction) : bytes :=
  let w := put_string (pi_username p) [] in
  let w := put_bytes (pi_identity_key p) w in
  let w := put_bytes (pi_session_key p) w in
  let w := put_endpoints (pi_candidates p) w in
  let w := put_bytes (pi_proof p) w in
  let w := put_bytes (pi_signature p) w in
  let w := put_u64 (pi_pairing_id p) w in
  let w := put_u8 (transport_to_u8 (pi_transport_hint p)) w in
  if negb (len (pi_group_name p) =? 0) then put_string (pi_group_name p) w else w.

Definition PeerIntroduction_read : M PayloadReader PeerIntroduction :=
  let* username := take_string in
  if negb (is_valid_username username) then
    fail (str "peer introduction carries an invalid username")
  else
  let* identity_key := take_fixed kEd25519PublicKeySize in
  let* session_key := take_fixed kX25519KeySize in
  let* candidates := take_endpoints in
  let* proof := take_fixed kSha256Size in
  let* signature := take_fixed kEd25519SignatureSize in
  let* pairing_id := take_u64 in
  let* hint := take_u8 in
  if transport_to_u8 ServerRelay <? hint then
    fail (str "peer introduction names an unknown transport")
  else
  let* group := take_group "peer introduction names an invalid group" in
  mret (mk_PeerIntroduction username identity_key session_key candidates proof signature
          pairing_id (transport_of_u8 hint) group).

Definition PeerIntroduction_decode (payload : bytes) : result PeerIntroduction :=
  decode_with PeerIntroduction_read payload.

(** * Groups *)

Definition require_group_name (name : bytes) (what : string) : M PayloadReader unit :=
  if negb (is_valid_username name) then fail (str what ++ str " names an invalid group")
  else mret tt.

Record GroupQuery := mk_GroupQuery { gq_name : bytes }.
Record GroupStatus := mk_GroupStatus { gs_exists : bool; gs_member_count : Z }.
Record GroupJoin := mk_GroupJoin { gj_name : bytes; gj_verifier : bytes }.
Record GroupResult := mk_GroupResult {
  gr_outcome : GroupJoinOutcome; gr_message : bytes; gr_member_count : Z }.
Record GroupSendRequest := mk_GroupSendRequest { gsr_name : bytes }.
Record GroupRoster := mk_GroupRoster { gro_usernames : list bytes }.

Definition GroupQuery_encode (q : GroupQuery) : bytes := put_string (gq_name q) [].
Definition GroupQuery_read : M PayloadReader GroupQuery :=
  let* name := take_string in
  do* require_group_name name "GroupQuery" in
  mret (mk_GroupQuery name).
Definition GroupQuery_decode (payload : bytes) : result GroupQuery :=
  decode_with GroupQuery_read payload.

Definition GroupStatus_encode (s : GroupStatus) : bytes :=
  put_u32 (gs_member_count s) (put_bool (gs_exists s) []).
Definition GroupStatus_read : M PayloadReader GroupStatus :=
  let* e := take_bool in
  let* n := take_u32 in
  mret (mk_GroupStatus e n).
Definition GroupStatus_decode (payload : bytes) : result GroupStatus :=
  decode_with GroupStatus_read payload.

Definition GroupJoin_encode (j : GroupJoin) : bytes :=
  put_bytes (gj_verifier j) (put_string (gj_name j) []).
Definition GroupJoin_read : M PayloadReader GroupJoin :=
  let* name := take_string in
  do* require_group_name name "GroupJoin" in
  let* verifier := take_fixed kSha256Size in
  mret (mk_GroupJoin name verifier).
Definition GroupJoin_decode (payload : bytes) : result GroupJoin :=
  decode_with GroupJoin_read payload.

Definition GroupResult_encode (r : GroupResult) : bytes :=
  put_u32 (gr_member_count r) (put_string (gr_message r) (put_u8 (outcome_to_u8 (gr_outcome r)) [])).
Definition GroupResult_read : M PayloadReader GroupResult :=
  let* outcome := take_u8 in
  if (outcome <? 1) || (6 <? outcome) then fail (str "GroupResult carries an unknown outcome")
  else
  let* message := take_string in
  let* n := take_u32 in
  mret (mk_GroupResult (outcome_of_u8 outcome) message n).
Definition GroupResult_decode (payload : bytes) : result GroupResult :=
  decode_with GroupResult_read payload.

Definition GroupSendRequest_encode (q : GroupSendRequest) : bytes := put_string (gsr_name q) [].
Definition GroupSendRequest_read : M PayloadReader GroupSendRequest :=
  let* name := take_string in
  do* require_group_name name "GroupSendRequest" in
  mret (mk_GroupSendRequest name).
Definition GroupSendRequest_decode (payload : bytes) : result GroupSendRequest :=
  decode_with GroupSendRequest_read payload.

Definition GroupRoster_encode (r : GroupRoster) : bytes :=
  foldl (fun w u => put_string u w) (put_u16 (u16 (len (gro_usernames r))) []) (gro_usernames r).
Definition take_roster_name : M PayloadReader bytes :=
  let* username := take_string in
  if negb (is_valid_username username) then fail (str "GroupRoster names an invalid username")
  else mret username.
Definition GroupRoster_read : M PayloadReader GroupRoster :=
  let* count := take_u16 in
  if kMaxGroupMembers <? count then
    fail (str "GroupRoster lists more members than the protocol allows")
  else
  let* names := mrepeat (Z.to_nat count) take_roster_name in
  mret (mk_GroupRoster names).
Definition GroupRoster_decode (payload : bytes) : result GroupRoster :=
  decode_with GroupRoster_read payload.

(** * Reflexive address discovery *)

Definition kReflexiveProbeMagic : bytes := str "DZR1".
Definition kReflexiveReplyMagic : bytes := str "DZR2".
Definition kReflexiveProbeSize : Z := 4.
Definition kMaxReflexiveReplySize : Z := 32.

Definition encode_reflexive_reply (observed : Endpoint) (capacity : Z) : result bytes :=
  let w := put_endpoint observed (put_raw kReflexiveReplyMagic []) in
  if capacity <? len w then
    Err (Error (str "reflexive reply does not fit in the datagram buffer"))
  else Ok w.

(** A malformed endpoint is caught and reported as [false], here [None]. *)
Definition decode_reflexive_reply (data : bytes) : option Endpoint :=
  if len data <? len kReflexiveReplyMagic then None
  else if negb (bool_decide (ztake 4 data = kReflexiveReplyMagic)) then None
  else match decode_with take_endpoint (zdrop 4 data) with
       | Ok e => Some e
       | Err _ => None
       end.

(** * TransferOffer *)

Record ManifestEntry := mk_ManifestEntry {
  me_path : bytes;
  me_size : Z;
  me_mode : Z;
  me_digest : bytes;
}.

Record TransferOffer := mk_TransferOffer {
  to_sender_username : bytes;
  to_display_name : bytes;
  to_entries : list ManifestEntry;
  to_total_bytes : Z;
  to_encrypt_payload : bool;
  to_algorithm : AeadAlgorithm;
  to_chunk_size : Z;
  to_digests_present : bool;
}.

Definition put_entry (e : ManifestEntry) (w : bytes) : bytes :=
  put_bytes (me_digest e) (put_u32 (me_mode e) (put_u64 (me_size e) (put_string (me_path e) w))).

Definition TransferOffer_encode (o : TransferOffer) : bytes :=
  let w := put_string (to_sender_username o) [] in
  let w := put_string (to_display_name o) w in
  let w := put_bool (to_encrypt_payload o) w in
  let w := put_u8 (algorithm_to_u8 (to_algorithm o)) w in
  let w := put_bool (to_digests_present o) w in
  let w := put_u32 (to_chunk_size o) w in
  let w := put_u64 (to_total_bytes o) w in
  let w := put_u32 (u32 (len (to_entries o))) w in
  foldl (fun w e => put_entry e w) w (to_entries o).

(** One round of the entry loop, without the running sum: the mode is cut to its
    permission bits. *)
Definition take_entry : M PayloadReader ManifestEntry :=
  let* raw := take_string in
  let* path := mlift (sanitize_relative_path raw) in
  let* size := take_u64 in
  let* mode := take_u32 in
  let* digest := take_fixed kSha256Size in
  mret (mk_ManifestEntry path size (Z.land mode 511) digest).

(** [summed += entry.size] over the entries, at 64 bits. *)
Definition sum_sizes (entries : list ManifestEntry) : Z :=
  foldl (fun summed e => u64 (summed + me_size e)) 0 entries.

(** Largest chunk a frame can carry with its header and tag. *)
Definition max_chunk_size : Z := kMaxFrameLength - kChunkHeaderSize - kAeadTagSize.

Definition TransferOffer_read : M PayloadReader TransferOffer :=
  let* sender := take_string in
  if negb (is_valid_username sender) then fail (str "offer carries an invalid sender username")
  else
  let* display := take_string in
  let* encrypt := take_bool in
  let* algorithm := take_u8 in
  if negb (algorithm =? 1) && negb (algorithm =? 2) then fail (str "offer names an unknown cipher")
  else
  let* digests := take_bool in
  let* chunk_size := take_u32 in
  if (chunk_size =? 0) || (max_chunk_size <? chunk_size) then
    fail (str "offer names an unusable chunk size")
  else
  let* total := take_u64 in
  let* count := take_u32 in
  if kMaxManifestEntries <? count then
    fail (str "offer lists " ++ to_string count ++ str " files, more than the " ++
          to_string kMaxManifestEntries ++ str " allowed")
  else
  let* entries := mrepeat (Z.to_nat count) take_entry in
  if negb (sum_sizes entries =? total) then
    fail (str "offer's declared total does not match the sum of its files")
  else mret (mk_TransferOffer sender display entries total encrypt (algorithm_of_u8 algorithm)
               chunk_size digests).

Definition TransferOffer_decode (data : bytes) : result TransferOffer :=
  decode_with TransferOffer_read data.

(** * ChunkHeader *)

Record ChunkHeader := mk_ChunkHeader {
  c_file_index : Z;
  c_plaintext_length : Z;
  c_offset : Z;
  c_counter : Z;
}.

Definition encode_chunk_header (h : ChunkHeader) : bytes :=
  store_u32 (c_file_index h) ++ store_u32 (c_plaintext_length h) ++
  store_u64 (c_offset h) ++ store_u64 (c_counter h).

Definition decode_chunk_header (inp : bytes) : result ChunkHeader :=
  let? file_index := load_u32 inp in
  let? plaintext_length := load_u32 (zdrop 4 inp) in
  let? offset := load_u64 (zdrop 8 inp) in
  let? counter := load_u64 (zdrop 16 inp) in
  Ok (mk_ChunkHeader file_index plaintext_length offset counter).

(** * TransferDecision *)

Record TransferDecision := mk_TransferDecision {
  td_accepted : bool;
  td_reason : bytes;
  td_output_directory : bytes;
}.

Definition TransferDecision_encode (d : TransferDecision) : bytes :=
  put_string (td_output_directory d) (put_string (td_reason d) (put_bool (td_accepted d) [])).
Definition TransferDecision_read : M PayloadReader TransferDecision :=
  let* accepted := take_bool in
  let* reason := take_string in
  let* dir := take_string in
  mret (mk_TransferDecision accepted reason dir).
Definition TransferDecision_decode (payload : bytes) : result TransferDecision :=
  decode_with TransferDecision_read payload.
