(* ===== verification/Paths.v ===== *)
(** Paths: the path helpers of [common/src/fileio.cpp], the safety check of
    [common/src/protocol.cpp] against a specification by components, and the
    output paths of [client/src/manifest.cpp].

    [walk] is the kernel's reading of a relative path, component by component
    from a directory given as the list of its own components; it is what "a path
    that stays inside the output directory" means here. *)

From S2P Require Import Prelude Protocol.

Definition slash : Z := 47.

Definition join_path (a b : bytes) : bytes :=
  if len a =? 0 then b
  else if len b =? 0 then a
  else if bool_decide (head b = Some slash) then b
  else (if bool_decide (last a = Some slash) then a else a ++ [slash]) ++ b.

(** [while (path.size() > 1 && path.back() == '/') path.remove_suffix(1)], on the
    reversed path. *)
Fixpoint strip_rev (p : bytes) : bytes :=
  match p with
  | c :: q =>
      match q with
      | [] => p
      | _ :: _ => if c =? slash then strip_rev q else p
      end
  | [] => p
  end.

Definition strip_trailing_slashes (p : bytes) : bytes := reverse (strip_rev (reverse p)).

(** [rfind('/')]. *)
Definition rfind_slash (p : bytes) : option Z :=
  (fun q => len p - 1 - Z.of_nat q.1) <$> list_find (fun c => c = slash) (reverse p).

(** [home] is [$HOME]; an empty one counts as unset. *)
Definition expand_user_path (home : option bytes) (path : bytes) : bytes :=
  if (len path <? 2) || negb (bool_decide (ztake 2 path = str "~/")) then path
  else match home with
       | Some home => if len home =? 0 then path else home ++ substr path 1 None
       | None => path
       end.

Definition base_name (path : bytes) : bytes :=
  let path := strip_trailing_slashes path in
  match rfind_slash path with
  | None => path
  | Some s => substr path (s + 1) None
  end.

Definition parent_path (path : bytes) : bytes :=
  let path := strip_trailing_slashes path in
  match rfind_slash path with
  | None => str "."
  | Some s => if s =? 0 then str "/" else substr path 0 (Some s)
  end.

(** The loop of [resolve_output_paths]. *)
Fixpoint resolve_output_paths (entries : list ManifestEntry) (output_directory : bytes)
  : result (list bytes) :=
  match entries with
  | [] => Ok []
  | e :: es =>
      if negb (is_safe_relative_path (me_path e)) then
        Err (Error (str "the sender offered an unsafe path: '" ++ me_path e ++ str "'"))
      else
        let? ps := resolve_output_paths es output_directory in
        Ok (join_path output_directory (me_path e) :: ps)
  end.

(** The directories [make_directories] creates, in order: each component appended
    to what came before it. *)
Fixpoint make_directories_loop (fuel : nat) (path partial : bytes) (index : Z) : list bytes :=
  match fuel with
  | O => []
  | S fuel =>
      if negb (index <=? len path) then []
      else
        let sl := find_from slash path index in
        let component := substr path index ((fun s => s - index) <$> sl) in
        let partial' :=
          if len component =? 0 then partial
          else if len partial =? 0 then component
          else if bool_decide (last partial = Some slash) then partial ++ component
          else partial ++ [slash] ++ component in
        let made := if len component =? 0 then [] else [partial'] in
        match sl with
        | None => made
        | Some s => made ++ make_directories_loop fuel path partial' (s + 1)
        end
  end.

Definition make_directories (path : bytes) : list bytes :=
  if (len path =? 0) || bool_decide (path = str ".") || bool_decide (path = str "/") then []
  else if bool_decide (head path = Some slash) then
    make_directories_loop (S (length path)) path (str "/") 1
  else make_directories_loop (S (length path)) path [] 0.

(** The [mkdir] calls; [EEXIST] is no failure and is [None] here. *)
Fixpoint mkdirs (mkdir : bytes -> option Z) (dirs : list bytes) : result unit :=
  match dirs with
  | [] => Ok tt
  | d :: dirs =>
      match mkdir d with
      | Some e => Err (SysError (str "cannot create directory '" ++ d ++ str "'") e)
      | None => mkdirs mkdir dirs
      end
  end.

(** * Components *)

Lemma mkdirs_error mkdir dirs e : mkdirs mkdir dirs = Err e -> is_dz_error e = true.
Proof. induction dirs as [|d dirs IH]; cbn; [done|]. destruct (mkdir d); [by intros [= <-]|done]. Qed.

(** The components of a path. *)
Fixpoint split_on (c : Z) (l : bytes) : list bytes :=
  match l with
  | [] => [[]]
  | x :: l =>
      if x =? c then [] :: split_on c l
      else match split_on c l with
           | h :: t => (x :: h) :: t
           | [] => [[x]]
           end
  end.

Definition safe_component (comp : bytes) : bool :=
  negb (len comp =? 0) && negb (bool_decide (comp = str ".")) &&
  negb (bool_decide (comp = str "..")).

(** What a safe relative path is, by its components. *)
Definition safe_path_spec (p : bytes) : Prop :=
  1 <= len p <= kMaxPathLength /\ (92 ∉ p) /\ (0 ∉ p) /\
  Forall (fun comp => safe_component comp = true) (split_on slash p).

Lemma split_on_notin c l : c ∉ l -> split_on c l = [l].
Proof.
  induction l as [|x l IH]; intros Hn; simpl; [done|].
  apply not_elem_of_cons in Hn as [Hx Hl]. destruct (Z.eqb_spec x c); [congruence|].
  by rewrite IH.
Qed.

Lemma split_on_app c a b : c ∉ a -> split_on c (a ++ c :: b) = a :: split_on c b.
Proof.
  induction a as [|x a IH]; intros Hn; simpl; [by rewrite Z.eqb_refl|].
  apply not_elem_of_cons in Hn as [Hx Hl]. destruct (Z.eqb_spec x c); [congruence|].
  by rewrite IH.
Qed.

Lemma find_from_none c l pos :
  0 <= pos <= len l -> find_from c l pos = None -> c ∉ zdrop pos l.
Proof.
  intros Hp. unfold find_from. destruct (Z.ltb_spec (len l) pos); [lia|].
  destruct (list_find _ _) as [[i x]|] eqn:E; [done|]. intros _ Hin.
  apply list_find_None in E. rewrite Forall_forall in E. exact (E c Hin eq_refl).
Qed.

Lemma find_from_some c l pos s :
  0 <= pos <= len l -> find_from c l pos = Some s ->
  pos <= s < len l /\ zdrop pos l = ztake (s - pos) (zdrop pos l) ++ c :: zdrop (s + 1) l /\
  c ∉ ztake (s - pos) (zdrop pos l).
Proof.
  intros Hp. unfold find_from. destruct (Z.ltb_spec (len l) pos); [lia|].
  destruct (list_find _ _) as [[i x]|] eqn:E; [|done]. cbn. intros [= <-].
  apply list_find_Some in E as (Hl & -> & Hbefore).
  pose proof (lookup_lt_Some _ _ _ Hl) as Hi.
  assert (Z.of_nat i < len l - pos) as Hi'.
  { rewrite <- len_zdrop by lia. unfold len. lia. }
  unfold ztake. replace (Z.to_nat (pos + Z.of_nat i - pos)) with i by lia.
  split_and!; [lia|lia| |].
  - rewrite <- (take_drop_middle _ _ _ Hl) at 1. f_equal. f_equal.
    unfold zdrop. rewrite drop_drop. f_equal. lia.
  - intros Hin. apply list_elem_of_lookup in Hin as [j Hj].
    pose proof (lookup_lt_Some _ _ _ Hj) as Hj'. rewrite length_take in Hj'.
    rewrite lookup_take_lt in Hj by lia. by eapply (Hbefore j c); [|lia|].
Qed.

Lemma safe_components_spec fuel path start :
  0 <= start <= len path -> len path - start < Z.of_nat fuel ->
  safe_components fuel path start = forallb safe_component (split_on slash (zdrop start path)).
Proof.
  revert start. induction fuel as [|fuel IH]; intros start Hs Hf; [lia|]. cbn [safe_components].
  destruct (Z.leb_spec start (len path)); [|lia]. cbn [negb].
  destruct (find_from 47 path start) as [s|] eqn:E; cbn [fmap option_fmap option_map substr].
  - apply find_from_some in E as (Hs' & Hd & Hn); [|done]. fold slash in Hd.
    remember (ztake (s - start) (zdrop start path)) as comp eqn:Ec. clear Ec.
    rewrite Hd, split_on_app by done. cbn [forallb]. rewrite <- IH by lia.
    unfold safe_component. destruct (len comp =? 0), (bool_decide (comp = str ".")),
      (bool_decide (comp = str "..")); done.
  - apply find_from_none in E; [|done]. rewrite split_on_notin by done. cbn [forallb].
    rewrite andb_true_r. set (comp := zdrop start path).
    unfold safe_component. destruct (len comp =? 0), (bool_decide (comp = str ".")),
      (bool_decide (comp = str "..")); done.
Qed.

Lemma notin_find c l : bool_decide (is_Some (find_from c l 0)) = false <-> c ∉ l.
Proof.
  rewrite bool_decide_eq_false, <- eq_None_not_Some. pose proof (len_nonneg l). split.
  - intros H'%find_from_none; [|lia]. by rewrite zdrop_0 in H'.
  - intros Hn. destruct (find_from c l 0) as [s|] eqn:E; [|done].
    apply find_from_some in E as (_ & Hd & _); [|lia]. rewrite zdrop_0 in Hd.
    destruct Hn. rewrite Hd. apply elem_of_app. right. left.
Qed.

Lemma is_safe_iff p : is_safe_relative_path p = true <-> safe_path_spec p.
Proof.
  unfold is_safe_relative_path, safe_path_spec. pose proof (len_nonneg p).
  destruct (Z.eqb_spec (len p) 0); [split; [done|lia]|].
  destruct (Z.ltb_spec kMaxPathLength (len p)); [split; [done|lia]|]. cbn [orb].
  rewrite <- !notin_find.
  rewrite (safe_components_spec (S (length p))) by (unfold len; lia). rewrite zdrop_0.
  rewrite <- forallb_Forall.
  destruct (bool_decide (head p = Some 47)) eqn:Eh.
  - apply bool_decide_eq_true in Eh. destruct p as [|x p]; [done|]. injection Eh as ->.
    split; [done|]. by intros (_ & _ & _ & ?).
  - destruct (bool_decide (is_Some (find_from 92 p 0))), (bool_decide (is_Some (find_from 0 p 0)));
      intuition (done || lia).
Qed.

(** * Where a safe path leads *)

(** The directory a relative path reaches from [dir], as the kernel resolves it in
    a tree without symbolic links, the root being its own parent. *)
Fixpoint walk (dir : list bytes) (comps : list bytes) : list bytes :=
  match comps with
  | [] => dir
  | c :: cs =>
      if len c =? 0 then walk dir cs
      else if bool_decide (c = str ".") then walk dir cs
      else if bool_decide (c = str "..") then walk (List.removelast dir) cs
      else walk (dir ++ [c]) cs
  end.

Lemma walk_safe dir comps :
  Forall (fun c => safe_component c = true) comps -> walk dir comps = dir ++ comps.
Proof.
  intros H. revert dir. induction H as [|c cs Hc _ IH]; intros dir; cbn [walk]; [by rewrite app_nil_r|].
  unfold safe_component in Hc. apply andb_prop in Hc as [[H1 H2]%andb_prop H3].
  destruct (len c =? 0); [done|]. destruct (bool_decide (c = str ".")); [done|].
  destruct (bool_decide (c = str "..")); [done|]. by rewrite IH, <- app_assoc.
Qed.

Lemma join_path_sep dir p :
  len dir <> 0 -> is_safe_relative_path p = true ->
  exists sep, (sep = [] \/ sep = [slash]) /\ join_path dir p = dir ++ sep ++ p.
Proof.
  intros Hd Hs%is_safe_iff. destruct Hs as (Hl & _ & _ & Hc). unfold join_path.
  destruct (Z.eqb_spec (len dir) 0); [done|]. destruct (Z.eqb_spec (len p) 0); [lia|].
  rewrite bool_decide_eq_false_2.
  - destruct (bool_decide (last dir = Some slash)); [exists []|exists [slash]; rewrite <- app_assoc]; auto.
  - intros Hh. destruct p as [|x p]; [done|]. injection Hh as ->. cbn in Hc. by inversion Hc.
Qed.

(** Different safe paths lead to different places. *)
Lemma join_path_inj dir p q :
  is_safe_relative_path p = true -> is_safe_relative_path q = true -> join_path dir p = join_path dir q -> p = q.
Proof.
  intros Hp Hq. destruct (decide (len dir = 0)) as [E|E]; [unfold join_path; by rewrite E|].
  assert (forall r, is_safe_relative_path r = true ->
    join_path dir r = (if bool_decide (last dir = Some slash) then dir else dir ++ [slash]) ++ r) as Hj.
  { intros r Hr. destruct (join_path_sep dir r E Hr) as (sep & _ & Er). unfold join_path in *.
    destruct (Z.eqb_spec (len dir) 0); [done|]. apply is_safe_iff in Hr as (Hl & _ & _ & Hc).
    destruct (Z.eqb_spec (len r) 0); [lia|]. rewrite bool_decide_eq_false_2; [done|].
    intros Hh. destruct r as [|x r]; [done|]. injection Hh as ->. cbn in Hc. by inversion Hc. }
  rewrite !Hj by done. apply app_inv_head.
Qed.

Lemma resolve_output_paths_ok entries dir :
  Forall (fun e => is_safe_relative_path (me_path e) = true) entries ->
  resolve_output_paths entries dir = Ok ((fun e => join_path dir (me_path e)) <$> entries).
Proof. induction 1 as [|e es He _ IH]; cbn; [done|]. by rewrite He, IH. Qed.

(** C32. The path check accepts exactly the non-empty paths of at most 1024 bytes
    without backslash or NUL whose components are all ordinary names: the loop with
    its offsets is the specification by components. *)
Theorem safe_path_correct p : is_safe_relative_path p = true <-> safe_path_spec p.
Proof. apply is_safe_iff. Qed.

(** C10. Every output path is the chosen directory followed by the offered path, and
    from any directory the offered path leads only to names beneath it: nothing the
    sender names can escape. An offer with an unsafe path is refused. *)
Theorem output_paths_confined entries dir r :
  len dir <> 0 -> resolve_output_paths entries dir = r ->
  match r with
  | Ok paths =>
      Forall2 (fun e p =>
        (exists sep, (sep = [] \/ sep = [slash]) /\ p = dir ++ sep ++ me_path e) /\
        forall D, exists c cs, walk D (split_on slash (me_path e)) = D ++ c :: cs)
        entries paths
  | Err e => is_dz_error e = true /\
      Exists (fun e => is_safe_relative_path (me_path e) = false) entries
  end.
Proof.
  intros Hd <-. induction entries as [|e es IH]; cbn [resolve_output_paths]; [constructor|].
  destruct (is_safe_relative_path (me_path e)) eqn:E; cbn [negb];
    [|split; [done|by left]].
  destruct (resolve_output_paths es dir) as [ps|x]; [|destruct IH; split; [done|by right]].
  constructor; [|done]. destruct (join_path_sep dir _ Hd E) as (sep & Hsep & ->).
  split; [eauto|]. intros D. apply is_safe_iff in E as (_ & _ & _ & Hc).
  rewrite walk_safe by done. destruct (split_on slash (me_path e)) as [|c cs] eqn:Es; [|eauto].
  destruct (me_path e) as [|x p]; cbn in Es; [done|]. destruct (x =? slash); [done|].
  by destruct (split_on slash p).
Qed.

Lemma output_paths_confined_witness :
  let e := mk_ManifestEntry (str "a/b") 3 420 (replicate 32 0) in
  resolve_output_paths [e] (str "out") = Ok [str "out/a/b"] /\
  forall D, exists c cs, walk D (split_on slash (me_path e)) = D ++ c :: cs.
Proof.
  intros e. split; [by vm_compute|].
  pose proof (output_paths_confined [e] (str "out") (Ok [str "out/a/b"]) ltac:(done) ltac:(by vm_compute)) as H.
  apply Forall2_cons_1 in H as [[_ H] _]. exact H.
Defined.

Lemma mkdirs_fine mkdir dirs : (forall d, mkdir d = None) -> mkdirs mkdir dirs = Ok tt.
Proof. intros Hm. induction dirs as [|d dirs IH]; [done|]. cbn. by rewrite Hm. Qed.

(** Two names under one directory are two paths. *)
Lemma join_path_ne a b b' :
  b <> [] -> b' <> [] -> head b <> Some slash -> head b' <> Some slash -> b <> b' -> join_path a b <> join_path a b'.
Proof.
  intros Hb Hb' Hs Hs' Hne. unfold join_path.
  assert (forall l : bytes, l <> [] -> len l =? 0 = false) as Hz by (intros l Hl; apply Z.eqb_neq; by intros ?%len_zero_nil).
  destruct (len a =? 0); [done|]. rewrite !Hz by done. rewrite (bool_decide_eq_false_2 (head b = _)), (bool_decide_eq_false_2 (head b' = _)) by done.
  by intros E%app_inv_head.
Qed.
