(* ===== verification/Messages.v ===== *)
(** Correctness of the message encodings of [Protocol]: every message read back
    from its own encoding is the message, every decoder is total on hostile
    bytes, and what a decoder accepts is well formed.

    [WireMessage] is the interface the rest of the development uses; each
    message of protocol.hpp is an instance. *)

From S2P Require Import Prelude Endian Socket Frame Protocol.

(** * The interface *)

Class WireMessage (A : Type) := {
  wm_encode : A -> bytes;
  wm_decode : bytes -> result A;
  (** What a peer that follows the protocol puts in the message. *)
  wm_ok : A -> Prop;
  (** What of it the wire carries. *)
  wm_view : A -> A;
  wm_roundtrip m : wm_ok m -> wm_decode (wm_encode m) = Ok (wm_view m);
  wm_sound b : bytes_ok b ->
    match wm_decode b with
    | Ok m => wm_ok m /\ wm_view m = m
    | Err e => is_dz_error e = true
    end;
}.

(** * Writers as concatenation *)

Lemma put_u8_app v w : put_u8 v w = w ++ [v].
Proof. done. Qed.
Lemma put_bool_app b w : put_bool b w = w ++ [if b then 1 else 0].
Proof. done. Qed.
Lemma put_u16_app v w : put_u16 v w = w ++ store_u16 v.
Proof. done. Qed.
Lemma put_u32_app v w : put_u32 v w = w ++ store_u32 v.
Proof. done. Qed.
Lemma put_u64_app v w : put_u64 v w = w ++ store_u64 v.
Proof. done. Qed.
Lemma put_string_app s w : put_string s w = w ++ field s.
Proof. unfold put_string, put_bytes, put_raw, field. by rewrite put_u32_app, app_assoc. Qed.
Lemma put_bytes_app s w : put_bytes s w = w ++ field s.
Proof. apply put_string_app. Qed.

Create Rewrite HintDb wire.
#[export] Hint Rewrite put_u8_app put_bool_app put_u16_app put_u32_app put_u64_app
  put_string_app put_bytes_app put_endpoint_app put_endpoints_app app_nil_l : wire.
Ltac wire_simpl := autorewrite with wire; rewrite <- ?app_assoc.

Lemma foldl_put {B} (put : B -> bytes -> bytes) (enc : B -> bytes) xs w :
  (forall x w, put x w = w ++ enc x) ->
  foldl (fun w x => put x w) w xs = w ++ mjoin (enc <$> xs).
Proof.
  intros Hp. revert w. induction xs as [|x xs IH]; intros w; csimpl; [by rewrite app_nil_r|].
  by rewrite IH, Hp, app_assoc.
Qed.

(** * Well-formed fields *)

Definition fixed (n : Z) (b : bytes) : Prop := len b = n /\ bytes_ok b.

Definition valid_name (b : bytes) : Prop := is_valid_username b = true.

Definition valid_group (b : bytes) : Prop := b = [] \/ valid_name b.

Definition endpoints_ok (es : list Endpoint) : Prop :=
  Forall endpoint_ok es /\ len es < 2 ^ 16.

Definition key_size (n : Z) : Prop := 0 <= n < 2 ^ 32.

Lemma valid_name_len b : valid_name b -> 0 < len b <= kMaxUsernameLength.
Proof.
  unfold valid_name, is_valid_username. intros H. pose proof (len_nonneg b).
  bool_cases; simpl in H; try done. lia.
Qed.

Lemma valid_name_short b : valid_name b -> short b.
Proof. intros H%valid_name_len. unfold short, kMaxUsernameLength in *. lia. Qed.

Lemma fixed_short n b : fixed n b -> n < 2 ^ 32 -> short b.
Proof. intros [Hn _] ?. unfold short. lia. Qed.

Lemma reads_fixed_field n b : fixed n b -> n < 2 ^ 32 -> reads (take_fixed n) (field b) b.
Proof. intros Hb ?. apply reads_fixed; [apply Hb|by eapply fixed_short]. Qed.

(** * Stepping through a decoder *)

Section Steps.
Context {A B : Type}.

Lemma reads_last_guard (c : bool) (f m : M PayloadReader A) e a :
  c = false -> reads_last m e a -> reads_last (if c then f else m) e a.
Proof. by intros ->. Qed.

Lemma reads_last_eq (m : M PayloadReader A) e a a' :
  reads_last m e a -> a = a' -> reads_last m e a'.
Proof. by intros ? <-. Qed.

Lemma reads_last_bind_ret (m : M PayloadReader A) (f : A -> B) e a :
  reads_last m e a -> reads_last (mbind m (fun x => mret (f x))) e (f a).
Proof. intros H pre. unfold mbind. by rewrite H. Qed.
End Steps.

Lemma reads_require_group name what :
  valid_name name -> reads (require_group_name name what) [] tt.
Proof. intros H. unfold require_group_name. rewrite H. apply reads_ret. Qed.

Lemma remaining_end pre enc : remaining (mk_reader (pre ++ enc) (len pre)) = len enc.
Proof. unfold remaining. simpl. rewrite len_app. lia. Qed.

Lemma field_len b : len (field b) = 4 + len b.
Proof. apply len_app. Qed.

Lemma reads_take_group g msg :
  valid_group g ->
  reads_last (take_group msg) (if negb (len g =? 0) then field g else []) g.
Proof.
  intros [->|Hg] pre; unfold take_group, mbind at 1, mget, reader_empty; rewrite remaining_end.
  - unfold mret. simpl. by rewrite len_nil, Z.add_0_r.
  - pose proof (valid_name_len _ Hg). destruct (Z.eqb_spec (len g) 0) as [|Hne]; [lia|].
    cbn [negb]. rewrite field_len. destruct (Z.eqb_spec (4 + len g) 0); [lia|]. cbn [negb].
    unfold mbind. rewrite (reads_is_last _ _ _ (reads_string g (valid_name_short _ Hg)) pre).
    rewrite Hg, andb_false_r, field_len. done.
Qed.

Create HintDb reads.
#[export] Hint Resolve reads_u8 reads_u16 reads_u32 reads_u64 reads_bool reads_string
  reads_bytes reads_endpoint reads_endpoints reads_require_group valid_name_short : reads.
#[export] Hint Extern 1 (reads (take_fixed _) (field _) _) =>
  apply reads_fixed_field; [done|reflexivity] : reads.

(** One statement of a decoder: a guard that passes or a field that is read. *)
Ltac reads_step :=
  lazymatch goal with
  | |- reads_last (if _ then _ else _) _ _ =>
      apply reads_last_guard;
      [first [done | match goal with H : valid_name _ |- _ => rewrite H; done end]|]
  | |- reads_last (mbind _ (fun x => mret _)) _ _ =>
      eapply reads_last_bind_ret;
      first [solve [eauto with reads]|apply reads_is_last; solve [eauto with reads]]
  | |- reads_last (mbind _ _) (_ ++ _) _ =>
      eapply reads_last_bind; [solve [eauto with reads]|cbv beta]
  end.

(** The same on hostile bytes: a guard either throws or is remembered. *)
Ltac yields_step :=
  lazymatch goal with
  | |- yields (if _ then fail _ else _) _ =>
      apply yields_if; intros ?; [apply yields_fail|]
  | |- yields (if _ then _ else fail _) _ =>
      apply yields_if; intros ?; [|apply yields_fail]
  | |- yields (mbind _ _) _ =>
      eapply yields_bind; [solve [eauto with yields]|cbv beta; intros ? ?]
  | |- yields (mret _) _ => apply yields_ret
  end.

Lemma negb_false b : negb b = false -> b = true.
Proof. by destruct b. Qed.

Lemma yields_require_group name what :
  yields (require_group_name name what) (fun _ => valid_name name).
Proof.
  unfold require_group_name. yields_step. yields_step. by apply negb_false.
Qed.

Lemma yields_take_group msg : yields (take_group msg) valid_group.
Proof.
  apply yields_get. intros r0. apply yields_if; intros _; [|apply yields_ret; by left].
  yields_step. yields_step. yields_step.
  destruct (Z.eqb_spec (len a) 0) as [E|E]; [left; by apply len_zero_nil|].
  right. unfold valid_name. by destruct (is_valid_username a).
Qed.

#[export] Hint Resolve yields_require_group yields_take_group : yields.

(** Both laws of the interface from the two judgements on a decoder. *)
Section Laws.
Context {A : Type} (read : M PayloadReader A) (encode : A -> bytes) (ok : A -> Prop)
  (view : A -> A).

Lemma roundtrip_of_reads m :
  reads_last read (encode m) (view m) -> decode_with read (encode m) = Ok (view m).
Proof. apply reads_run. Qed.

Lemma sound_of_yields b :
  yields read (fun m => ok m /\ view m = m) -> bytes_ok b ->
  match decode_with read b with
  | Ok m => ok m /\ view m = m
  | Err e => is_dz_error e = true
  end.
Proof. intros Hy Hb. exact (yields_run read _ b Hb Hy). Qed.
End Laws.

Lemma wire_endpoints es :
  Forall wire_endpoint es -> Forall endpoint_ok es /\ wire_view <$> es = es.
Proof.
  induction 1 as [|e es [He1 He2] _ [IH1 IH2]]; [done|]. csimpl.
  split; [by constructor|by rewrite He2, IH2].
Qed.

Lemma role_of_to r : role_of_u8 (role_to_u8 r) = r.
Proof. by destruct r. Qed.
Lemma transport_of_to k : transport_of_u8 (transport_to_u8 k) = k.
Proof. by destruct k. Qed.
Lemma algorithm_of_to a : algorithm_of_u8 (algorithm_to_u8 a) = a.
Proof. by destruct a. Qed.
Lemma outcome_of_to o : outcome_of_u8 (outcome_to_u8 o) = o.
Proof. by destruct o. Qed.

(** * ClientHello *)

Definition ClientHello_ok (h : ClientHello) : Prop :=
  valid_name (ch_username h) /\ fixed kEd25519PublicKeySize (ch_identity_key h) /\
  fixed kX25519KeySize (ch_session_key h) /\ is_u16 (ch_tcp_port h) /\ is_u16 (ch_udp_port h) /\
  endpoints_ok (ch_local_candidates h).

Definition ClientHello_view (h : ClientHello) : ClientHello :=
  mk_ClientHello (ch_role h) (ch_username h) (ch_identity_key h) (ch_session_key h)
    (ch_tcp_port h) (ch_udp_port h) (wire_view <$> ch_local_candidates h).

Lemma ClientHello_reads h :
  ClientHello_ok h -> reads_last ClientHello_read (ClientHello_encode h) (ClientHello_view h).
Proof.
  intros (Hu & Hik & Hsk & Htp & Hup & Hcs & Hcn).
  unfold ClientHello_view. rewrite <- (role_of_to (ch_role h)).
  unfold ClientHello_encode, ClientHello_read. wire_simpl.
  reads_step. apply reads_last_guard; [by destruct (ch_role h)|]. repeat reads_step.
Qed.

Lemma ClientHello_yields :
  yields ClientHello_read (fun m => ClientHello_ok m /\ ClientHello_view m = m).
Proof.
  unfold ClientHello_read. repeat yields_step.
  unfold ClientHello_ok, ClientHello_view, endpoints_ok. cbn.
  match goal with H : Forall _ _ /\ _ |- _ => destruct H as [[? ->]%wire_endpoints ?] end.
  split_and!; try done. by apply negb_false.
Qed.

#[export] Instance ClientHello_wire : WireMessage ClientHello := {|
  wm_encode := ClientHello_encode; wm_decode := ClientHello_decode;
  wm_ok := ClientHello_ok; wm_view := ClientHello_view;
  wm_roundtrip m H := roundtrip_of_reads _ _ _ m (ClientHello_reads m H);
  wm_sound b := sound_of_yields _ _ _ b ClientHello_yields;
|}.

(** * ServerHello *)

Definition ServerHello_ok (h : ServerHello) : Prop :=
  short_bytes (sh_message h) /\ endpoint_ok (sh_reflexive_tcp h) /\
  endpoint_ok (sh_reflexive_udp h) /\ is_u32 (sh_idle_timeout_seconds h).

Definition ServerHello_view (h : ServerHello) : ServerHello :=
  mk_ServerHello (sh_claim_accepted h) (sh_message h) (wire_view (sh_reflexive_tcp h))
    (wire_view (sh_reflexive_udp h)) (sh_idle_timeout_seconds h).

Lemma ServerHello_reads h :
  ServerHello_ok h -> reads_last ServerHello_read (ServerHello_encode h) (ServerHello_view h).
Proof.
  intros ([Hm _] & Ht & Hu & Hi). unfold ServerHello_view, ServerHello_encode, ServerHello_read.
  wire_simpl. repeat reads_step.
Qed.

Lemma ServerHello_yields :
  yields ServerHello_read (fun m => ServerHello_ok m /\ ServerHello_view m = m).
Proof.
  unfold ServerHello_read. repeat yields_step. unfold ServerHello_ok, ServerHello_view. cbn.
  repeat match goal with H : wire_endpoint _ |- _ => destruct H as [? ->] end. by split_and!.
Qed.

#[export] Instance ServerHello_wire : WireMessage ServerHello := {|
  wm_encode := ServerHello_encode; wm_decode := ServerHello_decode;
  wm_ok := ServerHello_ok; wm_view := ServerHello_view;
  wm_roundtrip m H := roundtrip_of_reads _ _ _ m (ServerHello_reads m H);
  wm_sound b := sound_of_yields _ _ _ b ServerHello_yields;
|}.

(** * SendRequest *)

Definition SendRequest_ok (q : SendRequest) : Prop :=
  valid_name (sr_target_username q) /\ fixed kSha256Size (sr_proof q) /\
  fixed kEd25519SignatureSize (sr_signature q) /\ valid_group (sr_group_name q).

Lemma put_group g w :
  (if negb (len g =? 0) then put_string g w else w) =
  w ++ (if negb (len g =? 0) then field g else []).
Proof. destruct (len g =? 0); cbn; [by rewrite app_nil_r|by rewrite put_string_app]. Qed.

Lemma transport_guard k : (transport_to_u8 ServerRelay <? transport_to_u8 k) = false.
Proof. by destruct k. Qed.

#[export] Hint Resolve reads_take_group : reads.

Lemma SendRequest_reads q :
  SendRequest_ok q -> reads_last SendRequest_read (SendRequest_encode q) q.
Proof.
  intros (Ht & Hp & Hs & Hg). eapply reads_last_eq.
  { unfold SendRequest_encode, SendRequest_read. rewrite put_group. wire_simpl.
    do 5 reads_step. apply reads_last_guard; [apply transport_guard|]. reads_step. }
  cbv beta. rewrite transport_of_to. by destruct q.
Qed.

Lemma SendRequest_yields : yields SendRequest_read (fun m => SendRequest_ok m /\ m = m).
Proof.
  unfold SendRequest_read. repeat yields_step. unfold SendRequest_ok. cbn.
  split_and!; try done. by apply negb_false.
Qed.

#[export] Instance SendRequest_wire : WireMessage SendRequest := {|
  wm_encode := SendRequest_encode; wm_decode := SendRequest_decode;
  wm_ok := SendRequest_ok; wm_view m := m;
  wm_roundtrip m H := roundtrip_of_reads _ _ (fun m => m) m (SendRequest_reads m H);
  wm_sound b := sound_of_yields _ _ (fun m => m) b SendRequest_yields;
|}.

(** * PeerIntroduction *)

Definition PeerIntroduction_ok (p : PeerIntroduction) : Prop :=
  valid_name (pi_username p) /\ fixed kEd25519PublicKeySize (pi_identity_key p) /\
  fixed kX25519KeySize (pi_session_key p) /\ endpoints_ok (pi_candidates p) /\
  fixed kSha256Size (pi_proof p) /\ fixed kEd25519SignatureSize (pi_signature p) /\
  is_u64 (pi_pairing_id p) /\ valid_group (pi_group_name p).

Definition PeerIntroduction_view (p : PeerIntroduction) : PeerIntroduction :=
  mk_PeerIntroduction (pi_username p) (pi_identity_key p) (pi_session_key p)
    (wire_view <$> pi_candidates p) (pi_proof p) (pi_signature p) (pi_pairing_id p)
    (pi_transport_hint p) (pi_group_name p).

Lemma PeerIntroduction_reads p :
  PeerIntroduction_ok p ->
  reads_last PeerIntroduction_read (PeerIntroduction_encode p) (PeerIntroduction_view p).
Proof.
  intros (Hu & Hik & Hsk & [Hcs Hcn] & Hp & Hs & Hi & Hg). unfold PeerIntroduction_view.
  rewrite <- (transport_of_to (pi_transport_hint p)).
  unfold PeerIntroduction_encode, PeerIntroduction_read. rewrite put_group. wire_simpl.
  do 4 reads_step. rewrite app_assoc. do 5 reads_step.
  apply reads_last_guard; [apply transport_guard|]. reads_step.
Qed.

Lemma PeerIntroduction_yields :
  yields PeerIntroduction_read (fun m => PeerIntroduction_ok m /\ PeerIntroduction_view m = m).
Proof.
  unfold PeerIntroduction_read. repeat yields_step.
  unfold PeerIntroduction_ok, PeerIntroduction_view, endpoints_ok. cbn.
  match goal with H : Forall _ _ /\ _ |- _ => destruct H as [[? ->]%wire_endpoints ?] end.
  split_and!; try done. by apply negb_false.
Qed.

#[export] Instance PeerIntroduction_wire : WireMessage PeerIntroduction := {|
  wm_encode := PeerIntroduction_encode; wm_decode := PeerIntroduction_decode;
  wm_ok := PeerIntroduction_ok; wm_view := PeerIntroduction_view;
  wm_roundtrip m H := roundtrip_of_reads _ _ _ m (PeerIntroduction_reads m H);
  wm_sound b := sound_of_yields _ _ _ b PeerIntroduction_yields;
|}.

(** * Group messages *)

Lemma GroupQuery_reads q :
  valid_name (gq_name q) -> reads_last GroupQuery_read (GroupQuery_encode q) q.
Proof.
  intros Hq. eapply reads_last_eq.
  { unfold GroupQuery_encode, GroupQuery_read. wire_simpl. rewrite <- (app_nil_r (field _)).
    do 2 reads_step. }
  by destruct q.
Qed.

Lemma GroupQuery_yields : yields GroupQuery_read (fun m => valid_name (gq_name m) /\ m = m).
Proof. unfold GroupQuery_read. by repeat yields_step. Qed.

#[export] Instance GroupQuery_wire : WireMessage GroupQuery := {|
  wm_encode := GroupQuery_encode; wm_decode := GroupQuery_decode;
  wm_ok q := valid_name (gq_name q); wm_view m := m;
  wm_roundtrip m H := roundtrip_of_reads _ _ (fun m => m) m (GroupQuery_reads m H);
  wm_sound b := sound_of_yields _ _ (fun m => m) b GroupQuery_yields;
|}.

Lemma GroupStatus_reads s :
  is_u32 (gs_member_count s) -> reads_last GroupStatus_read (GroupStatus_encode s) s.
Proof.
  intros Hs. eapply reads_last_eq.
  { unfold GroupStatus_encode, GroupStatus_read. wire_simpl. do 2 reads_step. }
  by destruct s.
Qed.

Lemma GroupStatus_yields :
  yields GroupStatus_read (fun m => is_u32 (gs_member_count m) /\ m = m).
Proof. unfold GroupStatus_read. by repeat yields_step. Qed.

#[export] Instance GroupStatus_wire : WireMessage GroupStatus := {|
  wm_encode := GroupStatus_encode; wm_decode := GroupStatus_decode;
  wm_ok s := is_u32 (gs_member_count s); wm_view m := m;
  wm_roundtrip m H := roundtrip_of_reads _ _ (fun m => m) m (GroupStatus_reads m H);
  wm_sound b := sound_of_yields _ _ (fun m => m) b GroupStatus_yields;
|}.

Definition GroupJoin_ok (j : GroupJoin) : Prop :=
  valid_name (gj_name j) /\ fixed kSha256Size (gj_verifier j).

Lemma GroupJoin_reads j : GroupJoin_ok j -> reads_last GroupJoin_read (GroupJoin_encode j) j.
Proof.
  intros [Hn Hv]. eapply reads_last_eq.
  { unfold GroupJoin_encode, GroupJoin_read. wire_simpl.
    rewrite <- (app_nil_l (field (gj_verifier j))). do 3 reads_step. }
  by destruct j.
Qed.

Lemma GroupJoin_yields : yields GroupJoin_read (fun m => GroupJoin_ok m /\ m = m).
Proof. unfold GroupJoin_read. by repeat yields_step. Qed.

#[export] Instance GroupJoin_wire : WireMessage GroupJoin := {|
  wm_encode := GroupJoin_encode; wm_decode := GroupJoin_decode;
  wm_ok := GroupJoin_ok; wm_view m := m;
  wm_roundtrip m H := roundtrip_of_reads _ _ (fun m => m) m (GroupJoin_reads m H);
  wm_sound b := sound_of_yields _ _ (fun m => m) b GroupJoin_yields;
|}.

Definition GroupResult_ok (r : GroupResult) : Prop :=
  short_bytes (gr_message r) /\ is_u32 (gr_member_count r).

Lemma GroupResult_reads r :
  GroupResult_ok r -> reads_last GroupResult_read (GroupResult_encode r) r.
Proof.
  intros [[Hm _] Hn]. eapply reads_last_eq.
  { unfold GroupResult_encode, GroupResult_read. wire_simpl. reads_step.
    apply reads_last_guard; [by destruct (gr_outcome r)|]. do 2 reads_step. }
  cbv beta. rewrite outcome_of_to. by destruct r.
Qed.

Lemma GroupResult_yields : yields GroupResult_read (fun m => GroupResult_ok m /\ m = m).
Proof. unfold GroupResult_read. by repeat yields_step. Qed.

#[export] Instance GroupResult_wire : WireMessage GroupResult := {|
  wm_encode := GroupResult_encode; wm_decode := GroupResult_decode;
  wm_ok := GroupResult_ok; wm_view m := m;
  wm_roundtrip m H := roundtrip_of_reads _ _ (fun m => m) m (GroupResult_reads m H);
  wm_sound b := sound_of_yields _ _ (fun m => m) b GroupResult_yields;
|}.

Lemma GroupSendRequest_reads q :
  valid_name (gsr_name q) -> reads_last GroupSendRequest_read (GroupSendRequest_encode q) q.
Proof.
  intros Hq. eapply reads_last_eq.
  { unfold GroupSendRequest_encode, GroupSendRequest_read. wire_simpl.
    rewrite <- (app_nil_r (field _)). do 2 reads_step. }
  by destruct q.
Qed.

Lemma GroupSendRequest_yields :
  yields GroupSendRequest_read (fun m => valid_name (gsr_name m) /\ m = m).
Proof. unfold GroupSendRequest_read. by repeat yields_step. Qed.

#[export] Instance GroupSendRequest_wire : WireMessage GroupSendRequest := {|
  wm_encode := GroupSendRequest_encode; wm_decode := GroupSendRequest_decode;
  wm_ok q := valid_name (gsr_name q); wm_view m := m;
  wm_roundtrip m H := roundtrip_of_reads _ _ (fun m => m) m (GroupSendRequest_reads m H);
  wm_sound b := sound_of_yields _ _ (fun m => m) b GroupSendRequest_yields;
|}.

Definition GroupRoster_ok (r : GroupRoster) : Prop :=
  Forall valid_name (gro_usernames r) /\ len (gro_usernames r) <= kMaxGroupMembers.

Lemma reads_roster_name u : valid_name u -> reads take_roster_name (field u) u.
Proof.
  intros Hu. rewrite <- (app_nil_r (field u)).
  eapply reads_bind; [auto with reads|]. rewrite Hu. apply reads_ret.
Qed.

Lemma yields_roster_name : yields take_roster_name valid_name.
Proof. unfold take_roster_name. repeat yields_step. by apply negb_false. Qed.

Lemma GroupRoster_reads r :
  GroupRoster_ok r -> reads_last GroupRoster_read (GroupRoster_encode r) r.
Proof.
  intros [Hu Hn]. pose proof (len_nonneg (gro_usernames r)). unfold kMaxGroupMembers in Hn.
  eapply reads_last_eq.
  { unfold GroupRoster_encode, GroupRoster_read.
    rewrite (foldl_put put_string field) by apply put_string_app.
    rewrite u16_small by (split; lia). wire_simpl. eapply reads_last_bind.
    { apply reads_u16. split; lia. }
    apply reads_last_guard; [unfold kMaxGroupMembers; apply Z.ltb_ge; lia|].
    eapply reads_last_bind_ret. unfold len. rewrite Nat2Z.id.
    apply reads_is_last, (reads_repeat _ field (fun u => u)).
    apply (Forall_impl _ _ _ Hu). apply reads_roster_name. }
  cbv beta. rewrite list_fmap_id. by destruct r.
Qed.

Lemma GroupRoster_yields : yields GroupRoster_read (fun m => GroupRoster_ok m /\ m = m).
Proof.
  unfold GroupRoster_read. yields_step. yields_step.
  eapply yields_bind; [apply yields_repeat, yields_roster_name|]. intros us [Hl Hu].
  apply yields_ret. split; [split; [done|]|done]. cbn. unfold len. rewrite Hl.
  match goal with H : (_ <? _) = false |- _ => apply Z.ltb_ge in H end.
  match goal with H : is_u16 _ |- _ => destruct H end. lia.
Qed.

#[export] Instance GroupRoster_wire : WireMessage GroupRoster := {|
  wm_encode := GroupRoster_encode; wm_decode := GroupRoster_decode;
  wm_ok := GroupRoster_ok; wm_view m := m;
  wm_roundtrip m H := roundtrip_of_reads _ _ (fun m => m) m (GroupRoster_reads m H);
  wm_sound b := sound_of_yields _ _ (fun m => m) b GroupRoster_yields;
|}.

(** * TransferDecision *)

Definition TransferDecision_ok (d : TransferDecision) : Prop :=
  short_bytes (td_reason d) /\ short_bytes (td_output_directory d).

Lemma TransferDecision_reads d :
  TransferDecision_ok d -> reads_last TransferDecision_read (TransferDecision_encode d) d.
Proof.
  intros [[Hr _] [Ho _]]. eapply reads_last_eq.
  { unfold TransferDecision_encode, TransferDecision_read. wire_simpl. do 3 reads_step. }
  by destruct d.
Qed.

Lemma TransferDecision_yields :
  yields TransferDecision_read (fun m => TransferDecision_ok m /\ m = m).
Proof. unfold TransferDecision_read. by repeat yields_step. Qed.

#[export] Instance TransferDecision_wire : WireMessage TransferDecision := {|
  wm_encode := TransferDecision_encode; wm_decode := TransferDecision_decode;
  wm_ok := TransferDecision_ok; wm_view m := m;
  wm_roundtrip m H := roundtrip_of_reads _ _ (fun m => m) m (TransferDecision_reads m H);
  wm_sound b := sound_of_yields _ _ (fun m => m) b TransferDecision_yields;
|}.

(** * TransferOffer *)

Definition ManifestEntry_ok (e : ManifestEntry) : Prop :=
  is_safe_relative_path (me_path e) = true /\ bytes_ok (me_path e) /\ is_u64 (me_size e) /\
  is_u32 (me_mode e) /\ fixed kSha256Size (me_digest e).

(** The permission bits are all that survives of a mode. *)
Definition ManifestEntry_view (e : ManifestEntry) : ManifestEntry :=
  mk_ManifestEntry (me_path e) (me_size e) (Z.land (me_mode e) 511) (me_digest e).

Definition TransferOffer_ok (o : TransferOffer) : Prop :=
  valid_name (to_sender_username o) /\ short_bytes (to_display_name o) /\
  Forall ManifestEntry_ok (to_entries o) /\ len (to_entries o) <= kMaxManifestEntries /\
  sum_sizes (to_entries o) = to_total_bytes o /\ 1 <= to_chunk_size o <= max_chunk_size.

Definition TransferOffer_view (o : TransferOffer) : TransferOffer :=
  mk_TransferOffer (to_sender_username o) (to_display_name o)
    (ManifestEntry_view <$> to_entries o) (to_total_bytes o) (to_encrypt_payload o)
    (to_algorithm o) (to_chunk_size o) (to_digests_present o).

Definition entry_bytes (e : ManifestEntry) : bytes :=
  field (me_path e) ++ store_u64 (me_size e) ++ store_u32 (me_mode e) ++ field (me_digest e).

Lemma put_entry_app e w : put_entry e w = w ++ entry_bytes e.
Proof. unfold put_entry, entry_bytes. by wire_simpl. Qed.

Lemma safe_path_len p : is_safe_relative_path p = true -> 1 <= len p <= kMaxPathLength.
Proof.
  unfold is_safe_relative_path. intros H. pose proof (len_nonneg p).
  destruct (Z.eqb_spec (len p) 0); [done|]. destruct (Z.ltb_spec kMaxPathLength (len p)); [done|].
  lia.
Qed.

Lemma safe_path_short p : is_safe_relative_path p = true -> short p.
Proof. intros H%safe_path_len. unfold short, kMaxPathLength in *. lia. Qed.

Lemma reads_entry e :
  ManifestEntry_ok e -> reads take_entry (entry_bytes e) (ManifestEntry_view e).
Proof.
  intros (Hp & _ & Hs & Hm & Hd). pose proof (safe_path_short _ Hp). unfold entry_bytes, take_entry.
  eapply reads_bind; [auto with reads|]. rewrite <- (app_nil_l (store_u64 _ ++ _)).
  eapply (reads_bind _ _ _ _ (me_path e)).
  { unfold sanitize_relative_path. rewrite Hp. apply reads_ret. }
  eapply reads_bind; [auto with reads|]. eapply reads_bind; [auto with reads|].
  rewrite <- (app_nil_r (field _)). eapply reads_bind; [auto with reads|]. apply reads_ret.
Qed.

Lemma land_511_u32 z : 0 <= z -> is_u32 (Z.land z 511) /\ Z.land (Z.land z 511) 511 = Z.land z 511.
Proof.
  intros Hz. change 511 with (Z.ones 9). rewrite !Z.land_ones by lia.
  pose proof (Z.mod_pos_bound z (2 ^ 9) ltac:(lia)). rewrite Zmod_mod. unfold is_u. lia.
Qed.

Lemma yields_entry :
  yields take_entry (fun e => ManifestEntry_ok e /\ ManifestEntry_view e = e).
Proof.
  unfold take_entry. yields_step. eapply (yields_bind _ _ (fun p => is_safe_relative_path p = true /\ bytes_ok p)).
  { unfold sanitize_relative_path. destruct (is_safe_relative_path a) eqn:E.
    - apply (yields_ret a). split; [done|]. by destruct H.
    - by apply (yields_throw (Error _)). }
  intros p [Hp Hb]. repeat yields_step.
  match goal with H : is_u32 ?m |- context [Z.land ?m 511] =>
    destruct (land_511_u32 m (proj1 H)) as [? Hm] end.
  unfold ManifestEntry_ok, ManifestEntry_view. cbn. rewrite Hm. by split_and!.
Qed.

Lemma sum_sizes_view es : sum_sizes (ManifestEntry_view <$> es) = sum_sizes es.
Proof.
  unfold sum_sizes. generalize 0. induction es as [|e es IH]; intros z; csimpl; [done|]. apply IH.
Qed.

Lemma sum_sizes_range es : is_u64 (sum_sizes es).
Proof.
  unfold sum_sizes. assert (is_u64 0) as H0 by done. revert H0. generalize 0.
  induction es as [|e es IH]; intros z Hz; csimpl; [done|]. apply IH, u64_range.
Qed.

Lemma algorithm_guard a :
  negb (algorithm_to_u8 a =? 1) && negb (algorithm_to_u8 a =? 2) = false.
Proof. by destruct a. Qed.

Lemma chunk_size_guard n :
  1 <= n <= max_chunk_size -> (n =? 0) || (max_chunk_size <? n) = false.
Proof.
  intros. destruct (Z.eqb_spec n 0); [lia|]. destruct (Z.ltb_spec max_chunk_size n); [lia|done].
Qed.

Lemma TransferOffer_reads o :
  TransferOffer_ok o -> reads_last TransferOffer_read (TransferOffer_encode o) (TransferOffer_view o).
Proof.
  intros (Hs & [Hd _] & He & Hn & Ht & Hc). pose proof (sum_sizes_range (to_entries o)) as Hsum.
  rewrite Ht in Hsum. pose proof (len_nonneg (to_entries o)). unfold kMaxManifestEntries in Hn.
  assert (is_u32 (to_chunk_size o)) by (revert Hc; change max_chunk_size with 2097112; unfold is_u; lia).
  unfold TransferOffer_view. rewrite <- (algorithm_of_to (to_algorithm o)).
  unfold TransferOffer_encode, TransferOffer_read.
  rewrite (foldl_put put_entry entry_bytes) by apply put_entry_app.
  rewrite u32_small by (split; lia). wire_simpl.
  do 5 reads_step. apply reads_last_guard; [apply algorithm_guard|]. do 2 reads_step.
  apply reads_last_guard; [by apply chunk_size_guard|]. reads_step.
  eapply reads_last_bind. { apply reads_u32. split; lia. }
  apply reads_last_guard; [apply Z.ltb_ge; unfold kMaxManifestEntries; lia|].
  rewrite <- (app_nil_r (mjoin _)). eapply reads_last_bind.
  { unfold len. rewrite Nat2Z.id. apply (reads_repeat _ entry_bytes ManifestEntry_view).
    apply (Forall_impl _ _ _ He). apply reads_entry. }
  apply reads_last_guard; [by rewrite sum_sizes_view, Ht, Z.eqb_refl|].
  apply reads_is_last, reads_ret.
Qed.

Lemma wire_entries es :
  Forall (fun e => ManifestEntry_ok e /\ ManifestEntry_view e = e) es ->
  Forall ManifestEntry_ok es /\ ManifestEntry_view <$> es = es.
Proof.
  induction 1 as [|e es [He1 He2] _ [IH1 IH2]]; [done|]. csimpl.
  split; [by constructor|by rewrite He2, IH2].
Qed.

Lemma TransferOffer_yields :
  yields TransferOffer_read (fun m => TransferOffer_ok m /\ TransferOffer_view m = m).
Proof.
  unfold TransferOffer_read. do 12 yields_step.
  match goal with H : is_u32 ?n, H' : (_ <? ?n) = false |- context [Z.to_nat ?n] =>
    destruct H as [? _]; apply Z.ltb_ge in H' end.
  eapply yields_bind; [apply yields_repeat, yields_entry|]. intros es [Hl [Hes Hv]%wire_entries].
  yields_step. yields_step.
  unfold TransferOffer_ok, TransferOffer_view. cbn -[sum_sizes]. rewrite Hv.
  assert (len es <= kMaxManifestEntries) by (unfold len; lia).
  match goal with H : (?n =? 0) || _ = false, H' : is_u32 ?n |- _ =>
    apply orb_false_elim in H as [Hn0%Z.eqb_neq Hn1%Z.ltb_ge]; destruct H' end.
  split_and!; try done; try lia. by apply negb_false.
Qed.

#[export] Instance TransferOffer_wire : WireMessage TransferOffer := {|
  wm_encode := TransferOffer_encode; wm_decode := TransferOffer_decode;
  wm_ok := TransferOffer_ok; wm_view := TransferOffer_view;
  wm_roundtrip m H := roundtrip_of_reads _ _ _ m (TransferOffer_reads m H);
  wm_sound b := sound_of_yields _ _ _ b TransferOffer_yields;
|}.

(** * Messages over a connection *)

Lemma read_exact_loop_error evs n got e evs' :
  read_exact_loop evs n got = (Err e, evs') -> e <> OutOfBounds.
Proof.
  revert n got. induction evs as [|ev evs IH]; intros n got; simpl; destruct (n <=? 0); try done.
  - by intros [= <- _].
  - destruct ev as [[|b bs]| | |[]|]; try apply IH; try by intros [= <- _].
    destruct (n <? _); [done|apply IH].
Qed.

Lemma read_exact_result n s r s' :
  0 <= n -> read_exact n s = (r, s') -> bytes_ok (rx_stream (rx s)) ->
  match r with
  | Ok b => len b = n /\ bytes_ok b /\ bytes_ok (rx_stream (rx s'))
  | Err e => e <> OutOfBounds
  end.
Proof.
  intros Hn H Hok. unfold read_exact in H. destruct (read_exact_loop _ _ _) as [r' rx'] eqn:E.
  injection H as <- <-. destruct r' as [b|e]; [|by eapply read_exact_loop_error].
  apply read_exact_loop_spec in E as (bs & -> & Hl & Hs); [|done].
  rewrite Hs in Hok. apply bytes_ok_app in Hok as [? ?]. done.
Qed.

Lemma decode_frame_header_total b :
  len b = kFrameHeaderSize -> bytes_ok b ->
  match decode_frame_header b with
  | Ok h => 0 <= length_ h <= kMaxFrameLength
  | Err e => is_dz_error e = true
  end.
Proof.
  intros Hl Hb. unfold decode_frame_header, kFrameHeaderSize in *.
  destruct b as [|v [|t b]]; [done..|].
  destruct (load_u16_total (zdrop 2 (v :: t :: b))) as (fl & -> & _);
    [rewrite len_zdrop; lia|].
  destruct (load_u32_total (zdrop 4 (v :: t :: b))) as (n & -> & [Hn _]);
    [rewrite len_zdrop; lia|].
  cbn [version length_]. destruct (negb (v =? _)); [done|].
  destruct (Z.ltb_spec kMaxFrameLength n); [done|]. cbn. lia.
Qed.

Lemma read_frame_result s r s' :
  read_frame s = (r, s') -> bytes_ok (rx_stream (rx s)) ->
  match r with
  | Ok f => bytes_ok (payload f) /\ len (payload f) = length_ (header f) /\
            len (payload f) <= kMaxFrameLength
  | Err e => e <> OutOfBounds
  end.
Proof.
  intros H Hok. unfold read_frame, mbind at 1 in H.
  destruct (read_exact kFrameHeaderSize s) as [r1 s1] eqn:E1.
  apply read_exact_result in E1; [|done|done].
  destruct r1 as [b|e]; [|by injection H as <- _].
  destruct E1 as (Hl & Hb & Hs1). pose proof (decode_frame_header_total b Hl Hb) as Hd.
  unfold mbind at 1, mlift in H. destruct (decode_frame_header b) as [h|e];
    [|injection H as <- _; by destruct e].
  unfold mbind in H. destruct (Z.ltb_spec 0 (length_ h)).
  - destruct (read_exact (length_ h) s1) as [r2 s2] eqn:E2.
    apply read_exact_result in E2; [|lia|done].
    destruct r2 as [p|e]; injection H as <- _; [|done]. cbn. destruct E2 as (? & ? & ?).
    split_and!; [done|done|lia].
  - injection H as <- _. cbn. split_and!; [constructor| |]; rewrite len_nil; lia.
Qed.

Lemma read_expected_stream t fl data rest s :
  type_ok t -> is_u16 fl -> len data <= kMaxFrameLength ->
  rx_stream (rx s) = frame_bytes t fl data ++ rest ->
  exists s', read_expected t s = (Ok (mk_frame (out_header t fl (len data)) data), s') /\
    rx_stream (rx s') = rest.
Proof.
  intros Ht Hf Hd Hs. destruct (read_frame_stream t fl data rest s Ht Hf Hd Hs) as (s' & E & Hr & _).
  exists s'. split; [|done]. unfold read_expected. erewrite mbind_ok by exact E. cbn.
  by rewrite bool_decide_eq_true_2.
Qed.

Section Delivery.
Context {A : Type} `{WireMessage A}.

(** C11. A message written with [write_frame] and read from the other end of the
    stream by [read_expected] decodes to the message, however the kernel split
    either side's calls. *)
Theorem message_delivery t fl m w w' sent r rest :
  type_ok t -> is_u16 fl -> wm_ok m -> len (wm_encode m) <= kMaxFrameLength ->
  write_frame t (wm_encode m) fl w = (Ok tt, w') ->
  wire w' = wire w ++ sent ->
  rx_stream (rx r) = sent ++ rest ->
  exists f r', read_expected t r = (Ok f, r') /\ rx_stream (rx r') = rest /\
    type (header f) = t /\ flags (header f) = fl /\ wm_decode (payload f) = Ok (wm_view m).
Proof.
  intros Ht Hf Hm Hl Hw Hsent Hr.
  destruct (write_frame_wire _ _ _ _ _ _ Hw Hl) as (d & l & Hfb & Hwire & Hleft).
  rewrite Hleft, app_nil_r in Hfb by done. subst d.
  rewrite Hwire in Hsent. apply app_inv_head in Hsent as <-.
  destruct (read_expected_stream t fl _ rest r Ht Hf Hl Hr) as (r' & E & Hrest).
  eexists _, r'. split; [exact E|]. cbn. split_and!; [done..|]. by apply wm_roundtrip.
Qed.

(** C23. Whatever bytes a peer sends, reading a frame and decoding its payload
    touches nothing outside the buffers: the outcome is a well-formed message, an
    exception of the program, or a call that is still waiting. *)
Theorem hostile_input_safe s r s' :
  bytes_ok (rx_stream (rx s)) -> read_frame s = (r, s') ->
  match r with
  | Ok f => len (payload f) = length_ (header f) /\ len (payload f) <= kMaxFrameLength /\
            match wm_decode (payload f) with
            | Ok m => wm_ok m /\ wm_view m = m
            | Err e => is_dz_error e = true
            end
  | Err e => e <> OutOfBounds
  end.
Proof.
  intros Hok Hr. apply read_frame_result in Hr; [|done].
  destruct r as [f|e]; [|done]. destruct Hr as (Hb & Hl & Hm). split_and!; [done..|].
  by apply wm_sound.
Qed.
End Delivery.

Lemma message_delivery_witness :
  let m := mk_GroupQuery (str "team") in
  let b := frame_bytes GroupQueryT 0 (GroupQuery_encode m) in
  exists f r', read_expected GroupQueryT (mk_ksock [RxData (take 3 b); RxEintr; RxData (drop 3 b)] [] []) = (Ok f, r') /\
    GroupQuery_decode (payload f) = Ok m.
Proof.
  intros m b.
  assert (write_frame GroupQueryT (wm_encode m) 0 (mk_ksock [] [TxWrote 5; TxAgain true; TxWrote 100] []) =
    (Ok tt, mk_ksock [] [] b)) as Hw by (by vm_compute).
  destruct (message_delivery GroupQueryT 0 m _ _ b (mk_ksock [RxData (take 3 b); RxEintr; RxData (drop 3 b)] [] []) []
    ltac:(done) ltac:(done) ltac:(done) ltac:(done) Hw eq_refl ltac:(by vm_compute)) as (f & r' & E & _ & _ & _ & D).
  exists f, r'. split; [exact E|exact D].
Defined.

Lemma hostile_input_safe_witness :
  let s := mk_ksock [RxData (frame_bytes GroupQueryT 0 [9; 0; 0; 0; 1])] [] [] in
  match (read_frame s).1 with
  | Ok f => match GroupQuery_decode (payload f) with Ok _ => False | Err e => is_dz_error e = true end
  | Err _ => False
  end.
Proof.
  intros s. pose proof (hostile_input_safe (A := GroupQuery) s (read_frame s).1 (read_frame s).2) as H.
  assert (bytes_ok (rx_stream (rx s))) as Hs by (repeat constructor; by vm_compute).
  specialize (H Hs (surjective_pairing _)). vm_compute in H |- *. exact (proj2 (proj2 H)).
Defined.

(** * Chunk headers and reflexive replies *)

Definition ChunkHeader_ok (h : ChunkHeader) : Prop :=
  is_u32 (c_file_index h) /\ is_u32 (c_plaintext_length h) /\ is_u64 (c_offset h) /\
  is_u64 (c_counter h).

Lemma encode_chunk_header_len h : len (encode_chunk_header h) = kChunkHeaderSize.
Proof. done. Qed.

Lemma decode_encode_chunk_header h rest :
  ChunkHeader_ok h -> decode_chunk_header (encode_chunk_header h ++ rest) = Ok h.
Proof.
  destruct h as [fi pl off ctr]. intros (H1 & H2 & H3 & H4). cbn in H1, H2, H3, H4.
  unfold encode_chunk_header, decode_chunk_header. cbn [c_file_index c_plaintext_length c_offset c_counter].
  rewrite <- !app_assoc.
  rewrite load_store_u32 by done.
  rewrite (zdrop_app_len_eq 4) by done. rewrite load_store_u32 by done.
  rewrite (app_assoc (store_u32 fi) (store_u32 pl)), (zdrop_app_len_eq 8), load_store_u64 by done.
  rewrite (app_assoc (_ ++ _) (store_u64 off)), (zdrop_app_len_eq 16), load_store_u64 by done.
  done.
Qed.

Lemma decode_chunk_header_ok b :
  bytes_ok b -> kChunkHeaderSize <= len b ->
  exists h, decode_chunk_header b = Ok h /\ ChunkHeader_ok h.
Proof.
  unfold kChunkHeaderSize. intros Hb Hl. unfold decode_chunk_header.
  destruct (load_u32_total b) as (v1 & -> & ?); [lia|].
  destruct (load_u32_total (zdrop 4 b)) as (v2 & -> & ?);
    [rewrite len_zdrop; lia|].
  destruct (load_u64_total (zdrop 8 b)) as (v3 & -> & ?);
    [rewrite len_zdrop; lia|].
  destruct (load_u64_total (zdrop 16 b)) as (v4 & -> & ?);
    [rewrite len_zdrop; lia|].
  eexists. split; [done|]. done.
Qed.

(** A reply always fits its buffer and is read back as the observed address. *)
Lemma reflexive_reply_roundtrip e :
  endpoint_ok e ->
  exists b, encode_reflexive_reply e kMaxReflexiveReplySize = Ok b /\
    decode_reflexive_reply b = Some (wire_view e).
Proof.
  intros He. unfold encode_reflexive_reply. rewrite put_endpoint_app.
  change (put_raw kReflexiveReplyMagic []) with kReflexiveReplyMagic.
  assert (len (endpoint_bytes e) <= 19) as Hl.
  { destruct e as [p a|p f a s|f]; unfold endpoint_bytes; cbn [put_endpoint]; [| |done];
      unfold put_raw; rewrite len_app, len_ztake_min by lia; change (len (put_u16 _ _)) with 3; lia. }
  rewrite len_app. change (len kReflexiveReplyMagic) with 4. unfold kMaxReflexiveReplySize.
  destruct (Z.ltb_spec 32 (4 + len (endpoint_bytes e))); [lia|].
  eexists. split; [done|]. unfold decode_reflexive_reply. rewrite len_app.
  change (len kReflexiveReplyMagic) with 4. pose proof (len_nonneg (endpoint_bytes e)).
  destruct (Z.ltb_spec (4 + len (endpoint_bytes e)) 4); [lia|].
  rewrite ztake_app_len_eq, zdrop_app_len_eq by done. rewrite bool_decide_eq_true_2 by done. cbn [negb].
  unfold decode_with. by rewrite (reads_run _ _ _ (reads_is_last _ _ _ (reads_endpoint e He))).
Qed.

(** * Sizes *)

Lemma endpoint_bytes_le e : len (endpoint_bytes e) <= 19.
Proof.
  destruct e as [p a|p f a s|f]; unfold endpoint_bytes; cbn [put_endpoint]; [| |done];
    unfold put_raw; rewrite len_app, len_ztake_min by lia; change (len (put_u16 _ _)) with 3; lia.
Qed.

Lemma endpoints_bytes_le es : len (mjoin (endpoint_bytes <$> es)) <= 19 * len es.
Proof.
  induction es as [|e es IH]; csimpl; [done|]. rewrite len_app, len_cons.
  pose proof (endpoint_bytes_le e). lia.
Qed.

Lemma len_store_u16 v : len (store_u16 v) = 2.
Proof. done. Qed.
Lemma len_store_u32 v : len (store_u32 v) = 4.
Proof. done. Qed.
Lemma len_store_u64 v : len (store_u64 v) = 8.
Proof. done. Qed.
Lemma len_one (v : Z) : len [v] = 1.
Proof. done. Qed.

Ltac size_simpl :=
  wire_simpl; rewrite ?len_app, ?field_len, ?len_store_u16, ?len_store_u32, ?len_store_u64, ?len_one;
  unfold kMaxFrameLength, kMaxUsernameLength, kMaxGroupMembers in *.

Lemma ServerHello_size h : len (sh_message h) <= 256 -> len (ServerHello_encode h) <= kMaxFrameLength.
Proof.
  intros Hm. unfold ServerHello_encode. size_simpl.
  pose proof (endpoint_bytes_le (sh_reflexive_tcp h)). pose proof (endpoint_bytes_le (sh_reflexive_udp h)).
  lia.
Qed.

Lemma GroupResult_size r : len (gr_message r) <= 256 -> len (GroupResult_encode r) <= kMaxFrameLength.
Proof. intros Hm. unfold GroupResult_encode. size_simpl. lia. Qed.

Lemma GroupRoster_size r :
  len (gro_usernames r) <= kMaxGroupMembers ->
  Forall (fun u => len u <= kMaxUsernameLength) (gro_usernames r) ->
  len (GroupRoster_encode r) <= kMaxFrameLength.
Proof.
  intros Hn Hu. unfold GroupRoster_encode.
  rewrite (foldl_put put_string field) by apply put_string_app. size_simpl.
  assert (len (mjoin (field <$> gro_usernames r)) <= 68 * len (gro_usernames r)); [|lia].
  clear Hn. induction Hu as [|u us Hu _ IH]; [done|].
  rewrite mjoin_fmap_cons, len_app, len_cons, field_len. lia.
Qed.

Definition introduction_fits (p : PeerIntroduction) : Prop :=
  len (pi_username p) <= 64 /\ len (pi_identity_key p) = 32 /\ len (pi_session_key p) = 32 /\
  len (pi_candidates p) <= 2 ^ 16 /\ len (pi_proof p) = 32 /\ len (pi_signature p) = 64 /\
  len (pi_group_name p) <= 64.

Lemma PeerIntroduction_size p :
  introduction_fits p -> len (PeerIntroduction_encode p) <= kMaxFrameLength.
Proof.
  intros (H1 & H2 & H3 & H4 & H5 & H6 & H7). unfold PeerIntroduction_encode. rewrite put_group. size_simpl.
  pose proof (endpoints_bytes_le (pi_candidates p)).
  assert (len (if negb (len (pi_group_name p) =? 0) then field (pi_group_name p) else []) <= 68).
  { destruct (negb _); [rewrite field_len; lia|done]. }
  lia.
Qed.

Lemma valid_group_len g : valid_group g -> len g <= 64.
Proof. intros [->|H]; [done|]. apply valid_name_len in H. unfold kMaxUsernameLength in H. lia. Qed.

Lemma valid_name_le u : valid_name u -> len u <= 64.
Proof. intros H%valid_name_len. unfold kMaxUsernameLength in H. lia. Qed.

Lemma SendRequest_size q : SendRequest_ok q -> len (SendRequest_encode q) <= 400.
Proof.
  intros (Ht%valid_name_le & [Hp _] & [Hs _] & Hg%valid_group_len). unfold SendRequest_encode. rewrite put_group. size_simpl.
  unfold kSha256Size, kEd25519SignatureSize in *.
  assert (len (if negb (len (sr_group_name q) =? 0) then field (sr_group_name q) else []) <= 68).
  { destruct (negb _); [rewrite field_len; lia|done]. }
  lia.
Qed.
