(* ===== verification/Connection.v ===== *)
(** One client of the rendezvous server, [server/src/connection.cpp] and
    [server/include/dz/server/connection.hpp].

    A [Connection] holds the fields of the class, with the socket behind its
    descriptor as the kernel script of [Socket]. The input and output buffers keep
    their consumed and sent cursors and the compaction of the code; [unread] and
    [pending] are the byte queues they implement. An exhausted script is a socket
    that would block. A weak pointer to a connection is its id, and [heap] is the
    set of connection objects that are still alive. *)

From S2P Require Import Prelude Socket Frame Protocol.

Definition kReadBatch : Z := 64 * 1024.
Definition kMaxInputBuffer : Z := kMaxFrameLength + kFrameHeaderSize + kReadBatch.
Definition kRelayPauseThreshold : Z := 4 * 1024 * 1024.
Definition kRelayResumeThreshold : Z := 1024 * 1024.

Inductive ConnectionState :=
  | AwaitingHello | ReceiverIdle | ReceiverMatched | SenderIdle | SenderWaiting | Relaying
  | Closing.

#[global] Instance ConnectionState_eq_dec : EqDecision ConnectionState.
Proof. solve_decision. Defined.

Definition connection_state_name (s : ConnectionState) : bytes :=
  str match s with
  | AwaitingHello => "awaiting-hello" | ReceiverIdle => "receiver-idle"
  | ReceiverMatched => "receiver-matched" | SenderIdle => "sender-idle"
  | SenderWaiting => "sender-waiting" | Relaying => "relaying" | Closing => "closing"
  end.

(** [input_], [input_consumed_] and [peer_closed_]. *)
Record inbuf := mk_inbuf { input_ : bytes; input_consumed_ : Z; peer_closed_ : bool }.

(** [output_] and [output_sent_]. *)
Record outbuf := mk_outbuf { output_ : bytes; output_sent_ : Z }.

Record Connection := mk_Connection {
  fd : Z;
  id_ : Z;
  shard_index : Z;
  state : ConnectionState;
  hello : option ClientHello;
  claimed_username : bytes;
  pairing_id : Z;
  joined_group : bytes;
  relay_peer_ : option Z;
  observed_endpoint : Endpoint;
  rate_limit_key : Z;
  last_activity_ms : Z;
  inb : inbuf;
  outb : outbuf;
  read_paused : bool;
  close_requested : option bytes;
  sock : ksock;
}.

(** [hello_received]: the stored hello is meaningful only when it is set. *)
Definition hello_received (c : Connection) : bool := bool_decide (is_Some (hello c)).

Definition new_connection (fd id shard : Z) (observed : Endpoint) (key now : Z) (s : ksock)
  : Connection :=
  mk_Connection fd id shard AwaitingHello None [] 0 [] None observed key now
    (mk_inbuf [] 0 false) (mk_outbuf [] 0) false None s.

(** ** Assignments to one field *)

Definition set_state v c := mk_Connection (fd c) (id_ c) (shard_index c) v (hello c)
  (claimed_username c) (pairing_id c) (joined_group c) (relay_peer_ c) (observed_endpoint c)
  (rate_limit_key c) (last_activity_ms c) (inb c) (outb c) (read_paused c) (close_requested c) (sock c).
Definition set_hello v c := mk_Connection (fd c) (id_ c) (shard_index c) (state c) v
  (claimed_username c) (pairing_id c) (joined_group c) (relay_peer_ c) (observed_endpoint c)
  (rate_limit_key c) (last_activity_ms c) (inb c) (outb c) (read_paused c) (close_requested c) (sock c).
Definition set_claimed v c := mk_Connection (fd c) (id_ c) (shard_index c) (state c) (hello c)
  v (pairing_id c) (joined_group c) (relay_peer_ c) (observed_endpoint c)
  (rate_limit_key c) (last_activity_ms c) (inb c) (outb c) (read_paused c) (close_requested c) (sock c).
Definition set_pairing v c := mk_Connection (fd c) (id_ c) (shard_index c) (state c) (hello c)
  (claimed_username c) v (joined_group c) (relay_peer_ c) (observed_endpoint c)
  (rate_limit_key c) (last_activity_ms c) (inb c) (outb c) (read_paused c) (close_requested c) (sock c).
Definition set_group v c := mk_Connection (fd c) (id_ c) (shard_index c) (state c) (hello c)
  (claimed_username c) (pairing_id c) v (relay_peer_ c) (observed_endpoint c)
  (rate_limit_key c) (last_activity_ms c) (inb c) (outb c) (read_paused c) (close_requested c) (sock c).
Definition attach_relay_peer v c := mk_Connection (fd c) (id_ c) (shard_index c) (state c) (hello c)
  (claimed_username c) (pairing_id c) (joined_group c) (Some v) (observed_endpoint c)
  (rate_limit_key c) (last_activity_ms c) (inb c) (outb c) (read_paused c) (close_requested c) (sock c).
Definition set_activity v c := mk_Connection (fd c) (id_ c) (shard_index c) (state c) (hello c)
  (claimed_username c) (pairing_id c) (joined_group c) (relay_peer_ c) (observed_endpoint c)
  (rate_limit_key c) v (inb c) (outb c) (read_paused c) (close_requested c) (sock c).
Definition set_in v c := mk_Connection (fd c) (id_ c) (shard_index c) (state c) (hello c)
  (claimed_username c) (pairing_id c) (joined_group c) (relay_peer_ c) (observed_endpoint c)
  (rate_limit_key c) (last_activity_ms c) v (outb c) (read_paused c) (close_requested c) (sock c).
Definition set_out v c := mk_Connection (fd c) (id_ c) (shard_index c) (state c) (hello c)
  (claimed_username c) (pairing_id c) (joined_group c) (relay_peer_ c) (observed_endpoint c)
  (rate_limit_key c) (last_activity_ms c) (inb c) v (read_paused c) (close_requested c) (sock c).
Definition set_read_paused v c := mk_Connection (fd c) (id_ c) (shard_index c) (state c) (hello c)
  (claimed_username c) (pairing_id c) (joined_group c) (relay_peer_ c) (observed_endpoint c)
  (rate_limit_key c) (last_activity_ms c) (inb c) (outb c) v (close_requested c) (sock c).
Definition set_close v c := mk_Connection (fd c) (id_ c) (shard_index c) (state c) (hello c)
  (claimed_username c) (pairing_id c) (joined_group c) (relay_peer_ c) (observed_endpoint c)
  (rate_limit_key c) (last_activity_ms c) (inb c) (outb c) (read_paused c) v (sock c).
Definition set_sock v c := mk_Connection (fd c) (id_ c) (shard_index c) (state c) (hello c)
  (claimed_username c) (pairing_id c) (joined_group c) (relay_peer_ c) (observed_endpoint c)
  (rate_limit_key c) (last_activity_ms c) (inb c) (outb c) (read_paused c) (close_requested c) v.

Definition request_close (reason : bytes) (c : Connection) : Connection :=
  match close_requested c with
  | Some _ => c
  | None => set_close (Some reason) c
  end.

(** * Reading *)

(** One non-blocking [recv] of at most [n] bytes. *)
Inductive recv_result := RGot (bs : bytes) | REof | REintr | RAgain | RFailed (errno : Z).

Definition recv (n : Z) (evs : list rx_event) : recv_result * list rx_event :=
  match evs with
  | [] => (RAgain, [])
  | RxEof :: _ | RxData [] :: _ => (REof, evs)
  | RxEintr :: evs => (REintr, evs)
  | RxAgain _ :: evs => (RAgain, evs)
  | RxFail e :: evs => (RFailed e, evs)
  | RxData bs :: evs =>
      if n <? len bs then (RGot (ztake n bs), RxData (zdrop n bs) :: evs) else (RGot bs, evs)
  end.

Definition compact (b : inbuf) : inbuf :=
  if (0 <? input_consumed_ b) &&
     ((64 * 1024 <=? input_consumed_ b) || (len (input_ b) / 2 <=? input_consumed_ b))
  then mk_inbuf (zdrop (input_consumed_ b) (input_ b)) 0 (peer_closed_ b)
  else b.

Definition input_at_cap (b : inbuf) : bool :=
  kMaxInputBuffer <=? len (input_ b) - input_consumed_ b.

(** [None] only when the fuel runs out. *)
Fixpoint read_loop (fuel : nat) (b : inbuf) (evs : list rx_event)
  : option (bool * inbuf * list rx_event) :=
  match fuel with
  | O => None
  | S fuel =>
      let b := compact b in
      if input_at_cap b then Some (true, b, evs)
      else match recv kReadBatch evs with
           | (RGot bs, evs) =>
               read_loop fuel (mk_inbuf (input_ b ++ bs) (input_consumed_ b) (peer_closed_ b)) evs
           | (REof, evs) => Some (false, mk_inbuf (input_ b) (input_consumed_ b) true, evs)
           | (REintr, evs) => read_loop fuel b evs
           | (RAgain, evs) => Some (true, b, evs)
           | (RFailed _, evs) => Some (false, mk_inbuf (input_ b) (input_consumed_ b) true, evs)
           end
  end.

(** Calls a script can still answer: every [recv] uses up an event or a byte. *)
Fixpoint rx_size (evs : list rx_event) : nat :=
  match evs with
  | [] => O
  | RxData bs :: evs => S (length bs + rx_size evs)
  | _ :: evs => S (rx_size evs)
  end.

Definition read_available (b : inbuf) (evs : list rx_event) : option (bool * inbuf * list rx_event) :=
  read_loop (S (rx_size evs)) b evs.

(** [Ok None] is the [false] return. *)
Definition next_frame (b : inbuf) : result (option (Frame * inbuf)) :=
  let available := len (input_ b) - input_consumed_ b in
  if available <? kFrameHeaderSize then Ok None
  else
    let cursor := zdrop (input_consumed_ b) (input_ b) in
    let? h := decode_frame_header cursor in
    if available <? kFrameHeaderSize + length_ h then Ok None
    else Ok (Some (mk_frame h (ztake (length_ h) (zdrop kFrameHeaderSize cursor)),
                   mk_inbuf (input_ b) (input_consumed_ b + (kFrameHeaderSize + length_ h))
                     (peer_closed_ b))).

(** * Writing *)

Definition enqueue_frame (t : MessageType) (payload : bytes) (fl : Z) (o : outbuf) : result outbuf :=
  if kMaxFrameLength <? len payload then Err (Error (str "refusing to enqueue an oversized frame"))
  else
    let header_bytes := encode_frame_header (out_header t fl (len payload)) in
    let o :=
      if (0 <? output_sent_ o) && (output_sent_ o =? len (output_ o)) then mk_outbuf [] 0
      else if 64 * 1024 <? output_sent_ o then mk_outbuf (zdrop (output_sent_ o) (output_ o)) 0
      else o in
    Ok (mk_outbuf ((output_ o ++ header_bytes) ++ payload) (output_sent_ o)).

Definition pending_output (o : outbuf) : Z := len (output_ o) - output_sent_ o.
Definition wants_write (o : outbuf) : bool := 0 <? pending_output o.

Fixpoint flush_loop (o : outbuf) (evs : list tx_event) (w : bytes)
  : bool * outbuf * (list tx_event * bytes) :=
  let remaining := len (output_ o) - output_sent_ o in
  if remaining =? 0 then (true, mk_outbuf [] 0, (evs, w))
  else match evs with
       | [] => (true, o, ([], w))
       | TxEintr :: evs => flush_loop o evs w
       | TxAgain _ :: evs => (true, o, (evs, w))
       | TxFail _ :: evs => (false, o, (evs, w))
       | TxWrote n :: evs =>
           let written := moved n remaining in
           let w' := w ++ ztake written (zdrop (output_sent_ o) (output_ o)) in
           if 0 <? written then
             let sent := output_sent_ o + written in
             if sent =? len (output_ o) then (true, mk_outbuf [] 0, (evs, w'))
             else flush_loop (mk_outbuf (output_ o) sent) evs w'
           else (false, o, (evs, w'))
       end.

(** * The buffers as byte queues *)

Definition unread (b : inbuf) : bytes := zdrop (input_consumed_ b) (input_ b).
Definition pending (o : outbuf) : bytes := zdrop (output_sent_ o) (output_ o).

Definition inbuf_ok (b : inbuf) : Prop := 0 <= input_consumed_ b <= len (input_ b).
Definition outbuf_ok (o : outbuf) : Prop := 0 <= output_sent_ o <= len (output_ o).

Lemma unread_len b : inbuf_ok b -> len (unread b) = len (input_ b) - input_consumed_ b.
Proof. intros H. apply len_zdrop. done. Qed.

Lemma pending_len o : outbuf_ok o -> len (pending o) = pending_output o.
Proof. intros H. apply len_zdrop. done. Qed.

Lemma compact_spec b :
  inbuf_ok b -> inbuf_ok (compact b) /\ unread (compact b) = unread b /\
  peer_closed_ (compact b) = peer_closed_ b.
Proof.
  intros H. unfold compact. destruct (_ && _); [|done].
  unfold inbuf_ok, unread. cbn. split_and!; [lia|apply len_nonneg|done|done].
Qed.

(** Everything a non-blocking socket will still deliver. *)
Fixpoint rx_rest (evs : list rx_event) : bytes :=
  match evs with
  | RxData [] :: _ | RxEof :: _ | RxFail _ :: _ | [] => []
  | RxData bs :: evs => bs ++ rx_rest evs
  | RxEintr :: evs | RxAgain _ :: evs => rx_rest evs
  end.

(** What one [recv] takes off the socket. *)
Lemma recv_spec n evs r evs' :
  0 < n -> recv n evs = (r, evs') ->
  match r with
  | RGot bs => 0 < len bs <= n /\ rx_rest evs = bs ++ rx_rest evs' /\
               (rx_size evs' < rx_size evs)%nat
  | REintr => rx_rest evs = rx_rest evs' /\ (rx_size evs' < rx_size evs)%nat
  | RAgain => rx_rest evs = rx_rest evs'
  | REof | RFailed _ => rx_rest evs = []
  end.
Proof.
  intros Hn. destruct evs as [|[[|b bs']| | |a|e] evs]; cbn [recv];
    try (intros [= <- <-]; cbn; auto with lia).
  set (w := b :: bs'). assert (0 < len w) by (unfold len, w; cbn; lia).
  destruct (Z.ltb_spec n (len w)); intros [= <- <-].
  - rewrite len_ztake by lia. split_and!; [lia|lia| |].
    + assert (len (zdrop n w) <> 0) by (rewrite len_zdrop by lia; lia).
      cbn [rx_rest]. destruct (zdrop n w) as [|c cs] eqn:E; [done|].
      rewrite app_assoc. unfold w. f_equal. rewrite <- E. symmetry. apply ztake_zdrop.
    + cbn [rx_size]. pose proof (len_zdrop n w ltac:(lia)). unfold w, len in *. lia.
  - split_and!; [lia|lia|done|]. cbn [rx_size]. lia.
Qed.

Lemma read_loop_spec fuel b evs open b' evs' :
  read_loop fuel b evs = Some (open, b', evs') -> inbuf_ok b ->
  inbuf_ok b' /\ exists got, unread b' = unread b ++ got /\
    (len (unread b') < kMaxInputBuffer + kReadBatch \/ got = []) /\
    (if open then rx_rest evs = got ++ rx_rest evs' else rx_rest evs = got).
Proof.
  revert b evs. induction fuel as [|fuel IH]; intros b evs; cbn [read_loop]; [done|].
  intros H Hb. destruct (compact_spec b Hb) as (Hc & Hu & _).
  destruct (input_at_cap (compact b)) eqn:Ecap.
  { injection H as <- <- <-. split; [done|]. exists []. rewrite app_nil_r. auto. }
  assert (len (unread b) < kMaxInputBuffer) as Hcap.
  { rewrite <- Hu, unread_len by done. by apply Z.leb_gt. }
  destruct (recv kReadBatch evs) as [r evs1] eqn:Er. apply recv_spec in Er; [|done].
  destruct r as [bs| | | |e].
  - destruct Er as (Hl & Hs & _). set (b1 := mk_inbuf _ _ _) in H.
    assert (unread b1 = unread b ++ bs) as Hu1.
    { rewrite <- Hu. unfold unread, b1. cbn. by apply zdrop_app_le. }
    apply IH in H as (Hb' & got & Hg & Hlen & Hr).
    2: { unfold inbuf_ok, b1 in *. cbn. rewrite len_app. pose proof (len_nonneg bs). lia. }
    split; [done|]. exists (bs ++ got). rewrite Hg, Hu1, <- app_assoc. split_and!; [done| |].
    + left. destruct Hlen as [Hlen| ->]; [by rewrite Hg, Hu1, <- app_assoc in Hlen|].
      rewrite app_nil_r, len_app. lia.
    + rewrite Hs. destruct open; rewrite Hr; [by rewrite app_assoc|done].
  - injection H as <- <- <-. split; [done|]. exists []. rewrite app_nil_r. auto.
  - destruct Er as [Hs _]. apply IH in H as (Hb' & got & Hg & Hlen & Hr); [|done].
    split; [done|]. exists got. rewrite Hg, Hu, Hs. rewrite Hg, Hu in Hlen. auto.
  - injection H as <- <- <-. split; [done|]. exists []. rewrite app_nil_r. auto.
  - injection H as <- <- <-. split; [done|]. exists []. rewrite app_nil_r. auto.
Qed.

(** The loop stops: [read_available] always has fuel left. *)
Lemma read_loop_total fuel b evs : (rx_size evs < fuel)%nat -> is_Some (read_loop fuel b evs).
Proof.
  revert b evs. induction fuel as [|fuel IH]; intros b evs Hf; [lia|]. cbn [read_loop].
  destruct (input_at_cap (compact b)); [eauto|].
  destruct (recv kReadBatch evs) as [r evs1] eqn:Er. apply recv_spec in Er; [|done].
  destruct r as [bs| | | |e]; [destruct Er as (_ & _ & ?)| |destruct Er| |];
    eauto; apply IH; lia.
Qed.

(** ** Frames out of the input queue *)

Lemma next_frame_full b t fl data rest :
  inbuf_ok b -> type_ok t -> is_u16 fl -> len data <= kMaxFrameLength ->
  unread b = frame_bytes t fl data ++ rest ->
  exists b', next_frame b = Ok (Some (mk_frame (out_header t fl (len data)) data, b')) /\
    inbuf_ok b' /\ unread b' = rest.
Proof.
  intros Hb Ht Hf Hd Hu. pose proof (unread_len b Hb) as Hul. rewrite Hu in Hul.
  unfold frame_bytes in *. rewrite <- app_assoc in Hu.
  rewrite !len_app, encode_frame_header_len in Hul. unfold kFrameHeaderSize in *.
  pose proof (len_nonneg data). pose proof (len_nonneg rest).
  assert (u32 (len data) = len data) as Hl.
  { apply u32_small. unfold is_u, kMaxFrameLength in *. lia. }
  unfold next_frame, kFrameHeaderSize. fold (unread b).
  destruct (Z.ltb_spec (len (input_ b) - input_consumed_ b) 8); [lia|].
  rewrite Hu, decode_encode_header.
  2: { split_and!; cbn; [done|done|done| |]; rewrite Hl; lia. }
  cbn [out_header length_]. rewrite Hl.
  destruct (Z.ltb_spec (len (input_ b) - input_consumed_ b) (8 + len data)); [lia|].
  rewrite zdrop_app_len_eq, ztake_app_len by done. eexists. split; [done|]. unfold inbuf_ok, unread.
  cbn. split; [unfold inbuf_ok in Hb; lia|]. rewrite <- zdrop_zdrop by (unfold inbuf_ok in Hb; lia).
  fold (unread b). rewrite Hu, app_assoc. apply zdrop_app_len_eq.
  rewrite len_app, encode_frame_header_len. done.
Qed.

Lemma next_frame_partial b t fl data seen rest :
  inbuf_ok b -> type_ok t -> is_u16 fl -> len data <= kMaxFrameLength ->
  unread b = seen -> frame_bytes t fl data = seen ++ rest -> rest <> [] ->
  next_frame b = Ok None.
Proof.
  intros Hb Ht Hf Hd Hu Hfb Hne. pose proof (unread_len b Hb) as Hul. rewrite Hu in Hul.
  assert (0 < len rest) by (destruct rest; [done|]; unfold len; cbn; lia).
  pose proof (f_equal len Hfb) as Hlen. unfold frame_bytes in *.
  rewrite !len_app, encode_frame_header_len in Hlen. unfold kFrameHeaderSize in *.
  pose proof (len_nonneg data).
  assert (u32 (len data) = len data) as Hl.
  { apply u32_small. unfold is_u, kMaxFrameLength in *. lia. }
  unfold next_frame, kFrameHeaderSize. fold (unread b).
  destruct (Z.ltb_spec (len (input_ b) - input_consumed_ b) 8) as [|H8]; [done|].
  assert (exists more, seen = encode_frame_header (out_header t fl (len data)) ++ more) as [more ->].
  { apply app_eq_inv in Hfb as [(k & E1 & E2)|(k & E1 & E2)]; [|eauto].
    exists []. rewrite app_nil_r. assert (k = []) as ->.
    { apply len_zero_nil. apply (f_equal len) in E1. rewrite len_app in E1.
      change (len (encode_frame_header _)) with 8 in E1. pose proof (len_nonneg k). lia. }
    by rewrite app_nil_r in E1. }
  rewrite Hu, decode_encode_header.
  2: { split_and!; cbn; [done|done|done| |]; rewrite Hl; lia. }
  cbn [out_header length_]. rewrite Hl.
  destruct (Z.ltb_spec (len (input_ b) - input_consumed_ b) (8 + len data)); [done|lia].
Qed.

(** A frame a peer has sent: type, flags and payload. *)
Definition wframe : Type := MessageType * Z * bytes.

Definition wbytes (f : wframe) : bytes := let '(t, fl, data) := f in frame_bytes t fl data.
Definition wframe_ok (f : wframe) : Prop :=
  let '(t, fl, data) := f in type_ok t /\ is_u16 fl /\ len data <= kMaxFrameLength.
Definition received (f : wframe) : Frame :=
  let '(t, fl, data) := f in mk_frame (out_header t fl (len data)) data.

(** [fs] is what the peer has sent and the server has not yet taken: part of it is
    buffered, the rest is still in the socket. *)
Definition incoming (fs : list wframe) (b : inbuf) (evs : list rx_event) : Prop :=
  inbuf_ok b /\ Forall wframe_ok fs /\ unread b ++ rx_rest evs = mjoin (wbytes <$> fs).

Lemma wbytes_len f : wframe_ok f -> kFrameHeaderSize <= len (wbytes f).
Proof.
  destruct f as [[t fl] data]. intros _. unfold wbytes, frame_bytes.
  rewrite len_app, encode_frame_header_len. pose proof (len_nonneg data). lia.
Qed.

(** Reading moves bytes from the socket to the buffer and loses none. *)
Lemma incoming_read fs b evs b' evs' :
  incoming fs b evs -> read_available b evs = Some (true, b', evs') -> incoming fs b' evs'.
Proof.
  intros (Hb & Hf & Hs) H. apply read_loop_spec in H as (Hb' & got & Hu & _ & Hr); [|done].
  split_and!; [done|done|]. by rewrite Hu, <- app_assoc, <- Hr.
Qed.

(** The next frame out is the next frame sent, or it is not all there yet. *)
Lemma incoming_next fs b evs :
  incoming fs b evs ->
  match fs with
  | [] => next_frame b = Ok None /\ unread b = []
  | f :: fs' =>
      (next_frame b = Ok None /\ len (unread b) < len (wbytes f)) \/
      (exists b', next_frame b = Ok (Some (received f, b')) /\ incoming fs' b' evs)
  end.
Proof.
  intros (Hb & Hf & Hs). destruct fs as [|f fs'].
  - cbn in Hs. apply app_eq_nil in Hs as [Hu _]. split; [|done]. unfold next_frame.
    rewrite <- unread_len, Hu by done. done.
  - inversion_clear Hf as [|? ? Hf1 Hf2]. pose proof (wbytes_len _ Hf1) as Hw.
    destruct f as [[t fl] data]. destruct Hf1 as (Ht & Hfl & Hd). cbn [wbytes] in Hw.
    change (mjoin (wbytes <$> (t, fl, data) :: fs'))
      with (frame_bytes t fl data ++ mjoin (wbytes <$> fs')) in Hs.
    apply app_eq_inv in Hs as [(k & E1 & E2)|(k & E1 & E2)].
    + right. destruct (next_frame_full b t fl data k Hb Ht Hfl Hd E1) as (b' & Hn & Hb' & Hu').
      exists b'. split; [done|]. split_and!; [done|done|]. by rewrite Hu'.
    + destruct (decide (k = [])) as [->|Hk].
      * right. rewrite app_nil_r in E1. cbn in E2.
        destruct (next_frame_full b t fl data [] Hb Ht Hfl Hd) as (b' & Hn & Hb' & Hu').
        { by rewrite app_nil_r. }
        exists b'. split; [done|]. split_and!; [done|done|]. by rewrite Hu'.
      * left. split; [by eapply next_frame_partial|].
        unfold wbytes. rewrite E1, len_app.
        assert (0 < len k) by (destruct k; [done|]; unfold len; cbn; lia). lia.
Qed.

(** ** The output queue *)

Lemma enqueue_frame_spec t data fl o :
  outbuf_ok o -> len data <= kMaxFrameLength ->
  exists o', enqueue_frame t data fl o = Ok o' /\ outbuf_ok o' /\
    pending o' = pending o ++ frame_bytes t fl data.
Proof.
  intros Ho Hd. unfold enqueue_frame. destruct (Z.ltb_spec kMaxFrameLength (len data)); [lia|].
  set (o1 := if _ && _ then _ else _).
  assert (outbuf_ok o1 /\ pending o1 = pending o) as [Ho1 Hp].
  { unfold o1. destruct (Z.ltb_spec 0 (output_sent_ o)), (Z.eqb_spec (output_sent_ o) (len (output_ o)));
      cbn [andb]; try (split; [done|]).
    - unfold pending. cbn. by rewrite (zdrop_len (output_sent_ o)) by lia.
    - destruct (Z.ltb_spec (64 * 1024) (output_sent_ o)); [|done]. unfold outbuf_ok, pending. cbn.
      split; [pose proof (len_nonneg (zdrop (output_sent_ o) (output_ o))); lia|done].
    - destruct (Z.ltb_spec (64 * 1024) (output_sent_ o)); [lia|done].
    - destruct (Z.ltb_spec (64 * 1024) (output_sent_ o)); [lia|done]. }
  eexists. split; [done|]. rewrite <- Hp. unfold outbuf_ok, pending, frame_bytes in *. cbn [output_ output_sent_].
  rewrite <- !app_assoc. rewrite len_app.
  split; [pose proof (len_nonneg (encode_frame_header (out_header t fl (len data)) ++ data)); lia|].
  by apply zdrop_app_le.
Qed.

Lemma flush_loop_spec o evs w ok o' evs' w' :
  flush_loop o evs w = (ok, o', (evs', w')) -> outbuf_ok o ->
  outbuf_ok o' /\ exists s, pending o = s ++ pending o' /\ w' = w ++ s.
Proof.
  revert o w. induction evs as [|ev evs IH]; intros o w; cbn [flush_loop];
    intros H Ho; pose proof (pending_len o Ho) as Hl; unfold pending_output in Hl;
    destruct (Z.eqb_spec (len (output_ o) - output_sent_ o) 0) as [E|E].
  1,3: injection H as <- <- <- <-; split; [done|]; exists [];
    split; [apply len_zero_nil; lia|by rewrite app_nil_r].
  - injection H as <- <- <- <-. split; [done|]. exists []. by rewrite app_nil_r.
  - destruct ev as [n| |r|e]; [|by apply IH in H|..];
      try (injection H as <- <- <- <-; split; [done|]; exists []; by rewrite app_nil_r).
    set (k := moved n _) in H. fold (pending o) in H.
    assert (0 <= k <= len (pending o)) as Hk.
    { rewrite Hl. apply moved_range. unfold outbuf_ok in Ho. lia. }
    pose proof (ztake_zdrop k (pending o)) as Hsplit.
    assert (pending (mk_outbuf (output_ o) (output_sent_ o + k)) = zdrop k (pending o)) as Hd.
    { unfold pending. cbn. rewrite zdrop_zdrop; [done|lia|unfold outbuf_ok in Ho; lia]. }
    destruct (Z.ltb_spec 0 k).
    + destruct (Z.eqb_spec (output_sent_ o + k) (len (output_ o))).
      * injection H as <- <- <- <-. split; [done|]. exists (ztake k (pending o)). split; [|done].
        rewrite <- Hsplit at 1. f_equal. apply zdrop_len. lia.
      * apply IH in H as (Ho' & s & Hs & Hw); [|unfold outbuf_ok in *; cbn; lia].
        split; [done|]. exists (ztake k (pending o) ++ s). rewrite Hd in Hs.
        by rewrite <- app_assoc, <- Hs, Hw, app_assoc.
    + injection H as <- <- <- <-. split; [done|]. exists (ztake k (pending o)). split; [|done].
      replace k with 0 by lia. by rewrite ztake_0.
Qed.

(** What any thread and the owning shard do to a connection's output. *)
Inductive out_op :=
  | OutEnqueue (f : wframe)
  | OutFlush (evs : list tx_event).

(** The output buffer, the bytes on the wire and whether the socket still works. *)
Fixpoint run_output (ops : list out_op) (o : outbuf) (w : bytes) : result (outbuf * bytes) :=
  match ops with
  | [] => Ok (o, w)
  | OutEnqueue (t, fl, data) :: ops =>
      let? o := enqueue_frame t data fl o in run_output ops o w
  | OutFlush evs :: ops =>
      let '(_, o, (_, w)) := flush_loop o evs w in run_output ops o w
  end.

Definition enqueued (ops : list out_op) : list wframe :=
  omap (fun op => match op with OutEnqueue f => Some f | OutFlush _ => None end) ops.

Lemma run_output_fifo ops o w :
  outbuf_ok o -> Forall wframe_ok (enqueued ops) ->
  exists o' w', run_output ops o w = Ok (o', w') /\ outbuf_ok o' /\
    w' ++ pending o' = w ++ pending o ++ mjoin (wbytes <$> enqueued ops).
Proof.
  revert o w. induction ops as [|op ops IH]; intros o w Ho Hf; cbn [run_output].
  { exists o, w. cbn. by rewrite app_nil_r. }
  destruct op as [[[t fl] data]|evs]; cbn [enqueued omap list_omap] in Hf |- *.
  - change (mjoin (wbytes <$> (t, fl, data) :: enqueued ops))
      with (frame_bytes t fl data ++ mjoin (wbytes <$> enqueued ops)). apply Forall_cons in Hf as [(Ht & Hfl & Hd) Hf'].
    destruct (enqueue_frame_spec t data fl o Ho Hd) as (o1 & -> & Ho1 & Hp1).
    destruct (IH o1 w Ho1 Hf') as (o' & w' & Hr & Ho' & E). exists o', w'.
    split_and!; [done|done|]. rewrite E, Hp1. by rewrite <- !app_assoc.
  - destruct (flush_loop o evs w) as [[ok o1] [evs1 w1]] eqn:Ef.
    apply flush_loop_spec in Ef as (Ho1 & s & Hp & ->); [|done].
    destruct (IH o1 (w ++ s) Ho1 Hf) as (o' & w' & Hr & Ho' & E). exists o', w'.
    split_and!; [done|done|]. rewrite E, Hp. by rewrite <- !app_assoc.
Qed.


(** C31. The output side is a queue: after any sequence of frames enqueued from any
    thread and flushes by the shard, with any partial writes, what is on the wire
    followed by what is still buffered is exactly the frames enqueued, in order. *)
Theorem output_fifo ops :
  Forall wframe_ok (enqueued ops) ->
  exists o w, run_output ops (mk_outbuf [] 0) [] = Ok (o, w) /\
    w ++ pending o = mjoin (wbytes <$> enqueued ops) /\ len (pending o) = pending_output o.
Proof.
  intros Hf. destruct (run_output_fifo ops (mk_outbuf [] 0) [] ltac:(done) Hf) as (o & w & Hr & Ho & E).
  exists o, w. split_and!; [done|exact E|by apply pending_len].
Qed.

Lemma output_fifo_witness :
  let ops := [OutEnqueue (KeepAliveT, 0, []); OutFlush [TxWrote 3]; OutEnqueue (AcceptT, 0, [1; 2]); OutFlush [TxWrote 9]] in
  exists o w, run_output ops (mk_outbuf [] 0) [] = Ok (o, w) /\
    w ++ pending o = frame_bytes KeepAliveT 0 [] ++ frame_bytes AcceptT 0 [1; 2].
Proof.
  intros ops. destruct (output_fifo ops) as (o & w & E & Hw & _).
  { repeat constructor; by vm_compute. }
  exists o, w. split; [exact E|]. rewrite Hw. by vm_compute.
Defined.

