(* ===== verification/RateLimiter.v ===== *)
(** Token buckets per client address, [server/src/rate_limiter.cpp].

    Tokens are IEEE doubles in the source and stay doubles here: [SpecFloat] at
    precision 53, rounding to nearest even, so a witness computes the very numbers
    the server computes. The keyed hash of the address is a parameter. Times are
    unsigned 64-bit milliseconds whose differences wrap as in the source. *)

From Stdlib Require Import Floats.SpecFloat.
From S2P Require Import Prelude Double Endian Socket.

Record RateLimits := mk_RateLimits {
  connections_per_minute : double;
  requests_per_minute : double;
  burst : double;
  max_buckets : Z;
}.

Definition default_limits : RateLimits :=
  mk_RateLimits (d_of_Z 60) (d_of_Z 20) (d_of_Z 10) 65536.

Record Bucket := mk_Bucket {
  connection_tokens : double;
  request_tokens : double;
  last_refill_ms : Z;
}.

Abbreviation buckets := (gmap Z Bucket).

Section KeyFor.
(** HMAC-SHA-256 under the process's salt. *)
Context (hmac_sha256 : bytes -> bytes).

Definition key_for (e : Endpoint) : result Z :=
  match e with
  | EpV4 _ a => load_u64 (hmac_sha256 (ztake 4 a))
  | EpV6 _ _ a _ => load_u64 (hmac_sha256 (ztake 8 a))
  | EpOther _ => Ok 0
  end.

(** A client is charged by its address, whatever port it connects from, and over
    IPv6 by its /64. *)
Lemma key_for_port e p : key_for (set_port p e) = key_for e.
Proof. by destruct e. Qed.

Lemma key_for_prefix p1 f1 a1 s1 p2 f2 a2 s2 :
  ztake 8 a1 = ztake 8 a2 -> key_for (EpV6 p1 f1 a1 s1) = key_for (EpV6 p2 f2 a2 s2).
Proof. cbn. by intros ->. Qed.
End KeyFor.

(** * Charging *)

Definition refill (limits : RateLimits) (now_ms : Z) (b : Bucket) : Bucket :=
  let elapsed_minutes :=
    d_div (d_of_Z (u64 (now_ms - last_refill_ms b))) (d_of_Z 60000) in
  if d_ltb (d_of_Z 0) elapsed_minutes then
    let c := d_add (connection_tokens b) (d_mul elapsed_minutes (connections_per_minute limits)) in
    let r := d_add (request_tokens b) (d_mul elapsed_minutes (requests_per_minute limits)) in
    mk_Bucket (if d_ltb (burst limits) c then burst limits else c)
      (if d_ltb (burst limits) r then burst limits else r) now_ms
  else b.

(** [consume]: the answer and the table after it. *)
Definition consume (limits : RateLimits) (key now_ms : Z) (is_request : bool) (bs : buckets)
  : bool * buckets :=
  let '(b, bs) :=
    match bs !! key with
    | Some b => (b, bs)
    | None =>
        let bs := if max_buckets limits <=? Z.of_nat (size bs) then ∅ else bs in
        let fresh := mk_Bucket (burst limits) (burst limits) now_ms in
        (fresh, <[key := fresh]> bs)
    end in
  let b := refill limits now_ms b in
  let tokens := if is_request then request_tokens b else connection_tokens b in
  if d_ltb tokens (d_of_Z 1) then (false, <[key := b]> bs)
  else
    let tokens := d_sub tokens (d_of_Z 1) in
    (true, <[key := if is_request
                    then mk_Bucket (connection_tokens b) tokens (last_refill_ms b)
                    else mk_Bucket tokens (request_tokens b) (last_refill_ms b)]> bs).

Definition allow_connection (limits : RateLimits) (key now_ms : Z) (bs : buckets) :=
  consume limits key now_ms false bs.
Definition allow_request (limits : RateLimits) (key now_ms : Z) (bs : buckets) :=
  consume limits key now_ms true bs.

Definition evict_idle (now_ms idle_ms : Z) (bs : buckets) : buckets :=
  filter (fun p => negb (idle_ms <? u64 (now_ms - last_refill_ms p.2)) = true) bs.

(** * What the limiter promises *)

(** The tokens of one kind a client has. *)
Definition tokens_of (is_request : bool) (b : Bucket) : double :=
  if is_request then request_tokens b else connection_tokens b.

Lemma refill_now limits now b : last_refill_ms b = now -> refill limits now b = b.
Proof. intros <-. unfold refill. by rewrite Z.sub_diag. Qed.

Lemma consume_size limits key now is_request bs :
  1 <= max_buckets limits -> Z.of_nat (size bs) <= max_buckets limits ->
  Z.of_nat (size (consume limits key now is_request bs).2) <= max_buckets limits.
Proof.
  intros Hm Hs. unfold consume. destruct (bs !! key) as [b|] eqn:Ek.
  - destruct (d_ltb _ _); cbn; rewrite map_size_insert_Some; try done; by eexists.
  - set (bs1 := if _ <=? _ then _ else _).
    assert (Z.of_nat (size bs1) < max_buckets limits /\ bs1 !! key = None) as [Hs1 Hk1].
    { unfold bs1. destruct (Z.leb_spec (max_buckets limits) (Z.of_nat (size bs))).
      - rewrite map_size_empty. split; [lia|apply lookup_empty].
      - split; [lia|done]. }
    assert (Z.of_nat (size (<[key:=mk_Bucket (burst limits) (burst limits) now]> bs1))
            <= max_buckets limits).
    { rewrite map_size_insert_None by done. lia. }
    destruct (d_ltb _ _); cbn; rewrite map_size_insert_Some; try done;
      rewrite lookup_insert_eq; by eexists.
Qed.

(** A run of charges of one kind at one instant, and how many were allowed. *)
Fixpoint charge (limits : RateLimits) (key now : Z) (is_request : bool) (n : nat) (bs : buckets)
  : Z * buckets :=
  match n with
  | O => (0, bs)
  | S n =>
      let '(ok, bs) := consume limits key now is_request bs in
      let '(granted, bs) := charge limits key now is_request n bs in
      ((if ok then 1 else 0) + granted, bs)
  end.

(** A bucket with [k] whole tokens of the kind charged, refilled at [now]. *)
Definition holds (is_request : bool) (now k : Z) (b : Bucket) : Prop :=
  last_refill_ms b = now /\ tokens_of is_request b = d_of_Z k.

Lemma small_token_sub k :
  1 <= k <= 10 -> d_ltb (d_of_Z k) (d_of_Z 1) = false /\ d_sub (d_of_Z k) (d_of_Z 1) = d_of_Z (k - 1).
Proof.
  intros H.
  assert (k = 1 \/ k = 2 \/ k = 3 \/ k = 4 \/ k = 5 \/ k = 6 \/ k = 7 \/ k = 8 \/ k = 9 \/ k = 10)
    as Hk by lia. clear H.
  destruct Hk as [->|[->|[->|[->|[->|[->|[->|[->|[->| ->]]]]]]]]]; split; vm_compute; reflexivity.
Qed.

Lemma consume_holds limits key now is_request k bs b :
  bs !! key = Some b -> holds is_request now k b -> 1 <= k <= 10 ->
  exists b', consume limits key now is_request bs = (true, <[key := b']> bs) /\
    holds is_request now (k - 1) b'.
Proof.
  intros Hb [Hl Ht] Hk. unfold consume. rewrite Hb, refill_now by done.
  fold (tokens_of is_request b). rewrite Ht. destruct (small_token_sub k Hk) as [-> ->].
  eexists. split; [done|]. unfold holds. destruct is_request; done.
Qed.

Lemma consume_dry limits key now is_request bs b :
  bs !! key = Some b -> holds is_request now 0 b ->
  consume limits key now is_request bs = (false, bs).
Proof.
  intros Hb [Hl Ht]. unfold consume. rewrite Hb, refill_now by done.
  fold (tokens_of is_request b). rewrite Ht. cbn. by rewrite insert_id.
Qed.

Lemma charge_holds limits key now is_request n k bs b :
  bs !! key = Some b -> holds is_request now k b -> 0 <= k <= 10 ->
  (charge limits key now is_request n bs).1 = Z.min (Z.of_nat n) k.
Proof.
  revert k bs b. induction n as [|n IH]; intros k bs b Hb Hh Hk; [cbn; lia|]. cbn [charge].
  destruct (decide (k = 0)) as [->|].
  - rewrite (consume_dry limits _ _ _ _ _ Hb Hh). specialize (IH 0 bs b Hb Hh ltac:(lia)).
    destruct (charge limits key now is_request n bs). cbn in *. lia.
  - destruct (consume_holds limits key now is_request k bs b Hb Hh ltac:(lia)) as (b' & -> & Hh').
    specialize (IH (k - 1) (<[key:=b']> bs) b' (lookup_insert_eq _ _ _) Hh' ltac:(lia)).
    destruct (charge limits key now is_request n (<[key:=b']> bs)). cbn in *. lia.
Qed.

(** C39. A client the limiter has not seen is granted exactly the burst of ten
    requests, or ten connections, at one instant and refused every one after it,
    with the default limits and the source's floating-point arithmetic. *)
Theorem burst_exact key now is_request n bs :
  bs !! key = None ->
  (charge default_limits key now is_request n bs).1 = Z.min (Z.of_nat n) 10.
Proof.
  intros Hk. destruct n as [|n]; [done|]. cbn [charge]. unfold consume. rewrite Hk.
  rewrite refill_now by done. set (bs1 := if _ <=? _ then _ else _).
  set (b0 := mk_Bucket (burst default_limits) (burst default_limits) now).
  set (b' := if is_request then _ else _ : Bucket).
  assert (holds is_request now 9 b') as Hh by (unfold holds, b'; by destruct is_request).
  replace (d_ltb _ _) with false by by destruct is_request.
  pose proof (charge_holds default_limits key now is_request n 9 (<[key := b']> (<[key := b0]> bs1))
    b' (lookup_insert_eq _ _ _) Hh ltac:(lia)) as E.
  destruct (charge default_limits key now is_request n (<[key := b']> (<[key := b0]> bs1))).
  cbn in *. lia.
Qed.

Lemma burst_exact_witness : (charge default_limits 7 1000 true 12 ∅).1 = 10.
Proof. exact (burst_exact 7 1000 true 12 ∅ (lookup_empty 7)). Defined.
