(* ===== verification/SessionTable.v ===== *)
(** The server's shared tables, [server/src/session_table.cpp]: who accepts under
    which username, which connections have been introduced to each other, and the
    ephemeral groups.

    Connections are referred to by id and [heap] holds the objects that are alive,
    so [weak_ptr::lock] is a lookup. Each operation runs under the table's mutex
    and is one function here. [create_pairing] is a loop: it returns [None] only
    when its fuel runs out, which [create_pairing_loop_total] excludes. *)

From S2P Require Import Prelude Socket Protocol Connection.

Abbreviation heap := (gmap Z Connection).

(** [weak_ptr::expired]. *)
Definition expired (h : heap) (w : Z) : bool := bool_decide (h !! w = None).

Record Pairing := mk_Pairing {
  p_id : Z;
  p_sender : Z;
  p_receiver : Z;
  sender_wants_relay : bool;
  receiver_wants_relay : bool;
  relay_active : bool;
  created_ms : Z;
}.

Inductive ClaimResult := Granted | AlreadyClaimed | InvalidUsername.
Inductive GroupJoinResult := JCreated | JJoined | JWrongPassword | JInvalidName | JFull | JAlreadyMember.

Record Group := mk_Group { verifier : bytes; members : list Z }.

Record SessionTable := mk_SessionTable {
  claims_ : gmap bytes Z;
  pairings_ : gmap Z Pairing;
  groups_ : gmap bytes Group;
  next_pairing_counter_ : Z;
  pairing_id_salt_ : Z;
  salt_ready_ : bool;
}.

Definition empty_table : SessionTable := mk_SessionTable ∅ ∅ ∅ 1 0 false.

Definition with_claims (m : gmap bytes Z) (t : SessionTable) : SessionTable :=
  mk_SessionTable m (pairings_ t) (groups_ t) (next_pairing_counter_ t) (pairing_id_salt_ t)
    (salt_ready_ t).
Definition with_pairings (m : gmap Z Pairing) (t : SessionTable) : SessionTable :=
  mk_SessionTable (claims_ t) m (groups_ t) (next_pairing_counter_ t) (pairing_id_salt_ t)
    (salt_ready_ t).
Definition with_groups (m : gmap bytes Group) (t : SessionTable) : SessionTable :=
  mk_SessionTable (claims_ t) (pairings_ t) m (next_pairing_counter_ t) (pairing_id_salt_ t)
    (salt_ready_ t).

(** * Claims *)

Definition claim (h : heap) (username : bytes) (conn : Z) (t : SessionTable)
  : ClaimResult * SessionTable :=
  if negb (is_valid_username username) then (InvalidUsername, t)
  else match claims_ t !! username with
       | Some w =>
           if negb (expired h w) then (AlreadyClaimed, t)
           else (Granted, with_claims (<[username := conn]> (delete username (claims_ t))) t)
       | None => (Granted, with_claims (<[username := conn]> (claims_ t)) t)
       end.

Definition release (h : heap) (username : bytes) (conn : Z) (t : SessionTable) : SessionTable :=
  if len username =? 0 then t
  else match claims_ t !! username with
       | None => t
       | Some w =>
           if expired h w || (w =? conn) then with_claims (delete username (claims_ t)) t else t
       end.

Definition lookup_claim (h : heap) (username : bytes) (t : SessionTable) : option Z :=
  match claims_ t !! username with
  | None => None
  | Some w => if expired h w then None else Some w
  end.

(** * Pairings *)

(** The do-while loop that picks an id: the id and the counter after it. *)
Fixpoint pairing_id_loop (fuel : nat) (pairings : gmap Z Pairing) (salt counter : Z)
  : option (Z * Z) :=
  match fuel with
  | O => None
  | S fuel =>
      let id := Z.lxor counter salt in
      let counter := u64 (counter + 1) in
      if (id =? 0) || bool_decide (is_Some (pairings !! id))
      then pairing_id_loop fuel pairings salt counter
      else Some (id, counter)
  end.

(** [random] is what [random_bytes] puts in the salt the first time. *)
Definition create_pairing (random now_ms sender receiver : Z) (t : SessionTable)
  : option (Z * SessionTable) :=
  let salt := if salt_ready_ t then pairing_id_salt_ t else random in
  match pairing_id_loop (S (S (size (pairings_ t)))) (pairings_ t) salt (next_pairing_counter_ t) with
  | None => None
  | Some (id, counter) =>
      let pairing := mk_Pairing id sender receiver false false false now_ms in
      Some (id, mk_SessionTable (claims_ t) (<[id := pairing]> (pairings_ t)) (groups_ t)
                  counter salt true)
  end.

Definition find_pairing (id : Z) (t : SessionTable) : option Pairing := pairings_ t !! id.

Definition request_relay (id : Z) (from_sender : bool) (t : SessionTable) : bool * SessionTable :=
  match pairings_ t !! id with
  | None => (false, t)
  | Some p =>
      let s := if from_sender then true else sender_wants_relay p in
      let r := if from_sender then receiver_wants_relay p else true in
      let starts := s && r && negb (relay_active p) in
      let p' := mk_Pairing (p_id p) (p_sender p) (p_receiver p) s r
                  (if starts then true else relay_active p) (created_ms p) in
      (starts, with_pairings (<[id := p']> (pairings_ t)) t)
  end.

Definition destroy_pairing (id : Z) (t : SessionTable) : SessionTable :=
  with_pairings (delete id (pairings_ t)) t.

(** The age is an unsigned difference. *)
Definition pairing_expires (h : heap) (now_ms max_age_ms : Z) (p : Pairing) : bool :=
  let both_gone := expired h (p_sender p) && expired h (p_receiver p) in
  let too_old := max_age_ms <? u64 (now_ms - created_ms p) in
  both_gone || too_old.

Definition expire_pairings (h : heap) (now_ms max_age_ms : Z) (t : SessionTable) : SessionTable :=
  with_pairings (filter (fun kp => pairing_expires h now_ms max_age_ms kp.2 = false) (pairings_ t)) t.

Definition claimed_usernames (t : SessionTable) : Z := Z.of_nat (size (claims_ t)).
Definition active_pairings (t : SessionTable) : Z := Z.of_nat (size (pairings_ t)).

(** * Groups *)

Definition prune_group_locked (h : heap) (g : Group) : bool * Group :=
  let ms := filter (fun w => expired h w = false) (members g) in
  (negb (len ms =? 0), mk_Group (verifier g) ms).

(** The find, prune and erase that every group query starts with. *)
Definition find_group (h : heap) (name : bytes) (t : SessionTable) : option Group * SessionTable :=
  match groups_ t !! name with
  | None => (None, t)
  | Some g =>
      let '(nonempty, g') := prune_group_locked h g in
      if nonempty then (Some g', with_groups (<[name := g']> (groups_ t)) t)
      else (None, with_groups (delete name (groups_ t)) t)
  end.

Definition group_exists (h : heap) (name : bytes) (t : SessionTable) : bool * SessionTable :=
  let '(g, t) := find_group h name t in (bool_decide (is_Some g), t).

Definition group_member_count (h : heap) (name : bytes) (t : SessionTable) : Z * SessionTable :=
  let '(g, t) := find_group h name t in
  (match g with Some g => len (members g) | None => 0 end, t).

Definition join_group (h : heap) (name vfy : bytes) (conn : Z) (t : SessionTable)
  : GroupJoinResult * SessionTable :=
  if negb (is_valid_username name) then (JInvalidName, t)
  else
    let '(g, t) := find_group h name t in
    match g with
    | None => (JCreated, with_groups (<[name := mk_Group vfy [conn]]> (groups_ t)) t)
    | Some g =>
        if bool_decide (conn ∈ members g) then (JAlreadyMember, t)
        else if negb (bool_decide (verifier g = vfy)) then (JWrongPassword, t)
        else if kMaxGroupMembers <=? len (members g) then (JFull, t)
        else (JJoined,
              with_groups (<[name := mk_Group (verifier g) (members g ++ [conn])]> (groups_ t)) t)
    end.

Definition leave_group (h : heap) (name : bytes) (conn : Z) (t : SessionTable) : SessionTable :=
  if len name =? 0 then t
  else match groups_ t !! name with
       | None => t
       | Some g =>
           let ms := filter (fun w => expired h w || (w =? conn) = false) (members g) in
           if len ms =? 0 then with_groups (delete name (groups_ t)) t
           else with_groups (<[name := mk_Group (verifier g) ms]> (groups_ t)) t
       end.

(** The loop body's three [continue]s. *)
Definition is_idle_member (h : heap) (skip_username : bytes) (w : Z) : bool :=
  match h !! w with
  | None => false
  | Some c =>
      if negb (bool_decide (state c = ReceiverIdle)) then false
      else if negb (len skip_username =? 0) && bool_decide (claimed_username c = skip_username)
      then false
      else true
  end.

Definition idle_group_members (h : heap) (name skip_username : bytes) (t : SessionTable)
  : list Z * SessionTable :=
  let '(g, t) := find_group h name t in
  (match g with
   | None => []
   | Some g => filter (fun w => is_idle_member h skip_username w = true) (members g)
   end, t).

(** * The table's invariant *)

Record table_ok (t : SessionTable) : Prop := {
  ok_claims : map_Forall (fun u _ => is_valid_username u = true) (claims_ t);
  ok_pairings : map_Forall (fun id p => p_id p = id /\ id <> 0 /\ is_u64 id) (pairings_ t);
  ok_groups : map_Forall (fun n g => is_valid_username n = true /\ members g <> [] /\
    NoDup (members g) /\ len (members g) <= kMaxGroupMembers) (groups_ t);
  ok_counter : is_u64 (next_pairing_counter_ t);
  ok_salt : is_u64 (pairing_id_salt_ t);
}.

Lemma empty_table_ok : table_ok empty_table.
Proof. split; cbn; try done; apply map_Forall_empty. Qed.

Lemma with_claims_ok t m :
  table_ok t -> map_Forall (fun u _ => is_valid_username u = true) m -> table_ok (with_claims m t).
Proof. intros [] ?. by split. Qed.

Lemma with_pairings_ok t m :
  table_ok t -> map_Forall (fun id p => p_id p = id /\ id <> 0 /\ is_u64 id) m ->
  table_ok (with_pairings m t).
Proof. intros [] ?. by split. Qed.

Lemma with_groups_ok t m :
  table_ok t ->
  map_Forall (fun n g => is_valid_username n = true /\ members g <> [] /\
    NoDup (members g) /\ len (members g) <= kMaxGroupMembers) m ->
  table_ok (with_groups m t).
Proof. intros [] ?. by split. Qed.

Lemma claim_ok h u c t : table_ok t -> table_ok (claim h u c t).2.
Proof.
  intros Ht. unfold claim. destruct (is_valid_username u) eqn:E; [|done]. cbn [negb].
  pose proof (ok_claims _ Ht) as Hc.
  destruct (claims_ t !! u) as [w|]; [destruct (expired h w); [|done]|]; cbn;
    apply with_claims_ok; try done; apply map_Forall_insert_2; try done.
  by apply map_Forall_delete.
Qed.

Lemma release_ok h u c t : table_ok t -> table_ok (release h u c t).
Proof.
  intros Ht. unfold release. destruct (_ =? 0); [done|]. destruct (claims_ t !! u); [|done].
  destruct (_ || _); [|done]. apply with_claims_ok; [done|].
  apply map_Forall_delete, (ok_claims _ Ht).
Qed.

Lemma request_relay_ok id b t : table_ok t -> table_ok (request_relay id b t).2.
Proof.
  intros Ht. unfold request_relay. destruct (pairings_ t !! id) as [p|] eqn:E; [|done]. cbn.
  apply with_pairings_ok; [done|]. pose proof (ok_pairings _ Ht) as Hp.
  apply map_Forall_insert_2; [|done]. cbn. by apply (Hp id p).
Qed.

Lemma destroy_pairing_ok id t : table_ok t -> table_ok (destroy_pairing id t).
Proof. intros Ht. apply with_pairings_ok; [done|]. apply map_Forall_delete, (ok_pairings _ Ht). Qed.

Lemma expire_pairings_ok h now age t : table_ok t -> table_ok (expire_pairings h now age t).
Proof.
  intros Ht. apply with_pairings_ok; [done|]. intros id p [Hl _]%map_lookup_filter_Some.
  by apply (ok_pairings _ Ht).
Qed.

Lemma filter_len {A} (P : A -> Prop) `{!forall x, Decision (P x)} (l : list A) :
  len (filter P l) <= len l.
Proof. unfold len. pose proof (length_filter P l). lia. Qed.

Lemma find_group_ok h n t : table_ok t -> table_ok (find_group h n t).2.
Proof.
  intros Ht. unfold find_group. destruct (groups_ t !! n) as [g|] eqn:E; [|done].
  pose proof (ok_groups _ Ht n g E) as (Hv & Hne & Hnd & Hl). unfold prune_group_locked.
  destruct (Z.eqb_spec (len (filter (fun w => expired h w = false) (members g))) 0) as [E0|E0]; cbn.
  - apply with_groups_ok; [done|]. apply map_Forall_delete, (ok_groups _ Ht).
  - apply with_groups_ok; [done|]. apply map_Forall_insert_2; [|apply (ok_groups _ Ht)]. cbn.
    pose proof (filter_len (fun w => expired h w = false) (members g)).
    split_and!; [done|by apply len_ne_nil|by apply NoDup_filter|lia].
Qed.

Lemma find_group_some h n t g t' :
  find_group h n t = (Some g, t') -> table_ok t ->
  groups_ t' !! n = Some g /\ Forall (fun w => expired h w = false) (members g).
Proof.
  unfold find_group. destruct (groups_ t !! n) as [g0|] eqn:E; [|done].
  destruct (prune_group_locked h g0) as [ne g1] eqn:Ep. destruct ne; [|done].
  intros [= <- <-] _. cbn. rewrite lookup_insert_eq. split; [done|].
  injection Ep as _ <-. cbn. apply Forall_forall. intros w [? _]%list_elem_of_filter. done.
Qed.

Lemma join_group_ok h n v c t : table_ok t -> table_ok (join_group h n v c t).2.
Proof.
  intros Ht. unfold join_group. destruct (is_valid_username n) eqn:Hv; [|done]. cbn [negb].
  pose proof (find_group_ok h n t Ht) as Ht'. destruct (find_group h n t) as [[g|] t'] eqn:E; cbn in *.
  - apply find_group_some in E as [E _]; [|done].
    pose proof (ok_groups _ Ht' n g E) as (_ & Hne & Hnd & Hl).
    destruct (bool_decide (c ∈ members g)) eqn:Ein; [done|]. apply bool_decide_eq_false in Ein.
    destruct (negb _); [done|]. destruct (Z.leb_spec kMaxGroupMembers (len (members g))); [done|]. cbn.
    apply with_groups_ok; [done|]. apply map_Forall_insert_2; [|apply (ok_groups _ Ht')]. cbn.
    split_and!; [done|by destruct (members g)| |rewrite len_app; unfold len at 2; cbn; lia].
    apply NoDup_app. split_and!; [done| |apply NoDup_singleton].
    intros x Hx ->%list_elem_of_singleton. done.
  - apply with_groups_ok; [done|]. apply map_Forall_insert_2; [|apply (ok_groups _ Ht')]. cbn.
    split_and!; [done|done|apply NoDup_singleton|done].
Qed.

Lemma leave_group_ok h n c t : table_ok t -> table_ok (leave_group h n c t).
Proof.
  intros Ht. unfold leave_group. destruct (_ =? 0); [done|].
  destruct (groups_ t !! n) as [g|] eqn:E; [|done].
  pose proof (ok_groups _ Ht n g E) as (Hv & Hne & Hnd & Hl).
  destruct (Z.eqb_spec (len (filter (fun w => expired h w || (w =? c) = false) (members g))) 0);
    apply with_groups_ok; try done.
  - apply map_Forall_delete, (ok_groups _ Ht).
  - apply map_Forall_insert_2; [|apply (ok_groups _ Ht)]. cbn.
    pose proof (filter_len (fun w => expired h w || (w =? c) = false) (members g)).
    split_and!; [done|by apply len_ne_nil|by apply NoDup_filter|lia].
Qed.

(** ** Pairing ids *)

Lemma lxor_u64 a b : is_u64 a -> is_u64 b -> is_u64 (Z.lxor a b).
Proof.
  unfold is_u. intros Ha Hb. split; [apply Z.lxor_nonneg; lia|].
  destruct (decide (Z.lxor a b = 0)) as [->|]; [lia|].
  apply Z.log2_lt_pow2; [|]. { assert (0 <= Z.lxor a b) by (apply Z.lxor_nonneg; lia). lia. }
  pose proof (Z.log2_lxor a b ltac:(lia) ltac:(lia)).
  assert (Z.log2 a < 64) by (destruct (decide (a = 0)) as [->|]; [done|apply Z.log2_lt_pow2; lia]).
  assert (Z.log2 b < 64) by (destruct (decide (b = 0)) as [->|]; [done|apply Z.log2_lt_pow2; lia]).
  lia.
Qed.

(** The ids the loop tries: the salt xor the next [n] counters. *)
Fixpoint candidates (n : nat) (salt counter : Z) : list Z :=
  match n with
  | O => []
  | S n => Z.lxor counter salt :: candidates n salt (u64 (counter + 1))
  end.

Lemma pairing_id_loop_none n pairings salt counter :
  pairing_id_loop n pairings salt counter = None ->
  Forall (fun id => id = 0 \/ is_Some (pairings !! id)) (candidates n salt counter).
Proof.
  revert counter. induction n as [|n IH]; intros counter; cbn; [constructor|].
  destruct (Z.eqb_spec (Z.lxor counter salt) 0); cbn [orb].
  { intros H%IH. constructor; auto. }
  destruct (bool_decide _) eqn:E; [|done]. apply bool_decide_eq_true in E.
  intros H%IH. constructor; auto.
Qed.

Lemma pairing_id_loop_some n pairings salt counter id counter' :
  pairing_id_loop n pairings salt counter = Some (id, counter') ->
  is_u64 salt -> is_u64 counter ->
  id <> 0 /\ pairings !! id = None /\ is_u64 id /\ is_u64 counter'.
Proof.
  revert counter. induction n as [|n IH]; intros counter; cbn; [done|].
  intros H Hs Hc. destruct (Z.eqb_spec (Z.lxor counter salt) 0); cbn [orb] in H.
  { eapply IH; [done..|apply u64_range]. }
  destruct (bool_decide _) eqn:E; [eapply IH; [done..|apply u64_range]|].
  apply bool_decide_eq_false in E. injection H as <- <-.
  split_and!; [done| |by apply lxor_u64|apply u64_range]. by apply eq_None_not_Some.
Qed.

Lemma candidates_elem n salt counter id :
  is_u64 counter -> id ∈ candidates n salt counter ->
  exists i, (i < n)%nat /\ id = Z.lxor (u64 (counter + Z.of_nat i)) salt.
Proof.
  revert counter. induction n as [|n IH]; intros counter Hc; cbn; [by intros ?%elem_of_nil|].
  intros [->|H]%elem_of_cons.
  - exists O. rewrite Z.add_0_r, u64_small by done. split; [lia|done].
  - apply IH in H as (i & Hi & ->); [|apply u64_range]. exists (S i). split; [lia|].
    f_equal. unfold u64. rewrite Zplus_mod_idemp_l. f_equal. lia.
Qed.

Lemma lxor_cancel a b s : Z.lxor a s = Z.lxor b s -> a = b.
Proof.
  intros H. apply (f_equal (fun z => Z.lxor z s)) in H.
  by rewrite !Z.lxor_assoc, Z.lxor_nilpotent, !Z.lxor_0_r in H.
Qed.

Lemma candidates_NoDup n salt counter :
  is_u64 counter -> Z.of_nat n <= 2 ^ 64 -> NoDup (candidates n salt counter).
Proof.
  revert counter. induction n as [|n IH]; intros counter Hc Hn; cbn; [constructor|].
  constructor; [|apply IH; [apply u64_range|lia]].
  intros (i & Hi & E)%candidates_elem; [|apply u64_range]. apply lxor_cancel in E.
  unfold u64 in E. rewrite Zplus_mod_idemp_l in E. unfold is_u in Hc.
  assert (counter mod 2 ^ 64 = (counter + 1 + Z.of_nat i) mod 2 ^ 64) as E'.
  { rewrite (Z.mod_small counter) by lia. done. }
  pose proof (Z.div_mod (counter + 1 + Z.of_nat i) (2 ^ 64) ltac:(lia)) as Hd.
  rewrite <- E in Hd. pose proof (Z.div_le_mono counter (counter + 1 + Z.of_nat i) (2 ^ 64)). nia.
Qed.

Lemma candidates_len n salt counter : length (candidates n salt counter) = n.
Proof. revert counter. induction n; intros; cbn; auto. Qed.

(** The loop that looks for a free id finds one: among one more candidate than
    there are pairings and zero, one is free. *)
Lemma pairing_id_loop_total pairings salt counter :
  is_u64 counter -> Z.of_nat (size pairings) + 2 <= 2 ^ 64 ->
  is_Some (pairing_id_loop (S (S (size pairings))) pairings salt counter).
Proof.
  intros Hc Hs. destruct (pairing_id_loop _ _ _ _) eqn:E; [by eexists|]. exfalso.
  apply pairing_id_loop_none in E.
  assert (candidates (S (S (size pairings))) salt counter ⊆+ 0 :: elements (dom pairings)) as Hsub.
  { apply NoDup_submseteq; [apply candidates_NoDup; [done|lia]|].
    intros x Hx. rewrite Forall_forall in E. destruct (E x Hx) as [->|Hd]; [left|].
    right. apply elem_of_elements, elem_of_dom, Hd. }
  apply submseteq_length in Hsub. rewrite candidates_len in Hsub. cbn in Hsub.
  change (length (elements (dom pairings))) with (size (dom pairings)) in Hsub.
  rewrite size_dom in Hsub. lia.
Qed.

Lemma create_pairing_spec random now s r t :
  table_ok t -> is_u64 random -> Z.of_nat (size (pairings_ t)) + 2 <= 2 ^ 64 ->
  exists id t', create_pairing random now s r t = Some (id, t') /\ table_ok t' /\
    id <> 0 /\ pairings_ t !! id = None /\
    pairings_ t' = <[id := mk_Pairing id s r false false false now]> (pairings_ t) /\
    claims_ t' = claims_ t /\ groups_ t' = groups_ t.
Proof.
  intros Ht Hr Hs. unfold create_pairing. set (salt := if salt_ready_ t then _ else _).
  assert (is_u64 salt) as Hsalt by (unfold salt; destruct (salt_ready_ t); [apply (ok_salt _ Ht)|done]).
  destruct (pairing_id_loop_total (pairings_ t) salt (next_pairing_counter_ t)) as [[id ctr] E];
    [apply (ok_counter _ Ht)|done|].
  rewrite E. apply pairing_id_loop_some in E as (Hid & Hfree & Hu & Hc); [|done|apply (ok_counter _ Ht)].
  eexists id, _. split; [done|]. split_and!; [|done..].
  split; cbn; [apply (ok_claims _ Ht)| |apply (ok_groups _ Ht)|done|done].
  apply map_Forall_insert_2; [done|apply (ok_pairings _ Ht)].
Qed.

(** * The claims as a registry

    The table keeps names whose holder is gone until somebody looks; the registry
    is what it stands for: which live connection accepts under which name. *)

Definition registry (h : heap) (t : SessionTable) : gmap bytes Z :=
  filter (fun kw => expired h kw.2 = false) (claims_ t).

Definition registry_claim (u : bytes) (c : Z) (r : gmap bytes Z) : ClaimResult * gmap bytes Z :=
  if negb (is_valid_username u) then (InvalidUsername, r)
  else match r !! u with
       | Some _ => (AlreadyClaimed, r)
       | None => (Granted, <[u := c]> r)
       end.

Definition registry_release (u : bytes) (c : Z) (r : gmap bytes Z) : gmap bytes Z :=
  if bool_decide (r !! u = Some c) then delete u r else r.

Lemma registry_lookup h t u : registry h t !! u = lookup_claim h u t.
Proof.
  unfold registry, lookup_claim. rewrite map_lookup_filter.
  destruct (claims_ t !! u) as [w|]; [|done]. cbn. destruct (expired h w) eqn:E.
  - by rewrite option_guard_False.
  - by rewrite option_guard_True.
Qed.

Lemma registry_insert h t u c :
  expired h c = false -> registry h (with_claims (<[u := c]> (claims_ t)) t) = <[u := c]> (registry h t).
Proof. intros Hc. unfold registry. cbn. by rewrite map_filter_insert_True. Qed.

Lemma registry_delete h t u :
  registry h (with_claims (delete u (claims_ t)) t) = delete u (registry h t).
Proof. unfold registry. cbn. by rewrite map_filter_delete. Qed.

Lemma registry_claim_refines h u c t :
  expired h c = false ->
  registry_claim u c (registry h t) = ((claim h u c t).1, registry h (claim h u c t).2).
Proof.
  intros Hc. unfold registry_claim, claim. rewrite registry_lookup. unfold lookup_claim.
  destruct (is_valid_username u); [|done]. cbn [negb].
  destruct (claims_ t !! u) as [w|] eqn:E.
  - destruct (expired h w) eqn:Ew; cbn [negb fst snd]; [|done].
    by rewrite insert_delete_eq, registry_insert.
  - cbn [fst snd]. by rewrite registry_insert.
Qed.

Lemma valid_username_nonempty u : is_valid_username u = true -> len u <> 0.
Proof. intros H E. apply len_zero_nil in E as ->. done. Qed.

Lemma registry_release_refines h u c t :
  table_ok t -> expired h c = false ->
  registry h (release h u c t) = registry_release u c (registry h t).
Proof.
  intros Ht Hc. unfold registry_release, release. rewrite registry_lookup. unfold lookup_claim.
  destruct (claims_ t !! u) as [w|] eqn:E.
  - pose proof (valid_username_nonempty u (ok_claims _ Ht u w E)) as Hu.
    destruct (Z.eqb_spec (len u) 0); [done|].
    destruct (expired h w) eqn:Ew; cbn [orb].
    + rewrite bool_decide_eq_false_2 by done. rewrite registry_delete, delete_id; [done|].
      rewrite registry_lookup. unfold lookup_claim. by rewrite E, Ew.
    + destruct (Z.eqb_spec w c) as [->|].
      * by rewrite bool_decide_eq_true_2, registry_delete.
      * rewrite bool_decide_eq_false_2 by congruence. done.
  - rewrite bool_decide_eq_false_2 by done. by destruct (_ =? 0).
Qed.

(** When an object is destroyed it disappears from the registry by itself. *)
Lemma registry_destroy h t c :
  registry (delete c h) t = filter (fun kw => kw.2 <> c) (registry h t).
Proof.
  apply map_eq. intros u. rewrite map_lookup_filter, !registry_lookup. unfold lookup_claim.
  destruct (claims_ t !! u) as [w|]; [|done]. unfold expired.
  destruct (decide (w = c)) as [->|Hw].
  - rewrite bool_decide_eq_true_2 by apply lookup_delete_eq.
    destruct (bool_decide _); [done|]. cbn. by rewrite option_guard_False by auto.
  - rewrite lookup_delete_ne by done. destruct (bool_decide _); [done|]. cbn.
    by rewrite option_guard_True.
Qed.

(** C12. The claim table implements a registry in which a name belongs to at most one
    live connection: claiming succeeds exactly when nobody alive holds the name,
    releasing frees it only for its own holder, looking up finds the live holder, and
    the death of a connection frees its name without anybody releasing it. *)
Theorem claims_refine_registry h u c t :
  table_ok t -> is_Some (h !! c) ->
  registry_claim u c (registry h t) = ((claim h u c t).1, registry h (claim h u c t).2) /\
  registry h (release h u c t) = registry_release u c (registry h t) /\
  lookup_claim h u t = registry h t !! u /\
  registry (delete c h) t = filter (fun kw => kw.2 <> c) (registry h t) /\
  table_ok (claim h u c t).2 /\ table_ok (release h u c t).
Proof.
  intros Ht [k Hk]. assert (expired h c = false) as Hc by (apply bool_decide_eq_false_2; by rewrite Hk).
  split_and!; [by apply registry_claim_refines|by apply registry_release_refines| | | |].
  - symmetry. apply registry_lookup.
  - apply registry_destroy.
  - by apply claim_ok.
  - by apply release_ok.
Qed.

(** Making an introduction always returns: as long as the table has room for an
    id, the search for a free one ends, the id is not zero and not in use, nothing
    else in the table changes, and the invariant is kept. *)
Theorem create_pairing_total random now s r t :
  table_ok t -> is_u64 random -> Z.of_nat (size (pairings_ t)) + 2 <= 2 ^ 64 ->
  exists id t', create_pairing random now s r t = Some (id, t') /\ table_ok t' /\
    id <> 0 /\ find_pairing id t = None /\
    find_pairing id t' = Some (mk_Pairing id s r false false false now) /\
    (forall id', id' <> id -> find_pairing id' t' = find_pairing id' t).
Proof.
  intros Ht Hr Hs. destruct (create_pairing_spec random now s r t Ht Hr Hs)
    as (id & t' & E & Ht' & Hid & Hfree & Hp & _).
  exists id, t'. unfold find_pairing. rewrite Hp. split_and!; try done.
  - apply lookup_insert_eq.
  - intros id' Hne. by apply lookup_insert_ne.
Qed.

(** * Relay requests *)

(** The answers to a sequence of relay requests for one pairing, by who asks. *)
Fixpoint relay_answers (id : Z) (asks : list bool) (t : SessionTable) : list bool :=
  match asks with
  | [] => []
  | from_sender :: asks =>
      let '(a, t) := request_relay id from_sender t in a :: relay_answers id asks t
  end.

(** The request that completes the pair: the first one by a side other than the
    side that asked first. *)
Fixpoint completes (first : option bool) (asks : list bool) : list bool :=
  match asks with
  | [] => []
  | a :: asks =>
      match first with
      | None => false :: completes (Some a) asks
      | Some f => if Bool.eqb f a then false :: completes (Some f) asks
                  else true :: ((fun _ => false) <$> asks)
      end
  end.

Lemma request_relay_step id p a t :
  pairings_ t !! id = Some p ->
  let s := a || sender_wants_relay p in
  let r := negb a || receiver_wants_relay p in
  exists t', request_relay id a t = (s && r && negb (relay_active p), t') /\
    pairings_ t' !! id =
      Some (mk_Pairing (p_id p) (p_sender p) (p_receiver p) s r
              (s && r && negb (relay_active p) || relay_active p) (created_ms p)).
Proof.
  intros E. unfold request_relay. rewrite E.
  destruct a; eexists; (split; [done|]); cbn; rewrite lookup_insert_eq;
    destruct (sender_wants_relay p), (receiver_wants_relay p), (relay_active p); done.
Qed.

Lemma relay_answers_active id asks t p :
  pairings_ t !! id = Some p -> relay_active p = true ->
  relay_answers id asks t = (fun _ => false) <$> asks.
Proof.
  revert t p. induction asks as [|a asks IH]; intros t p E Ha; [done|]. cbn [relay_answers].
  destruct (request_relay_step id p a t E) as (t' & -> & E'). csimpl.
  rewrite Ha, andb_false_r. f_equal. eapply IH; [exact E'|]. cbn. by rewrite Ha, orb_true_r.
Qed.

(** For a new pairing the server is told to start forwarding exactly once: at the
    first request from the side that had not asked yet, whatever the sequence. *)
Theorem relay_starts_once id asks t p :
  find_pairing id t = Some p -> sender_wants_relay p = false -> receiver_wants_relay p = false ->
  relay_active p = false ->
  relay_answers id asks t = completes None asks.
Proof.
  intros E Hs Hr Ha. destruct asks as [|a asks]; [done|]. cbn [relay_answers completes].
  destruct (request_relay_step id p a t E) as (t1 & -> & E1).
  rewrite Hs, Hr, Ha in *. clear E Hs Hr Ha t.
  assert (forall p1, pairings_ t1 !! id = Some p1 -> sender_wants_relay p1 = a ->
    receiver_wants_relay p1 = negb a -> relay_active p1 = false ->
    relay_answers id asks t1 = completes (Some a) asks) as Hstep.
  { clear E1. revert t1. induction asks as [|b asks IH]; intros t1 p1 E Hs Hr Ha; [done|].
    cbn [relay_answers completes]. destruct (request_relay_step id p1 b t1 E) as (t2 & -> & E2).
    rewrite Hs, Hr, Ha in *. destruct a, b; cbn in *; f_equal;
      first [by eapply IH | by eapply relay_answers_active]. }
  destruct a; cbn in *; f_equal; by eapply Hstep.
Qed.

(** * Groups by their live members *)

Definition live_members (h : heap) (n : bytes) (t : SessionTable) : list Z :=
  match groups_ t !! n with
  | Some g => filter (fun w => expired h w = false) (members g)
  | None => []
  end.

Lemma find_group_cases h n t :
  find_group h n t =
    match groups_ t !! n with
    | None => (None, t)
    | Some g =>
        if len (live_members h n t) =? 0 then (None, with_groups (delete n (groups_ t)) t)
        else (Some (mk_Group (verifier g) (live_members h n t)),
              with_groups (<[n := mk_Group (verifier g) (live_members h n t)]> (groups_ t)) t)
    end.
Proof.
  unfold find_group, live_members. destruct (groups_ t !! n) as [g|]; [|done].
  unfold prune_group_locked. by destruct (_ =? 0).
Qed.


(** A pairing is dropped by age alone, even while both peers are connected and
    the transfer runs, and the age wraps: a pairing created one millisecond after the
    clock the maintenance pass works with is the oldest possible and goes at once. *)
Theorem expiry_ignores_live_peers h now age t id p :
  find_pairing id t = Some p -> is_Some (h !! p_sender p) -> is_Some (h !! p_receiver p) ->
  is_u64 now -> 0 <= age < 2 ^ 64 - 1 ->
  (age < now - created_ms p < 2 ^ 64 \/ created_ms p = now + 1) ->
  find_pairing id (expire_pairings h now age t) = None.
Proof.
  intros E _ _ Hn Ha Hc. unfold find_pairing, expire_pairings in *. cbn.
  rewrite map_lookup_filter, E. cbn. rewrite option_guard_False; [done|]. unfold pairing_expires.
  replace (age <? u64 (now - created_ms p)) with true; [by rewrite orb_true_r|].
  symmetry. apply Z.ltb_lt. destruct Hc as [Hc| ->].
  - rewrite u64_small; [lia|]. unfold is_u. lia.
  - replace (now - (now + 1)) with (-1) by lia. change (u64 (-1)) with (2 ^ 64 - 1). lia.
Qed.

(** * The theorems at work *)

Definition sample_connection (id : Z) : Connection :=
  new_connection (10 + id) id 0 Endpoint_default 0 0 (mk_ksock [] [] []).
Definition sample_heap : heap := {[ 1 := sample_connection 1; 2 := sample_connection 2 ]}.
Definition sample_pairing : Pairing := mk_Pairing 9 1 2 false false false 5000.
Definition sample_table : SessionTable := with_pairings {[ 9 := sample_pairing ]} empty_table.

Lemma claims_refine_registry_witness :
  let u := str "ann" in
  registry_claim u 1 (registry sample_heap empty_table) =
    ((claim sample_heap u 1 empty_table).1, registry sample_heap (claim sample_heap u 1 empty_table).2) /\
  (claim sample_heap u 1 empty_table).1 = Granted.
Proof.
  intros u. split; [|by vm_compute].
  exact (proj1 (claims_refine_registry sample_heap u 1 empty_table empty_table_ok (mk_is_Some _ _ eq_refl))).
Defined.

Lemma create_pairing_total_witness :
  exists id t', create_pairing 77 5000 1 2 empty_table = Some (id, t') /\ id <> 0 /\
    find_pairing id t' = Some (mk_Pairing id 1 2 false false false 5000).
Proof.
  destruct (create_pairing_total 77 5000 1 2 empty_table empty_table_ok) as (id & t' & E & _ & H0 & _ & Hf & _);
    [done|done|]. exists id, t'. split_and!; [exact E|exact H0|exact Hf].
Defined.

Lemma relay_starts_once_witness :
  relay_answers 9 [true; true; false; false] sample_table = [false; false; true; false].
Proof.
  exact (relay_starts_once 9 [true; true; false; false] sample_table sample_pairing eq_refl eq_refl eq_refl eq_refl).
Defined.


Lemma expiry_ignores_live_peers_witness :
  find_pairing 9 (expire_pairings sample_heap 4999 60000 sample_table) = None.
Proof.
  exact (expiry_ignores_live_peers sample_heap 4999 60000 sample_table 9 sample_pairing eq_refl
    (mk_is_Some _ _ eq_refl) (mk_is_Some _ _ eq_refl) ltac:(done) ltac:(done) (or_intror eq_refl)).
Defined.
