(* ===== verification/Server.v ===== *)
(** The rendezvous server, [server/src/server.cpp]: the protocol handlers, the
    service of one connection, teardown, accept, the wake queues and maintenance.

    [Server] is the class with every object it owns. The threads share it, and the
    unit of interleaving is one event handled by one shard; [step] handles an event
    and then drops the connection objects no shard refers to any more. The clock,
    the random salt and the kernel's side of each socket are part of the state and
    change by environment events. Logging and the poller's own failures are left
    out. *)

From S2P Require Import Prelude Endian Socket Frame Protocol Connection RateLimiter.
From S2P Require Import SessionTable.

Record ServerOptions := mk_ServerOptions {
  bind_address : bytes;
  opt_port : Z;
  opt_shards : Z;
  idle_timeout_seconds : Z;
  pairing_timeout_seconds : Z;
  rate_limits : RateLimits;
  allow_relay : bool;
}.

Definition default_options : ServerOptions :=
  mk_ServerOptions (str "::") kDefaultServerPort 0 300 120 default_limits true.

(** What the poller was last told to report for a descriptor. *)
Record Interest := mk_Interest { want_readable : bool; want_writable : bool }.

Record Shard := mk_Shard {
  index : Z;
  poller : gmap Z Interest;
  connections : gmap Z Z;
  wake_queue : list Z;
}.

Record Server := mk_Server {
  options_ : ServerOptions;
  sessions_ : SessionTable;
  rate_limiter_ : gmap Z Bucket;
  objects : heap;
  shards_ : list Shard;
  next_connection_id_ : Z;
  total_connections_ : Z;
  total_introductions_ : Z;
  total_relayed_bytes_ : Z;
  clock : Z;
  entropy : Z;
}.

Abbreviation srv := (M Server).

Definition set_sessions v s := mk_Server (options_ s) v (rate_limiter_ s) (objects s) (shards_ s)
  (next_connection_id_ s) (total_connections_ s) (total_introductions_ s) (total_relayed_bytes_ s)
  (clock s) (entropy s).
Definition set_limiter v s := mk_Server (options_ s) (sessions_ s) v (objects s) (shards_ s)
  (next_connection_id_ s) (total_connections_ s) (total_introductions_ s) (total_relayed_bytes_ s)
  (clock s) (entropy s).
Definition set_objects v s := mk_Server (options_ s) (sessions_ s) (rate_limiter_ s) v (shards_ s)
  (next_connection_id_ s) (total_connections_ s) (total_introductions_ s) (total_relayed_bytes_ s)
  (clock s) (entropy s).
Definition set_shards v s := mk_Server (options_ s) (sessions_ s) (rate_limiter_ s) (objects s) v
  (next_connection_id_ s) (total_connections_ s) (total_introductions_ s) (total_relayed_bytes_ s)
  (clock s) (entropy s).
Definition set_counters ids conns intros relayed s := mk_Server (options_ s) (sessions_ s)
  (rate_limiter_ s) (objects s) (shards_ s) ids conns intros relayed (clock s) (entropy s).
Definition set_clock v s := mk_Server (options_ s) (sessions_ s) (rate_limiter_ s) (objects s)
  (shards_ s) (next_connection_id_ s) (total_connections_ s) (total_introductions_ s)
  (total_relayed_bytes_ s) v (entropy s).

(** ** Access to the shared state *)

(** Dereference a connection; a dead object would be a dangling pointer. *)
Definition get_conn (id : Z) : srv Connection := fun s =>
  match objects s !! id with
  | Some c => (Ok c, s)
  | None => (Err OutOfBounds, s)
  end.

Definition upd_conn (id : Z) (f : Connection -> Connection) : srv unit :=
  mmodify (fun s => set_objects (alter f id (objects s)) s).

(** An operation of the session table, under its mutex. *)
Definition on_sessions {A} (f : heap -> SessionTable -> A * SessionTable) : srv A := fun s =>
  let '(a, t) := f (objects s) (sessions_ s) in (Ok a, set_sessions t s).

Definition session_update (f : heap -> SessionTable -> SessionTable) : srv unit :=
  on_sessions (fun h t => (tt, f h t)).

Definition on_limiter (f : RateLimits -> Z -> gmap Z Bucket -> bool * gmap Z Bucket) : srv bool :=
  fun s => let '(a, b) := f (rate_limits (options_ s)) (clock s) (rate_limiter_ s) in
           (Ok a, set_limiter b s).

Definition upd_shard (i : Z) (f : Shard -> Shard) : srv unit :=
  mmodify (fun s => set_shards (alter f (Z.to_nat i) (shards_ s)) s).

(** [connection->enqueue_frame]. *)
Definition enqueue (id : Z) (t : MessageType) (payload : bytes) : srv unit :=
  let* c := get_conn id in
  let* o := mlift (enqueue_frame t payload 0 (outb c)) in
  upd_conn id (set_out o).

Definition wake_for (id : Z) : srv unit :=
  let* c := get_conn id in
  let* s := mget in
  if len (shards_ s) <=? shard_index c then mret tt
  else upd_shard (shard_index c)
         (fun sh => mk_Shard (index sh) (poller sh) (connections sh) (wake_queue sh ++ [fd c])).

Definition reject_and_close (id : Z) (reason : bytes) : srv unit :=
  do* enqueue id RejectT reason in
  upd_conn id (request_close reason).

(** * Protocol handlers *)

(** A [ClientHello] nobody has assigned to. *)
Definition default_hello : ClientHello :=
  mk_ClientHello Receiver [] (replicate 32 0) (replicate 32 0) 0 0 [].
Definition hello_of (c : Connection) : ClientHello := default default_hello (hello c).

Definition quote (name : bytes) : bytes := str "'" ++ name ++ str "'".

Definition handle_client_hello (id : Z) (payload : bytes) : srv unit :=
  let* hello := mlift (ClientHello_decode payload) in
  let* c := get_conn id in
  let refreshing :=
    hello_received c && bool_decide (state c = ReceiverIdle) &&
    bool_decide (ch_role hello = Receiver) &&
    bool_decide (ch_username hello = claimed_username c) in
  if hello_received c && negb refreshing then reject_and_close id (str "hello sent twice")
  else
  do* upd_conn id (set_hello (Some hello)) in
  let* s := mget in
  let reply ok message :=
    mk_ServerHello ok message (observed_endpoint c)
      (set_port (ch_udp_port hello) (observed_endpoint c)) (idle_timeout_seconds (options_ s)) in
  if refreshing then
    enqueue id ServerHelloT
      (ServerHello_encode (reply true (str "still accepting as " ++ claimed_username c)))
  else
  let* answer :=
    (match ch_role hello with
     | Receiver =>
         let* result := on_sessions (fun h => claim h (ch_username hello) id) in
         match result with
         | Granted =>
             do* upd_conn id (set_claimed (ch_username hello)) in
             do* upd_conn id (set_state ReceiverIdle) in
             mret (reply true (str "accepting as " ++ ch_username hello))
         | AlreadyClaimed =>
             mret (reply false (str "someone is already accepting as '" ++ ch_username hello ++ str "'"))
         | InvalidUsername =>
             mret (reply false (quote (ch_username hello) ++ str " is not a usable username"))
         end
     | Sender =>
         do* upd_conn id (set_state SenderIdle) in
         mret (reply true [])
     end) in
  do* enqueue id ServerHelloT (ServerHello_encode answer) in
  if negb (sh_claim_accepted answer) then upd_conn id (request_close (sh_message answer))
  else mret tt.

(** The candidate list of an introduction: the peer's own addresses and the one the
    server observed, with the port it listens on. *)
Definition candidates_of (c : Connection) : list Endpoint :=
  ch_local_candidates (hello_of c) ++
  [set_port (ch_tcp_port (hello_of c)) (observed_endpoint c)].

Definition do_create_pairing (sender receiver : Z) : srv Z := fun s =>
  match create_pairing (entropy s) (clock s) sender receiver (sessions_ s) with
  | Some (id, t) => (Ok id, set_sessions t s)
  | None => (Err Blocks, s)
  end.

Definition count_introduction : srv unit :=
  mmodify (fun s => set_counters (next_connection_id_ s) (total_connections_ s)
                      (u64 (total_introductions_ s + 1)) (total_relayed_bytes_ s) s).

Definition handle_send_request (id : Z) (payload : bytes) : srv unit :=
  let* c := get_conn id in
  if negb (bool_decide (state c = SenderIdle)) then
    reject_and_close id (str "only a sender that has said hello may request an introduction")
  else
  let* allowed := on_limiter (fun l now b => allow_request l (rate_limit_key c) now b) in
  if negb allowed then reject_and_close id (str "too many requests, try again in a minute")
  else
  let* request := mlift (SendRequest_decode payload) in
  let* found := on_sessions (fun h t => (lookup_claim h (sr_target_username request) t, t)) in
  match found with
  | None =>
      reject_and_close id
        (quote (sr_target_username request) ++ str " is not accepting files right now")
  | Some receiver =>
      let* r := get_conn receiver in
      if negb (bool_decide (state r = ReceiverIdle)) then
        reject_and_close id
          (quote (sr_target_username request) ++ str " is busy with another transfer")
      else
      let* pid := do_create_pairing id receiver in
      do* upd_conn id (set_pairing pid) in
      do* upd_conn receiver (set_pairing pid) in
      do* upd_conn id (set_state SenderWaiting) in
      do* upd_conn receiver (set_state ReceiverMatched) in
      let introduction :=
        mk_PeerIntroduction (ch_username (hello_of c)) (ch_identity_key (hello_of c))
          (ch_session_key (hello_of c)) (candidates_of c) (sr_proof request) (sr_signature request)
          pid (sr_transport_hint request) (sr_group_name request) in
      do* enqueue receiver IncomingT (PeerIntroduction_encode introduction) in
      do* wake_for receiver in
      count_introduction
  end.

Definition handle_group_query (id : Z) (payload : bytes) : srv unit :=
  let* c := get_conn id in
  if negb (hello_received c) then reject_and_close id (str "say hello before querying a group")
  else
  let* query := mlift (GroupQuery_decode payload) in
  let* ex := on_sessions (fun h => group_exists h (gq_name query)) in
  let* n := on_sessions (fun h => group_member_count h (gq_name query)) in
  enqueue id GroupStatusT (GroupStatus_encode (mk_GroupStatus ex (u32 n))).

Definition handle_group_join (id : Z) (payload : bytes) : srv unit :=
  let* c := get_conn id in
  if negb (bool_decide (state c = ReceiverIdle)) then
    reject_and_close id (str "only a receiver that is accepting may join a group")
  else
  let* join := mlift (GroupJoin_decode payload) in
  let name := gj_name join in
  do* (if negb (len (joined_group c) =? 0) && negb (bool_decide (joined_group c = name)) then
         do* session_update (fun h => leave_group h (joined_group c) id) in
         upd_conn id (set_group [])
       else mret tt) in
  let* result := on_sessions (fun h => join_group h name (gj_verifier join) id) in
  let* reply :=
    (match result with
     | JCreated =>
         do* upd_conn id (set_group name) in mret (OutCreated, str "created group " ++ name)
     | JJoined =>
         do* upd_conn id (set_group name) in mret (OutJoined, str "joined group " ++ name)
     | JAlreadyMember =>
         do* upd_conn id (set_group name) in mret (OutAlreadyMember, str "already in group " ++ name)
     | JWrongPassword => mret (OutWrongPassword, str "wrong password for group " ++ name)
     | JFull => mret (OutFull, str "group " ++ quote name ++ str " is full")
     | JInvalidName => mret (OutInvalidName, quote name ++ str " is not a usable group name")
     end) in
  let* n := on_sessions (fun h => group_member_count h name) in
  enqueue id GroupResultT (GroupResult_encode (mk_GroupResult reply.1 reply.2 (u32 n))).

Definition handle_group_send_request (id : Z) (payload : bytes) : srv unit :=
  let* c := get_conn id in
  if negb (bool_decide (state c = SenderIdle)) then
    reject_and_close id (str "only a sender that has said hello may request a group")
  else
  let* allowed := on_limiter (fun l now b => allow_request l (rate_limit_key c) now b) in
  if negb allowed then reject_and_close id (str "too many requests, try again in a minute")
  else
  let* request := mlift (GroupSendRequest_decode payload) in
  let* names := on_sessions (fun h t =>
    let '(ms, t) := idle_group_members h (gsr_name request) (ch_username (hello_of c)) t in
    (omap (fun w => claimed_username <$> h !! w) ms, t)) in
  enqueue id GroupRosterT (GroupRoster_encode (mk_GroupRoster names)).

(** [weak_ptr::lock]. *)
Definition lock (w : Z) : srv (option Z) := fun s =>
  (Ok (if expired (objects s) w then None else Some w), s).

Definition handle_accept (id : Z) (payload : bytes) : srv unit :=
  let* c := get_conn id in
  if negb (bool_decide (state c = ReceiverMatched)) then
    reject_and_close id (str "no introduction is waiting for a decision")
  else
  let* found := on_sessions (fun _ t => (find_pairing (pairing_id c) t, t)) in
  match found with
  | None => reject_and_close id (str "that introduction has expired")
  | Some p =>
      let* sender := lock (p_sender p) in
      match sender with
      | None =>
          do* upd_conn id (set_state ReceiverIdle) in
          upd_conn id (set_pairing 0)
      | Some sender =>
          let* i := mlift (PeerIntroduction_decode payload) in
          let introduction :=
            mk_PeerIntroduction (pi_username i) (pi_identity_key i) (pi_session_key i)
              (candidates_of c) (pi_proof i) (pi_signature i) (pairing_id c)
              (pi_transport_hint i) (pi_group_name i) in
          do* enqueue sender MatchedT (PeerIntroduction_encode introduction) in
          wake_for sender
      end
  end.

Definition handle_reject (id : Z) (payload : bytes) : srv unit :=
  let* c := get_conn id in
  if pairing_id c =? 0 then mret tt
  else
  let* found := on_sessions (fun _ t => (find_pairing (pairing_id c) t, t)) in
  do* (match found with
       | None => mret tt
       | Some p =>
           let* sender := lock (p_sender p) in
           do* (match sender with
                | None => mret tt
                | Some sender =>
                    if negb (sender =? id) then
                      do* enqueue sender RejectT payload in
                      do* upd_conn sender (request_close (str "the receiver declined")) in
                      wake_for sender
                    else mret tt
                end) in
           session_update (fun _ => destroy_pairing (pairing_id c))
       end) in
  do* upd_conn id (set_pairing 0) in
  if bool_decide (state c = ReceiverMatched) then upd_conn id (set_state ReceiverIdle)
  else mret tt.

(** Both attachments come before either side is marked Relaying. *)
Definition start_relaying (sender receiver : Z) : srv unit :=
  do* upd_conn sender (attach_relay_peer receiver) in
  do* upd_conn receiver (attach_relay_peer sender) in
  do* upd_conn sender (set_state Relaying) in
  upd_conn receiver (set_state Relaying).

Definition handle_relay_open (id : Z) : srv unit :=
  let* s := mget in
  if negb (allow_relay (options_ s)) then
    reject_and_close id (str "this server does not relay; a direct path is required")
  else
  let* c := get_conn id in
  if pairing_id c =? 0 then reject_and_close id (str "no pairing to relay")
  else
  let* found := on_sessions (fun _ t => (find_pairing (pairing_id c) t, t)) in
  match found with
  | None => reject_and_close id (str "that pairing has expired")
  | Some p =>
      let* sender := lock (p_sender p) in
      let* receiver := lock (p_receiver p) in
      match sender, receiver with
      | Some sender, Some receiver =>
          let* starts := on_sessions (fun _ => request_relay (pairing_id c) (sender =? id)) in
          if negb starts then mret tt
          else
          do* start_relaying sender receiver in
          do* enqueue sender RelayOpenT [] in
          do* enqueue receiver RelayOpenT [] in
          do* wake_for sender in
          wake_for receiver
      | _, _ => reject_and_close id (str "the other peer disconnected")
      end
  end.

(** [connection->relay_peer()]. *)
Definition relay_peer (c : Connection) : srv (option Z) :=
  match relay_peer_ c with
  | None => mret None
  | Some w => lock w
  end.

Definition handle_relay_data (id : Z) (payload : bytes) : srv unit :=
  let* c := get_conn id in
  let* attached := relay_peer c in
  let* peer :=
    (match attached with
     | Some peer => mret (Some peer)
     | None =>
         if pairing_id c =? 0 then mret None
         else
         let* found := on_sessions (fun _ t => (find_pairing (pairing_id c) t, t)) in
         match found with
         | None => mret None
         | Some p =>
             if negb (relay_active p) then mret None
             else
             let* sender := lock (p_sender p) in
             let* receiver := lock (p_receiver p) in
             match sender, receiver with
             | Some sender, Some receiver =>
                 do* start_relaying sender receiver in
                 mret (Some (if sender =? id then receiver else sender))
             | _, _ => mret None
             end
         end
     end) in
  match peer with
  | None => reject_and_close id (str "this connection is not relaying")
  | Some peer =>
      do* enqueue peer RelayDataT payload in
      do* mmodify (fun s => set_counters (next_connection_id_ s) (total_connections_ s)
             (total_introductions_ s) (u64 (total_relayed_bytes_ s + len payload)) s) in
      let* pc := get_conn peer in
      do* (if kRelayPauseThreshold <? pending_output (outb pc)
           then upd_conn id (set_read_paused true) else mret tt) in
      wake_for peer
  end.

Definition handle_relay_close (id : Z) (payload : bytes) : srv unit :=
  let* c := get_conn id in
  let* peer := relay_peer c in
  do* (match peer with
       | None => mret tt
       | Some peer =>
           do* enqueue peer RelayCloseT payload in
           do* upd_conn peer (request_close (str "the other peer closed the relay")) in
           wake_for peer
       end) in
  upd_conn id (request_close (str "relay closed")).

Definition handle_frame (id : Z) (f : Frame) : srv unit :=
  match type (header f) with
  | ClientHelloT => handle_client_hello id (payload f)
  | SendRequestT => handle_send_request id (payload f)
  | GroupQueryT => handle_group_query id (payload f)
  | GroupJoinT => handle_group_join id (payload f)
  | GroupSendRequestT => handle_group_send_request id (payload f)
  | AcceptT => handle_accept id (payload f)
  | RejectT => handle_reject id (payload f)
  | RelayOpenT => handle_relay_open id
  | RelayDataT => handle_relay_data id (payload f)
  | RelayCloseT => handle_relay_close id (payload f)
  | KeepAliveT => mret tt
  | ByeT => upd_conn id (request_close (str "peer said goodbye"))
  | t => reject_and_close id (str "a " ++ message_type_name t ++ str " frame is not valid here")
  end.

(** * Servicing a connection *)

(** What the catch block's [error.what()] says. *)
Definition what (e : exn) : bytes :=
  match e with
  | Error m | UserError m | SysError m _ => m
  | PeerClosed => str "peer closed the connection"
  | OutOfBounds | Blocks => []
  end.

(** [connection->flush_output()]. *)
Definition flush_output (id : Z) : srv bool :=
  let* c := get_conn id in
  let '(ok, o, (tx', wire')) := flush_loop (outb c) (tx (sock c)) (wire (sock c)) in
  do* upd_conn id (fun c => set_out o (set_sock (mk_ksock (rx (sock c)) tx' wire') c)) in
  mret ok.

(** [connection->read_available()]. *)
Definition do_read_available (id : Z) : srv bool :=
  let* c := get_conn id in
  match read_available (inb c) (rx (sock c)) with
  | None => mthrow Blocks
  | Some (open, b, rx') =>
      do* upd_conn id (fun c => set_in b (set_sock (mk_ksock rx' (tx (sock c)) (wire (sock c))) c)) in
      mret open
  end.

(** [connection->next_frame(frame)]. *)
Definition do_next_frame (id : Z) : srv (option Frame) :=
  let* c := get_conn id in
  let* r := mlift (next_frame (inb c)) in
  match r with
  | None => mret None
  | Some (f, b) => do* upd_conn id (set_in b) in mret (Some f)
  end.

(** The [while] over buffered frames; the result is [processed]. *)
Fixpoint handle_buffered (fuel : nat) (id : Z) (processed : bool) : srv bool :=
  match fuel with
  | O => mthrow Blocks
  | S fuel =>
      let* f := do_next_frame id in
      match f with
      | None => mret processed
      | Some f =>
          do* handle_frame id f in
          let* c := get_conn id in
          if bool_decide (is_Some (close_requested c)) || read_paused c then mret true
          else handle_buffered fuel id true
      end
  end.

(** The [try] block: an [Error] asks for the connection to be closed. [processed]
    is lost with the exception, as the loop ends on [close_requested]. *)
Definition try_handle_buffered (id : Z) : srv bool := fun s =>
  match objects s !! id with
  | None => (Err OutOfBounds, s)
  | Some c =>
      match handle_buffered (S (length (input_ (inb c)))) id false s with
      | (Err e, s') =>
          if is_dz_error e then (do* upd_conn id (request_close (what e)) in mret true) s'
          else (Err e, s')
      | r => r
      end
  end.

Definition remove_fd (f : Z) (sh : Shard) : Shard :=
  mk_Shard (index sh) (delete f (poller sh)) (delete f (connections sh)) (wake_queue sh).

(** The middle of [close_connection]: the claim, the group and the pairing of the
    connection [c] are given up. *)
Definition detach (id : Z) (c : Connection) : srv unit :=
  do* (if negb (len (claimed_username c) =? 0)
       then session_update (fun h => release h (claimed_username c) id) else mret tt) in
  do* (if negb (len (joined_group c) =? 0) then
         do* session_update (fun h => leave_group h (joined_group c) id) in
         upd_conn id (set_group [])
       else mret tt) in
  if negb (pairing_id c =? 0) then
    let* found := on_sessions (fun _ t => (find_pairing (pairing_id c) t, t)) in
    do* (match found with
         | None => mret tt
         | Some p =>
             let* sender := lock (p_sender p) in
             let* receiver := lock (p_receiver p) in
             let other := if bool_decide (sender = Some id) then receiver else sender in
             match other with
             | None => mret tt
             | Some other =>
                 if other =? id then mret tt
                 else
                 let* oc := get_conn other in
                 if bool_decide (receiver = Some other) &&
                    bool_decide (state oc = ReceiverMatched) && negb (relay_active p)
                 then
                   do* upd_conn other (set_state ReceiverIdle) in
                   upd_conn other (set_pairing 0)
                 else
                   let reason := str "the other peer disconnected" in
                   do* enqueue other RelayCloseT reason in
                   do* upd_conn other (request_close reason) in
                   wake_for other
             end
         end) in
    session_update (fun _ => destroy_pairing (pairing_id c))
  else mret tt.

Definition close_connection (shard id : Z) : srv unit :=
  let* c := get_conn id in
  if bool_decide (state c = Closing) then mret tt
  else
  do* upd_conn id (set_state Closing) in
  do* detach id c in
  upd_shard shard (remove_fd (fd c)).

Definition update_interest (shard id : Z) : srv unit :=
  let* c := get_conn id in
  let r := negb (read_paused c) && negb (bool_decide (is_Some (close_requested c))) in
  let i := mk_Interest r (wants_write (outb c)) in
  upd_shard shard (fun sh => mk_Shard (index sh) (<[fd c := i]> (poller sh)) (connections sh)
                               (wake_queue sh)).

Record ReadyEvent := mk_ReadyEvent { readable : bool; writable : bool; closed : bool }.

(** How the rest of [service_connection] goes on after its reading loop. *)
Inductive read_outcome := KeepServing | ClosedInRead.

(** The [for (;;)] of the reading part. *)
Fixpoint read_and_handle (fuel : nat) (shard id : Z) : srv read_outcome :=
  match fuel with
  | O => mthrow Blocks
  | S fuel =>
      let* still_open := do_read_available id in
      let* processed := try_handle_buffered id in
      if negb still_open then
        do* flush_output id in
        do* close_connection shard id in
        mret ClosedInRead
      else
        let* c := get_conn id in
        if bool_decide (is_Some (close_requested c)) || read_paused c then mret KeepServing
        else if negb processed || negb (input_at_cap (inb c)) then mret KeepServing
        else read_and_handle fuel shard id
  end.

(** Rounds of the reading loop: [next_frame] refuses only when less than one frame
    is buffered, which is below the cap, so there is never a second one. *)
Definition read_rounds : nat := 2.

(** A drained queue may be what a paused relay source waits for. *)
Definition resume_source (id : Z) : srv unit :=
  let* c := get_conn id in
  if bool_decide (state c = Relaying) && (pending_output (outb c) <=? kRelayResumeThreshold) then
    let* peer := relay_peer c in
    match peer with
    | None => mret tt
    | Some peer =>
        let* pc := get_conn peer in
        if read_paused pc then
          do* upd_conn peer (set_read_paused false) in
          wake_for peer
        else mret tt
    end
  else mret tt.

(** The end of [service_connection]. *)
Definition finish_service (shard id : Z) (event : ReadyEvent) : srv unit :=
  let* ok := flush_output id in
  if negb ok then close_connection shard id
  else
  let* c := get_conn id in
  if bool_decide (is_Some (close_requested c)) && negb (wants_write (outb c)) then
    close_connection shard id
  else if closed event && negb (wants_write (outb c)) then close_connection shard id
  else update_interest shard id.

Definition service_connection (shard id : Z) (event : ReadyEvent) : srv unit :=
  let* s := mget in
  do* upd_conn id (set_activity (clock s)) in
  let* flushed := (if writable event then flush_output id else mret true) in
  if negb flushed then close_connection shard id
  else
  do* (if writable event then resume_source id else mret tt) in
  let* c := get_conn id in
  let* outcome :=
    (if negb (read_paused c) && (readable event || input_at_cap (inb c))
     then read_and_handle read_rounds shard id else mret KeepServing) in
  match outcome with
  | ClosedInRead => mret tt
  | KeepServing => finish_service shard id event
  end.

(** * The shard loop *)

(** Run [m] for each element. *)
Fixpoint for_each {A} (m : A -> srv unit) (xs : list A) : srv unit :=
  match xs with
  | [] => mret tt
  | x :: xs => do* m x in for_each m xs
  end.

(** [shards_[i]]. *)
Definition get_shard (i : Z) : srv Shard := fun s =>
  match shards_ s !! Z.to_nat i with
  | Some sh => (Ok sh, s)
  | None => (Err OutOfBounds, s)
  end.

(** An event for a descriptor the shard does not know is ignored. *)
Definition service_fd (shard : Z) (f : Z) (event : Connection -> ReadyEvent) : srv unit :=
  let* sh := get_shard shard in
  match connections sh !! f with
  | None => mret tt
  | Some id => let* c := get_conn id in service_connection shard id (event c)
  end.

(** The destructor runs when the last [ConnectionPtr] goes: once a connection has
    been serviced only the shards hold any. *)
Definition referenced (s : Server) (id : Z) : bool :=
  existsb (fun sh => bool_decide (id ∈ (map_to_list (connections sh)).*2)) (shards_ s).

Definition collect : srv unit :=
  mmodify (fun s => set_objects (filter (fun kc => referenced s kc.1 = true) (objects s)) s).

Definition drain_wake_queue (shard : Z) : srv unit :=
  let* sh := get_shard shard in
  do* upd_shard shard (fun sh => mk_Shard (index sh) (poller sh) (connections sh) []) in
  for_each (fun f =>
      do* service_fd shard f (fun c => mk_ReadyEvent (negb (read_paused c)) true false) in
      collect)
    (wake_queue sh).

Definition run_maintenance (shard : Z) : srv unit :=
  let* s := mget in
  let* sh := get_shard shard in
  let idle_limit_ms := u64 (idle_timeout_seconds (options_ s) * 1000) in
  let stale := filter (fun id => match objects s !! id with
                                 | Some c => idle_limit_ms <? u64 (clock s - last_activity_ms c)
                                 | None => false
                                 end = true) (map_to_list (connections sh)).*2 in
  do* for_each (close_connection shard) stale in
  if index sh =? 0 then
    let pairing_limit_ms := u64 (pairing_timeout_seconds (options_ s) * 1000) in
    do* session_update (fun h => expire_pairings h (clock s) pairing_limit_ms) in
    mmodify (fun st => set_limiter (evict_idle (clock s) (10 * 60 * 1000) (rate_limiter_ st)) st)
  else mret tt.

(** What [accept4] returns next. *)
Inductive accept_event :=
  | AcceptEintr
  | AcceptOutOfFds
  | AcceptAborted
  | Accepted (f : Z) (from : Endpoint) (from_len : Z) (s : ksock).

Section Accept.
Context (hmac_sha256 : bytes -> bytes).

Definition register (shard f : Z) (observed : Endpoint) (key : Z) (k : ksock) : srv unit :=
  let* s := mget in
  let id := next_connection_id_ s in
  let c := new_connection f id shard observed key (clock s) k in
  do* mmodify (fun s => set_counters (u64 (id + 1)) (total_connections_ s)
                          (total_introductions_ s) (total_relayed_bytes_ s) s) in
  do* mmodify (fun s => set_objects (<[id := c]> (objects s)) s) in
  do* upd_shard shard (fun sh =>
        mk_Shard (index sh) (<[f := mk_Interest true false]> (poller sh))
          (match connections sh !! f with
           | Some _ => connections sh
           | None => <[f := id]> (connections sh)
           end) (wake_queue sh)) in
  mmodify (fun s => set_counters (next_connection_id_ s) (u64 (total_connections_ s + 1))
                      (total_introductions_ s) (total_relayed_bytes_ s) s).

Fixpoint accept_connections (shard : Z) (evs : list accept_event) : srv unit :=
  match evs with
  | [] | AcceptOutOfFds :: _ => mret tt
  | AcceptEintr :: evs | AcceptAborted :: evs => accept_connections shard evs
  | Accepted f from from_len k :: evs =>
      let* observed := mlift (from_sockaddr from from_len) in
      let* key := mlift (key_for hmac_sha256 observed) in
      let* ok := on_limiter (fun l now b => allow_connection l key now b) in
      do* (if ok then register shard f observed key k else mret tt) in
      accept_connections shard evs
  end.
End Accept.

(** Replies to the datagrams waiting on the reflexive socket, each to the address it
    came from; nothing is stored. *)
Fixpoint handle_reflexive_probes (datagrams : list (bytes * Endpoint * Z))
  : result (list (bytes * Endpoint)) :=
  match datagrams with
  | [] => Ok []
  | (request, from, from_len) :: ds =>
      let request := ztake 64 request in
      if len request <? kReflexiveProbeSize then handle_reflexive_probes ds
      else if negb (bool_decide (ztake 4 request = kReflexiveProbeMagic)) then
        handle_reflexive_probes ds
      else
        let? observed := from_sockaddr from from_len in
        let? reply := encode_reflexive_reply observed kMaxReflexiveReplySize in
        let? replies := handle_reflexive_probes ds in
        Ok ((reply, from) :: replies)
  end.

(** * Events *)

Inductive sevent :=
  | EvReady (shard f : Z) (event : ReadyEvent)
  | EvWake (shard : Z)
  | EvMaintenance (shard : Z)
  | EvAccept (shard : Z) (evs : list accept_event)
  | EvClock (now : Z)
  | EvNetwork (id : Z) (rx_more : list rx_event) (tx_more : list tx_event).

Section Step.
Context (hmac_sha256 : bytes -> bytes).

Definition handle_event (ev : sevent) : srv unit :=
  match ev with
  | EvReady shard f event => service_fd shard f (fun _ => event)
  | EvWake shard => drain_wake_queue shard
  | EvMaintenance shard => run_maintenance shard
  | EvAccept shard evs => accept_connections hmac_sha256 shard evs
  | EvClock now => mmodify (set_clock now)
  | EvNetwork id rx_more tx_more =>
      upd_conn id (fun c => set_sock (mk_ksock (rx (sock c) ++ rx_more) (tx (sock c) ++ tx_more)
                                        (wire (sock c))) c)
  end.

Definition step (ev : sevent) : srv unit := do* handle_event ev in collect.
End Step.

Definition initial (o : ServerOptions) (nshards : nat) (random : Z) : Server :=
  mk_Server o empty_table ∅ ∅ ((fun i => mk_Shard (Z.of_nat i) ∅ ∅ []) <$> seq 0 nshards)
    1 0 0 0 0 random.

(** * Fields no handler touches *)

(** [m] leaves the field [g] of every connection alone. *)
Definition keeps {B} (g : Connection -> B) {A} (m : srv A) : Prop :=
  forall s id, g <$> objects (m s).2 !! id = g <$> objects s !! id.

Section Keeps.
Context {F : Type} (g : Connection -> F) {A B : Type}.

Lemma keeps_ret (a : A) : keeps g (mret a).
Proof. done. Qed.
Lemma keeps_throw e : keeps g (mthrow (A := A) e).
Proof. done. Qed.
Lemma keeps_lift (r : result A) : keeps g (mlift r).
Proof. done. Qed.
Lemma keeps_get : keeps g mget.
Proof. done. Qed.
Lemma keeps_bind (m : srv A) (k : A -> srv B) :
  keeps g m -> (forall a, keeps g (k a)) -> keeps g (mbind m k).
Proof.
  intros Hm Hk s id. unfold mbind. specialize (Hm s id). destruct (m s) as [[a|e] s1]; [|done].
  cbn in Hm. by rewrite Hk.
Qed.
Lemma keeps_if (b : bool) (m1 m2 : srv A) :
  keeps g m1 -> keeps g m2 -> keeps g (if b then m1 else m2).
Proof. by destruct b. Qed.
Lemma keeps_get_conn id : keeps g (get_conn id).
Proof. intros s i. unfold get_conn. by destruct (objects s !! id). Qed.
Lemma keeps_upd id f : (forall c, g (f c) = g c) -> keeps g (upd_conn id f).
Proof.
  intros Hf s i. cbn. destruct (decide (id = i)) as [->|].
  - rewrite lookup_alter_eq. destruct (objects s !! i); cbn; [by rewrite Hf|done].
  - by rewrite lookup_alter_ne.
Qed.
Lemma keeps_on_sessions (f : heap -> SessionTable -> A * SessionTable) : keeps g (on_sessions f).
Proof. intros s i. unfold on_sessions. by destruct (f _ _). Qed.
Lemma keeps_session_update f : keeps g (session_update f).
Proof. intros s i. done. Qed.
Lemma keeps_limiter f : keeps g (on_limiter f).
Proof. intros s i. unfold on_limiter. by destruct (f _ _ _). Qed.
Lemma keeps_upd_shard i f : keeps g (upd_shard i f).
Proof. done. Qed.
Lemma keeps_lock w : keeps g (lock w).
Proof. done. Qed.
Lemma keeps_relay_peer c : keeps g (relay_peer c).
Proof. unfold relay_peer. by destruct (relay_peer_ c). Qed.
Lemma keeps_create_pairing a b : keeps g (do_create_pairing a b).
Proof. intros s i. unfold do_create_pairing. by destruct (create_pairing _ _ _ _ _) as [[]|]. Qed.
Lemma keeps_modify f : (forall s, objects (f s) = objects s) -> keeps g (mmodify f).
Proof. intros Hf s i. cbn. by rewrite Hf. Qed.
End Keeps.

Create HintDb keeps.
#[export] Hint Resolve keeps_ret keeps_throw keeps_lift keeps_get keeps_get_conn keeps_on_sessions
  keeps_session_update keeps_limiter keeps_upd_shard keeps_lock keeps_relay_peer
  keeps_create_pairing : keeps.
#[export] Hint Extern 1 (keeps _ (mmodify _)) => by apply keeps_modify : keeps.
#[export] Hint Extern 1 (keeps _ (upd_conn _ _)) =>
  apply keeps_upd; let c := fresh in intros c; first [reflexivity |
    unfold request_close; destruct (close_requested c); reflexivity] : keeps.

(** Walk through a handler statement by statement. *)
Ltac keeps_walk :=
  repeat first
    [ solve [eauto with keeps]
    | apply keeps_bind; [|intros ?]
    | apply keeps_if
    | match goal with |- keeps _ (match ?x with _ => _ end) => destruct x end ].

Lemma keeps_enqueue {F} (g : Connection -> F) id t p :
  (forall o c, g (set_out o c) = g c) -> keeps g (enqueue id t p).
Proof. intros Hg. unfold enqueue. keeps_walk. apply keeps_upd. auto. Qed.

Lemma keeps_wake_for {F} (g : Connection -> F) id : keeps g (wake_for id).
Proof. unfold wake_for. keeps_walk. Qed.

#[export] Hint Resolve keeps_wake_for : keeps.
#[export] Hint Extern 1 (keeps _ (enqueue _ _ _)) => by apply keeps_enqueue : keeps.

Lemma keeps_inb_handle_frame id f : keeps inb (handle_frame id f).
Proof.
  unfold handle_frame. destruct (type (header f));
    unfold reject_and_close, handle_client_hello, handle_send_request, count_introduction,
      handle_group_query, handle_group_join, handle_group_send_request, handle_accept,
      handle_reject, handle_relay_open, handle_relay_data, handle_relay_close, start_relaying;
    keeps_walk.
Qed.
