(* ===== verification/ServerSafety.v ===== *)
(** The server cannot be made to misbehave by what a client sends: in every state
    the server reaches, every event is handled without an access outside a buffer,
    a dangling connection or an exception that leaves the shard loop, and the
    invariant [server_ok] is kept.

    [safe D m Q] is the program logic: with [D] the connection objects alive, [m]
    keeps the invariant and those objects, returns a value satisfying [Q] or throws
    an exception of the program. The one call that may not return is the search for
    a pairing id in a table of at least 2^64 - 1 pairings. *)

From S2P Require Import Prelude Endian Socket Frame Protocol Messages Connection RateLimiter.
From S2P Require Import SessionTable Server.

Definition rx_ok (evs : list rx_event) : Prop :=
  Forall (fun ev => match ev with RxData bs => bytes_ok bs | _ => True end) evs.

Record conn_ok (k : Z) (c : Connection) : Prop := {
  co_in : inbuf_ok (inb c);
  co_in_bytes : bytes_ok (input_ (inb c));
  co_out : outbuf_ok (outb c);
  co_endpoint : endpoint_ok (observed_endpoint c);
  co_hello : forall h, hello c = Some h -> ClientHello_ok h;
  co_claimed : len (claimed_username c) <= kMaxUsernameLength;
  co_rx : rx_ok (rx (sock c));
}.

Record server_ok (s : Server) : Prop := {
  so_objects : map_Forall conn_ok (objects s);
  so_table : table_ok (sessions_ s);
  so_shards : Forall (fun sh => map_Forall (fun _ id => id ∈ dom (objects s)) (connections sh))
                (shards_ s);
  so_entropy : is_u64 (entropy s);
}.

(** How an operation may end other than by returning; [th] says whether it may
    throw. *)
Definition fault (th : bool) (s : Server) (e : exn) : Prop :=
  (th = true /\ is_dz_error e = true) \/
  (e = Blocks /\ 2 ^ 64 < Z.of_nat (size (pairings_ (sessions_ s))) + 2).

(** What no operation within an event changes. *)
Definition alike (s s' : Server) : Prop :=
  dom (objects s') = dom (objects s) /\ length (shards_ s') = length (shards_ s) /\
  options_ s' = options_ s.

Definition safe (th : bool) (D : gset Z) {A} (m : srv A) (Q : A -> Prop) : Prop :=
  forall s, server_ok s -> dom (objects s) = D ->
    let '(r, s') := m s in
    server_ok s' /\ alike s s' /\ match r with Ok a => Q a | Err e => fault th s' e end.

Section Rules.
Context (th : bool) (D : gset Z) {A B : Type}.

Lemma alike_refl s : alike s s.
Proof. done. Qed.

Lemma safe_ret (a : A) (Q : A -> Prop) : Q a -> safe th D (mret a) Q.
Proof. intros H s Hs Hd. cbn. by split_and!. Qed.

Lemma safe_bind (m : srv A) (k : A -> srv B) P Q :
  safe th D m P -> (forall a, P a -> safe th D (k a) Q) -> safe th D (mbind m k) Q.
Proof.
  intros Hm Hk s Hs Hd. specialize (Hm s Hs Hd). unfold mbind.
  destruct (m s) as [[a|e] s1]; destruct Hm as (H1 & (A1 & A2 & A3) & H3); [|done].
  specialize (Hk a H3 s1 H1 ltac:(congruence)). destruct (k a s1) as [r s2].
  destruct Hk as (K1 & (B1 & B2 & B3) & K3). split_and!; try done. unfold alike. by rewrite B1, B2, B3.
Qed.

Lemma safe_weaken (m : srv A) (P Q : A -> Prop) :
  safe th D m P -> (forall a, P a -> Q a) -> safe th D m Q.
Proof.
  intros Hm H s Hs Hd. specialize (Hm s Hs Hd). destruct (m s) as [[a|e] s1]; naive_solver.
Qed.

Lemma safe_if (b : bool) (m1 m2 : srv A) Q :
  (b = true -> safe th D m1 Q) -> (b = false -> safe th D m2 Q) -> safe th D (if b then m1 else m2) Q.
Proof. destruct b; auto. Qed.

Lemma safe_lift (r : result A) (Q : A -> Prop) :
  match r with Ok a => Q a | Err e => th = true /\ is_dz_error e = true end ->
  safe th D (mlift r) Q.
Proof. intros H s Hs Hd. cbn. split_and!; [done|done|]. destruct r; [done|by left]. Qed.

Lemma safe_get_state : safe th D mget (fun s => server_ok s /\ dom (objects s) = D).
Proof. intros s Hs Hd. cbn. by split_and!. Qed.
End Rules.

Lemma conn_at D s id : server_ok s -> dom (objects s) = D -> id ∈ D ->
  exists c, objects s !! id = Some c /\ conn_ok id c.
Proof.
  intros Hs <- [c Hc]%elem_of_dom. exists c. split; [done|]. by apply (so_objects _ Hs).
Qed.

Lemma safe_get th D id : id ∈ D -> safe th D (get_conn id) (conn_ok id).
Proof.
  intros Hid s Hs Hd. destruct (conn_at D s id Hs Hd Hid) as (c & Hc & Hok).
  unfold get_conn. rewrite Hc. by split_and!.
Qed.

Lemma safe_upd th D id f :
  (forall c, conn_ok id c -> conn_ok id (f c)) -> safe th D (upd_conn id f) (fun _ => True).
Proof.
  intros Hf s Hs Hd. unfold upd_conn, mmodify. split_and!; [|split_and!; [apply dom_alter_L|done|done]|done].
  split; cbn; [|apply (so_table _ Hs)| |apply (so_entropy _ Hs)].
  - intros k c. rewrite lookup_alter_Some. intros [(-> & c0 & Hc & ->)|[_ Hc]].
    + apply Hf. by apply (so_objects _ Hs).
    + by apply (so_objects _ Hs).
  - rewrite dom_alter_L. apply (so_shards _ Hs).
Qed.

Lemma safe_on_sessions th D {A} (f : heap -> SessionTable -> A * SessionTable) (Q : A -> Prop) :
  (forall h t, table_ok t -> map_Forall conn_ok h -> dom h = D ->
     table_ok (f h t).2 /\ Q (f h t).1) ->
  safe th D (on_sessions f) Q.
Proof.
  intros Hf s Hs Hd. destruct (Hf (objects s) (sessions_ s)) as [Ht Hq];
    [apply (so_table _ Hs)|apply (so_objects _ Hs)|done|].
  unfold on_sessions. destruct (f (objects s) (sessions_ s)) as [a t]. cbn in *.
  split_and!; [|done|done]. split; cbn; try done; apply Hs.
Qed.

Lemma safe_session_update th D f :
  (forall h t, table_ok t -> table_ok (f h t)) -> safe th D (session_update f) (fun _ => True).
Proof. intros Hf. apply safe_on_sessions. intros h t Ht _ _. split; [by apply Hf|done]. Qed.

Lemma safe_limiter th D f : safe th D (on_limiter f) (fun _ => True).
Proof.
  intros s Hs Hd. unfold on_limiter. destruct (f _ _ _) as [a b].
  split_and!; [|done|done]. split; cbn; apply Hs.
Qed.

(** A shard's own table may lose entries, not gain them. *)
Lemma safe_upd_shard th D i f :
  (forall sh, connections (f sh) ⊆ connections sh) -> safe th D (upd_shard i f) (fun _ => True).
Proof.
  intros Hf s Hs Hd. unfold upd_shard, mmodify.
  split_and!; [|split_and!; [done|apply length_alter|done]|done].
  split; cbn; [apply Hs|apply Hs| |apply Hs]. apply Forall_alter; [apply (so_shards _ Hs)|].
  intros sh _ Hsh f' id Hl. apply (Hsh f'). by eapply lookup_weaken, Hf.
Qed.

Lemma safe_lock th D w : safe th D (lock w) (fun o => forall x, o = Some x -> x ∈ D).
Proof.
  intros s Hs Hd. cbn. split_and!; [done|done|]. unfold expired.
  destruct (bool_decide (objects s !! w = None)) eqn:E; [done|]. intros x [= <-].
  apply bool_decide_eq_false in E. rewrite <- Hd. apply elem_of_dom.
  destruct (objects s !! w); [eauto|done].
Qed.

Lemma safe_counters th D f :
  (forall s, objects (f s) = objects s /\ sessions_ (f s) = sessions_ s /\ shards_ (f s) = shards_ s /\
     entropy (f s) = entropy s /\ options_ (f s) = options_ s) ->
  safe th D (mmodify f) (fun _ => True).
Proof.
  intros Hf s Hs Hd. cbn. destruct (Hf s) as (E1 & E2 & E3 & E4 & E5).
  split_and!; [|split_and!; congruence|done].
  split; rewrite ?E1, ?E2, ?E3, ?E4; apply Hs.
Qed.

(** ** Field updates keep a connection well formed *)

Lemma ok_set_state v k c : conn_ok k c -> conn_ok k (set_state v c).
Proof. intros []. by split. Qed.
Lemma ok_set_hello h k c : ClientHello_ok h -> conn_ok k c -> conn_ok k (set_hello (Some h) c).
Proof. intros Hh []. split; cbn; naive_solver. Qed.
Lemma ok_set_claimed u k c :
  len u <= kMaxUsernameLength -> conn_ok k c -> conn_ok k (set_claimed u c).
Proof. intros ? []. by split. Qed.
Lemma ok_set_pairing v k c : conn_ok k c -> conn_ok k (set_pairing v c).
Proof. intros []. by split. Qed.
Lemma ok_set_group v k c : conn_ok k c -> conn_ok k (set_group v c).
Proof. intros []. by split. Qed.
Lemma ok_attach v k c : conn_ok k c -> conn_ok k (attach_relay_peer v c).
Proof. intros []. by split. Qed.
Lemma ok_set_activity v k c : conn_ok k c -> conn_ok k (set_activity v c).
Proof. intros []. by split. Qed.
Lemma ok_set_read_paused v k c : conn_ok k c -> conn_ok k (set_read_paused v c).
Proof. intros []. by split. Qed.
Lemma ok_request_close r k c : conn_ok k c -> conn_ok k (request_close r c).
Proof. unfold request_close. intros H. destruct (close_requested c); [done|]. destruct H. by split. Qed.
Lemma ok_set_out o k c : outbuf_ok o -> conn_ok k c -> conn_ok k (set_out o c).
Proof. intros ? []. by split. Qed.
Lemma ok_set_in b k c : inbuf_ok b -> bytes_ok (input_ b) -> conn_ok k c -> conn_ok k (set_in b c).
Proof. intros ? ? []. by split. Qed.

Create HintDb safe.
#[export] Hint Resolve ok_set_state ok_set_hello ok_set_claimed ok_set_pairing ok_set_group
  ok_attach ok_set_activity ok_set_read_paused ok_request_close : safe.
#[export] Hint Resolve safe_get safe_limiter safe_lock : safe.
#[export] Hint Extern 1 (safe _ _ (upd_conn _ _) _) => apply safe_upd; solve [eauto with safe] : safe.

(** ** Derived operations *)

Lemma safe_enqueue th D id t p :
  id ∈ D -> len p <= kMaxFrameLength -> safe th D (enqueue id t p) (fun _ => True).
Proof.
  intros Hid Hp. eapply safe_bind; [by apply safe_get|]. intros c Hc.
  destruct (enqueue_frame_spec t p 0 (outb c) (co_out _ _ Hc) Hp) as (o & E & Ho & _).
  eapply safe_bind; [apply (safe_lift _ _ _ outbuf_ok); by rewrite E|]. intros o' Ho'.
  apply safe_upd. intros c' Hc'. by apply ok_set_out.
Qed.

Lemma safe_wake_for th D id : id ∈ D -> safe th D (wake_for id) (fun _ => True).
Proof.
  intros Hid. eapply safe_bind; [by apply safe_get|]. intros c Hc.
  eapply safe_bind; [apply safe_get_state|]. intros s _.
  apply safe_if; intros _; [by apply safe_ret|]. by apply safe_upd_shard.
Qed.

Lemma safe_reject th D id r :
  id ∈ D -> len r <= kMaxFrameLength -> safe th D (reject_and_close id r) (fun _ => True).
Proof.
  intros Hid Hr. eapply safe_bind; [by apply safe_enqueue|]. intros _ _. auto with safe.
Qed.

Lemma safe_decode D {A} `{WireMessage A} b :
  bytes_ok b -> safe true D (mlift (wm_decode b)) wm_ok.
Proof.
  intros Hb. apply safe_lift. pose proof (wm_sound b Hb). destruct (wm_decode b); naive_solver.
Qed.

(** ** Everything the server queues fits in a frame *)

(** The hello a connection was built from or has received. *)
Definition hello_fits (h : ClientHello) : Prop :=
  len (ch_username h) <= 64 /\ len (ch_identity_key h) = 32 /\ len (ch_session_key h) = 32 /\
  len (ch_local_candidates h) < 2 ^ 16 /\ Forall endpoint_ok (ch_local_candidates h) /\
  is_u16 (ch_tcp_port h) /\ is_u16 (ch_udp_port h).

Lemma hello_of_fits k c : conn_ok k c -> hello_fits (hello_of c).
Proof.
  intros Hc. unfold hello_of, hello_fits. destruct (hello c) as [h|] eqn:E; cbn.
  - destruct (co_hello _ _ Hc h E) as (Hu & [Hi _] & [Hs _] & Ht & Hp & Hl & Hn).
    apply valid_name_len in Hu. unfold kMaxUsernameLength in Hu. split_and!; try done. lia.
  - split_and!; try done.
Qed.

Lemma candidates_of_len k c : conn_ok k c -> len (candidates_of c) <= 2 ^ 16.
Proof.
  intros Hc. destruct (hello_of_fits _ _ Hc) as (_ & _ & _ & Hn & _). unfold candidates_of.
  rewrite len_app. change (len [_]) with 1. lia.
Qed.

Lemma quote_len n : len (quote n) = len n + 2.
Proof. unfold quote. rewrite !len_app. change (len (str "'")) with 1. lia. Qed.

(** ** The handlers *)

(** Sizes of messages built from literals and names. *)
Ltac msg_size :=
  rewrite ?len_app, ?quote_len, ?len_app;
  repeat match goal with
  | |- context [len (str ?s)] =>
      let n := eval vm_compute in (len (str s)) in change (len (str s)) with n
  end;
  unfold kMaxFrameLength, kMaxUsernameLength in *; lia.

#[export] Hint Extern 1 (safe _ _ (reject_and_close _ (str _)) _) =>
  apply safe_reject; [assumption|apply Z.leb_le; vm_compute; reflexivity] : safe.
#[export] Hint Extern 1 (safe _ _ (wake_for _) _) => apply safe_wake_for; assumption : safe.
#[export] Hint Extern 1 (safe _ _ (mret tt) _) => apply safe_ret; exact I : safe.

(** One statement of a handler. *)
Ltac safe_step :=
  lazymatch goal with
  | |- safe _ _ (if _ then _ else _) _ => apply safe_if; intros ?
  | |- safe _ _ (mbind mget _) _ => eapply safe_bind; [apply safe_get_state|]; intros ? [? ?]
  | |- safe _ _ (mbind (upd_conn _ _) _) _ =>
      eapply safe_bind; [apply safe_upd; solve [eauto with safe]|]; intros _ _
  | |- safe _ _ (mbind _ _) _ => eapply safe_bind; [solve [eauto with safe]|cbv beta; intros ? ?]
  | |- safe _ _ _ (fun _ => True) => solve [eauto with safe]
  end.

Lemma safe_client_hello D id p :
  id ∈ D -> bytes_ok p -> safe true D (handle_client_hello id p) (fun _ => True).
Proof.
  intros Hid Hp. unfold handle_client_hello.
  eapply safe_bind; [exact (safe_decode D (A := ClientHello) p Hp)|]. intros h Hh.
  pose proof Hh as (Hu%valid_name_le & _). safe_step. rename a into c. rename H into Hc.
  pose proof (co_claimed _ _ Hc) as Hcl. unfold kMaxUsernameLength in Hcl.
  safe_step; [safe_step|]. safe_step. safe_step.
  safe_step. { apply safe_enqueue; [done|]. apply ServerHello_size. cbn [sh_message]. msg_size. }
  eapply (safe_bind _ _ _ _ (fun r => len (sh_message r) <= 256)).
  { destruct (ch_role h).
    - eapply safe_bind.
      { apply (safe_on_sessions _ _ _ (fun _ => True)). intros hp t Ht _ _. split; [by apply claim_ok|done]. }
      intros r _. destruct r.
      + eapply safe_bind; [apply safe_upd; intros; apply ok_set_claimed; [unfold kMaxUsernameLength; lia|done]|].
        intros _ _. safe_step. apply safe_ret. cbn [sh_message]. msg_size.
      + apply safe_ret. cbn [sh_message]. msg_size.
      + apply safe_ret. cbn [sh_message]. msg_size.
    - safe_step. by apply safe_ret. }
  intros r Hr. eapply safe_bind; [apply safe_enqueue; [done|by apply ServerHello_size]|]. intros _ _.
  safe_step; safe_step.
Qed.

Lemma safe_create_pairing th D s0 r : safe th D (do_create_pairing s0 r) (fun _ => True).
Proof.
  intros s Hs Hd. unfold do_create_pairing.
  destruct (Z.le_gt_cases (Z.of_nat (size (pairings_ (sessions_ s))) + 2) (2 ^ 64)) as [Hle|Hgt].
  - destruct (create_pairing_spec (entropy s) (clock s) s0 r (sessions_ s)) as (pid & t' & -> & Ht' & _);
      [apply (so_table _ Hs)|apply (so_entropy _ Hs)|done|].
    split_and!; [|done|done]. split; cbn; try done; apply Hs.
  - pose proof (so_table _ Hs) as Ht. destruct (create_pairing _ _ _ _ _) as [[pid t']|] eqn:E.
    + split_and!; [|done|done]. split; cbn; try apply Hs.
      unfold create_pairing in E. destruct (pairing_id_loop _ _ _ _) as [[i ctr]|] eqn:El; [|done].
      injection E as <- <-.
      assert (is_u64 (if salt_ready_ (sessions_ s) then pairing_id_salt_ (sessions_ s) else entropy s))
        by (destruct (salt_ready_ _); [apply (ok_salt _ Ht)|apply (so_entropy _ Hs)]).
      apply pairing_id_loop_some in El as (? & ? & ? & ?); [|done|apply (ok_counter _ Ht)].
      split; cbn; [apply Ht| |apply Ht|done|done].
      apply map_Forall_insert_2; [done|apply (ok_pairings _ Ht)].
    + split_and!; [done|done|]. right. split; [done|lia].
Qed.

Lemma safe_find_pairing th D pid :
  safe th D (on_sessions (fun _ t => (find_pairing pid t, t))) (fun _ => True).
Proof. by apply safe_on_sessions. Qed.

Lemma safe_lookup_claim th D u :
  safe th D (on_sessions (fun h t => (lookup_claim h u t, t))) (fun o => forall x, o = Some x -> x ∈ D).
Proof.
  apply safe_on_sessions. intros h t Ht _ Hd. cbn. split; [done|]. intros x.
  unfold lookup_claim, expired. destruct (claims_ t !! u) as [w|]; [|done].
  destruct (bool_decide (h !! w = None)) eqn:E; [done|]. intros [= <-].
  apply bool_decide_eq_false in E. rewrite <- Hd. apply elem_of_dom. destruct (h !! w); [eauto|done].
Qed.

#[export] Hint Resolve safe_find_pairing safe_lookup_claim safe_create_pairing : safe.

Lemma safe_count_introduction th D : safe th D count_introduction (fun _ => True).
Proof. by apply safe_counters. Qed.
#[export] Hint Resolve safe_count_introduction : safe.

Lemma safe_send_request D id p :
  id ∈ D -> bytes_ok p -> safe true D (handle_send_request id p) (fun _ => True).
Proof.
  intros Hid Hp. unfold handle_send_request. safe_step. rename a into c. rename H into Hc.
  safe_step; [safe_step|]. safe_step. safe_step; [safe_step|].
  eapply safe_bind; [exact (safe_decode D (A := SendRequest) p Hp)|].
  intros q (Ht%valid_name_le & [Hpr _] & [Hsg _] & Hg%valid_group_len).
  eapply safe_bind; [apply safe_lookup_claim|]. intros o Ho. destruct o as [r|].
  2: { apply safe_reject; [done|]. msg_size. }
  pose proof (Ho r eq_refl) as Hr. safe_step. safe_step.
  { apply safe_reject; [done|]. msg_size. }
  do 5 safe_step. destruct (hello_of_fits _ _ Hc) as (Hu & Hi & Hs & _).
  eapply safe_bind.
  { apply safe_enqueue; [done|]. apply PeerIntroduction_size. unfold introduction_fits. cbn.
    pose proof (candidates_of_len _ _ Hc). by split_and!. }
  intros _ _. safe_step. safe_step.
Qed.

Lemma safe_group_query D id p :
  id ∈ D -> bytes_ok p -> safe true D (handle_group_query id p) (fun _ => True).
Proof.
  intros Hid Hp. unfold handle_group_query. safe_step. safe_step; [safe_step|].
  eapply safe_bind; [exact (safe_decode D (A := GroupQuery) p Hp)|]. intros q Hq.
  eapply safe_bind.
  { apply (safe_on_sessions _ _ _ (fun _ => True)). intros h t Ht _ _. split; [|done].
    pose proof (find_group_ok h (gq_name q) t Ht). unfold group_exists. by destruct (find_group _ _ _). }
  intros ? _. eapply safe_bind.
  { apply (safe_on_sessions _ _ _ (fun _ => True)). intros h t Ht _ _. split; [|done].
    pose proof (find_group_ok h (gq_name q) t Ht). unfold group_member_count.
    by destruct (find_group _ _ _). }
  intros ? _. apply safe_enqueue; [done|]. unfold GroupStatus_encode. size_simpl. lia.
Qed.

Lemma safe_group_join D id p :
  id ∈ D -> bytes_ok p -> safe true D (handle_group_join id p) (fun _ => True).
Proof.
  intros Hid Hp. unfold handle_group_join. safe_step. rename a into c. rename H into Hc.
  safe_step; [safe_step|].
  eapply safe_bind; [exact (safe_decode D (A := GroupJoin) p Hp)|]. intros j (Hn%valid_name_le & _).
  eapply (safe_bind _ _ _ _ (fun _ => True)).
  { safe_step; [|safe_step]. eapply safe_bind; [apply safe_session_update; intros; by apply leave_group_ok|].
    intros _ _. safe_step. }
  intros _ _. eapply safe_bind.
  { apply (safe_on_sessions _ _ _ (fun _ => True)). intros h t Ht _ _. split; [by apply join_group_ok|done]. }
  intros r _. eapply (safe_bind _ _ _ _ (fun x : GroupJoinOutcome * bytes => len x.2 <= 256)).
  { destruct r; try safe_step; apply safe_ret; cbn [snd]; msg_size. }
  intros x Hx. eapply safe_bind.
  { apply (safe_on_sessions _ _ _ (fun _ => True)). intros h t Ht _ _. split; [|done].
    pose proof (find_group_ok h (gj_name j) t Ht). unfold group_member_count.
    by destruct (find_group _ _ _). }
  intros n _. apply safe_enqueue; [done|]. by apply GroupResult_size.
Qed.

Lemma roster_names th D name skip :
  safe th D (on_sessions (fun h t =>
    let '(ms, t) := idle_group_members h name skip t in
    (omap (fun w => claimed_username <$> h !! w) ms, t)))
    (fun us => len us <= kMaxGroupMembers /\ Forall (fun u => len u <= kMaxUsernameLength) us).
Proof.
  apply safe_on_sessions. intros h t Ht Hh _. pose proof (find_group_ok h name t Ht) as Ht'.
  unfold idle_group_members. destruct (find_group h name t) as [g t'] eqn:E. cbn in *.
  split; [done|]. set (ms := match g with Some _ => _ | None => _ end). split.
  - assert (len ms <= kMaxGroupMembers).
    { unfold ms. destruct g as [g|]; [|done].
      apply find_group_some in E as [E _]; [|done]. destruct (ok_groups _ Ht' _ _ E) as (_ & _ & _ & ?).
      pose proof (filter_len (fun w => is_idle_member h skip w = true) (members g)). lia. }
    pose proof (len_omap (fun w => claimed_username <$> h !! w) ms). lia.
  - apply Forall_forall. intros u (w & _ & Hw)%list_elem_of_omap.
    destruct (h !! w) as [c|] eqn:Ew; [|done]. injection Hw as <-. by apply (co_claimed _ _ (Hh w c Ew)).
Qed.

Lemma safe_group_send_request D id p :
  id ∈ D -> bytes_ok p -> safe true D (handle_group_send_request id p) (fun _ => True).
Proof.
  intros Hid Hp. unfold handle_group_send_request. safe_step. safe_step; [safe_step|].
  safe_step. safe_step; [safe_step|].
  eapply safe_bind; [exact (safe_decode D (A := GroupSendRequest) p Hp)|]. intros q _.
  eapply safe_bind; [apply roster_names|]. intros us [Hn Hu].
  apply safe_enqueue; [done|]. by apply GroupRoster_size.
Qed.

Lemma safe_accept D id p :
  id ∈ D -> bytes_ok p -> safe true D (handle_accept id p) (fun _ => True).
Proof.
  intros Hid Hp. unfold handle_accept. safe_step. rename a into c. rename H into Hc.
  safe_step; [safe_step|]. safe_step. destruct a as [pr|]; [|safe_step].
  safe_step. destruct a as [sd|]; [|do 2 safe_step]. specialize (H1 sd eq_refl).
  eapply safe_bind; [exact (safe_decode D (A := PeerIntroduction) p Hp)|].
  intros i (Hu%valid_name_le & [Hi _] & [Hs _] & _ & [Hpf _] & [Hsg _] & _ & Hg%valid_group_len).
  eapply safe_bind.
  { apply safe_enqueue; [done|]. apply PeerIntroduction_size. unfold introduction_fits. cbn.
    pose proof (candidates_of_len _ _ Hc). by split_and!. }
  intros _ _. safe_step.
Qed.

Lemma safe_destroy_pairing th D pid :
  safe th D (session_update (fun _ => destroy_pairing pid)) (fun _ => True).
Proof. apply safe_session_update. intros. by apply destroy_pairing_ok. Qed.
#[export] Hint Resolve safe_destroy_pairing : safe.

Lemma safe_notify th D id t p r :
  id ∈ D -> len p <= kMaxFrameLength ->
  safe th D (do* enqueue id t p in do* upd_conn id (request_close r) in wake_for id) (fun _ => True).
Proof.
  intros Hid Hp. eapply safe_bind; [by apply safe_enqueue|]. intros _ _. safe_step. safe_step.
Qed.

Lemma safe_handle_reject th D id p :
  id ∈ D -> len p <= kMaxFrameLength -> safe th D (handle_reject id p) (fun _ => True).
Proof.
  intros Hid Hp. unfold handle_reject. safe_step. safe_step; [safe_step|]. safe_step.
  eapply (safe_bind _ _ _ _ (fun _ => True)).
  { destruct a0 as [pr|]; [|safe_step]. safe_step.
    eapply (safe_bind _ _ _ _ (fun _ => True)); [|intros _ _; safe_step].
    destruct a0 as [sd|]; [|safe_step]. safe_step; [|safe_step]. by apply safe_notify; [apply H2|]. }
  intros _ _. safe_step. safe_step; safe_step.
Qed.

Lemma safe_start_relaying th D s r : safe th D (start_relaying s r) (fun _ => True).
Proof. unfold start_relaying. do 4 safe_step. Qed.
#[export] Hint Resolve safe_start_relaying : safe.

Lemma safe_relay_open th D id : id ∈ D -> safe th D (handle_relay_open id) (fun _ => True).
Proof.
  intros Hid. unfold handle_relay_open. safe_step. safe_step; [safe_step|]. safe_step.
  safe_step; [safe_step|]. safe_step. destruct a1 as [pr|]; [|safe_step].
  safe_step. safe_step. destruct a1 as [sd|]; [|safe_step]. destruct a2 as [rc|]; [|safe_step].
  specialize (H5 sd eq_refl). specialize (H6 rc eq_refl).
  eapply (safe_bind _ _ _ _ (fun _ => True)).
  { apply safe_on_sessions. intros h t Ht _ _. split; [by apply request_relay_ok|done]. }
  intros st _. safe_step; [safe_step|]. safe_step.
  eapply safe_bind; [by apply safe_enqueue|]. intros _ _.
  eapply safe_bind; [by apply safe_enqueue|]. intros _ _. safe_step. safe_step.
Qed.

Lemma safe_relay_peer th D c : safe th D (relay_peer c) (fun o => forall x, o = Some x -> x ∈ D).
Proof. unfold relay_peer. destruct (relay_peer_ c); [apply safe_lock|by apply safe_ret]. Qed.
#[export] Hint Resolve safe_relay_peer : safe.

Lemma safe_relay_data th D id p :
  id ∈ D -> len p <= kMaxFrameLength -> safe th D (handle_relay_data id p) (fun _ => True).
Proof.
  intros Hid Hp. unfold handle_relay_data. safe_step. safe_step.
  eapply (safe_bind _ _ _ _ (fun o => forall x, o = Some x -> x ∈ D)).
  { destruct a0 as [pe|]; [by apply safe_ret|]. safe_step; [by apply safe_ret|]. safe_step.
    destruct a0 as [pr|]; [|by apply safe_ret]. safe_step; [by apply safe_ret|].
    safe_step. safe_step. destruct a0 as [sd|]; [|by apply safe_ret].
    destruct a1 as [rc|]; [|by apply safe_ret]. safe_step. apply safe_ret.
    intros x [= <-]. destruct (sd =? id); auto. }
  intros o Ho. destruct o as [pe|]; [|safe_step]. specialize (Ho pe eq_refl).
  eapply safe_bind; [by apply safe_enqueue|]. intros _ _.
  eapply (safe_bind _ _ _ _ (fun _ => True)); [by apply safe_counters|]. intros _ _.
  safe_step. eapply (safe_bind _ _ _ _ (fun _ => True)); [safe_step; safe_step|]. intros _ _. safe_step.
Qed.

Lemma safe_relay_close th D id p :
  id ∈ D -> len p <= kMaxFrameLength -> safe th D (handle_relay_close id p) (fun _ => True).
Proof.
  intros Hid Hp. unfold handle_relay_close. safe_step. safe_step.
  eapply (safe_bind _ _ _ _ (fun _ => True)).
  { destruct a0 as [pe|]; [|safe_step]. by apply safe_notify; [apply H0|]. }
  intros _ _. safe_step.
Qed.

(** A frame as [next_frame] hands it out. *)
Definition frame_ok (f : Frame) : Prop :=
  bytes_ok (payload f) /\ len (payload f) <= kMaxFrameLength.

Lemma message_type_name_len t : len (message_type_name t) <= 16.
Proof. by destruct t. Qed.

Lemma safe_handle_frame D id f : id ∈ D -> frame_ok f -> safe true D (handle_frame id f) (fun _ => True).
Proof.
  intros Hid [Hb Hl]. unfold handle_frame.
  assert (forall t, safe true D (reject_and_close id (str "a " ++ message_type_name t ++
    str " frame is not valid here")) (fun _ => True)) as Hrej.
  { intros t. apply safe_reject; [done|]. pose proof (message_type_name_len t). msg_size. }
  destruct (type (header f)); try apply Hrej; try safe_step.
  - by apply safe_client_hello.
  - by apply safe_send_request.
  - by apply safe_accept.
  - by apply safe_handle_reject.
  - by apply safe_relay_open.
  - by apply safe_relay_data.
  - by apply safe_relay_close.
  - by apply safe_group_query.
  - by apply safe_group_join.
  - by apply safe_group_send_request.
Qed.

(** ** Servicing *)

Lemma next_frame_total b :
  inbuf_ok b -> bytes_ok (input_ b) ->
  match next_frame b with
  | Ok None => input_at_cap b = false
  | Ok (Some (f, b')) => frame_ok f /\ inbuf_ok b' /\ input_ b' = input_ b /\
                         input_consumed_ b < input_consumed_ b'
  | Err e => is_dz_error e = true
  end.
Proof.
  intros Hb Hok. unfold next_frame, input_at_cap. set (n := len (input_ b) - input_consumed_ b).
  destruct (Z.ltb_spec n kFrameHeaderSize) as [Hlt|Hge].
  { apply Z.leb_gt. unfold kMaxInputBuffer, kMaxFrameLength, kFrameHeaderSize, kReadBatch in *. lia. }
  fold (unread b). assert (len (unread b) = n) as Hn by by apply unread_len.
  assert (bytes_ok (unread b)) as Hub by by apply bytes_ok_zdrop.
  assert (match decode_frame_header (unread b) with
          | Ok h => 0 <= length_ h <= kMaxFrameLength
          | Err e => is_dz_error e = true end) as Hd.
  { unfold decode_frame_header. unfold kFrameHeaderSize in Hge.
    destruct (unread b) as [|v [|t r]] eqn:E; [rewrite ?len_cons, len_nil in Hn; lia..|].
    destruct (load_u16_total (zdrop 2 (v :: t :: r))) as (fl & -> & _);
      [rewrite len_zdrop; rewrite Hn; lia|].
    destruct (load_u32_total (zdrop 4 (v :: t :: r))) as (l & -> & [Hl _]);
      [rewrite len_zdrop; rewrite Hn; lia|].
    cbn [version length_]. destruct (negb (v =? _)); [done|].
    destruct (Z.ltb_spec kMaxFrameLength l); [done|]. cbn. lia. }
  destruct (decode_frame_header (unread b)) as [h|e]; [|done].
  destruct (Z.ltb_spec n (kFrameHeaderSize + length_ h)).
  { apply Z.leb_gt. unfold kMaxInputBuffer, kReadBatch. lia. }
  unfold kFrameHeaderSize in *. unfold frame_ok, inbuf_ok in *. cbn. split_and!; try lia; try done.
  - by apply bytes_ok_ztake, bytes_ok_zdrop.
  - rewrite len_ztake_min by lia. lia.
Qed.

(** Whether the connection may stop reading: it is closing, paused, or below the cap. *)
Definition settled (s : Server) (id : Z) : Prop :=
  exists c, objects s !! id = Some c /\
    (bool_decide (is_Some (close_requested c)) || read_paused c = true \/ input_at_cap (inb c) = false).

Lemma server_ok_upd s id f :
  server_ok s -> (forall c, objects s !! id = Some c -> conn_ok id (f c)) ->
  server_ok (set_objects (alter f id (objects s)) s).
Proof.
  intros Hs Hf. split; cbn; [|apply Hs| |apply Hs].
  - intros k c. rewrite lookup_alter_Some. intros [(-> & c0 & Hc & ->)|[_ Hc]].
    + by apply Hf.
    + by apply (so_objects _ Hs).
  - rewrite dom_alter_L. apply (so_shards _ Hs).
Qed.

Lemma alike_upd s id f : alike s (set_objects (alter f id (objects s)) s).
Proof. split_and!; [apply dom_alter_L|done|done]. Qed.

Lemma alike_trans s1 s2 s3 : alike s1 s2 -> alike s2 s3 -> alike s1 s3.
Proof. intros (A1 & A2 & A3) (B1 & B2 & B3). unfold alike. by rewrite B1, B2, B3. Qed.

Lemma handle_buffered_safe fuel id p s c :
  server_ok s -> objects s !! id = Some c ->
  len (input_ (inb c)) - input_consumed_ (inb c) < Z.of_nat fuel ->
  let '(r, s') := handle_buffered fuel id p s in
  server_ok s' /\ alike s s' /\ match r with Ok _ => settled s' id | Err e => fault true s' e end.
Proof.
  revert p s c. induction fuel as [|fuel IH]; intros p s c Hs Hc Hf.
  { pose proof (co_in _ _ (so_objects _ Hs _ _ Hc)) as Hb. unfold inbuf_ok in Hb. lia. }
  cbn [handle_buffered]. pose proof (so_objects _ Hs _ _ Hc) as Hok.
  pose proof (next_frame_total (inb c) (co_in _ _ Hok) (co_in_bytes _ _ Hok)) as Hn.
  unfold mbind at 1, do_next_frame, get_conn. unfold mbind at 1. rewrite Hc. unfold mbind at 1, mlift.
  destruct (next_frame (inb c)) as [[[f b']|]|e].
  3: { split_and!; [done|done|by left]. }
  2: { cbn. split_and!; [done|done|]. exists c. auto. }
  destruct Hn as (Hff & Hb' & Hin & Hlt). unfold mbind at 1, upd_conn, mmodify, mret.
  set (s1 := set_objects _ s).
  assert (server_ok s1) as Hs1.
  { apply server_ok_upd; [done|]. intros c0 Hc0. rewrite Hc in Hc0. injection Hc0 as <-.
    apply ok_set_in; [done|rewrite Hin; apply Hok|done]. }
  assert (alike s s1) as Ha1 by apply alike_upd.
  assert (objects s1 !! id = Some (set_in b' c)) as Hc1 by (cbn; by rewrite lookup_alter_eq, Hc).
  assert (id ∈ dom (objects s1)) as Hid by (apply elem_of_dom; eauto).
  pose proof (safe_handle_frame _ id f Hid Hff s1 Hs1 eq_refl) as Hh.
  pose proof (keeps_inb_handle_frame id f s1 id) as Hk. unfold mbind at 1.
  destruct (handle_frame id f s1) as [[[]|e] s2]; destruct Hh as (Hs2 & Ha2 & Hr).
  2: { split_and!; [done|by eapply alike_trans|done]. }
  cbn [snd] in Hk. rewrite Hc1 in Hk. destruct (objects s2 !! id) as [c2|] eqn:Hc2; [|done].
  injection Hk as Hk. cbn in Hk. unfold mbind, get_conn. rewrite Hc2.
  destruct (_ || read_paused c2) eqn:Ep.
  { cbn. split_and!; [done|by eapply alike_trans|]. exists c2. auto. }
  specialize (IH true s2 c2 Hs2 Hc2). rewrite Hk, Hin in IH. specialize (IH ltac:(lia)).
  destruct (handle_buffered fuel id true s2) as [r s3]. destruct IH as (Hs3 & Ha3 & Hr3).
  split_and!; [done| |done]. eapply alike_trans; [exact Ha1|]. by eapply alike_trans.
Qed.

Lemma safe_flush th D id : id ∈ D -> safe th D (flush_output id) (fun _ => True).
Proof.
  intros Hid. eapply safe_bind; [by apply safe_get|]. intros c Hc.
  destruct (flush_loop _ _ _) as [[ok o] [tx' w']] eqn:E.
  apply flush_loop_spec in E as [Ho _]; [|apply Hc].
  eapply safe_bind; [|intros; by apply safe_ret].
  apply (safe_upd _ _ _ _). intros c' Hc'. destruct Hc'. by split.
Qed.

Lemma rx_ok_recv n evs r evs' :
  recv n evs = (r, evs') -> rx_ok evs ->
  rx_ok evs' /\ match r with RGot bs => bytes_ok bs | _ => True end.
Proof.
  intros H Hok. destruct evs as [|[[|b bs]| | |a|e] evs]; cbn [recv] in H;
    try (injection H as <- <-; by inversion Hok || done).
  inversion_clear Hok as [|? ? Hb He]. destruct (n <? _); injection H as <- <-; [|done].
  split; [constructor; [|done]|]; [by apply bytes_ok_zdrop|by apply bytes_ok_ztake].
Qed.

Lemma compact_bytes b : bytes_ok (input_ b) -> bytes_ok (input_ (compact b)).
Proof. intros H. unfold compact. destruct (_ && _); [by apply bytes_ok_zdrop|done]. Qed.

Lemma read_loop_bytes fuel b evs open b' evs' :
  read_loop fuel b evs = Some (open, b', evs') -> bytes_ok (input_ b) -> rx_ok evs ->
  bytes_ok (input_ b') /\ rx_ok evs'.
Proof.
  revert b evs. induction fuel as [|fuel IH]; intros b evs; cbn [read_loop]; [done|].
  intros H Hb He. pose proof (compact_bytes b Hb) as Hc.
  destruct (input_at_cap (compact b)); [by injection H as <- <- <-|].
  destruct (recv kReadBatch evs) as [r evs1] eqn:Er. apply rx_ok_recv in Er as [He1 Hr]; [|done].
  destruct r; try (by injection H as <- <- <-).
  - apply IH in H; [done| |done]. cbn. by apply bytes_ok_app.
  - by apply IH in H.
Qed.

Lemma safe_read th D id : id ∈ D -> safe th D (do_read_available id) (fun _ => True).
Proof.
  intros Hid. eapply safe_bind; [by apply safe_get|]. intros c Hc.
  destruct (read_loop_total (S (rx_size (rx (sock c)))) (inb c) (rx (sock c))) as [[[open b] rx'] E]; [lia|].
  unfold read_available. rewrite E.
  pose proof (read_loop_bytes _ _ _ _ _ _ E (co_in_bytes _ _ Hc) (co_rx _ _ Hc)) as [Hb Hr].
  apply read_loop_spec in E as [Hok _]; [|apply Hc].
  eapply safe_bind; [|intros; by apply safe_ret]. apply (safe_upd _ _ _ _).
  intros c' Hc'. destruct Hc'. by split.
Qed.

Lemma try_handle_safe id s c :
  server_ok s -> objects s !! id = Some c ->
  let '(r, s') := try_handle_buffered id s in
  server_ok s' /\ alike s s' /\ match r with Ok _ => settled s' id | Err e => fault false s' e end.
Proof.
  intros Hs Hc. unfold try_handle_buffered. rewrite Hc.
  pose proof (handle_buffered_safe (S (length (input_ (inb c)))) id false s c Hs Hc) as H.
  pose proof (co_in _ _ (so_objects _ Hs _ _ Hc)) as Hb. unfold inbuf_ok, len in Hb.
  specialize (H ltac:(unfold len; lia)).
  destruct (handle_buffered _ id false s) as [[p|e] s1]; [done|].
  destruct H as (Hs1 & Ha & Hf). destruct (is_dz_error e) eqn:Ee.
  2: { split_and!; [done..|]. destruct Hf as [[_ Hf]|Hf]; [congruence|by right]. }
  cbn. split_and!; [|by eapply alike_trans, alike_upd|].
  - apply server_ok_upd; [done|]. intros c1 Hc1. apply ok_request_close. by apply (so_objects _ Hs1).
  - assert (id ∈ dom (objects s1)) as [c1 Hc1]%elem_of_dom.
    { destruct Ha as (-> & _). apply elem_of_dom. eauto. }
    eexists. cbn. rewrite lookup_alter_eq, Hc1. split; [done|]. left. unfold request_close.
    destruct (close_requested c1) eqn:Ec; cbn; rewrite ?Ec; done.
Qed.

#[export] Hint Extern 1 (safe _ _ (flush_output _) _) => apply safe_flush; assumption : safe.
#[export] Hint Extern 1 (safe _ _ (do_read_available _) _) => apply safe_read; assumption : safe.

Lemma safe_detach th D id c : id ∈ D -> safe th D (detach id c) (fun _ => True).
Proof.
  intros Hid. unfold detach. eapply (safe_bind _ _ _ _ (fun _ => True)).
  { safe_step; [|safe_step]. apply safe_session_update. intros. by apply release_ok. }
  intros _ _. eapply (safe_bind _ _ _ _ (fun _ => True)).
  { safe_step; [|safe_step]. eapply safe_bind; [apply safe_session_update; intros; by apply leave_group_ok|].
    intros _ _. safe_step. }
  intros _ _. safe_step; [|safe_step]. safe_step.
  eapply (safe_bind _ _ _ _ (fun _ => True)); [|intros _ _; safe_step].
  destruct a as [p|]; [|safe_step]. safe_step. safe_step. rename a into sd. rename a0 into rc.
  assert (forall x, (if bool_decide (sd = Some id) then rc else sd) = Some x -> x ∈ D) as Hx
    by (destruct (bool_decide (sd = Some id)); assumption).
  destruct (if bool_decide (sd = Some id) then rc else sd) as [ot|]; [|safe_step].
  specialize (Hx ot eq_refl). safe_step; [safe_step|]. safe_step. safe_step.
  - safe_step. safe_step.
  - by apply safe_notify.
Qed.
#[export] Hint Extern 1 (safe _ _ (detach _ _) _) => apply safe_detach; assumption : safe.

Lemma safe_close th D shard id : id ∈ D -> safe th D (close_connection shard id) (fun _ => True).
Proof.
  intros Hid. unfold close_connection. safe_step. safe_step; [safe_step|]. safe_step. safe_step.
  apply safe_upd_shard. intros sh. cbn. apply delete_subseteq.
Qed.
#[export] Hint Extern 1 (safe _ _ (close_connection _ _) _) => apply safe_close; assumption : safe.

Lemma safe_read_and_handle D fuel shard id :
  id ∈ D -> safe false D (read_and_handle (S fuel) shard id) (fun _ => True).
Proof.
  intros Hid. cbn [read_and_handle]. safe_step. rename a into open. clear H.
  intros s Hs Hd. destruct (conn_at D s id Hs Hd Hid) as (c & Hc & _).
  pose proof (try_handle_safe id s c Hs Hc) as H. unfold mbind at 1.
  destruct (try_handle_buffered id s) as [[p|e] s1]; destruct H as (Hs1 & Ha1 & Hr); [|done].
  assert (dom (objects s1) = D) as Hd1 by (destruct Ha1; congruence).
  destruct open; cbn [negb].
  - destruct Hr as (c1 & Hc1 & Hset). unfold mbind, get_conn. rewrite Hc1.
    destruct (_ || read_paused c1); [done|]. destruct Hset as [|Hcap]; [done|].
    by rewrite Hcap, orb_true_r.
  - assert (safe false D (do* flush_output id in do* close_connection shard id in mret ClosedInRead)
      (fun _ => True)) as Hk by (safe_step; safe_step; by apply safe_ret).
    specialize (Hk s1 Hs1 Hd1).
    destruct ((do* flush_output id in do* close_connection shard id in mret ClosedInRead) s1) as [r s2].
    destruct Hk as (? & ? & ?). split_and!; [done|by eapply alike_trans|done].
Qed.

Lemma safe_update_interest th D shard id :
  id ∈ D -> safe th D (update_interest shard id) (fun _ => True).
Proof. intros Hid. unfold update_interest. safe_step. by apply safe_upd_shard. Qed.
#[export] Hint Extern 1 (safe _ _ (update_interest _ _) _) => apply safe_update_interest; assumption : safe.

Lemma safe_resume_source th D id : id ∈ D -> safe th D (resume_source id) (fun _ => True).
Proof.
  intros Hid. unfold resume_source. safe_step. safe_step; [|safe_step]. safe_step.
  destruct a0 as [pe|]; [|safe_step]. specialize (H1 pe eq_refl). safe_step. safe_step; [|safe_step].
  safe_step. safe_step.
Qed.

Lemma safe_finish_service th D shard id ev :
  id ∈ D -> safe th D (finish_service shard id ev) (fun _ => True).
Proof.
  intros Hid. unfold finish_service. safe_step. safe_step; [safe_step|]. safe_step.
  safe_step; [safe_step|]. safe_step; safe_step.
Qed.

Lemma safe_service D shard id ev :
  id ∈ D -> safe false D (service_connection shard id ev) (fun _ => True).
Proof.
  intros Hid. unfold service_connection. safe_step. safe_step.
  eapply (safe_bind _ _ _ _ (fun _ => True)); [safe_step; [safe_step|by apply safe_ret]|]. intros ? _.
  safe_step; [safe_step|].
  eapply (safe_bind _ _ _ _ (fun _ => True)); [safe_step; [by apply safe_resume_source|safe_step]|].
  intros _ _. safe_step.
  eapply (safe_bind _ _ _ _ (fun _ => True)).
  { safe_step; [by apply safe_read_and_handle|by apply safe_ret]. }
  intros o _. destruct o; [by apply safe_finish_service|safe_step].
Qed.

Lemma safe_for_each th D {A} (m : A -> srv unit) xs :
  Forall (fun x => safe th D (m x) (fun _ => True)) xs -> safe th D (for_each m xs) (fun _ => True).
Proof.
  induction 1 as [|x xs Hx _ IH]; cbn; [safe_step|]. eapply safe_bind; [done|]. by intros _ _.
Qed.

(** ** Events *)

(** The kernel's part of an event: a shard that exists, bytes that are bytes, peer
    addresses that are addresses, and connection ids that have not run out. *)
Definition sockaddr_ok (e : Endpoint) (n : Z) : Prop :=
  n <= sizeof_sockaddr_storage /\
  match e with
  | EpV4 p a => is_u16 p /\ len a = 4 /\ bytes_ok a
  | EpV6 p fl a sc => is_u16 p /\ len a = 16 /\ bytes_ok a
  | EpOther f => f <> AF_INET /\ f <> AF_INET6
  end.

Definition shard_ok (s : Server) (i : Z) : Prop := 0 <= i < len (shards_ s).

Definition event_ok (s : Server) (ev : sevent) : Prop :=
  match ev with
  | EvReady i _ _ | EvWake i | EvMaintenance i => shard_ok s i
  | EvAccept i evs =>
      shard_ok s i /\ next_connection_id_ s + len evs < 2 ^ 64 /\
      Forall (fun a => match a with
                       | Accepted _ from n k => sockaddr_ok from n /\ rx_ok (rx k)
                       | _ => True end) evs
  | EvClock now => is_u64 now
  | EvNetwork _ more _ => rx_ok more
  end.

Lemma get_shard_ok s i :
  server_ok s -> shard_ok s i ->
  exists sh, get_shard i s = (Ok sh, s) /\ map_Forall (fun _ id => id ∈ dom (objects s)) (connections sh).
Proof.
  intros Hs [Hi Hlt]. unfold get_shard. destruct (shards_ s !! Z.to_nat i) as [sh|] eqn:E.
  - exists sh. split; [done|]. pose proof (so_shards _ Hs) as H. rewrite Forall_lookup in H. by eapply H.
  - apply lookup_ge_None in E. unfold len in Hlt. lia.
Qed.

Lemma service_fd_ok s i f ev :
  server_ok s -> shard_ok s i ->
  let '(r, s') := service_fd i f ev s in
  server_ok s' /\ alike s s' /\ match r with Ok _ => True | Err e => fault false s' e end.
Proof.
  intros Hs Hi. unfold service_fd, mbind at 1.
  destruct (get_shard_ok s i Hs Hi) as (sh & -> & Hsh).
  destruct (connections sh !! f) as [id|] eqn:E; [|done].
  pose proof (Hsh f id E) as Hid.
  assert (safe false (dom (objects s)) (let* c := get_conn id in service_connection i id (ev c))
    (fun _ => True)) as Hk.
  { safe_step. by apply safe_service. }
  exact (Hk s Hs eq_refl).
Qed.

(** What every event leaves unchanged. *)
Definition same_shape (s s' : Server) : Prop :=
  length (shards_ s') = length (shards_ s) /\ options_ s' = options_ s.

Lemma alike_shape s s' : alike s s' -> same_shape s s'.
Proof. by intros (_ & ? & ?). Qed.

Lemma same_shape_trans s1 s2 s3 : same_shape s1 s2 -> same_shape s2 s3 -> same_shape s1 s3.
Proof. intros [A1 A2] [B1 B2]. split; [by rewrite B1|by rewrite B2]. Qed.

Lemma shard_ok_shape s s' i : same_shape s s' -> shard_ok s i -> shard_ok s' i.
Proof. intros [E _]. unfold shard_ok, len. by rewrite E. Qed.

Lemma collect_ok s : server_ok s -> server_ok (collect s).2.
Proof.
  intros Hs. split; cbn; [|apply Hs| |apply Hs].
  - intros id c [Hc _]%map_lookup_filter_Some. by apply (so_objects _ Hs).
  - apply Forall_forall. intros sh Hsh f id Hf. pose proof (so_shards _ Hs) as H.
    rewrite Forall_forall in H. pose proof (H sh Hsh f id Hf) as [c Hc]%elem_of_dom.
    apply elem_of_dom. exists c. apply map_lookup_filter_Some. split; [done|]. cbn.
    unfold referenced. apply existsb_exists. exists sh. split; [by apply list_elem_of_In|].
    apply bool_decide_eq_true. apply list_elem_of_fmap. exists (f, id). split; [done|].
    by apply elem_of_map_to_list.
Qed.

Lemma service_fds_ok i ev fds s :
  server_ok s -> shard_ok s i ->
  let '(r, s') := for_each (fun f => do* service_fd i f ev in collect) fds s in
  server_ok s' /\ same_shape s s' /\ match r with Ok _ => True | Err e => fault false s' e end.
Proof.
  revert s. induction fds as [|f fds IH]; intros s Hs Hi; [done|]. cbn [for_each]. unfold mbind at 1.
  pose proof (service_fd_ok s i f ev Hs Hi) as H. unfold mbind at 1.
  destruct (service_fd i f ev s) as [[[]|e] s1]; destruct H as (Hs1 & Ha1%alike_shape & Hr); [|done].
  change (collect s1) with (Ok tt, (collect s1).2).
  assert (same_shape s (collect s1).2) as Hsh by (destruct Ha1; by split).
  specialize (IH (collect s1).2 (collect_ok _ Hs1) (shard_ok_shape _ _ _ Hsh Hi)).
  cbv beta iota. destruct (for_each _ fds (collect s1).2) as [r s2]. destruct IH as (? & ? & ?).
  split_and!; [done|by eapply same_shape_trans|done].
Qed.

Lemma drain_wake_ok s i :
  server_ok s -> shard_ok s i ->
  let '(r, s') := drain_wake_queue i s in
  server_ok s' /\ same_shape s s' /\ match r with Ok _ => True | Err e => fault false s' e end.
Proof.
  intros Hs Hi. unfold drain_wake_queue, mbind at 1.
  destruct (get_shard_ok s i Hs Hi) as (sh & -> & _).
  set (clear := upd_shard i _).
  assert (safe false (dom (objects s)) clear (fun _ => True)) as Hc by by apply safe_upd_shard.
  specialize (Hc s Hs eq_refl). unfold mbind at 1. change (clear s) with (Ok tt, (clear s).2) in *.
  destruct Hc as (Hs1 & Ha1%alike_shape & _).
  pose proof (service_fds_ok i (fun c => mk_ReadyEvent (negb (read_paused c)) true false) (wake_queue sh)
    _ Hs1 (shard_ok_shape _ _ _ Ha1 Hi)) as H.
  destruct (for_each _ (wake_queue sh) _) as [r s2]. destruct H as (? & ? & ?).
  split_and!; [done|by eapply same_shape_trans|done].
Qed.

Lemma maintenance_ok s i :
  server_ok s -> shard_ok s i ->
  let '(r, s') := run_maintenance i s in
  server_ok s' /\ alike s s' /\ match r with Ok _ => True | Err e => fault false s' e end.
Proof.
  intros Hs Hi. unfold run_maintenance. unfold mbind at 1, mget. unfold mbind at 1.
  destruct (get_shard_ok s i Hs Hi) as (sh & -> & Hsh). set (stale := filter _ _).
  assert (safe false (dom (objects s)) (for_each (close_connection i) stale) (fun _ => True)) as Hc.
  { apply safe_for_each, Forall_forall. intros id [_ Hid]%list_elem_of_filter.
    apply list_elem_of_fmap in Hid as ([f id'] & -> & Hid%elem_of_map_to_list). apply safe_close.
    by apply (Hsh f). }
  match goal with |- context [mbind ?m ?k s] =>
    assert (safe false (dom (objects s)) (mbind m k) (fun _ => True)) as Hk; [|exact (Hk s Hs eq_refl)] end.
  eapply safe_bind; [exact Hc|]. intros _ _. safe_step; [|safe_step].
  eapply safe_bind; [apply safe_session_update; intros; by apply expire_pairings_ok|]. intros _ _.
  by apply safe_counters.
Qed.

Lemma from_sockaddr_ok e n :
  sockaddr_ok e n -> exists e', from_sockaddr e n = Ok e' /\ endpoint_ok e'.
Proof.
  intros [Hn He]. unfold from_sockaddr. destruct (Z.ltb_spec sizeof_sockaddr_storage n); [lia|].
  destruct e as [p a|p fl a sc|f]; [eauto| |eauto].
  destruct He as (Hp & Hl & Hb). destruct (IN6_IS_ADDR_V4MAPPED a) eqn:E; (eexists; split; [done|]); [|done].
  cbn. split_and!; [done|rewrite len_zdrop by lia; lia|by apply bytes_ok_zdrop].
Qed.

Lemma new_connection_ok f id shard e key now k :
  endpoint_ok e -> rx_ok (rx k) -> conn_ok id (new_connection f id shard e key now k).
Proof. intros He Hk. split; try done. constructor. Qed.

Lemma register_ok s i f e key k :
  server_ok s -> endpoint_ok e -> rx_ok (rx k) ->
  exists s', register i f e key k s = (Ok tt, s') /\ server_ok s' /\ same_shape s s'.
Proof.
  intros Hs He Hk. unfold register, mbind, mget, mmodify, upd_shard, mmodify. eexists. split; [reflexivity|]. split; [|split; [apply length_alter|done]].
  split; cbn; [|apply Hs| |apply Hs].
  - apply map_Forall_insert_2; [by apply new_connection_ok|apply Hs].
  - apply Forall_alter.
    + eapply Forall_impl; [apply (so_shards _ Hs)|]. intros sh Hsh g id Hg. cbn. rewrite dom_insert_L.
      apply elem_of_union_r. by apply (Hsh g).
    + intros sh _ Hsh g id. cbn. destruct (connections sh !! f) eqn:E; [apply Hsh|].
      intros [[<- <-]|[_ Hg]]%lookup_insert_Some; [rewrite dom_insert_L; set_solver|by apply (Hsh g)].
Qed.

Section WithHmac.
Context (hmac_sha256 : bytes -> bytes).
Hypothesis hmac_len : forall b, 8 <= len (hmac_sha256 b).

Lemma key_for_total e : exists k, key_for hmac_sha256 e = Ok k.
Proof.
  destruct e as [p a|p fl a sc|f]; cbn; [| |eauto];
    edestruct load_u64_total as (v & E & _); [apply hmac_len| |apply hmac_len|]; eauto.
Qed.

Lemma accept_ok evs i s :
  server_ok s ->
  Forall (fun a => match a with
                   | Accepted _ from n k => sockaddr_ok from n /\ rx_ok (rx k)
                   | _ => True end) evs ->
  exists s', accept_connections hmac_sha256 i evs s = (Ok tt, s') /\ server_ok s' /\ same_shape s s'.
Proof.
  intros Hs Hevs. revert s Hs. induction Hevs as [|a evs Ha _ IH]; intros s Hs.
  { exists s. by split. }
  destruct a as [| | |f from n k]; cbn [accept_connections]; [by apply IH|by exists s|by apply IH|].
  destruct Ha as [Hsa Hk]. destruct (from_sockaddr_ok from n Hsa) as (e & E & He).
  destruct (key_for_total e) as [key Ek].
  unfold mbind at 1, mlift. rewrite E. unfold mbind at 1. rewrite Ek. unfold mbind at 1, on_limiter.
  destruct (allow_connection _ _ _ _) as [ok b]. set (s1 := set_limiter b s).
  assert (server_ok s1) as Hs1 by (split; apply Hs). destruct ok; unfold mbind.
  - destruct (register_ok s1 i f e key k Hs1 He Hk) as (s2 & -> & Hs2 & Hsh).
    destruct (IH s2 Hs2) as (s3 & -> & Hs3 & Hsh'). exists s3. split_and!; [done|done|].
    destruct Hsh as [A1 A2], Hsh' as [B1 B2]. split; [by rewrite B1, A1|by rewrite B2, A2].
  - cbn. destruct (IH s1 Hs1) as (s3 & E3 & Hs3 & Hsh'). exists s3. by split_and!.
Qed.

Lemma handle_event_ok s ev :
  server_ok s -> event_ok s ev ->
  let '(r, s') := handle_event hmac_sha256 ev s in
  server_ok s' /\ same_shape s s' /\ match r with Ok _ => True | Err e => fault false s' e end.
Proof.
  intros Hs He. destruct ev as [i f ev|i|i|i evs|now|id rm tm]; cbn [handle_event event_ok] in *.
  - pose proof (service_fd_ok s i f (fun _ => ev) Hs He) as H. destruct (service_fd _ _ _ s) as [r s'].
    destruct H as (? & ?%alike_shape & ?). done.
  - pose proof (drain_wake_ok s i Hs He) as H. destruct (drain_wake_queue i s) as [r s'].
    done.
  - pose proof (maintenance_ok s i Hs He) as H. destruct (run_maintenance i s) as [r s'].
    destruct H as (? & ?%alike_shape & ?). done.
  - destruct He as (_ & _ & Ha). destruct (accept_ok evs i s Hs Ha) as (s' & -> & ? & ?). done.
  - cbn. split_and!; [split; apply Hs|done|done].
  - cbn. split_and!; [|done|done]. apply server_ok_upd; [done|]. intros c Hc.
    destruct (so_objects _ Hs _ _ Hc). split; try done. cbn. apply Forall_app. done.
Qed.

Lemma step_ok s ev :
  server_ok s -> event_ok s ev ->
  match step hmac_sha256 ev s with
  | (Ok _, s') => server_ok s'
  | (Err e, s') => e = Blocks /\ 2 ^ 64 < Z.of_nat (size (pairings_ (sessions_ s'))) + 2
  end.
Proof.
  intros Hs He. pose proof (handle_event_ok s ev Hs He) as H. unfold step, mbind.
  destruct (handle_event hmac_sha256 ev s) as [[[]|e] s1]; destruct H as (Hs1 & _ & Hr).
  - by apply collect_ok.
  - destruct Hr as [[? _]|Hr]; done.
Qed.

Inductive reachable (o : ServerOptions) (n : nat) (random : Z) : Server -> Prop :=
  | reach_initial : reachable o n random (initial o n random)
  | reach_step s ev s' :
      reachable o n random s -> event_ok s ev -> step hmac_sha256 ev s = (Ok tt, s') ->
      reachable o n random s'.

Lemma initial_ok o n random : is_u64 random -> server_ok (initial o n random).
Proof.
  intros Hr. split; cbn; [apply map_Forall_empty|apply empty_table_ok| |done].
  apply Forall_forall. intros sh (i & -> & _)%list_elem_of_fmap. apply map_Forall_empty.
Qed.

Lemma reachable_ok o n random s : is_u64 random -> reachable o n random s -> server_ok s.
Proof.
  intros Hr. induction 1 as [|s ev s' _ IH He E]; [by apply initial_ok|].
  pose proof (step_ok s ev IH He) as H. by rewrite E in H.
Qed.

End WithHmac.

(** * The theorem at work *)

(** A receiver called ann connects and says hello. *)
Definition sample_hello : ClientHello :=
  mk_ClientHello Receiver (str "ann") (replicate 32 7) (replicate 32 8) 4001 4002 [].
Definition sample_address : Endpoint := EpV4 4000 [192; 0; 2; 1].
Definition sample_accept : sevent :=
  EvAccept 0 [AcceptEintr; Accepted 5 sample_address 16
    (mk_ksock [RxData (frame_bytes ClientHelloT 0 (ClientHello_encode sample_hello)); RxAgain false] [TxWrote 1000] [])].
Definition sample_ready : sevent := EvReady 0 5 (mk_ReadyEvent true false false).
Definition sample_hmac (b : bytes) : bytes := replicate 32 0.
Lemma sample_hmac_len b : 8 <= len (sample_hmac b).
Proof. done. Qed.

Definition sample_initial : Server := initial default_options 1 77.
Definition sample_connected : Server := (step sample_hmac sample_accept sample_initial).2.

Lemma sample_accept_ok : event_ok sample_initial sample_accept.
Proof. split_and!; [done..|]. repeat constructor; by vm_compute. Qed.

