(* ===== verification/ServerProtocol.v ===== *)
(** What the server does for its clients: the introduction it makes is the sender's
    own words, and relayed data is forwarded verbatim. *)

From S2P Require Import Prelude Endian Socket Frame Protocol Messages Connection RateLimiter.
From S2P Require Import SessionTable Server ServerSafety.

(** ** Executing the primitives *)

Lemma get_conn_eq s id c : objects s !! id = Some c -> get_conn id s = (Ok c, s).
Proof. intros H. unfold get_conn. by rewrite H. Qed.

Lemma enqueue_eq s id c t p :
  objects s !! id = Some c -> outbuf_ok (outb c) -> len p <= kMaxFrameLength ->
  exists o, enqueue id t p s = (Ok tt, set_objects (alter (set_out o) id (objects s)) s) /\
    outbuf_ok o /\ pending o = pending (outb c) ++ frame_bytes t 0 p.
Proof.
  intros Hc Ho Hp. destruct (enqueue_frame_spec t p 0 (outb c) Ho Hp) as (o & E & Ho' & Hpend).
  exists o. split; [|done]. unfold enqueue. erewrite mbind_ok by by apply get_conn_eq.
  unfold mbind, mlift. by rewrite E.
Qed.

Lemma wake_for_eq s id c :
  objects s !! id = Some c -> exists shs, wake_for id s = (Ok tt, set_shards shs s).
Proof.
  intros Hc. unfold wake_for. erewrite mbind_ok by by apply get_conn_eq. unfold mbind, mget.
  destruct (_ <=? _); cbn; [|eauto]. exists (shards_ s). by destruct s.
Qed.

(** ** Introductions *)

(** The introduction a receiver gets: everything in it is what the sender said in its
    hello and its request, and the candidates end with the address the server saw. *)
Definition introduction_of (c : Connection) (h : ClientHello) (q : SendRequest) (pid : Z)
  : PeerIntroduction :=
  mk_PeerIntroduction (ch_username h) (ch_identity_key h) (ch_session_key h)
    (wire_view <$> (ch_local_candidates h ++ [set_port (ch_tcp_port h) (observed_endpoint c)]))
    (sr_proof q) (sr_signature q) pid (sr_transport_hint q) (sr_group_name q).

Lemma introduction_decodes k c h q pid :
  conn_ok k c -> hello c = Some h -> len (ch_local_candidates h) < 2 ^ 16 - 1 ->
  SendRequest_ok q -> is_u64 pid ->
  let i := mk_PeerIntroduction (ch_username h) (ch_identity_key h) (ch_session_key h)
             (candidates_of c) (sr_proof q) (sr_signature q) pid (sr_transport_hint q)
             (sr_group_name q) in
  introduction_fits i /\ PeerIntroduction_decode (PeerIntroduction_encode i) = Ok (introduction_of c h q pid).
Proof.
  intros Hc Hh Hn (Ht & Hp & Hs & Hg) Hid i.
  destruct (co_hello _ _ Hc h Hh) as (Hu & Hik & Hsk & Htp & Hup & Hcs & Hcn).
  assert (candidates_of c = ch_local_candidates h ++ [set_port (ch_tcp_port h) (observed_endpoint c)]) as Ec.
  { unfold candidates_of, hello_of. by rewrite Hh. }
  assert (PeerIntroduction_ok i) as Hok.
  { unfold PeerIntroduction_ok, i. cbn. rewrite Ec. split_and!; try done. split.
    - apply Forall_app. split; [done|]. constructor; [|constructor].
      apply set_port_ok; [done|apply Hc].
    - rewrite len_app. change (len [_]) with 1. lia. }
  split.
  - destruct Hp, Hs, Hik, Hsk. apply valid_name_le in Hu. apply valid_group_len in Hg.
    unfold introduction_fits, i. cbn. pose proof (candidates_of_len _ _ Hc). by split_and!.
  - pose proof (wm_roundtrip (A := PeerIntroduction) i Hok) as E. cbn in E.
    unfold PeerIntroduction_view, i in E. cbn in E. rewrite Ec in E. rewrite <- Ec in E at 1.
    unfold i, introduction_of. exact E.
Qed.

(** [create_pairing] on the table of a running server. *)
Lemma fresh_pairing s id r :
  server_ok s -> Z.of_nat (size (pairings_ (sessions_ s))) + 2 <= 2 ^ 64 ->
  exists pid t', create_pairing (entropy s) (clock s) id r (sessions_ s) = Some (pid, t') /\ is_u64 pid /\
    find_pairing pid (sessions_ s) = None /\
    pairings_ t' = <[pid := mk_Pairing pid id r false false false (clock s)]> (pairings_ (sessions_ s)).
Proof.
  intros Hs Hsz. destruct (create_pairing_spec (entropy s) (clock s) id r (sessions_ s) (so_table _ Hs) (so_entropy _ Hs) Hsz)
    as (pid & t' & Ecp & Ht' & Hpid & Hfree & Hpair & _).
  exists pid, t'. split_and!; try done. pose proof (ok_pairings _ Ht' pid (mk_Pairing pid id r false false false (clock s))) as H.
  rewrite Hpair, lookup_insert_eq in H. by destruct (H eq_refl) as (_ & _ & ?).
Qed.


(** ** Relaying *)

(** C21. Data from a relaying connection goes to its peer and nowhere else: the peer's
    queue grows by one frame with the very bytes received, no other connection's queue
    changes, and the source is paused exactly when the peer's queue is over the
    threshold, so that a slow receiver bounds what the server holds for it. *)
Theorem relay_data_forwarded s id c p peer pc :
  server_ok s -> objects s !! id = Some c -> relay_peer_ c = Some peer -> peer <> id ->
  objects s !! peer = Some pc -> len p <= kMaxFrameLength ->
  exists s' c' pc',
    handle_relay_data id p s = (Ok tt, s') /\
    objects s' !! peer = Some pc' /\ objects s' !! id = Some c' /\
    pending (outb pc') = pending (outb pc) ++ frame_bytes RelayDataT 0 p /\
    outb c' = outb c /\
    read_paused c' = (kRelayPauseThreshold <? pending_output (outb pc')) || read_paused c /\
    (forall k, k <> id -> k <> peer -> objects s' !! k = objects s !! k).
Proof.
  intros Hs Hc Hpe Hne Hpc Hp. pose proof (so_objects _ Hs _ _ Hpc) as Hok.
  unfold handle_relay_data. erewrite mbind_ok by by apply get_conn_eq.
  unfold relay_peer. rewrite Hpe. unfold mbind at 1, lock, expired.
  rewrite Hpc. change (bool_decide (Some pc = None)) with false. cbv iota.
  erewrite mbind_ok by reflexivity.
  destruct (enqueue_eq s peer pc RelayDataT p Hpc (co_out _ _ Hok) Hp) as (o & Eo & Ho & Hpo).
  erewrite mbind_ok by exact Eo. erewrite mbind_ok by reflexivity. set (s1 := set_counters _ _ _ _ _).
  assert (objects s1 !! peer = Some (set_out o pc)) as Hp1 by (cbn; by rewrite lookup_alter_eq, Hpc).
  assert (objects s1 !! id = Some c) as Hc1 by (cbn; by rewrite lookup_alter_ne).
  erewrite mbind_ok by by apply get_conn_eq. cbn [outb set_out].
  set (paused := kRelayPauseThreshold <? pending_output o).
  assert (exists s2 c2, (if paused then upd_conn id (set_read_paused true) else mret tt) s1 = (Ok tt, s2) /\
    objects s2 !! peer = Some (set_out o pc) /\ objects s2 !! id = Some c2 /\ outb c2 = outb c /\
    read_paused c2 = paused || read_paused c /\
    (forall k, k <> id -> k <> peer -> objects s2 !! k = objects s !! k))
    as (s2 & c2 & E2 & Hp2 & Hc2 & Ho2 & Hr2 & Hk2).
  { assert (forall k, k <> id -> k <> peer -> objects s1 !! k = objects s !! k) as Hk1
      by (intros; cbn; by rewrite lookup_alter_ne by done).
    destruct paused.
    - eexists _, (set_read_paused true c). split; [reflexivity|]. cbn [objects set_objects].
      rewrite lookup_alter_ne, lookup_alter_eq, Hc1 by done. split_and!; try done.
      intros k ? ?. rewrite lookup_alter_ne by done. by apply Hk1.
    - exists s1, c. by split_and!. }
  erewrite mbind_ok by exact E2. destruct (wake_for_eq s2 peer _ Hp2) as [shs Ew]. rewrite Ew.
  exists (set_shards shs s2), c2, (set_out o pc). by split_and!.
Qed.

(** The count of candidates is written in 16 bits: a sender whose hello lists
    65,535 addresses is introduced with 65,536, which the receiver reads as none, with
    the addresses taken for the fields after them. *)
Theorem introduction_candidates_wrap c :
  len (ch_local_candidates (hello_of c)) = 2 ^ 16 - 1 ->
  len (candidates_of c) = 2 ^ 16 /\
  exists rest,
    put_endpoints (candidates_of c) [] = store_u16 0 ++ rest /\
    (endpoint_ok (observed_endpoint c) -> rest <> []) /\
    reads take_endpoints (store_u16 0) [].
Proof.
  intros Hn. assert (len (candidates_of c) = 2 ^ 16) as Hl.
  { unfold candidates_of. rewrite len_app. change (len [_]) with 1. lia. }
  split; [done|]. exists (mjoin (endpoint_bytes <$> candidates_of c)). split_and!.
  - rewrite put_endpoints_app, Hl. done.
  - intros He Hnil. unfold candidates_of in Hnil. rewrite fmap_app, join_app in Hnil.
    apply app_eq_nil in Hnil as [_ Hnil]. cbn in Hnil. rewrite app_nil_r in Hnil.
    by destruct (observed_endpoint c).
  - pose proof (reads_endpoints [] ltac:(constructor) ltac:(done)) as H. exact H.
Qed.

(** * The theorems at work *)

(** Connection 1 is the sender bob, 2 the receiver ann. *)
Definition sample_sender_hello : ClientHello :=
  mk_ClientHello Sender (str "bob") (replicate 32 1) (replicate 32 2) 4001 4002 [EpV4 4001 [10; 0; 0; 1]].
Definition sample_sender : Connection :=
  attach_relay_peer 2 (set_state SenderIdle (set_hello (Some sample_sender_hello)
    (new_connection 11 1 0 sample_address 0 0 (mk_ksock [] [] [])))).
Definition sample_receiver : Connection :=
  set_state ReceiverIdle (set_hello (Some sample_hello) (new_connection 12 2 0 sample_address 0 0 (mk_ksock [] [] []))).
Definition sample_server : Server :=
  mk_Server default_options (with_claims {[ str "ann" := 2 ]} empty_table) ∅
    {[ 1 := sample_sender; 2 := sample_receiver ]} [] 3 2 0 0 5000 77.
Definition sample_request : SendRequest :=
  mk_SendRequest (str "ann") (replicate 32 3) (replicate 64 4) DirectTcp [].

Lemma sample_sender_ok : conn_ok 1 sample_sender.
Proof.
  split; try done; [repeat constructor; by vm_compute|repeat constructor; by vm_compute| |repeat constructor; by vm_compute]. intros h [= <-]. unfold ClientHello_ok, endpoints_ok, fixed.
  split_and!; try done; repeat constructor; by vm_compute.
Qed.

Lemma sample_receiver_ok : conn_ok 2 sample_receiver.
Proof.
  split; try done; [repeat constructor; by vm_compute|repeat constructor; by vm_compute| |repeat constructor; by vm_compute]. intros h [= <-]. unfold ClientHello_ok, endpoints_ok, fixed.
  split_and!; try done; repeat constructor; by vm_compute.
Qed.

Lemma sample_server_ok : server_ok sample_server.
Proof.
  split; [| |constructor|done].
  - apply map_Forall_insert_2; [apply sample_sender_ok|]. apply map_Forall_singleton, sample_receiver_ok.
  - apply with_claims_ok; [apply empty_table_ok|]. apply map_Forall_singleton. by vm_compute.
Qed.


Lemma relay_data_forwarded_witness :
  exists s' pc', handle_relay_data 1 [1; 2; 3] sample_server = (Ok tt, s') /\
    objects s' !! 2 = Some pc' /\ pending (outb pc') = frame_bytes RelayDataT 0 [1; 2; 3].
Proof.
  assert (2 <> 1) as Hne by done. assert (len [1; 2; 3] <= kMaxFrameLength) as Hl by done.
  destruct (relay_data_forwarded sample_server 1 sample_sender [1; 2; 3] 2 sample_receiver sample_server_ok eq_refl eq_refl
    Hne eq_refl Hl) as (s' & c' & pc' & E & Hp & _ & Hq & _).
  exists s', pc'. split; [exact E|]. split; [exact Hp|exact Hq].
Defined.

Lemma introduction_candidates_wrap_witness :
  let h := mk_ClientHello Sender (str "bob") [] [] 1 2 (replicate (Z.to_nat (2 ^ 16 - 1)) sample_address) in
  len (candidates_of (set_hello (Some h) sample_sender)) = 2 ^ 16.
Proof.
  intros h. apply introduction_candidates_wrap. unfold hello_of, h. cbn [hello set_hello default from_option ch_local_candidates id].
  unfold len. rewrite length_replicate. apply Z2Nat.id. lia.
Defined.
