(* ===== verification/ServerClaims.v ===== *)
(** A name belongs to one accepting connection at a time, in every state the server
    reaches: the claim table and the connections' own records agree through hellos,
    teardown, timeouts, accepts and everything in between.

    [named X Y s] is the invariant for the connections outside [X], the ones being torn
    down; no shard refers to those in [Y] any more. [quiet] relates two states that agree on
    everything the invariant looks at; every handler but the hello is quiet. *)

From S2P Require Import Prelude Endian Socket Frame Protocol Messages Connection RateLimiter.
From S2P Require Import SessionTable Server ServerSafety ServerProtocol.

(** What the invariant reads of a connection. *)
Definition identity (c : Connection) : bytes * Z * Z * option ClientHello :=
  (claimed_username c, fd c, shard_index c, hello c).

Record named (X Y : gset Z) (s : Server) : Prop := {
  nm_shards : forall i sh f id, shards_ s !! i = Some sh -> connections sh !! f = Some id ->
    (id ∉ Y) /\ exists c, objects s !! id = Some c /\ fd c = f /\ shard_index c = Z.of_nat i;
  nm_fresh : forall id, is_Some (objects s !! id) -> id < next_connection_id_ s;
  nm_claims : forall u w, claims_ (sessions_ s) !! u = Some w -> u <> [] /\ w < next_connection_id_ s;
  nm_holder : forall u w c, claims_ (sessions_ s) !! u = Some w -> objects s !! w = Some c ->
    w ∉ X -> claimed_username c = u;
  nm_claimed : forall w c, objects s !! w = Some c -> w ∉ X -> claimed_username c <> [] ->
    claims_ (sessions_ s) !! claimed_username c = Some w;
  nm_silent : forall w c, objects s !! w = Some c -> hello c = None -> claimed_username c = [];
  nm_open : forall w c, objects s !! w = Some c -> w ∉ X -> state c <> Closing;
  nm_next : 0 < next_connection_id_ s;
}.

Record quiet (s s' : Server) : Prop := {
  q_claims : claims_ (sessions_ s') = claims_ (sessions_ s);
  q_identity : forall id, identity <$> objects s' !! id = identity <$> objects s !! id;
  q_open : forall id c', objects s' !! id = Some c' -> state c' = Closing ->
    exists c, objects s !! id = Some c /\ state c = Closing;
  q_shards : connections <$> shards_ s' = connections <$> shards_ s;
  q_next : next_connection_id_ s' = next_connection_id_ s;
}.

Lemma quiet_refl s : quiet s s.
Proof. split; eauto. Qed.

Lemma quiet_trans s1 s2 s3 : quiet s1 s2 -> quiet s2 s3 -> quiet s1 s3.
Proof.
  intros Q1 Q2. split.
  - by rewrite (q_claims _ _ Q2), (q_claims _ _ Q1).
  - intros id. by rewrite (q_identity _ _ Q2), (q_identity _ _ Q1).
  - intros id c' Hc Hst. destruct (q_open _ _ Q2 _ _ Hc Hst) as (c2 & Hc2 & Hst2).
    by apply (q_open _ _ Q1 _ _ Hc2).
  - by rewrite (q_shards _ _ Q2), (q_shards _ _ Q1).
  - by rewrite (q_next _ _ Q2), (q_next _ _ Q1).
Qed.

Lemma quiet_lookup s s' id c' :
  quiet s s' -> objects s' !! id = Some c' ->
  exists c, objects s !! id = Some c /\ identity c' = identity c.
Proof.
  intros Q Hc. pose proof (q_identity _ _ Q id) as H. rewrite Hc in H.
  destruct (objects s !! id) as [c|]; [|done]. cbn in H. apply (inj Some) in H. eauto.
Qed.

Lemma quiet_shard s s' i sh' :
  quiet s s' -> shards_ s' !! i = Some sh' ->
  exists sh, shards_ s !! i = Some sh /\ connections sh' = connections sh.
Proof.
  intros Q Hi. pose proof (f_equal (fun l => l !! i) (q_shards _ _ Q)) as H. cbn in H.
  rewrite !list_lookup_fmap, Hi in H. destruct (shards_ s !! i) as [sh|]; [|done].
  injection H as H. eauto.
Qed.

Lemma named_quiet X Y s s' : quiet s s' -> named X Y s -> named X Y s'.
Proof.
  intros Q N. split.
  - intros i sh f id Hi Hf. destruct (quiet_shard _ _ _ _ Q Hi) as (sh0 & Hi0 & E). rewrite E in Hf.
    destruct (nm_shards _ _ _ N _ _ _ _ Hi0 Hf) as (HX & c & Hc & Hfd & Hsi). split; [done|].
    pose proof (q_identity _ _ Q id) as H. rewrite Hc in H.
    destruct (objects s' !! id) as [c'|]; [|done]. injection H as _ H2 H3 _. exists c'.
    split_and!; [done|congruence|congruence].
  - intros id [c' Hc']. destruct (quiet_lookup _ _ _ _ Q Hc') as (c & Hc & _).
    rewrite (q_next _ _ Q). apply (nm_fresh _ _ _ N). eauto.
  - intros u w. rewrite (q_claims _ _ Q), (q_next _ _ Q). apply (nm_claims _ _ _ N).
  - intros u w c' Hu Hc' HX. rewrite (q_claims _ _ Q) in Hu.
    destruct (quiet_lookup _ _ _ _ Q Hc') as (c & Hc & E). injection E as -> _ _ _.
    by eapply (nm_holder _ _ _ N).
  - intros w c' Hc' HX. rewrite (q_claims _ _ Q).
    destruct (quiet_lookup _ _ _ _ Q Hc') as (c & Hc & E). injection E as -> _ _ _.
    by apply (nm_claimed _ _ _ N).
  - intros w c' Hc'. destruct (quiet_lookup _ _ _ _ Q Hc') as (c & Hc & E). injection E as -> _ _ ->.
    by eapply (nm_silent _ _ _ N).
  - intros w c' Hc' HX Hst. destruct (q_open _ _ Q _ _ Hc' Hst) as (c & Hc & Hst').
    by eapply (nm_open _ _ _ N).
  - rewrite (q_next _ _ Q). apply (nm_next _ _ _ N).
Qed.

(** ** Quiet operations *)

Definition quietly {A} (m : srv A) : Prop := forall s, quiet s (m s).2.

Section Quietly.
Context {A B : Type}.

Lemma quietly_pure (m : srv A) : (forall s, (m s).2 = s) -> quietly m.
Proof. intros H s. rewrite H. apply quiet_refl. Qed.
Lemma quietly_bind (m : srv A) (k : A -> srv B) :
  quietly m -> (forall a, quietly (k a)) -> quietly (mbind m k).
Proof.
  intros Hm Hk s. unfold mbind. specialize (Hm s). destruct (m s) as [[a|e] s1]; [|done].
  eapply quiet_trans; [exact Hm|apply Hk].
Qed.
Lemma quietly_if (b : bool) (m1 m2 : srv A) :
  quietly m1 -> quietly m2 -> quietly (if b then m1 else m2).
Proof. by destruct b. Qed.
Lemma quietly_on_sessions (f : heap -> SessionTable -> A * SessionTable) :
  (forall h t, claims_ (f h t).2 = claims_ t) -> quietly (on_sessions f).
Proof.
  intros Hf s. unfold on_sessions. specialize (Hf (objects s) (sessions_ s)).
  destruct (f _ _) as [a t]. split; eauto.
Qed.
Lemma quietly_ret (a : A) : quietly (mret a).
Proof. by apply quietly_pure. Qed.
Lemma quietly_throw e : quietly (mthrow (A := A) e).
Proof. by apply quietly_pure. Qed.
Lemma quietly_lift (r : result A) : quietly (mlift r).
Proof. by apply quietly_pure. Qed.
End Quietly.

Lemma quietly_get : quietly mget.
Proof. by apply quietly_pure. Qed.
Lemma quietly_lock w : quietly (lock w).
Proof. by apply quietly_pure. Qed.
Lemma quietly_relay_peer c : quietly (relay_peer c).
Proof. apply quietly_pure. intros s. unfold relay_peer. by destruct (relay_peer_ c). Qed.
Lemma quietly_get_conn id : quietly (get_conn id).
Proof. apply quietly_pure. intros s. unfold get_conn. by destruct (objects s !! id). Qed.
Lemma quietly_get_shard i : quietly (get_shard i).
Proof. apply quietly_pure. intros s. unfold get_shard. by destruct (shards_ s !! _). Qed.
Lemma quietly_limiter f : quietly (on_limiter f).
Proof. intros s. unfold on_limiter. destruct (f _ _ _). split; eauto. Qed.
Lemma quietly_session_update f :
  (forall h t, claims_ (f h t) = claims_ t) -> quietly (session_update f).
Proof. intros Hf. by apply quietly_on_sessions. Qed.

Lemma quietly_create_pairing a b : quietly (do_create_pairing a b).
Proof.
  intros s. unfold do_create_pairing, create_pairing.
  destruct (pairing_id_loop _ _ _ _) as [[i c]|]; split; cbn; eauto.
Qed.

Lemma quietly_upd id f :
  (forall c, identity (f c) = identity c /\ (state (f c) = Closing -> state c = Closing)) ->
  quietly (upd_conn id f).
Proof.
  intros Hf s. split; cbn; [done| | |done|done].
  - intros k. destruct (decide (id = k)) as [->|]; [|by rewrite lookup_alter_ne].
    rewrite lookup_alter_eq. destruct (objects s !! k) as [c|]; cbn; [|done].
    by rewrite (proj1 (Hf c)).
  - intros k c'. rewrite lookup_alter_Some. intros [(<- & c & Hc & ->)|[_ Hc]] Hst; [|eauto].
    exists c. split; [done|]. by apply Hf.
Qed.

Lemma quietly_upd_shard i f :
  (forall sh, connections (f sh) = connections sh) -> quietly (upd_shard i f).
Proof.
  intros Hf s. split; cbn; eauto. apply list_eq. intros k. rewrite !list_lookup_fmap.
  destruct (decide (Z.to_nat i = k)) as [<-|].
  - rewrite list_lookup_alter_eq. destruct (shards_ s !! _); cbn; [by rewrite Hf|done].
  - by rewrite list_lookup_alter_ne.
Qed.

Lemma quietly_modify f :
  (forall s, objects (f s) = objects s /\ sessions_ (f s) = sessions_ s /\ shards_ (f s) = shards_ s /\
     next_connection_id_ (f s) = next_connection_id_ s) -> quietly (mmodify f).
Proof.
  intros Hf s. destruct (Hf s) as (E1 & E2 & E3 & E4).
  split; cbn; rewrite ?E1, ?E2, ?E3, ?E4; eauto.
Qed.

Lemma find_group_claims h n t : claims_ (find_group h n t).2 = claims_ t.
Proof.
  unfold find_group. destruct (groups_ t !! n) as [g|]; [|done].
  destruct (prune_group_locked h g) as [[] g']; done.
Qed.

Lemma group_exists_claims h n t : claims_ (group_exists h n t).2 = claims_ t.
Proof.
  pose proof (find_group_claims h n t). unfold group_exists. by destruct (find_group h n t).
Qed.
Lemma group_member_count_claims h n t : claims_ (group_member_count h n t).2 = claims_ t.
Proof.
  pose proof (find_group_claims h n t). unfold group_member_count. by destruct (find_group h n t).
Qed.
Lemma join_group_claims h n v c t : claims_ (join_group h n v c t).2 = claims_ t.
Proof.
  pose proof (find_group_claims h n t). unfold join_group. destruct (negb _); [done|].
  destruct (find_group h n t) as [[g|] t']; cbn in *; [|done].
  destruct (bool_decide _); [done|]. destruct (negb _); [done|]. by destruct (_ <=? _).
Qed.
Lemma leave_group_claims h n c t : claims_ (leave_group h n c t) = claims_ t.
Proof.
  unfold leave_group. destruct (_ =? 0); [done|]. destruct (groups_ t !! n); [|done].
  by destruct (_ =? 0).
Qed.
Lemma idle_members_claims h n u (g : list Z -> list bytes) t :
  claims_ ((let '(ms, t') := idle_group_members h n u t in (g ms, t')).2) = claims_ t.
Proof.
  pose proof (find_group_claims h n t). unfold idle_group_members. by destruct (find_group h n t).
Qed.
Lemma request_relay_claims i b t : claims_ (request_relay i b t).2 = claims_ t.
Proof. unfold request_relay. by destruct (pairings_ t !! i). Qed.

Create HintDb quiet.
#[export] Hint Resolve quietly_ret quietly_throw quietly_lift quietly_get quietly_lock
  quietly_relay_peer quietly_get_conn quietly_get_shard quietly_limiter quietly_create_pairing : quiet.
#[export] Hint Resolve group_exists_claims group_member_count_claims join_group_claims
  leave_group_claims idle_members_claims request_relay_claims : quiet.
#[export] Hint Extern 1 (quietly (on_sessions _)) =>
  apply quietly_on_sessions; intros; solve [reflexivity | auto with quiet] : quiet.
#[export] Hint Extern 1 (quietly (session_update _)) =>
  apply quietly_session_update; intros; solve [reflexivity | auto with quiet] : quiet.
#[export] Hint Extern 1 (quietly (mmodify _)) => by apply quietly_modify : quiet.
#[export] Hint Extern 1 (quietly (upd_shard _ _)) => by apply quietly_upd_shard : quiet.
#[export] Hint Extern 1 (quietly (upd_conn _ _)) =>
  apply quietly_upd; let c := fresh in let H := fresh in
  intros c; unfold request_close; try destruct (close_requested c);
  (split; [reflexivity|intros H; cbn in H |- *; first [exact H|discriminate H]]) : quiet.

Ltac quiet_walk :=
  repeat first
    [ solve [eauto with quiet]
    | apply quietly_bind; [|intros ?]
    | apply quietly_if
    | match goal with |- quietly (match ?x with _ => _ end) => destruct x end ].

Lemma quietly_enqueue id t p : quietly (enqueue id t p).
Proof. unfold enqueue. quiet_walk. Qed.
Lemma quietly_wake_for id : quietly (wake_for id).
Proof. unfold wake_for. quiet_walk. Qed.
#[export] Hint Resolve quietly_enqueue quietly_wake_for : quiet.
Lemma quietly_reject id r : quietly (reject_and_close id r).
Proof. unfold reject_and_close. quiet_walk. Qed.
#[export] Hint Resolve quietly_reject : quiet.

Lemma quietly_handle_frame id f :
  type (header f) <> ClientHelloT -> quietly (handle_frame id f).
Proof.
  intros Ht. unfold handle_frame. destruct (type (header f)); [done|..];
    unfold handle_send_request, count_introduction,
      handle_group_query, handle_group_join, handle_group_send_request, handle_accept,
      handle_reject, handle_relay_open, handle_relay_data, handle_relay_close, start_relaying;
    quiet_walk.
Qed.

(** ** The hello *)

(** [m] keeps the invariant, however it ends. *)
Definition steady (X Y : gset Z) {A} (m : srv A) : Prop :=
  forall s, named X Y s -> named X Y (m s).2.

Lemma steady_quietly X Y {A} (m : srv A) : quietly m -> steady X Y m.
Proof. intros H s. apply named_quiet, H. Qed.

Lemma steady_bind X Y {A B} (m : srv A) (k : A -> srv B) :
  steady X Y m -> (forall a, steady X Y (k a)) -> steady X Y (mbind m k).
Proof.
  intros Hm Hk s Hs. specialize (Hm s Hs). unfold mbind. destruct (m s) as [[a|e] s1]; [|done].
  by apply Hk.
Qed.

Lemma steady_if X Y {A} (b : bool) (m1 m2 : srv A) :
  steady X Y m1 -> steady X Y m2 -> steady X Y (if b then m1 else m2).
Proof. by destruct b. Qed.

Lemma named_set_hello X Y s id h :
  named X Y s -> named X Y (set_objects (alter (set_hello (Some h)) id (objects s)) s).
Proof.
  intros N. set (s' := set_objects _ s).
  assert (forall w c', objects s' !! w = Some c' -> exists c, objects s !! w = Some c /\
    claimed_username c' = claimed_username c /\ fd c' = fd c /\ shard_index c' = shard_index c /\
    state c' = state c /\ (hello c' = None -> hello c = None)) as Hl.
  { intros w c'. cbn. rewrite lookup_alter_Some. intros [(<- & c & Hc & ->)|[_ Hc]]; eauto 10.
    exists c. by split_and!. }
  split.
  - intros i sh f k Hi Hf. destruct (nm_shards _ _ _ N _ _ _ _ Hi Hf) as (HX & c & Hc & Hfd & Hsi).
    split; [done|]. cbn. destruct (decide (id = k)) as [->|].
    + rewrite lookup_alter_eq, Hc. eexists. by split_and!.
    + rewrite lookup_alter_ne by done. eauto.
  - intros k [c' Hc']. destruct (Hl _ _ Hc') as (c & Hc & _). apply (nm_fresh _ _ _ N). eauto.
  - apply (nm_claims _ _ _ N).
  - intros u w c' Hu Hc' HX. destruct (Hl _ _ Hc') as (c & Hc & -> & _). by eapply (nm_holder _ _ _ N).
  - intros w c' Hc' HX. destruct (Hl _ _ Hc') as (c & Hc & -> & _). by apply (nm_claimed _ _ _ N).
  - intros w c' Hc' Hn. destruct (Hl _ _ Hc') as (c & Hc & -> & _ & _ & _ & Hh).
    eapply (nm_silent _ _ _ N); eauto.
  - intros w c' Hc' HX. destruct (Hl _ _ Hc') as (c & Hc & _ & _ & _ & -> & _). by eapply (nm_open _ _ _ N).
  - apply (nm_next _ _ _ N).
Qed.

(** Granting a name to a connection that had none. *)
(** A granted claim was free or its holder is gone. *)
Lemma claim_granted (objs : gmap Z Connection) u id t t' :
  claim objs u id t = (Granted, t') ->
  claims_ t' = <[u := id]> (claims_ t) /\ forall w cw, claims_ t !! u = Some w -> objs !! w <> Some cw.
Proof.
  unfold claim. destruct (negb _); [done|]. destruct (claims_ t !! u) as [w|] eqn:E.
  - destruct (expired objs w) eqn:Ew; [|done]. intros [= <-]. cbn. rewrite insert_delete_eq. split; [done|]. intros w' cw [= <-].
    unfold expired in Ew. apply bool_decide_eq_true in Ew. by rewrite Ew.
  - intros [= <-]. cbn. split; [done|]. by intros.
Qed.

Lemma named_granted X Y s id c u t :
  named X Y s -> objects s !! id = Some c -> id ∉ X -> claimed_username c = [] -> u <> [] ->
  is_Some (hello c) -> claim (objects s) u id (sessions_ s) = (Granted, t) ->
  named X Y (set_objects (alter (set_state ReceiverIdle) id (alter (set_claimed u) id (objects s)))
             (set_sessions t s)).
Proof.
  intros N Hc HX Hnone Hu Hh Hclaim. set (s' := set_objects _ _).
  destruct (claim_granted _ _ _ _ _ Hclaim) as [Ht Hdead].
  assert (objects s' !! id = Some (set_state ReceiverIdle (set_claimed u c))) as Hid.
  { cbn. by rewrite lookup_alter_eq, lookup_alter_eq, Hc. }
  assert (forall w, w <> id -> objects s' !! w = objects s !! w) as Hother.
  { intros w Hw. cbn. by rewrite !lookup_alter_ne by done. }
  assert (claims_ (sessions_ s') = <[u := id]> (claims_ (sessions_ s))) as Hcl by exact Ht.
  split.
  - intros i sh f k Hi Hf. destruct (nm_shards _ _ _ N _ _ _ _ Hi Hf) as (HY & c0 & Hc0 & Hfd & Hsi).
    split; [done|]. destruct (decide (k = id)) as [->|Hk].
    + rewrite Hc in Hc0. injection Hc0 as <-. eexists. split; [exact Hid|]. done.
    + rewrite Hother by done. eauto.
  - intros k Hk. apply (nm_fresh _ _ _ N). destruct (decide (k = id)) as [->|]; [eauto|].
    by rewrite Hother in Hk.
  - intros u' w. rewrite Hcl. intros [[<- <-]|[_ Hw]]%lookup_insert_Some.
    + split; [done|]. apply (nm_fresh _ _ _ N). eauto.
    + by apply (nm_claims _ _ _ N).
  - intros u' w c' Hw Hc' HwX. rewrite Hcl in Hw. apply lookup_insert_Some in Hw as [[<- <-]|[Hne Hw]].
    + rewrite Hid in Hc'. by injection Hc' as <-.
    + destruct (decide (w = id)) as [->|Hwid].
      * exfalso. destruct (nm_claims _ _ _ N _ _ Hw) as [Hu' _].
        pose proof (nm_holder _ _ _ N _ _ _ Hw Hc HX). congruence.
      * rewrite Hother in Hc' by done. by eapply (nm_holder _ _ _ N).
  - intros w c' Hc' HwX Hne. rewrite Hcl. destruct (decide (w = id)) as [->|Hwid].
    + rewrite Hid in Hc'. injection Hc' as <-. cbn. apply lookup_insert_eq.
    + rewrite Hother in Hc' by done. pose proof (nm_claimed _ _ _ N _ _ Hc' HwX Hne) as Hcw.
      destruct (decide (claimed_username c' = u)) as [E|E].
      * exfalso. rewrite E in Hcw. by apply (Hdead w c').
      * by rewrite lookup_insert_ne by done.
  - intros w c' Hc' Hn. destruct (decide (w = id)) as [->|Hwid].
    + rewrite Hid in Hc'. injection Hc' as <-. cbn in Hn. rewrite Hn in Hh. by destruct Hh.
    + rewrite Hother in Hc' by done. by eapply (nm_silent _ _ _ N).
  - intros w c' Hc' HwX. destruct (decide (w = id)) as [->|Hwid].
    + rewrite Hid in Hc'. by injection Hc' as <-.
    + rewrite Hother in Hc' by done. by eapply (nm_open _ _ _ N).
  - apply (nm_next _ _ _ N).
Qed.

Lemma steady_client_hello Y id p : bytes_ok p -> steady ∅ Y (handle_client_hello id p).
Proof.
  intros Hp s N. unfold handle_client_hello, mbind at 1, mlift.
  pose proof (wm_sound (A := ClientHello) p Hp) as Hok. cbn in Hok.
  destruct (ClientHello_decode p) as [h|e]; [|done]. destruct Hok as [(Hu & _) _].
  unfold mbind at 1, get_conn. destruct (objects s !! id) as [c|] eqn:Hc; [|done].
  set (refreshing := _ && bool_decide (ch_username h = claimed_username c)).
  destruct (hello_received c && negb refreshing) eqn:Er.
  { apply (steady_quietly ∅ Y _ (quietly_reject _ _) s N). }
  unfold mbind at 1, upd_conn at 1, mmodify at 1. set (s1 := set_objects _ s).
  assert (named ∅ Y s1) as N1 by by apply named_set_hello.
  unfold mbind at 1, mget.
  destruct refreshing eqn:Eref.
  { apply (steady_quietly ∅ Y _ (quietly_enqueue _ _ _) s1 N1). }
  rewrite andb_true_r in Er. assert (hello c = None) as Hnone.
  { unfold hello_received in Er. apply bool_decide_eq_false in Er. by apply eq_None_not_Some. }
  assert (objects s1 !! id = Some (set_hello (Some h) c)) as Hc1 by (cbn; by rewrite lookup_alter_eq, Hc).
  assert (forall a, steady ∅ Y (do* enqueue id ServerHelloT (ServerHello_encode a) in
    if negb (sh_claim_accepted a) then upd_conn id (request_close (sh_message a)) else mret tt)) as Hrest.
  { intros a. apply steady_quietly. quiet_walk. }
  unfold mbind at 1. destruct (ch_role h).
  - unfold mbind at 1, on_sessions. destruct (claim (objects s1) (ch_username h) id (sessions_ s1))
      as [r t] eqn:Ecl. destruct r.
    + unfold mbind at 1, upd_conn at 1, mmodify at 1. unfold mbind at 1, upd_conn at 1, mmodify at 1.
      unfold mret at 1. apply Hrest.
      assert (ch_username h <> []) as Hne by (intros E; by rewrite E in Hu).
      pose proof (nm_silent _ _ _ N _ _ Hc Hnone) as Hnocl.
      exact (named_granted ∅ Y s1 id _ (ch_username h) t N1 Hc1 (not_elem_of_empty _) Hnocl Hne
        ltac:(by eexists) Ecl).
    + unfold mret at 1. apply Hrest. eapply named_quiet; [|exact N1].
      assert (t = sessions_ s1) as -> by (unfold claim in Ecl; repeat case_match; congruence).
      split; eauto.
    + unfold mret at 1. apply Hrest. eapply named_quiet; [|exact N1].
      assert (t = sessions_ s1) as -> by (unfold claim in Ecl; repeat case_match; congruence).
      split; eauto.
  - match goal with |- named _ _ (let (_, _) := ?m s1 in _).2 =>
      assert (steady ∅ Y m) as Hs by (apply steady_quietly; quiet_walk);
      specialize (Hs s1 N1); destruct (m s1) as [[a|e] s2] end; [by apply Hrest|done].
Qed.

Lemma steady_handle_frame Y id f : bytes_ok (payload f) -> steady ∅ Y (handle_frame id f).
Proof.
  intros Hf. destruct (decide (type (header f) = ClientHelloT)) as [E|E].
  - unfold handle_frame. rewrite E. by apply steady_client_hello.
  - by apply steady_quietly, quietly_handle_frame.
Qed.

(** ** Teardown *)

Lemma release_claims h u id t w u' :
  claims_ (release h u id t) !! u' = Some w -> claims_ t !! u' = Some w.
Proof.
  unfold release. destruct (_ =? 0); [done|]. destruct (claims_ t !! u) as [w0|]; [|done].
  destruct (_ || _); [|done]. cbn. by intros [_ ?]%lookup_delete_Some.
Qed.

Lemma release_keeps h u id t w c u' :
  claims_ t !! u' = Some w -> h !! w = Some c -> w <> id ->
  claims_ (release h u id t) !! u' = Some w.
Proof.
  intros Hu Hw Hne. unfold release. destruct (_ =? 0); [done|].
  destruct (claims_ t !! u) as [w0|] eqn:E; [|done]. destruct (_ || _) eqn:Eo; [|done]. cbn.
  destruct (decide (u = u')) as [->|]; [|by rewrite lookup_delete_ne].
  rewrite Hu in E. injection E as <-. apply orb_true_iff in Eo as [Eo|Eo].
  - unfold expired in Eo. apply bool_decide_eq_true in Eo. congruence.
  - apply Z.eqb_eq in Eo. congruence.
Qed.

Lemma steady_release X Y id u :
  id ∈ X -> steady X Y (session_update (fun h => release h u id)).
Proof.
  intros HX s N. cbn. split; cbn.
  - apply (nm_shards _ _ _ N).
  - apply (nm_fresh _ _ _ N).
  - intros u' w Hw%release_claims. by apply (nm_claims _ _ _ N).
  - intros u' w c Hw%release_claims. by apply (nm_holder _ _ _ N).
  - intros w c Hc HwX Hne. eapply release_keeps; [by apply (nm_claimed _ _ _ N)|done|]. by intros ->.
  - apply (nm_silent _ _ _ N).
  - apply (nm_open _ _ _ N).
  - apply (nm_next _ _ _ N).
Qed.

Lemma steady_detach X Y id c : id ∈ X -> steady X Y (detach id c).
Proof.
  intros HX. unfold detach. apply steady_bind.
  { apply steady_if; [by apply steady_release|apply steady_quietly; auto with quiet]. }
  intros _. apply steady_quietly. quiet_walk.
Qed.

Lemma keeps_identity_detach id c : keeps identity (detach id c).
Proof. unfold detach. keeps_walk. Qed.

Lemma named_set_closing X Y s id :
  named X Y s -> named ({[id]} ∪ X) Y (set_objects (alter (set_state Closing) id (objects s)) s).
Proof.
  intros N. set (s' := set_objects _ s).
  assert (forall w c', objects s' !! w = Some c' -> exists c, objects s !! w = Some c /\
    identity c' = identity c /\ (w <> id -> c' = c)) as Hl.
  { intros w c'. cbn. rewrite lookup_alter_Some. intros [(<- & c & Hc & ->)|[_ Hc]]; [|eauto].
    exists c. by split_and!. }
  split.
  - intros i sh f k Hi Hf. destruct (nm_shards _ _ _ N _ _ _ _ Hi Hf) as (HX & c & Hc & Hfd & Hsi).
    split; [done|]. cbn. destruct (decide (id = k)) as [->|].
    + rewrite lookup_alter_eq, Hc. eexists. by split_and!.
    + rewrite lookup_alter_ne by done. eauto.
  - intros k [c' Hc']. destruct (Hl _ _ Hc') as (c & Hc & _). apply (nm_fresh _ _ _ N). eauto.
  - apply (nm_claims _ _ _ N).
  - intros u w c' Hu Hc' HX. destruct (Hl _ _ Hc') as (c & Hc & E & _). injection E as -> _ _ _.
    eapply (nm_holder _ _ _ N); [done..|set_solver].
  - intros w c' Hc' HX. destruct (Hl _ _ Hc') as (c & Hc & E & _). injection E as -> _ _ _.
    apply (nm_claimed _ _ _ N); [done|set_solver].
  - intros w c' Hc'. destruct (Hl _ _ Hc') as (c & Hc & E & _). injection E as -> _ _ ->.
    by eapply (nm_silent _ _ _ N).
  - intros w c' Hc' HX. destruct (Hl _ _ Hc') as (c & Hc & _ & E). rewrite E by set_solver.
    eapply (nm_open _ _ _ N); [done|set_solver].
  - apply (nm_next _ _ _ N).
Qed.

(** Where a shard keeps a connection. *)
Definition owned (s : Server) (shard id : Z) : Prop :=
  0 <= shard /\ exists sh f, shards_ s !! Z.to_nat shard = Some sh /\ connections sh !! f = Some id.

Lemma named_remove X Y s shard id c :
  named X Y s -> id ∈ X -> objects s !! id = Some c -> shard_index c = shard -> 0 <= shard ->
  named X ({[id]} ∪ Y) (set_shards (alter (remove_fd (fd c)) (Z.to_nat shard) (shards_ s)) s).
Proof.
  intros N HX Hc Hsi Hpos. split; [|by destruct N..].
  intros i sh' f k Hi Hf. cbn in Hi |- *.
  assert (exists sh, shards_ s !! i = Some sh /\ connections sh !! f = Some k /\
    (i = Z.to_nat shard -> f <> fd c)) as (sh & Hsh & Hf0 & Hne).
  { destruct (decide (Z.to_nat shard = i)) as [<-|Hneq].
    - rewrite list_lookup_alter_eq in Hi. destruct (shards_ s !! Z.to_nat shard) as [sh|]; [|done].
      injection Hi as <-. cbn in Hf. apply lookup_delete_Some in Hf as [? ?]. exists sh. split_and!; auto.
    - rewrite list_lookup_alter_ne in Hi by done. exists sh'. split_and!; [done..|]. by intros ->. }
  destruct (nm_shards _ _ _ N _ _ _ _ Hsh Hf0) as (HY & c0 & Hc0 & Hfd & Hsi0). split; [|eauto].
  apply not_elem_of_union. split; [|done]. intros ->%elem_of_singleton.
  rewrite Hc in Hc0. injection Hc0 as <-. apply Hne; [lia|done].
Qed.

Lemma close_named X Y s shard id s' :
  named X Y s -> id ∉ X -> owned s shard id -> close_connection shard id s = (Ok tt, s') ->
  named ({[id]} ∪ X) ({[id]} ∪ Y) s'.
Proof.
  intros N HX (Hpos & sh & f & Hsh & Hf) E.
  destruct (nm_shards _ _ _ N _ _ _ _ Hsh Hf) as (_ & c & Hc & _ & Hsi).
  rewrite Z2Nat.id in Hsi by done. unfold close_connection in E.
  erewrite mbind_ok in E by by apply get_conn_eq.
  rewrite bool_decide_eq_false_2 in E by by apply (nm_open _ _ _ N _ _ Hc).
  apply mbind_ok_inv in E as (u1 & s1 & E1 & E). injection E1 as <- <-.
  apply mbind_ok_inv in E as (u2 & s2 & E2 & E). injection E as <-.
  pose proof (named_set_closing X Y s id N) as N1.
  pose proof (steady_detach ({[id]} ∪ X) Y id c ltac:(set_solver) _ N1) as N2. rewrite E2 in N2.
  pose proof (keeps_identity_detach id c (set_objects (alter (set_state Closing) id (objects s)) s) id) as Hk.
  rewrite E2 in Hk. cbn [snd] in Hk. cbn [objects set_objects] in Hk. rewrite lookup_alter_eq, Hc in Hk.
  destruct (objects s2 !! id) as [c2|] eqn:Hc2; [|done]. injection Hk as _ Hfd Hsi2 _. cbn in Hfd, Hsi2.
  rewrite <- Hfd. apply named_remove; [done|set_solver|done|congruence|done].
Qed.

(** ** Servicing a connection *)

(** [m] leaves every shard's connections alone. *)
Definition still {A} (m : srv A) : Prop :=
  forall s, connections <$> shards_ (m s).2 = connections <$> shards_ s.

Lemma still_quietly {A} (m : srv A) : quietly m -> still m.
Proof. intros H s. apply (q_shards _ _ (H s)). Qed.

Lemma still_bind {A B} (m : srv A) (k : A -> srv B) :
  still m -> (forall a, still (k a)) -> still (mbind m k).
Proof.
  intros Hm Hk s. unfold mbind. specialize (Hm s). destruct (m s) as [[a|e] s1]; [|done].
  by rewrite Hk.
Qed.

Lemma still_upd id f : still (upd_conn id f).
Proof. done. Qed.
Lemma still_on_sessions {A} (f : heap -> SessionTable -> A * SessionTable) : still (on_sessions f).
Proof. intros s. unfold on_sessions. by destruct (f _ _). Qed.

Ltac still_walk :=
  repeat first
    [ apply still_upd | apply still_on_sessions
    | solve [apply still_quietly; eauto with quiet]
    | apply still_bind; [|intros ?]
    | match goal with
      | |- still (if ?b then _ else _) => destruct b
      | |- still (match ?x with _ => _ end) => destruct x
      end ].

Lemma still_handle_frame id f : still (handle_frame id f).
Proof.
  destruct (decide (type (header f) = ClientHelloT)) as [E|E];
    [|by apply still_quietly, quietly_handle_frame].
  unfold handle_frame. rewrite E. unfold handle_client_hello. still_walk.
Qed.

Lemma owned_still s s' shard id :
  connections <$> shards_ s' = connections <$> shards_ s -> owned s shard id -> owned s' shard id.
Proof.
  intros E (Hpos & sh & f & Hsh & Hf). split; [done|].
  pose proof (f_equal (fun l => l !! Z.to_nat shard) E) as H. cbn in H.
  rewrite !list_lookup_fmap, Hsh in H. destruct (shards_ s' !! _) as [sh'|]; [|done].
  injection H as H. exists sh', f. by rewrite H.
Qed.

(** The invariant, the ownership of [id] by its shard, and well-formedness. *)
Record serving (shard id : Z) (s : Server) : Prop := {
  sv_ok : server_ok s;
  sv_named : named ∅ ∅ s;
  sv_owned : owned s shard id;
}.

Lemma serving_quietly shard id {A} (m : srv A) Q :
  quietly m -> (forall D, id ∈ D -> safe false D m Q) -> forall s, serving shard id s -> serving shard id (m s).2.
Proof.
  intros Hq Hsafe s [Hok Hn Ho]. split.
  - destruct Ho as (Hpos & sh & f & Hsh & Hf).
    destruct (nm_shards _ _ _ Hn _ _ _ _ Hsh Hf) as (_ & c & Hc & _).
    pose proof (Hsafe (dom (objects s)) ltac:(apply elem_of_dom; eauto) s Hok eq_refl) as H.
    destruct (m s). by destruct H.
  - by eapply named_quiet.
  - eapply owned_still; [apply (q_shards _ _ (Hq s))|done].
Qed.

Lemma serving_conn shard id s : serving shard id s -> exists c, objects s !! id = Some c.
Proof.
  intros [_ Hn (_ & sh & f & Hsh & Hf)].
  destruct (nm_shards _ _ _ Hn _ _ _ _ Hsh Hf) as (_ & c & Hc & _). eauto.
Qed.

Lemma quietly_flush id : quietly (flush_output id).
Proof.
  unfold flush_output. apply quietly_bind; [auto with quiet|]. intros c.
  destruct (flush_loop _ _ _) as [[ok o] [tx' w']]. apply quietly_bind; [|auto with quiet].
  by apply quietly_upd.
Qed.

Lemma quietly_read id : quietly (do_read_available id).
Proof.
  unfold do_read_available. apply quietly_bind; [auto with quiet|]. intros c.
  destruct (read_available _ _) as [[[open b] rx']|]; [|auto with quiet].
  apply quietly_bind; [|auto with quiet]. by apply quietly_upd.
Qed.

Lemma quietly_resume id : quietly (resume_source id).
Proof. unfold resume_source. quiet_walk. Qed.
Lemma quietly_update_interest shard id : quietly (update_interest shard id).
Proof. unfold update_interest. quiet_walk. Qed.
#[export] Hint Resolve quietly_flush quietly_read quietly_resume quietly_update_interest : quiet.

Lemma serving_handle_buffered fuel shard id p s :
  serving shard id s -> serving shard id (handle_buffered fuel id p s).2.
Proof.
  revert p s. induction fuel as [|fuel IH]; intros p s Hsv; [done|]. cbn [handle_buffered].
  destruct (serving_conn _ _ _ Hsv) as [c Hc]. pose proof (so_objects _ (sv_ok _ _ _ Hsv) _ _ Hc) as Hok.
  pose proof (next_frame_total (inb c) (co_in _ _ Hok) (co_in_bytes _ _ Hok)) as Hn.
  unfold mbind at 1, do_next_frame, get_conn. unfold mbind at 1. rewrite Hc. unfold mbind at 1, mlift.
  destruct (next_frame (inb c)) as [[[f b']|]|e]; [|done..].
  destruct Hn as (Hff & Hb' & Hin & _). unfold mbind at 1, upd_conn, mmodify, mret.
  set (s1 := set_objects _ s).
  assert (serving shard id s1) as Hsv1.
  { split.
    - apply server_ok_upd; [apply Hsv|]. intros c0 Hc0. rewrite Hc in Hc0. injection Hc0 as <-.
      apply ok_set_in; [done|rewrite Hin; apply Hok|done].
    - eapply named_quiet; [|apply Hsv]. by apply (quietly_upd id (set_in b')).
    - eapply owned_still; [|apply Hsv]. done. }
  assert (id ∈ dom (objects s1)) as Hid by (destruct (serving_conn _ _ _ Hsv1) as [? ?]; apply elem_of_dom; eauto).
  pose proof (safe_handle_frame _ id f Hid Hff s1 (sv_ok _ _ _ Hsv1) eq_refl) as Hh.
  pose proof (steady_handle_frame ∅ id f (proj1 Hff) s1 (sv_named _ _ _ Hsv1)) as Hs2.
  pose proof (still_handle_frame id f s1) as Hst. unfold mbind at 1.
  destruct (handle_frame id f s1) as [r s2]. cbn [snd] in *. destruct Hh as (Hok2 & _).
  assert (serving shard id s2) as Hsv2 by (split; [done|done|eapply owned_still; [done|apply Hsv1]]).
  destruct r as [[]|e]; [|done].
  destruct (serving_conn _ _ _ Hsv2) as [c2 Hc2]. unfold mbind, get_conn. rewrite Hc2.
  destruct (_ || _); [done|by apply IH].
Qed.

Lemma serving_try shard id s : serving shard id s -> serving shard id (try_handle_buffered id s).2.
Proof.
  intros Hsv. unfold try_handle_buffered. destruct (serving_conn _ _ _ Hsv) as [c Hc]. rewrite Hc.
  pose proof (serving_handle_buffered (S (length (input_ (inb c)))) shard id false s Hsv) as H.
  destruct (handle_buffered _ id false s) as [[p|e] s1]; [done|]. cbn [snd] in H.
  destruct (is_dz_error e); [|done].
  apply (serving_quietly shard id (do* upd_conn id (request_close (what e)) in mret true) (fun _ => True));
    [quiet_walk| |done].
  intros D HD. safe_step. by apply safe_ret.
Qed.

Definition serviced (id : Z) (s : Server) : Prop :=
  named ∅ ∅ s \/ named {[id]} {[id]} s.

Lemma close_serviced shard id s s' :
  serving shard id s -> close_connection shard id s = (Ok tt, s') -> named {[id]} {[id]} s'.
Proof.
  intros Hsv E. eapply close_named in E; [|apply Hsv|apply not_elem_of_empty|apply Hsv].
  by rewrite !union_empty_r_L in E.
Qed.

Lemma read_and_handle_serving fuel shard id s r s' :
  serving shard id s -> read_and_handle fuel shard id s = (Ok r, s') ->
  match r with KeepServing => serving shard id s' | ClosedInRead => named {[id]} {[id]} s' end.
Proof.
  revert s. induction fuel as [|fuel IH]; intros s Hsv; cbn [read_and_handle]; [done|].
  intros (open & s1 & E1 & E)%mbind_ok_inv.
  pose proof (serving_quietly shard id _ _ (quietly_read id) (fun D => safe_read false D id) s Hsv) as H1.
  rewrite E1 in H1. apply mbind_ok_inv in E as (p & s2 & E2 & E).
  pose proof (serving_try shard id s1 H1) as H2. rewrite E2 in H2. cbn [snd] in H1, H2.
  destruct open; cbn [negb] in E.
  - destruct (serving_conn _ _ _ H2) as [c Hc]. erewrite mbind_ok in E by by apply get_conn_eq.
    destruct (_ || _); [by injection E as <- <-|]. destruct (_ || _); [by injection E as <- <-|].
    by eapply IH.
  - apply mbind_ok_inv in E as (ok & s3 & E3 & E).
    pose proof (serving_quietly shard id _ _ (quietly_flush id) (fun D => safe_flush false D id) s2 H2) as H3.
    rewrite E3 in H3. apply mbind_ok_inv in E as ([] & s4 & E4 & E). injection E as <- <-.
    by eapply close_serviced.
Qed.

Lemma service_named shard id ev s s' :
  serving shard id s -> service_connection shard id ev s = (Ok tt, s') -> serviced id s'.
Proof.
  intros Hsv E. unfold service_connection in E.
  apply mbind_ok_inv in E as (sx & s0 & E0 & E). injection E0 as <- <-.
  apply mbind_ok_inv in E as ([] & s1 & E1 & E).
  assert (serving shard id s1) as H1.
  { pose proof (serving_quietly shard id (upd_conn id (set_activity (clock s))) (fun _ => True)
      ltac:(auto with quiet) ltac:(auto with safe) s Hsv) as H. by rewrite E1 in H. }
  apply mbind_ok_inv in E as (fl & s2 & E2 & E).
  assert (serving shard id s2) as H2.
  { destruct (writable ev); [|by injection E2 as <- <-].
    pose proof (serving_quietly shard id _ _ (quietly_flush id) (fun D => safe_flush false D id) s1 H1) as H.
    by rewrite E2 in H. }
  destruct fl; cbn [negb] in E; [|right; by eapply close_serviced].
  apply mbind_ok_inv in E as ([] & s3 & E3 & E).
  assert (serving shard id s3) as H3.
  { destruct (writable ev); [|by injection E3 as <-].
    pose proof (serving_quietly shard id _ _ (quietly_resume id) (fun D => safe_resume_source false D id) s2 H2)
      as H. by rewrite E3 in H. }
  destruct (serving_conn _ _ _ H3) as [c Hc]. erewrite mbind_ok in E by by apply get_conn_eq.
  apply mbind_ok_inv in E as (o & s4 & E4 & E).
  assert (match o with KeepServing => serving shard id s4 | ClosedInRead => named {[id]} {[id]} s4 end) as H4.
  { revert E4. destruct (_ && _); intros E4; [by eapply read_and_handle_serving|by injection E4 as <- <-]. }
  destruct o; [|injection E as <-; by right].
  unfold finish_service in E. apply mbind_ok_inv in E as (ok & s5 & E5 & E).
  assert (serving shard id s5) as H5.
  { pose proof (serving_quietly shard id _ _ (quietly_flush id) (fun D => safe_flush false D id) s4 H4) as H.
    by rewrite E5 in H. }
  destruct ok; cbn [negb] in E; [|right; by eapply close_serviced].
  destruct (serving_conn _ _ _ H5) as [c5 Hc5]. erewrite mbind_ok in E by by apply get_conn_eq.
  clear E4. destruct (_ && _); [right; by eapply close_serviced|].
  destruct (_ && _); [right; by eapply close_serviced|]. left.
  pose proof (quietly_update_interest shard id s5) as Hq. rewrite E in Hq.
  eapply named_quiet; [exact Hq|apply H5].
Qed.

(** ** Events *)

Lemma referenced_owned s id :
  referenced s id = true -> exists i sh f, shards_ s !! i = Some sh /\ connections sh !! f = Some id.
Proof.
  unfold referenced. intros (sh & Hin & Hb)%existsb_exists. apply bool_decide_eq_true in Hb.
  apply list_elem_of_fmap in Hb as ([f id'] & -> & Hm%elem_of_map_to_list).
  apply list_elem_of_In, list_elem_of_lookup in Hin as [i Hi]. eauto.
Qed.

(** Dropping the objects nobody refers to completes a teardown. *)
Lemma collect_named X s : named X X s -> named ∅ ∅ (collect s).2.
Proof.
  intros N. cbn.
  assert (forall w c, filter (fun kc => referenced s kc.1 = true) (objects s) !! w = Some c ->
    objects s !! w = Some c /\ w ∉ X) as Hl.
  { intros w c [Hc Hr]%map_lookup_filter_Some. split; [done|].
    destruct (referenced_owned _ _ Hr) as (i & sh & f & Hi & Hf). by apply (nm_shards _ _ _ N i sh f). }
  split; cbn.
  - intros i sh f id Hi Hf. split; [set_solver|].
    destruct (nm_shards _ _ _ N _ _ _ _ Hi Hf) as (_ & c & Hc & Hfd & Hsi). exists c.
    split_and!; [|done..]. apply map_lookup_filter_Some. split; [done|]. cbn.
    unfold referenced. apply existsb_exists. exists sh. split; [by eapply list_elem_of_In, list_elem_of_lookup_2|].
    apply bool_decide_eq_true, list_elem_of_fmap. exists (f, id). split; [done|]. by apply elem_of_map_to_list.
  - intros id [c [Hc _]%Hl]. apply (nm_fresh _ _ _ N). eauto.
  - apply (nm_claims _ _ _ N).
  - intros u w c Hu [Hc HX]%Hl _. by eapply (nm_holder _ _ _ N).
  - intros w c [Hc HX]%Hl _. by apply (nm_claimed _ _ _ N).
  - intros w c [Hc HX]%Hl. by eapply (nm_silent _ _ _ N).
  - intros w c [Hc HX]%Hl _. by eapply (nm_open _ _ _ N).
  - apply (nm_next _ _ _ N).
Qed.

Lemma service_fd_named shard f ev s s' :
  server_ok s -> named ∅ ∅ s -> 0 <= shard -> service_fd shard f ev s = (Ok tt, s') ->
  named ∅ ∅ (collect s').2.
Proof.
  intros Hs N Hpos E. unfold service_fd in E. apply mbind_ok_inv in E as (sh & s1 & E1 & E).
  unfold get_shard in E1. destruct (shards_ s !! Z.to_nat shard) as [sh0|] eqn:Hsh; [|done].
  injection E1 as -> <-. destruct (connections sh !! f) as [id|] eqn:Hf.
  2: { injection E as <-. by apply (collect_named ∅). }
  assert (serving shard id s) as Hsv by (split; [done|done|by split; eauto]).
  destruct (serving_conn _ _ _ Hsv) as [c Hc]. erewrite mbind_ok in E by by apply get_conn_eq.
  destruct (service_named _ _ _ _ _ Hsv E) as [N'|N']; by eapply collect_named.
Qed.

Lemma drain_named shard s s' :
  server_ok s -> shard_ok s shard -> named ∅ ∅ s -> drain_wake_queue shard s = (Ok tt, s') ->
  named ∅ ∅ s'.
Proof.
  intros Hs Hi N E. unfold drain_wake_queue in E. apply mbind_ok_inv in E as (sh & s0 & E0 & E).
  destruct (get_shard_ok s shard Hs Hi) as (sh0 & Eg & _). rewrite Eg in E0. injection E0 as -> <-.
  apply mbind_ok_inv in E as ([] & s1 & E1 & E).
  assert (server_ok s1 /\ same_shape s s1) as [Hs1 Hsh1].
  { pose proof (safe_upd_shard false (dom (objects s)) shard
      (fun sh => mk_Shard (index sh) (poller sh) (connections sh) []) ltac:(done) s Hs eq_refl) as H.
    rewrite E1 in H. destruct H as (? & ?%alike_shape & _). done. }
  assert (named ∅ ∅ s1) as N1.
  { eapply named_quiet; [|exact N].
    pose proof (quietly_upd_shard shard (fun sh => mk_Shard (index sh) (poller sh) (connections sh) [])
      ltac:(done) s) as H. by rewrite E1 in H. }
  pose proof (shard_ok_shape _ _ _ Hsh1 Hi) as Hi1. clear E1 Eg N Hs Hi Hsh1 s. revert s1 Hs1 N1 Hi1 E.
  induction (wake_queue sh) as [|f fs IH]; intros s Hs N Hi E; [by injection E as <-|].
  cbn [for_each] in E. apply mbind_ok_inv in E as ([] & s2 & E2 & E).
  apply mbind_ok_inv in E2 as ([] & s3 & E3 & E2). injection E2 as <-.
  pose proof (service_fd_ok s shard f (fun c => mk_ReadyEvent (negb (read_paused c)) true false) Hs Hi) as Hok.
  rewrite E3 in Hok. destruct Hok as (Hs3 & Ha3%alike_shape & _).
  eapply IH; [by apply collect_ok|eapply service_fd_named; [..|exact E3]; [done|done|apply Hi]| |exact E].
  eapply shard_ok_shape; [|exact Hi]. by destruct Ha3.
Qed.

(** Closing a connection takes its descriptor out of its shard, and nothing else out of any. *)
Lemma close_shards X Y s shard id c s' :
  named X Y s -> id ∉ X -> objects s !! id = Some c -> close_connection shard id s = (Ok tt, s') ->
  connections <$> shards_ s' = alter (delete (fd c)) (Z.to_nat shard) (connections <$> shards_ s).
Proof.
  intros N HX Hc E. unfold close_connection in E. erewrite mbind_ok in E by by apply get_conn_eq.
  rewrite bool_decide_eq_false_2 in E by by apply (nm_open _ _ _ N _ _ Hc).
  apply mbind_ok_inv in E as (u1 & s1 & E1 & E). injection E1 as <- <-.
  apply mbind_ok_inv in E as (u2 & s2 & E2 & E). injection E as <-.
  assert (still (detach id c)) as Hst by (unfold detach, session_update; still_walk).
  specialize (Hst (set_objects (alter (set_state Closing) id (objects s)) s)). rewrite E2 in Hst.
  cbn [snd shards_ set_objects] in Hst. rewrite <- Hst. cbn. apply list_fmap_alter, Forall_true. done.
Qed.

(** Closing one connection leaves the others where they are. *)
Lemma close_owned X s shard id id' s' :
  named X X s -> id ∉ X -> owned s shard id -> id' <> id -> owned s shard id' ->
  close_connection shard id s = (Ok tt, s') -> owned s' shard id'.
Proof.
  intros N HX (Hpos & sh & f & Hsh & Hf) Hne (_ & sh0 & f' & Hsh' & Hf') E.
  rewrite Hsh in Hsh'. injection Hsh' as <-.
  destruct (nm_shards _ _ _ N _ _ _ _ Hsh Hf) as (_ & c & Hc & Hfd & Hsi).
  pose proof (f_equal (fun l => l !! Z.to_nat shard) (close_shards _ _ _ _ _ _ _ N HX Hc E)) as H. cbn in H.
  rewrite list_lookup_alter_eq, !list_lookup_fmap, Hsh in H. destruct (shards_ s' !! _) as [sh'|] eqn:Hsh2; [|done].
  injection H as H. split; [done|]. exists sh', f'. split; [done|].
  rewrite H, lookup_delete_ne; [done|]. intros Ef. rewrite <- Ef, Hfd in Hf'. congruence.
Qed.

Lemma close_all_named shard ids X s s' :
  named X X s -> NoDup ids -> Forall (fun id => (id ∉ X) /\ owned s shard id) ids ->
  for_each (close_connection shard) ids s = (Ok tt, s') -> exists X', named X' X' s'.
Proof.
  revert X s. induction ids as [|id ids IH]; intros X s N Hnd Hown E; [injection E as <-; eauto|].
  cbn [for_each] in E. apply mbind_ok_inv in E as ([] & s1 & E1 & E).
  apply NoDup_cons in Hnd as [Hni Hnd]. apply Forall_cons in Hown as [[HX Ho] Hown].
  eapply (IH ({[id]} ∪ X)); [by eapply close_named|done| |exact E].
  apply Forall_forall. intros id' Hin. rewrite Forall_forall in Hown. destruct (Hown id' Hin) as [HX' Ho'].
  assert (id' <> id) by (by intros ->). split; [set_solver|].
  by eapply (close_owned X s shard id id').
Qed.

Lemma connections_inj X Y s i sh :
  named X Y s -> shards_ s !! i = Some sh -> NoDup (map_to_list (connections sh)).*2.
Proof.
  intros N Hi.
  assert (forall f1 f2 id, connections sh !! f1 = Some id -> connections sh !! f2 = Some id -> f1 = f2) as Hinj.
  { intros f1 f2 id H1 H2. destruct (nm_shards _ _ _ N _ _ _ _ Hi H1) as (_ & c1 & Hc1 & <- & _).
    destruct (nm_shards _ _ _ N _ _ _ _ Hi H2) as (_ & c2 & Hc2 & <- & _). congruence. }
  pose proof (NoDup_map_to_list (connections sh)) as Hnd.
  assert (forall p, p ∈ map_to_list (connections sh) -> connections sh !! p.1 = Some p.2) as Hel
    by (intros [f id] H; by apply elem_of_map_to_list in H).
  induction (map_to_list (connections sh)) as [|[f id] l IH]; [constructor|]. csimpl.
  apply NoDup_cons in Hnd as [Hni Hnd]. constructor.
  - intros ([f' id'] & -> & Hin)%list_elem_of_fmap. apply Hni.
    assert (f = f') as -> by (eapply (Hinj f f' id'); [apply (Hel (f, id')); left|apply (Hel (f', id')); by right]).
    done.
  - apply IH; [done|]. intros p Hp. apply Hel. by right.
Qed.

Lemma maintenance_named shard s s' :
  server_ok s -> shard_ok s shard -> named ∅ ∅ s -> run_maintenance shard s = (Ok tt, s') ->
  exists X, named X X s'.
Proof.
  intros Hs Hi N E. unfold run_maintenance in E.
  apply mbind_ok_inv in E as (sx & s0 & E0 & E). injection E0 as <- <-.
  apply mbind_ok_inv in E as (sh & s0 & E0 & E).
  destruct (get_shard_ok s shard Hs Hi) as (sh0 & Eg & _). rewrite Eg in E0. injection E0 as -> <-.
  unfold get_shard in Eg. destruct (shards_ s !! Z.to_nat shard) as [sh1|] eqn:Hsh; [|done].
  injection Eg as ->. apply mbind_ok_inv in E as ([] & s1 & E1 & E).
  eapply close_all_named in E1 as [X NX]; [|exact N| |].
  - exists X. eapply named_quiet; [|exact NX].
    match type of E with ?m s1 = _ => assert (quietly m) as Hq end.
    { apply quietly_if; [|auto with quiet]. apply quietly_bind; [|intros; auto with quiet].
      by apply quietly_session_update. }
    specialize (Hq s1). by rewrite E in Hq.
  - apply NoDup_filter. by eapply connections_inj.
  - apply Forall_forall. intros id [_ Hin]%list_elem_of_filter. split; [set_solver|].
    apply list_elem_of_fmap in Hin as ([f id'] & -> & Hm%elem_of_map_to_list).
    split; [apply Hi|eauto].
Qed.

Lemma register_named shard f e key k s s' :
  named ∅ ∅ s -> 0 <= shard -> next_connection_id_ s + 1 < 2 ^ 64 ->
  register shard f e key k s = (Ok tt, s') ->
  named ∅ ∅ s' /\ next_connection_id_ s' = next_connection_id_ s + 1.
Proof.
  intros N Hpos Hn E. pose proof (nm_next _ _ _ N) as Hn0. unfold register, mbind, mget, mmodify, upd_shard, mmodify in E. injection E as <-.
  set (nid := next_connection_id_ s). set (c := new_connection f nid shard e key (clock s) k).
  assert (u64 (nid + 1) = nid + 1) as Hu by (apply u64_small; unfold is_u, nid; lia).
  assert (objects s !! nid = None) as Hfresh.
  { apply eq_None_not_Some. intros H%(nm_fresh _ _ _ N). unfold nid in H. lia. }
  assert (forall w c', <[nid := c]> (objects s) !! w = Some c' ->
    (w = nid /\ c' = c) \/ (w <> nid /\ objects s !! w = Some c')) as Hl
    by (intros w c'; rewrite lookup_insert_Some; naive_solver).
  split; [|exact Hu]. split; cbn; rewrite ?Hu.
  - intros i sh f' id Hi Hf. split; [set_solver|].
    assert ((f' = f /\ id = nid /\ i = Z.to_nat shard) \/
      exists sh0, shards_ s !! i = Some sh0 /\ connections sh0 !! f' = Some id) as [(-> & -> & ->)|(sh0 & Hi0 & Hf0)].
    { destruct (decide (Z.to_nat shard = i)) as [<-|Hne].
      - rewrite list_lookup_alter_eq in Hi. destruct (shards_ s !! Z.to_nat shard) as [sh0|]; [|done].
        injection Hi as <-. cbn in Hf. destruct (connections sh0 !! f) eqn:Ef; [eauto|].
        apply lookup_insert_Some in Hf as [[<- <-]|[_ Hf]]; [by left|eauto].
      - rewrite list_lookup_alter_ne in Hi by done. eauto. }
    + exists c. rewrite lookup_insert_eq. split_and!; [done|done|]. cbn. lia.
    + destruct (nm_shards _ _ _ N _ _ _ _ Hi0 Hf0) as (_ & c0 & Hc0 & ? & ?). exists c0.
      rewrite lookup_insert_ne by congruence. done.
  - intros w [c' [[-> ->]|[_ Hc']]%Hl]; [unfold nid; lia|].
    pose proof (nm_fresh _ _ _ N w ltac:(eauto)). unfold nid. lia.
  - intros u w Hw. destruct (nm_claims _ _ _ N _ _ Hw). split; [done|]. unfold nid. lia.
  - intros u w c' Hw [[-> ->]|[_ Hc']]%Hl HX; [|by eapply (nm_holder _ _ _ N)].
    destruct (nm_claims _ _ _ N _ _ Hw). unfold nid in *. lia.
  - intros w c' [[-> ->]|[_ Hc']]%Hl HX Hne; [done|by apply (nm_claimed _ _ _ N)].
  - intros w c' [[-> ->]|[_ Hc']]%Hl Hno; [done|by eapply (nm_silent _ _ _ N)].
  - intros w c' [[-> ->]|[_ Hc']]%Hl HX; [done|by eapply (nm_open _ _ _ N)].
  - unfold nid. lia.
Qed.

Section WithHmac.
Context (hmac_sha256 : bytes -> bytes).
Hypothesis hmac_len : forall b, 8 <= len (hmac_sha256 b).

Lemma accept_named shard evs s s' :
  named ∅ ∅ s -> 0 <= shard -> next_connection_id_ s + len evs < 2 ^ 64 ->
  accept_connections hmac_sha256 shard evs s = (Ok tt, s') -> named ∅ ∅ s'.
Proof.
  revert s. induction evs as [|a evs IH]; intros s N Hpos Hn E; [by injection E as <-|].
  rewrite len_cons in Hn. destruct a as [| | |f from n k]; cbn [accept_connections] in E.
  - eapply IH; [..|exact E]; [done|done|lia].
  - by injection E as <-.
  - eapply IH; [..|exact E]; [done|done|lia].
  - apply mbind_ok_inv in E as (e & s1 & E1 & E). injection E1 as E1 <-.
    apply mbind_ok_inv in E as (key & s2 & E2 & E). injection E2 as E2 <-.
    apply mbind_ok_inv in E as (ok & s3 & E3 & E).
    pose proof (quietly_limiter (fun l now b => allow_connection l key now b) s) as Hq. rewrite E3 in Hq.
    cbn [snd] in Hq. pose proof (named_quiet _ _ _ _ Hq N) as N3. pose proof (q_next _ _ Hq) as Hn3.
    apply mbind_ok_inv in E as ([] & s4 & E4 & E). destruct ok.
    + apply register_named in E4 as [N4 Hn4]; [|done|done|pose proof (len_nonneg evs); lia].
      eapply IH; [..|exact E]; [done|done|lia].
    + injection E4 as <-. eapply IH; [..|exact E]; [done|done|lia].
Qed.

Lemma initial_named o n random : named ∅ ∅ (initial o n random).
Proof.
  split; cbn; try done.
  - intros i sh f id. rewrite list_lookup_fmap. destruct (seq 0 n !! i); [|done].
    intros [= <-] ?. done.
  - intros id [c Hc]. done.
Qed.

Lemma step_named s ev s' :
  server_ok s -> event_ok s ev -> named ∅ ∅ s -> step hmac_sha256 ev s = (Ok tt, s') -> named ∅ ∅ s'.
Proof.
  intros Hs He N E. unfold step in E. apply mbind_ok_inv in E as ([] & s1 & E1 & E). injection E as <-.
  destruct ev as [i f ev|i|i|i evs|now|id rm tm]; cbn [handle_event event_ok] in *.
  - eapply service_fd_named; [done|done|apply He|exact E1].
  - eapply (collect_named ∅), drain_named; [done|done|done|exact E1].
  - edestruct maintenance_named as [X NX]; [exact Hs|exact He|exact N|exact E1|]. by eapply collect_named.
  - destruct He as (Hi & Hn & _). eapply (collect_named ∅), accept_named; [done|apply Hi|done|exact E1].
  - injection E1 as <-. apply (collect_named ∅). eapply named_quiet; [|exact N].
    by apply (quietly_modify (set_clock now)).
  - injection E1 as <-. apply (collect_named ∅). eapply named_quiet; [|exact N].
    by apply (quietly_upd id (fun c => set_sock (mk_ksock (rx (sock c) ++ rm) (tx (sock c) ++ tm)
      (wire (sock c))) c)).
Qed.

Lemma reachable_named o n random s :
  is_u64 random -> reachable hmac_sha256 o n random s -> named ∅ ∅ s.
Proof.
  intros Hr. induction 1 as [|s ev s' Hreach IH He E]; [apply initial_named|].
  eapply step_named; [by eapply reachable_ok|done|done|exact E].
Qed.

(** C3. In every state the server reaches, two connections never accept under the
    same name, and looking a name up finds the connection that accepts under it,
    and nothing when there is none. *)
Theorem names_are_unique o n random s :
  is_u64 random -> reachable hmac_sha256 o n random s ->
  (forall w1 c1 w2 c2, objects s !! w1 = Some c1 -> objects s !! w2 = Some c2 ->
     claimed_username c1 = claimed_username c2 -> claimed_username c1 <> [] -> w1 = w2) /\
  (forall u w, u <> [] ->
     lookup_claim (objects s) u (sessions_ s) = Some w <->
     exists c, objects s !! w = Some c /\ claimed_username c = u).
Proof.
  intros Hr Hreach. pose proof (reachable_named o n random s Hr Hreach) as N. split.
  - intros w1 c1 w2 c2 H1 H2 E Hne.
    pose proof (nm_claimed _ _ _ N _ _ H1 (not_elem_of_empty _) Hne) as E1.
    rewrite E in E1, Hne. pose proof (nm_claimed _ _ _ N _ _ H2 (not_elem_of_empty _) Hne). congruence.
  - intros u w Hu. unfold lookup_claim, expired. split.
    + destruct (claims_ (sessions_ s) !! u) as [w0|] eqn:E; [|done].
      destruct (objects s !! w0) as [c|] eqn:Hc; [|done]. intros [= <-]. exists c. split; [done|].
      by eapply (nm_holder _ _ _ N).
    + intros (c & Hc & <-). rewrite (nm_claimed _ _ _ N _ _ Hc (not_elem_of_empty _) Hu), Hc. done.
Qed.
End WithHmac.

(** * The theorem at work *)

Lemma sample_connected_reachable : reachable sample_hmac default_options 1 77 sample_connected.
Proof.
  eapply reach_step; [apply reach_initial|apply sample_accept_ok|]. unfold sample_connected.
  assert ((step sample_hmac sample_accept sample_initial).1 = Ok tt) as E by (vm_compute; reflexivity).
  change (initial default_options 1 77) with sample_initial.
  destruct (step sample_hmac sample_accept sample_initial) as [r s']. cbn in E. by rewrite E.
Qed.

Definition sample_serving : Server := (step sample_hmac sample_ready sample_connected).2.

Lemma sample_serving_reachable : reachable sample_hmac default_options 1 77 sample_serving.
Proof.
  eapply reach_step; [apply sample_connected_reachable| |].
  { instantiate (1 := sample_ready). vm_compute. split; [discriminate|reflexivity]. }
  unfold sample_serving.
  assert ((step sample_hmac sample_ready sample_connected).1 = Ok tt) as E by (vm_compute; reflexivity).
  destruct (step sample_hmac sample_ready sample_connected) as [r s']. cbn in E. by rewrite E.
Qed.

Lemma names_are_unique_witness :
  lookup_claim (objects sample_serving) (str "ann") (sessions_ sample_serving) = Some 1 /\
  exists c, objects sample_serving !! 1 = Some c /\ claimed_username c = str "ann".
Proof.
  assert (str "ann" <> []) as Hne by done. assert (is_u64 77) as Hr by done.
  assert (lookup_claim (objects sample_serving) (str "ann") (sessions_ sample_serving) = Some 1) as E
    by (vm_compute; reflexivity).
  split; [exact E|].
  exact (proj1 (proj2 (names_are_unique sample_hmac sample_hmac_len default_options 1 77 sample_serving Hr
    sample_serving_reachable) (str "ann") 1 Hne) E).
Defined.
