(* ===== verification/Pipeline.v ===== *)
(** The buffers and the ordered emitter between the sender's workers and its writer,
    [client/src/pipeline.cpp].

    Every operation of the emitter runs under its mutex and is one function; a call
    whose wait condition does not hold is [None], so an execution of the threads is a
    sequence of calls that do not wait, and [pipeline_step] is one such call. *)

From S2P Require Import Prelude.

(** * BufferPool *)

(** A [std::vector] with its capacity. *)
Record vec := mk_vec { contents : bytes; capacity : Z }.

(** [resize]: old elements stay, new ones are zero, the capacity only grows. *)
Definition resize (n : Z) (v : vec) : vec :=
  mk_vec (ztake n (contents v ++ replicate (Z.to_nat n) 0)) (Z.max (capacity v) n).

Record BufferPool := mk_BufferPool { buffer_size_ : Z; free_ : list vec }.

Definition acquire (p : BufferPool) : vec * BufferPool :=
  match last (free_ p) with
  | Some v => (resize (buffer_size_ p) v, mk_BufferPool (buffer_size_ p) (take (length (free_ p) - 1) (free_ p)))
  | None => (resize (buffer_size_ p) (mk_vec [] 0), p)
  end.

Definition release (v : vec) (p : BufferPool) : BufferPool :=
  if capacity v <? buffer_size_ p then p
  else if len (free_ p) <? 64 then mk_BufferPool (buffer_size_ p) (free_ p ++ [v])
  else p.

Definition pool_ok (p : BufferPool) : Prop :=
  0 <= buffer_size_ p /\ len (free_ p) <= 64 /\
  Forall (fun v => buffer_size_ p <= capacity v) (free_ p).

Lemma resize_len n v : 0 <= n -> len (contents (resize n v)) = n.
Proof.
  intros Hn. unfold resize. cbn. rewrite len_ztake_min by done. rewrite len_app.
  unfold len at 2. rewrite length_replicate. pose proof (len_nonneg (contents v)). lia.
Qed.

Lemma acquire_ok p :
  pool_ok p -> len (contents (acquire p).1) = buffer_size_ p /\
    buffer_size_ p <= capacity (acquire p).1 /\ pool_ok (acquire p).2.
Proof.
  intros (Hs & Hl & Hf). unfold acquire. destruct (last (free_ p)) as [v|] eqn:E; cbn [fst snd].
  - rewrite resize_len by done. split_and!; [done|cbn; lia|]. split_and!; cbn; [done| |].
    + unfold len in *. rewrite length_take. lia.
    + by apply Forall_take.
  - rewrite resize_len by done. split_and!; [done|cbn; lia|done..].
Qed.

Lemma pool_release_ok v p : pool_ok p -> pool_ok (release v p).
Proof.
  intros (Hs & Hl & Hf). unfold release. destruct (Z.ltb_spec (capacity v) (buffer_size_ p)); [done|].
  destruct (Z.ltb_spec (len (free_ p)) 64); [|done]. split_and!; cbn; [done| |].
  - rewrite len_app. unfold len at 2. cbn. lia.
  - apply Forall_app. split; [done|]. by constructor.
Qed.

(** * OrderedEmitter *)

Record Slot := mk_Slot { slot_data : bytes; ready : bool }.

Record OrderedEmitter := mk_OrderedEmitter {
  slots_ : list Slot;
  next_to_consume_ : Z;
  total_ : Z;
  total_known_ : bool;
  error_ : option exn;
}.

Definition new_emitter (capacity : Z) : OrderedEmitter :=
  mk_OrderedEmitter (replicate (Z.to_nat (if capacity =? 0 then 1 else capacity)) (mk_Slot [] false))
    0 0 false None.

Definition slot_of (e : OrderedEmitter) (index : Z) : nat := Z.to_nat (index mod len (slots_ e)).

(** [None] is a call still waiting for a free slot. *)
Definition publish (index : Z) (data : bytes) (e : OrderedEmitter) : option (bool * OrderedEmitter) :=
  if bool_decide (is_Some (error_ e)) || (index <? u64 (next_to_consume_ e + len (slots_ e))) then
    match error_ e with
    | Some _ => Some (false, e)
    | None =>
        Some (true, mk_OrderedEmitter (<[slot_of e index := mk_Slot data true]> (slots_ e))
                      (next_to_consume_ e) (total_ e) (total_known_ e) (error_ e))
    end
  else None.

(** [None] is a call still waiting; [Ok None] is the end of the stream. *)
Definition consume (e : OrderedEmitter) : option (result (option bytes) * OrderedEmitter) :=
  let finished := total_known_ e && (total_ e <=? next_to_consume_ e) in
  match slots_ e !! slot_of e (next_to_consume_ e) with
  | None => Some (Err OutOfBounds, e)
  | Some slot =>
      if bool_decide (is_Some (error_ e)) || finished || ready slot then
        match error_ e with
        | Some err => Some (Err err, e)
        | None =>
            if finished then Some (Ok None, e)
            else Some (Ok (Some (slot_data slot)),
                   mk_OrderedEmitter
                     (<[slot_of e (next_to_consume_ e) := mk_Slot [] false]> (slots_ e))
                     (u64 (next_to_consume_ e + 1)) (total_ e) (total_known_ e) (error_ e))
        end
      else None
  end.

Definition set_total (total : Z) (e : OrderedEmitter) : OrderedEmitter :=
  mk_OrderedEmitter (slots_ e) (next_to_consume_ e) total true (error_ e).

Definition abort (err : exn) (e : OrderedEmitter) : OrderedEmitter :=
  mk_OrderedEmitter (slots_ e) (next_to_consume_ e) (total_ e) (total_known_ e)
    (match error_ e with None => Some err | Some x => Some x end).

(** * The pipeline *)

Section Pipeline.
(** [n] chunks; [chunk i] is what the worker makes of chunk [i]. *)
Context (n : Z) (chunk : Z -> bytes).

(** The emitter, the chunks published so far and what the writer has taken. *)
Record pipeline := mk_pipeline { emit : OrderedEmitter; published : gset Z; taken : list bytes }.

Inductive pipeline_step : pipeline -> pipeline -> Prop :=
  | step_publish i e P out e' :
      0 <= i < n -> i ∉ P -> publish i (chunk i) e = Some (true, e') ->
      pipeline_step (mk_pipeline e P out) (mk_pipeline e' ({[i]} ∪ P) out)
  | step_consume e P out b e' :
      consume e = Some (Ok (Some b), e') ->
      pipeline_step (mk_pipeline e P out) (mk_pipeline e' P (out ++ [b]))
  | step_total e P out :
      (forall i, 0 <= i < n -> i ∈ P) ->
      pipeline_step (mk_pipeline e P out) (mk_pipeline (set_total n e) P out).

Inductive pipeline_run (cap : Z) : pipeline -> Prop :=
  | run_start : pipeline_run cap (mk_pipeline (new_emitter cap) ∅ [])
  | run_step p p' : pipeline_run cap p -> pipeline_step p p' -> pipeline_run cap p'.

(** What holds at every moment: the writer has the first [k] chunks, and the slots
    hold exactly the published chunks of the window that starts there. *)
Record pipeline_ok (p : pipeline) : Prop := {
  po_next : next_to_consume_ (emit p) = len (taken p);
  po_taken : taken p = chunk <$> seqZ 0 (len (taken p));
  po_le : len (taken p) <= n;
  po_error : error_ (emit p) = None;
  po_published : forall i, 0 <= i < len (taken p) -> i ∈ published p;
  po_range : forall i, i ∈ published p -> 0 <= i < n /\ i < len (taken p) + len (slots_ (emit p));
  po_slots : forall i, len (taken p) <= i < len (taken p) + len (slots_ (emit p)) ->
    exists b, slots_ (emit p) !! slot_of (emit p) i = Some (mk_Slot b (bool_decide (i ∈ published p))) /\
      (i ∈ published p -> b = chunk i);
  po_total : total_known_ (emit p) = true -> total_ (emit p) = n;
  po_done : total_known_ (emit p) = true -> forall i, 0 <= i < n -> i ∈ published p;
  po_cap : 0 < len (slots_ (emit p)) /\ n + len (slots_ (emit p)) < 2 ^ 64;
}.

Lemma slot_inj L a i j : 0 < L -> a <= i < a + L -> a <= j < a + L -> i mod L = j mod L -> i = j.
Proof.
  intros HL Hi Hj E. pose proof (Z.div_mod i L ltac:(lia)). pose proof (Z.div_mod j L ltac:(lia)).
  assert (i / L = j / L) by nia. nia.
Qed.

Lemma slot_of_ne e a i j :
  0 < len (slots_ e) -> a <= i < a + len (slots_ e) -> a <= j < a + len (slots_ e) -> i <> j ->
  slot_of e i <> slot_of e j.
Proof.
  intros HL Hi Hj Hne E. apply Hne, (slot_inj (len (slots_ e)) a); [done..|].
  unfold slot_of in E. pose proof (Z.mod_pos_bound i (len (slots_ e)) ltac:(lia)).
  pose proof (Z.mod_pos_bound j (len (slots_ e)) ltac:(lia)). lia.
Qed.

Lemma slot_of_lt e i : 0 < len (slots_ e) -> (slot_of e i < length (slots_ e))%nat.
Proof.
  intros HL. unfold slot_of. pose proof (Z.mod_pos_bound i (len (slots_ e)) ltac:(lia)).
  unfold len in *. lia.
Qed.

Lemma len_insert {A} k (x : A) l : len (<[k := x]> l) = len l.
Proof. unfold len. by rewrite length_insert. Qed.

(** Slots after one of them is overwritten. *)
Lemma slot_after e a i j x e' :
  slots_ e' = <[slot_of e i := x]> (slots_ e) -> 0 < len (slots_ e) ->
  a <= i < a + len (slots_ e) -> a <= j < a + len (slots_ e) ->
  slots_ e' !! slot_of e' j = if decide (i = j) then Some x else slots_ e !! slot_of e j.
Proof.
  intros E HL Hi Hj. assert (slot_of e' j = slot_of e j) as -> by (unfold slot_of; by rewrite E, len_insert).
  rewrite E. destruct (decide (i = j)) as [->|Hne].
  - apply list_lookup_insert_eq. by apply slot_of_lt.
  - apply list_lookup_insert_ne. by eapply slot_of_ne.
Qed.

Lemma new_emitter_ok cap :
  0 <= n -> 0 <= cap -> n + cap + 1 < 2 ^ 64 ->
  pipeline_ok (mk_pipeline (new_emitter cap) ∅ []).
Proof.
  intros Hn Hc Hb.
  assert (0 < len (slots_ (new_emitter cap)) <= cap + 1) as HL.
  { cbn. unfold len. rewrite length_replicate. destruct (Z.eqb_spec cap 0); lia. }
  split; try done; cbn [emit published taken]; rewrite ?len_nil in *.
  - intros i Hi. change (len []) with 0 in Hi. lia.
  - intros i Hi. exists []. split; [|set_solver]. rewrite bool_decide_eq_false_2 by set_solver.
    apply lookup_replicate. split; [done|].
    pose proof (slot_of_lt (new_emitter cap) i ltac:(lia)) as H. cbn in H. by rewrite length_replicate in H.
  - split; [lia|]. lia.
Qed.

Lemma publish_keeps_ok i e P out e' :
  pipeline_ok (mk_pipeline e P out) -> 0 <= i < n -> i ∉ P ->
  publish i (chunk i) e = Some (true, e') -> pipeline_ok (mk_pipeline e' ({[i]} ∪ P) out).
Proof.
  intros Hp Hi HiP E. pose proof (po_cap _ Hp) as [HL Hb]. pose proof (po_le _ Hp) as Hle.
  pose proof (len_nonneg out). pose proof (po_next _ Hp) as Hnx. pose proof (po_error _ Hp) as He.
  cbn [emit published taken] in *. unfold publish in E. rewrite He in E. cbn [orb] in E.
  rewrite bool_decide_eq_false_2 in E by (by intros [? ?]).
  rewrite Hnx, u64_small in E by (unfold is_u; lia).
  destruct (Z.ltb_spec i (len out + len (slots_ e))) as [Hw|]; [|done]. injection E as <-.
  set (e' := mk_OrderedEmitter _ _ _ _ _).
  assert (len out <= i) as Hlo.
  { destruct (Z.le_gt_cases (len out) i); [done|]. exfalso. apply HiP.
    apply (po_published _ Hp). cbn. lia. }
  split; cbn [emit published taken]; try apply Hp; try done.
  - intros j Hj. apply elem_of_union_r. by apply (po_published _ Hp).
  - intros j [->%elem_of_singleton|Hj]%elem_of_union; cbn; rewrite len_insert; [lia|].
    by apply (po_range _ Hp) in Hj.
  - intros j Hj. cbn in Hj. rewrite len_insert in Hj.
    rewrite (slot_after e (len out) i j (mk_Slot (chunk i) true) e') by (done || lia).
    destruct (decide (i = j)) as [->|Hne].
    + exists (chunk j). rewrite bool_decide_eq_true_2 by set_solver. done.
    + destruct (po_slots _ Hp j ltac:(cbn; lia)) as (b & Hs & Hb'). cbn in Hs, Hb'. exists b.
      rewrite Hs. split; [f_equal; f_equal; apply bool_decide_ext; set_solver|]. set_solver.
  - intros Hk. pose proof (po_done _ Hp Hk). cbn in *. set_solver.
  - cbn. rewrite len_insert. done.
Qed.

(** A call of [consume] that returns a chunk. *)
Lemma consume_inv e P out b e' :
  pipeline_ok (mk_pipeline e P out) -> consume e = Some (Ok (Some b), e') ->
  len out ∈ P /\ b = chunk (len out) /\
  e' = mk_OrderedEmitter (<[slot_of e (len out) := mk_Slot [] false]> (slots_ e)) (len out + 1)
         (total_ e) (total_known_ e) None.
Proof.
  intros Hp E. pose proof (po_cap _ Hp) as [HL Hb]. pose proof (po_le _ Hp) as Hle.
  pose proof (len_nonneg out). pose proof (po_next _ Hp) as Hnx. pose proof (po_error _ Hp) as He.
  cbn [emit published taken] in *.
  destruct (po_slots _ Hp (len out) ltac:(cbn; lia)) as (b0 & Hs & Hb0). cbn in Hs, Hb0.
  unfold consume in E. rewrite Hnx, Hs, He in E. rewrite bool_decide_eq_false_2 in E by (by intros [? ?]).
  destruct (total_known_ e && (total_ e <=? len out)) eqn:Efin; [done|]. cbn [orb slot_data ready] in E.
  destruct (bool_decide (len out ∈ P)) eqn:Ein; [|done]. apply bool_decide_eq_true in Ein.
  injection E as <- <-. split_and!; [done|auto|]. rewrite u64_small by (unfold is_u; lia). done.
Qed.

Lemma consume_keeps_ok e P out b e' :
  pipeline_ok (mk_pipeline e P out) -> consume e = Some (Ok (Some b), e') ->
  pipeline_ok (mk_pipeline e' P (out ++ [b])).
Proof.
  intros Hp (Ein & -> & E)%(consume_inv _ P out); [|done]. pose proof (po_cap _ Hp) as [HL Hb].
  pose proof (len_nonneg out). pose proof (po_range _ Hp _ Ein) as [Hr _].
  cbn [emit published taken] in *.
  assert (len (out ++ [chunk (len out)]) = len out + 1) as Hlen by (rewrite len_app; done).
  assert (slots_ e' = <[slot_of e (len out) := mk_Slot [] false]> (slots_ e)) as Hsl by (by subst e').
  assert (len (slots_ e') = len (slots_ e)) as Hl by (by rewrite Hsl, len_insert).
  split; cbn [emit published taken]; rewrite ?Hlen, ?Hl; try (subst e'; apply Hp || done).
  - pose proof (po_taken _ Hp) as Ht. cbn in Ht. rewrite seqZ_app, fmap_app, <- Ht by lia.
    cbn. by rewrite Z.add_0_l.
  - lia.
  - intros j Hj. destruct (decide (j = len out)) as [->|]; [done|]. apply (po_published _ Hp). cbn. lia.
  - intros j Hj. apply (po_range _ Hp) in Hj. cbn in Hj. lia.
  - intros j Hj. destruct (decide (j = len out + len (slots_ e))) as [->|Hne].
    + exists []. assert (len out + len (slots_ e) ∉ P) as Hnot.
      { intros Hin%(po_range _ Hp). cbn in Hin. lia. }
      rewrite bool_decide_eq_false_2 by done. split; [|done].
      assert (slot_of e' (len out + len (slots_ e)) = slot_of e (len out)) as ->.
      { unfold slot_of. rewrite Hl. f_equal.
        rewrite <- (Z.mul_1_l (len (slots_ e))) at 1. apply Z.mod_add. lia. }
      rewrite Hsl. apply list_lookup_insert_eq. by apply slot_of_lt.
    + rewrite (slot_after e (len out) (len out) j (mk_Slot [] false) e') by (done || lia).
      rewrite decide_False by lia. apply (po_slots _ Hp). cbn. lia.
Qed.

Lemma pipeline_step_ok p p' : pipeline_ok p -> pipeline_step p p' -> pipeline_ok p'.
Proof.
  intros Hp H. destruct H as [i e P out e' Hi HiP E|e P out b e' E|e P out Hall].
  - by eapply publish_keeps_ok.
  - by eapply consume_keeps_ok.
  - destruct Hp. by split.
Qed.

Lemma pipeline_run_ok cap p :
  0 <= n -> 0 <= cap -> n + cap + 1 < 2 ^ 64 -> pipeline_run cap p -> pipeline_ok p.
Proof.
  intros Hn Hc Hb. induction 1; [by apply new_emitter_ok|by eapply pipeline_step_ok].
Qed.

Lemma pipeline_progress p :
  pipeline_ok p -> len (taken p) < n ->
  (exists b e', consume (emit p) = Some (Ok (Some b), e')) \/
  ((len (taken p) ∉ published p) /\
   exists e', publish (len (taken p)) (chunk (len (taken p))) (emit p) = Some (true, e')).
Proof.
  intros Hp Hlt. pose proof (po_cap _ Hp) as [HL Hb]. pose proof (len_nonneg (taken p)).
  destruct (po_slots _ Hp (len (taken p)) ltac:(lia)) as (b & Hs & Hbd).
  destruct (bool_decide (len (taken p) ∈ published p)) eqn:Ein.
  - left. unfold consume. rewrite (po_next _ Hp), Hs, (po_error _ Hp).
    rewrite bool_decide_eq_false_2 by (by intros [? ?]).
    assert (total_known_ (emit p) && (total_ (emit p) <=? len (taken p)) = false) as ->; [|eauto].
    destruct (total_known_ (emit p)) eqn:Ek; [|done]. rewrite (po_total _ Hp Ek). cbn.
    apply Z.leb_gt. lia.
  - right. apply bool_decide_eq_false in Ein. split; [done|]. unfold publish.
    rewrite (po_next _ Hp), (po_error _ Hp), u64_small by (unfold is_u; lia).
    rewrite bool_decide_eq_false_2 by (by intros [? ?]). cbn [orb].
    destruct (Z.ltb_spec (len (taken p)) (len (taken p) + len (slots_ (emit p)))); [eauto|lia].
Qed.
End Pipeline.

(** C19. Whatever order the workers finish in, the writer takes the chunks in their
    order in the file: in every state of the pipeline it has exactly the first [k]
    chunks. The pipeline cannot deadlock: while chunks are missing, either the writer
    can take the next one or the worker that holds it can publish without waiting;
    and once the total is known the writer stops only with all of them. *)
Theorem emitter_in_order n chunk cap p :
  0 <= n -> 0 <= cap -> n + cap + 1 < 2 ^ 64 -> pipeline_run n chunk cap p ->
  taken p = chunk <$> seqZ 0 (len (taken p)) /\ len (taken p) <= n /\
  (len (taken p) < n ->
     (exists b e', consume (emit p) = Some (Ok (Some b), e')) \/
     ((len (taken p) ∉ published p) /\
      exists e', publish (len (taken p)) (chunk (len (taken p))) (emit p) = Some (true, e'))) /\
  (forall e', consume (emit p) = Some (Ok None, e') -> taken p = chunk <$> seqZ 0 n).
Proof.
  intros Hn Hc Hb Hr. pose proof (pipeline_run_ok n chunk cap p Hn Hc Hb Hr) as Hp.
  split_and!; [apply (po_taken _ _ _ Hp)|apply (po_le _ _ _ Hp)|by apply (pipeline_progress n chunk)|].
  intros e' E. assert (len (taken p) = n) as Hl; [|rewrite <- Hl; apply (po_taken _ _ _ Hp)].
  pose proof (po_le _ _ _ Hp). destruct (po_cap _ _ _ Hp) as [HL _].
  destruct (po_slots _ _ _ Hp (len (taken p)) ltac:(lia)) as (b & Hs & _).
  unfold consume in E. rewrite (po_next _ _ _ Hp), Hs, (po_error _ _ _ Hp) in E.
  destruct (total_known_ (emit p)) eqn:Ek; cbn [andb] in E.
  - rewrite (po_total _ _ _ Hp Ek) in E. destruct (Z.leb_spec n (len (taken p))); [lia|].
    by destruct (_ || _).
  - by destruct (_ || _).
Qed.

(** Two chunks, finished in the wrong order by the workers. *)
Lemma emitter_in_order_witness :
  let chunk i := [i] in
  let e := (default (false, new_emitter 4) (publish 1 [1] (new_emitter 4))).2 in
  let p := mk_pipeline e ({[1]} ∪ ∅) [] in
  pipeline_run 2 chunk 4 p /\
  exists e', publish 0 [0] (emit p) = Some (true, e').
Proof.
  intros chunk e p. assert (pipeline_run 2 chunk 4 p) as Hrun.
  { eapply run_step; [apply run_start|]. apply step_publish; [lia|set_solver|by vm_compute]. }
  split; [exact Hrun|].
  destruct (emitter_in_order 2 chunk 4 p ltac:(lia) ltac:(lia) ltac:(lia) Hrun) as (_ & _ & H & _).
  destruct (H ltac:(by vm_compute)) as [(b & e' & E)|[_ E]]; [vm_compute in E; discriminate E|exact E].
Defined.
