(* ===== verification/Channel.v ===== *)
(** The channel of the data plane: the interface of [client/include/dz/client/channel.hpp],
    the framing of [client/src/channel.cpp] over it, and two transports that implement it,
    [TcpChannel] of [client/src/transport_tcp.cpp] and [RelayChannel] of
    [client/src/transport_relay.cpp].

    [Channel] has the virtual methods. [ChannelSpec] is what a transport promises to the
    code above it, in three relations on its state: [ch_sent c b] says [b] is what the
    application has written so far, [ch_delivers c b] that the peer's next bytes are [b],
    and [ch_room c n] that the network will take [n] more bytes. *)

From S2P Require Import Prelude Socket Frame Protocol Messages.

(** [ch_can_splice] is [sendfile_fd() >= 0 && sendfile_supported()], and
    [ch_sendfile data n] is [sendfile_all] of [n] bytes on that descriptor, where [data]
    is what the file holds of them. *)
Class Channel (C : Type) := {
  ch_kind : C -> TransportKind;
  ch_read_exactly : Z -> M C bytes;
  ch_write_bytes : bytes -> M C unit;
  ch_write_pair : bytes -> bytes -> M C unit;
  ch_flush : M C unit;
  ch_can_splice : C -> bool;
  ch_sendfile : bytes -> Z -> M C unit;
}.

(** The default [write_pair]. *)
Definition default_write_pair {C} (wr : bytes -> M C unit) (first second : bytes) : M C unit :=
  do* wr first in
  if 0 <? len second then wr second else mret tt.

Definition channel_write_frame {C} `{Channel C} (t : MessageType) (data : bytes) (fl : Z) : M C unit :=
  if kMaxFrameLength <? len data then fail (str "refusing to send an oversized frame")
  else ch_write_pair (encode_frame_header (out_header t fl (len data))) data.

Definition channel_write_empty {C} `{Channel C} (t : MessageType) : M C unit :=
  channel_write_frame t [] 0.

Definition channel_read_frame {C} `{Channel C} : M C Frame :=
  let* header_bytes := ch_read_exactly kFrameHeaderSize in
  let* h := mlift (decode_frame_header header_bytes) in
  let* body := (if 0 <? length_ h then ch_read_exactly (length_ h) else mret []) in
  mret (mk_frame h body).

Definition channel_read_expected {C} `{Channel C} (expected : MessageType) : M C Frame :=
  let* f := channel_read_frame in
  let t := type (header f) in
  if bool_decide (t = expected) then mret f
  else if bool_decide (t = AbortT) then
    let reason := if len (payload f) =? 0 then str "no reason given" else payload f in
    fail_user (str "the other side stopped the transfer: " ++ reason)
  else fail (str "expected a " ++ message_type_name expected ++
             str " frame but the peer sent a " ++ message_type_name t).

(** * The contract *)

(** The same transport before and after a call. *)
Definition same_transport {C} `{Channel C} (c c' : C) : Prop :=
  ch_kind c' = ch_kind c /\ ch_can_splice c' = ch_can_splice c.

Section Effects.
Context {C : Type} (delivers : C -> bytes -> Prop) (sent : C -> bytes -> Prop) (room : C -> Z -> Prop).

(** [d] has been written. *)
Definition wrote_ (d : bytes) (c c' : C) : Prop :=
  (forall b, delivers c b -> delivers c' b) /\
  (forall b, sent c b -> sent c' (b ++ d)) /\
  (forall n, 0 <= n -> room c (len d + n) -> room c' n).

(** [b] has been read. *)
Definition took_ (b : bytes) (c c' : C) : Prop :=
  (forall b', delivers c (b ++ b') -> delivers c' b') /\
  (forall x, sent c x -> sent c' x) /\
  (forall n, room c n -> room c' n).
End Effects.

(** The state a hostile peer cannot break: the transport stays of its kind, reads
    return as many bytes as were asked for, and no call leaves its buffers. *)
Definition any_outcome {C} `{Channel C} (inv : C -> Prop) {A} (P : A -> Prop) (c : C)
    (o : result A * C) : Prop :=
  inv o.2 /\ same_transport c o.2 /\
  match o.1 with Ok a => P a | Err e => e <> OutOfBounds end.

Class ChannelSpec (C : Type) `{Channel C} := {
  ch_inv : C -> Prop;
  ch_sent : C -> bytes -> Prop;
  ch_delivers : C -> bytes -> Prop;
  ch_room : C -> Z -> Prop;
  ch_delivers_prefix : forall c b b', ch_delivers c (b ++ b') -> ch_delivers c b;
  ch_room_le : forall c n m, ch_room c n -> m <= n -> ch_room c m;
  ch_read_total : forall c b, ch_delivers c b ->
    exists c', ch_read_exactly (len b) c = (Ok b, c') /\
      took_ ch_delivers ch_sent ch_room b c c' /\ same_transport c c';
  ch_write_total : forall c d, ch_room c (len d) ->
    exists c', ch_write_bytes d c = (Ok tt, c') /\
      wrote_ ch_delivers ch_sent ch_room d c c' /\ same_transport c c';
  ch_pair_total : forall c d1 d2, ch_room c (len d1 + len d2) ->
    exists c', ch_write_pair d1 d2 c = (Ok tt, c') /\
      wrote_ ch_delivers ch_sent ch_room (d1 ++ d2) c c' /\ same_transport c c';
  ch_flush_total : forall c,
    exists c', ch_flush c = (Ok tt, c') /\
      wrote_ ch_delivers ch_sent ch_room [] c c' /\ same_transport c c';
  ch_sendfile_total : forall c d, ch_can_splice c = true -> ch_room c (len d) ->
    exists c', ch_sendfile d (len d) c = (Ok tt, c') /\
      wrote_ ch_delivers ch_sent ch_room d c c' /\ same_transport c c';
  ch_read_any : forall c n, ch_inv c -> 0 <= n ->
    any_outcome ch_inv (fun b => len b = n /\ bytes_ok b) c (ch_read_exactly n c);
  ch_pair_any : forall c d1 d2, ch_inv c ->
    any_outcome ch_inv (fun _ => True) c (ch_write_pair d1 d2 c);
  ch_flush_any : forall c, ch_inv c -> any_outcome ch_inv (fun _ => True) c (ch_flush c);
}.

Abbreviation wrote := (wrote_ ch_delivers ch_sent ch_room).
Abbreviation took := (took_ ch_delivers ch_sent ch_room).

Section Composition.
Context {C : Type} (delivers : C -> bytes -> Prop) (sent : C -> bytes -> Prop) (room : C -> Z -> Prop).

Lemma wrote_trans d1 d2 c1 c2 c3 :
  wrote_ delivers sent room d1 c1 c2 -> wrote_ delivers sent room d2 c2 c3 ->
  wrote_ delivers sent room (d1 ++ d2) c1 c3.
Proof.
  intros (D1 & S1 & R1) (D2 & S2 & R2). split_and!; [auto| |].
  - intros b Hb. rewrite app_assoc. auto.
  - intros n Hn Hr. apply R2; [done|]. apply R1; [pose proof (len_nonneg d2); lia|].
    rewrite len_app in Hr. by rewrite Z.add_assoc.
Qed.

Lemma wrote_nil c : wrote_ delivers sent room [] c c.
Proof. split_and!; [done| |]; intros; rewrite ?app_nil_r; done. Qed.

Lemma took_trans b1 b2 c1 c2 c3 :
  took_ delivers sent room b1 c1 c2 -> took_ delivers sent room b2 c2 c3 ->
  took_ delivers sent room (b1 ++ b2) c1 c3.
Proof.
  intros (D1 & S1 & R1) (D2 & S2 & R2). split_and!; [|auto|auto].
  intros b' Hb. rewrite <- app_assoc in Hb. auto.
Qed.
End Composition.

Lemma same_transport_refl {C} `{Channel C} (c : C) : same_transport c c.
Proof. done. Qed.

Lemma same_transport_trans {C} `{Channel C} (c1 c2 c3 : C) :
  same_transport c1 c2 -> same_transport c2 c3 -> same_transport c1 c3.
Proof. unfold same_transport. intuition congruence. Qed.

Section Any.
Context {C : Type} `{Channel C} (inv : C -> Prop).

Lemma any_trans {A} (P : A -> Prop) c1 c2 o :
  same_transport c1 c2 -> any_outcome inv P c2 o -> any_outcome inv P c1 o.
Proof. intros H1 (? & ? & ?). split_and!; [done| |done]. by eapply same_transport_trans. Qed.

Lemma any_bind {A B} (P : A -> Prop) (Q : B -> Prop) (m : M C A) (k : A -> M C B) c :
  any_outcome inv P c (m c) ->
  (forall a c', P a -> inv c' -> same_transport c c' -> any_outcome inv Q c' (k a c')) ->
  any_outcome inv Q c (mbind m k c).
Proof.
  unfold mbind. destruct (m c) as [[a|e] c']; intros (Hi & Hs & Hp) Hk; [|done].
  eapply any_trans; [exact Hs|]. by apply Hk.
Qed.
End Any.

(** * Frames over any channel *)

Section Framing.
Context {C : Type} `{ChannelSpec C}.

Lemma channel_write_frame_total t data fl c :
  len data <= kMaxFrameLength -> ch_room c (kFrameHeaderSize + len data) ->
  exists c', channel_write_frame t data fl c = (Ok tt, c') /\
    wrote (frame_bytes t fl data) c c' /\ same_transport c c'.
Proof.
  intros Hl Hr. unfold channel_write_frame.
  destruct (Z.ltb_spec kMaxFrameLength (len data)); [lia|]. apply ch_pair_total.
  by rewrite encode_frame_header_len.
Qed.

Lemma channel_read_frame_total t fl data c rest :
  type_ok t -> is_u16 fl -> len data <= kMaxFrameLength ->
  ch_delivers c (frame_bytes t fl data ++ rest) ->
  exists c', channel_read_frame c = (Ok (mk_frame (out_header t fl (len data)) data), c') /\
    took (frame_bytes t fl data) c c' /\ same_transport c c'.
Proof.
  intros Ht Hf Hd Hs. apply ch_delivers_prefix in Hs. unfold frame_bytes in Hs |- *.
  destruct (ch_read_total c _ (ch_delivers_prefix _ _ _ Hs)) as (c1 & E1 & T1 & K1).
  rewrite encode_frame_header_len in E1.
  assert (u32 (len data) = len data) as Hu.
  { apply u32_small. pose proof (len_nonneg data). unfold is_u, kMaxFrameLength in *. lia. }
  unfold channel_read_frame. erewrite mbind_ok by exact E1.
  pose proof (decode_encode_header (out_header t fl (len data)) []) as Hdec.
  rewrite app_nil_r in Hdec. unfold mlift, mbind at 1. rewrite Hdec.
  2: { split_and!; [done|done|done| |]; simpl; rewrite Hu; [apply len_nonneg|done]. }
  simpl length_. rewrite Hu. apply T1 in Hs. destruct (Z.ltb_spec 0 (len data)) as [Hpos|Hz].
  - destruct (ch_read_total c1 _ Hs) as (c2 & E2 & T2 & K2).
    unfold mbind. rewrite E2. eexists. split; [done|].
    split; [by eapply took_trans|by eapply same_transport_trans].
  - assert (data = []) as -> by (apply len_zero_nil; pose proof (len_nonneg data); lia).
    eexists. split; [done|]. by rewrite app_nil_r.
Qed.

Lemma channel_read_expected_total t fl data c rest :
  type_ok t -> is_u16 fl -> len data <= kMaxFrameLength ->
  ch_delivers c (frame_bytes t fl data ++ rest) ->
  exists c', channel_read_expected t c = (Ok (mk_frame (out_header t fl (len data)) data), c') /\
    took (frame_bytes t fl data) c c' /\ same_transport c c'.
Proof.
  intros Ht Hf Hd Hs. destruct (channel_read_frame_total t fl data c rest Ht Hf Hd Hs) as (c' & E & Hr).
  exists c'. split; [|done]. unfold channel_read_expected. erewrite mbind_ok by exact E. cbn.
  by rewrite bool_decide_eq_true_2.
Qed.

Lemma channel_write_frame_any t data fl c :
  ch_inv c -> any_outcome ch_inv (fun _ => True) c (channel_write_frame t data fl c).
Proof.
  intros Hc. unfold channel_write_frame. destruct (_ <? _); [done|]. by apply ch_pair_any.
Qed.

Lemma channel_read_frame_any c :
  ch_inv c ->
  any_outcome ch_inv (fun f => bytes_ok (payload f) /\ len (payload f) = length_ (header f) /\
    len (payload f) <= kMaxFrameLength) c (channel_read_frame c).
Proof.
  intros Hc. eapply any_bind; [by apply ch_read_any|]. intros b c' [Hl Hb] Hc' _.
  pose proof (decode_frame_header_total b Hl Hb) as Hd. unfold mlift, mbind at 1.
  destruct (decode_frame_header b) as [h|e]; [|split_and!; try done; by destruct e].
  eapply (any_bind _ (fun b => len b = length_ h /\ bytes_ok b)).
  - destruct (Z.ltb_spec 0 (length_ h)); [apply ch_read_any; [done|lia]|].
    split_and!; try done; cbn. rewrite len_nil. split; [lia|constructor].
  - intros p c2 [Hp Hpb] Hc2 _. split_and!; try done. cbn. split_and!; [done|done|lia].
Qed.

Lemma channel_read_expected_any t c :
  ch_inv c ->
  any_outcome ch_inv (fun f => bytes_ok (payload f) /\ len (payload f) = length_ (header f) /\
    len (payload f) <= kMaxFrameLength /\ type (header f) = t) c (channel_read_expected t c).
Proof.
  intros Hc. eapply any_bind; [by apply channel_read_frame_any|]. intros f c' (? & ? & ?) Hc' _.
  cbv zeta. case_bool_decide; [split_and!; done|]. case_bool_decide; by split_and!.
Qed.
End Framing.

(** * TcpChannel *)

(** The Linux loop of [sendfile_all]; [data] is what the file holds of the range. A call
    at the end of the file sends nothing. *)
Fixpoint sendfile_loop (evs : list tx_event) (data : bytes) (remaining : Z) (out : bytes)
  : result unit * (list tx_event * bytes) :=
  if remaining <=? 0 then (Ok tt, (evs, out))
  else match evs with
       | [] => (Err Blocks, ([], out))
       | TxEintr :: evs => sendfile_loop evs data remaining out
       | TxAgain true :: evs => sendfile_loop evs data remaining out
       | TxAgain false :: evs => (Err (Error (str "sendfile timed out")), (evs, out))
       | TxFail e :: evs => (Err (SysError (str "sendfile failed") e), (evs, out))
       | TxWrote n :: evs =>
           let batch := if remaining <? 0x7ffff000 then remaining else 0x7ffff000 in
           let sent := moved n (Z.min batch (len data)) in
           if sent =? 0 then (Err PeerClosed, (evs, out))
           else sendfile_loop evs (zdrop sent data) (remaining - sent) (out ++ ztake sent data)
       end.

Definition tcp_sendfile (data : bytes) (n : Z) : M ksock unit := fun s =>
  let '(r, (tx', wire')) := sendfile_loop (tx s) data n (wire s) in
  (r, mk_ksock (rx s) tx' wire').

Definition tcp_write_pair (first second : bytes) : M ksock unit :=
  if len second =? 0 then write_all first
  else fun s =>
    let '(r, (tx', wire')) :=
      writev_loop "writev to the peer failed" "" false (tx s) [first; second]
        (len first + len second) 0 (wire s) in
    (r, mk_ksock (rx s) tx' wire').

#[global] Instance TcpChannel : Channel ksock := {|
  ch_kind _ := DirectTcp;
  ch_read_exactly := read_exact;
  ch_write_bytes := write_all;
  ch_write_pair := tcp_write_pair;
  ch_flush := mret tt;
  ch_can_splice _ := true;
  ch_sendfile := tcp_sendfile;
|}.

(** The writes a socket will accept before it fails, is full or is closed: each takes a
    byte at least. *)
Fixpoint tx_budget (evs : list tx_event) : Z :=
  match evs with
  | TxWrote n :: evs => if 0 <? n then 1 + tx_budget evs else 0
  | TxEintr :: evs => tx_budget evs
  | _ => 0
  end.

Lemma tx_budget_nonneg evs : 0 <= tx_budget evs.
Proof. induction evs as [|[n| |b|e] evs IH]; cbn; try done. destruct (0 <? n); lia. Qed.

(** The result of a write loop that has the budget for [data]. *)
Definition paid (o : result unit * (list tx_event * bytes)) (evs : list tx_event) (out data : bytes) : Prop :=
  o.1 = Ok tt /\ o.2.2 = out ++ data /\ tx_budget evs - len data <= tx_budget o.2.1.

Lemma paid_more o n evs out k data :
  0 < n -> 1 <= k <= len data -> paid o evs (out ++ ztake k data) (zdrop k data) ->
  paid o (TxWrote n :: evs) out data.
Proof.
  intros Hn Hk (H1 & H2 & H3). split_and!; [done|by rewrite H2, <- app_assoc, ztake_zdrop|].
  rewrite len_zdrop in H3 by lia. cbn [tx_budget]. destruct (Z.ltb_spec 0 n); lia.
Qed.

Lemma write_all_loop_paid evs data out :
  len data <= tx_budget evs -> paid (write_all_loop evs data out) evs out data.
Proof.
  revert data out. induction evs as [|ev evs IH]; intros data out Hb; cbn [write_all_loop];
    destruct (Z.leb_spec (len data) 0) as [Hl|Hl].
  1,3: assert (data = []) as -> by (apply len_zero_nil; pose proof (len_nonneg data); lia);
    split_and!; cbn [fst snd]; rewrite ?app_nil_r; [done|done|]; change (len (@nil Z)) with 0; lia.
  - cbn in Hb. lia.
  - destruct ev as [n| |b|e]; cbn [tx_budget] in Hb; try lia.
    + destruct (Z.ltb_spec 0 n) as [Hn|]; [|lia]. set (k := moved n (len data)).
      assert (1 <= k <= len data) as Hk by (unfold k, moved; lia).
      apply (paid_more _ _ _ _ k); [done..|]. apply IH. rewrite len_zdrop; lia.
    + by apply IH.
Qed.

Lemma writev_loop_paid what timeout waits evs parts total sent out :
  total - sent = len (concat parts) -> len (concat parts) <= tx_budget evs ->
  paid (writev_loop what timeout waits evs parts total sent out) evs out (concat parts).
Proof.
  revert parts sent out. induction evs as [|ev evs IH]; intros parts sent out Ht Hb; cbn [writev_loop];
    destruct (Z.leb_spec total sent) as [Hl|Hl].
  1,3: assert (concat parts = []) as -> by (apply len_zero_nil; pose proof (len_nonneg (concat parts)); lia);
    split_and!; cbn [fst snd]; rewrite ?app_nil_r; [done|done|]; change (len (@nil Z)) with 0; lia.
  - cbn in Hb. lia.
  - destruct ev as [n| |b|e]; cbn [tx_budget] in Hb; try lia.
    + destruct (Z.ltb_spec 0 n) as [Hn|]; [|lia]. set (k := moved n (len (concat parts))).
      assert (1 <= k <= len (concat parts)) as Hk by (unfold k, moved; lia).
      apply (paid_more _ _ _ _ k); [done..|]. rewrite <- advance_parts_concat by lia.
      apply IH; rewrite advance_parts_concat, len_zdrop; lia.
    + by apply IH.
Qed.

Lemma sendfile_loop_paid evs data out :
  len data <= tx_budget evs -> paid (sendfile_loop evs data (len data) out) evs out data.
Proof.
  revert data out. induction evs as [|ev evs IH]; intros data out Hb; cbn [sendfile_loop];
    destruct (Z.leb_spec (len data) 0) as [Hl|Hl].
  1,3: assert (data = []) as -> by (apply len_zero_nil; pose proof (len_nonneg data); lia);
    split_and!; cbn [fst snd]; rewrite ?app_nil_r; [done|done|]; change (len (@nil Z)) with 0; lia.
  - cbn in Hb. lia.
  - destruct ev as [n| |b|e]; cbn [tx_budget] in Hb; try lia.
    + destruct (Z.ltb_spec 0 n) as [Hn|]; [|lia]. set (batch := if _ <? _ then _ else _).
      set (k := moved n (Z.min batch (len data))).
      assert (1 <= k <= len data) as Hk.
      { unfold k, moved, batch. destruct (Z.ltb_spec (len data) 0x7ffff000); lia. }
      destruct (Z.eqb_spec k 0); [lia|].
      apply (paid_more _ _ _ _ k); [done..|].
      replace (len data - k) with (len (zdrop k data)) by (rewrite len_zdrop; lia).
      apply IH. rewrite len_zdrop; lia.
    + by apply IH.
Qed.

(** Events that carry bytes. *)
Definition rx_ok (evs : list rx_event) : Prop :=
  Forall (fun ev => match ev with RxData bs => bytes_ok bs | _ => True end) evs.

Lemma rx_ok_stream evs : rx_ok evs -> bytes_ok (rx_stream evs).
Proof.
  induction 1 as [|ev evs Hev Hevs IH]; cbn; [constructor|].
  destruct ev as [[|b bs]| | |[]|]; try solve [done|constructor]. by apply (bytes_ok_app (b :: bs)).
Qed.

Lemma read_exact_loop_rx_ok evs n got : rx_ok evs -> rx_ok (read_exact_loop evs n got).2.
Proof.
  revert n got. induction evs as [|ev evs IH]; intros n got Hok; cbn; destruct (n <=? 0); try done.
  apply Forall_cons in Hok as Hok'. destruct Hok' as [Hev Hevs].
  destruct ev as [[|b bs]| | |[]|]; try (by apply IH); try done.
  destruct (n <? _); [|by apply IH]. apply Forall_cons. split; [|done]. by apply bytes_ok_zdrop.
Qed.

Lemma write_all_loop_error evs data out : (write_all_loop evs data out).1 <> Err OutOfBounds.
Proof.
  revert data out. induction evs as [|[n| |[]|e] evs IH]; intros data out; cbn; destruct (_ <=? _); try done;
    apply IH.
Qed.

Lemma writev_loop_error what timeout waits evs parts total sent out :
  (writev_loop what timeout waits evs parts total sent out).1 <> Err OutOfBounds.
Proof.
  revert parts sent out. induction evs as [|[n| |[]|e] evs IH]; intros parts sent out; cbn;
    destruct (_ <=? _); try done; try destruct waits; try done; apply IH.
Qed.

(** A call that only changes the output of the socket. *)
Lemma tcp_wrote (s : ksock) data o :
  paid o (tx s) (wire s) data ->
  exists s', (let '(r, (tx', wire')) := o in (r, mk_ksock (rx s) tx' wire')) = (Ok tt, s') /\
    wrote_ (fun s b => exists rest, rx_stream (rx s) = b ++ rest) (fun s b => wire s = b)
      (fun s n => n <= tx_budget (tx s)) data s s' /\ same_transport s s'.
Proof.
  destruct o as [r [tx' wire']]. intros (Hr & Hw & Hb). cbn in Hr, Hw, Hb. subst r wire'. eexists. split; [done|].
  split; [|done]. split_and!; cbn; [done|by intros b ->|]. intros n Hn Hr. lia.
Qed.

Lemma tcp_any {A} (s : ksock) (P : A -> Prop) (r : result A) evs w :
  rx_ok (rx s) -> match r with Ok a => P a | Err e => e <> OutOfBounds end ->
  any_outcome (fun s => rx_ok (rx s)) P s (r, mk_ksock (rx s) evs w).
Proof. done. Qed.

#[global] Program Instance TcpChannelSpec : ChannelSpec ksock := {|
  ch_inv s := rx_ok (rx s);
  ch_sent s b := wire s = b;
  ch_delivers s b := exists rest, rx_stream (rx s) = b ++ rest;
  ch_room s n := n <= tx_budget (tx s);
|}.
Next Obligation. intros s b b' [rest E]. exists (b' ++ rest). by rewrite app_assoc. Qed.
Next Obligation. cbn. intros. lia. Qed.
Next Obligation.
  intros s b [rest E]. destruct (read_exact_stream b rest s E) as (s' & Hr & Hs & Ht & Hw).
  exists s'. split; [done|]. split; [|done]. split_and!.
  - intros b' [rest' E']. rewrite E in E'. rewrite <- app_assoc in E'. apply app_inv_head in E' as ->. eauto.
  - intros x <-. done.
  - intros n Hn. by rewrite Ht.
Qed.
Next Obligation. intros s d Hr. apply tcp_wrote. by apply write_all_loop_paid. Qed.
Next Obligation.
  intros s d1 d2 Hr. cbn. unfold tcp_write_pair. destruct (Z.eqb_spec (len d2) 0) as [E|E].
  - apply len_zero_nil in E as ->. rewrite app_nil_r. apply tcp_wrote. apply write_all_loop_paid.
    cbn in Hr. rewrite len_nil in Hr. lia.
  - apply tcp_wrote. replace (d1 ++ d2) with (concat [d1; d2]) by (cbn; by rewrite app_nil_r).
    apply writev_loop_paid; cbn [concat]; rewrite app_nil_r, len_app; [lia|done].
Qed.
Next Obligation. intros s. exists s. split; [done|]. split; [apply wrote_nil|done]. Qed.
Next Obligation. intros s d _ Hr. apply tcp_wrote. by apply sendfile_loop_paid. Qed.
Next Obligation.
  intros s n Hs Hn. cbn. destruct (read_exact n s) as [r s'] eqn:E.
  pose proof (read_exact_result n s r s' Hn E (rx_ok_stream _ Hs)) as Hr.
  split_and!; [|done|cbn; destruct r; naive_solver].
  unfold read_exact in E. pose proof (read_exact_loop_rx_ok (rx s) n [] Hs).
  destruct (read_exact_loop _ _ _). by injection E as _ <-.
Qed.
Next Obligation.
  intros s d1 d2 Hs. cbn. unfold tcp_write_pair, write_all. destruct (len d2 =? 0).
  - pose proof (write_all_loop_error (tx s) d1 (wire s)).
    destruct (write_all_loop _ _ _) as [[] [tx' w']]; apply tcp_any; naive_solver.
  - pose proof (writev_loop_error "writev to the peer failed" "" false (tx s) [d1; d2]
      (len d1 + len d2) 0 (wire s)).
    destruct (writev_loop _ _ _ _ _ _ _ _) as [[] [tx' w']]; apply tcp_any; naive_solver.
Qed.
Next Obligation. done. Qed.

(** * RelayChannel *)

Definition kRelayPayloadSize : Z := 256 * 1024.

Record RelayChannel := mk_RelayChannel {
  control_ : ksock;
  inbox_ : bytes;
  inbox_consumed_ : Z;
  closed_ : bool;
}.

(** Run a call of the control connection. *)
Definition on_control {A} (m : M ksock A) : M RelayChannel A :=
  mzoom control_ (fun s c => mk_RelayChannel s (inbox_ c) (inbox_consumed_ c) (closed_ c)) m.

Definition receive_frame : M RelayChannel unit :=
  let* scratch := on_control read_frame in
  match type (header scratch) with
  | RelayDataT => fun c =>
      let inbox := if 0 <? inbox_consumed_ c then zdrop (inbox_consumed_ c) (inbox_ c) else inbox_ c in
      let consumed := if 0 <? inbox_consumed_ c then 0 else inbox_consumed_ c in
      (Ok tt, mk_RelayChannel (control_ c) (inbox ++ payload scratch) consumed (closed_ c))
  | RelayCloseT => fun c => (Ok tt, mk_RelayChannel (control_ c) (inbox_ c) (inbox_consumed_ c) true)
  | KeepAliveT => mret tt
  | RejectT =>
      fail_user (str "the relay was closed: " ++
                 (if len (payload scratch) =? 0 then str "no reason given" else payload scratch))
  | t => fail (str "the server sent a " ++ message_type_name t ++
               str " frame in the middle of a relayed transfer")
  end.

(** The copy out of the inbox: [take] bytes, then the reset of an inbox that is used up. *)
Definition take_from_inbox (take : Z) (c : RelayChannel) : bytes * RelayChannel :=
  let consumed := inbox_consumed_ c + take in
  (ztake take (zdrop (inbox_consumed_ c) (inbox_ c)),
   if consumed =? len (inbox_ c) then mk_RelayChannel (control_ c) [] 0 (closed_ c)
   else mk_RelayChannel (control_ c) (inbox_ c) consumed (closed_ c)).

(** The loop of [read_exactly]; [out] is what has been copied. *)
Fixpoint relay_read_loop (fuel : nat) (n : Z) (out : bytes) (c : RelayChannel)
  : result bytes * RelayChannel :=
  match fuel with
  | O => (Err Blocks, c)
  | S fuel =>
      if n <=? len out then (Ok out, c)
      else
        let available := len (inbox_ c) - inbox_consumed_ c in
        if 0 <? available then
          let take := if available <? n - len out then available else n - len out in
          let '(got, c) := take_from_inbox take c in
          relay_read_loop fuel n (out ++ got) c
        else if closed_ c then (Err PeerClosed, c)
        else match receive_frame c with
             | (Ok _, c) => relay_read_loop fuel n out c
             | (Err e, c) => (Err e, c)
             end
  end.

(** Every turn but the first and the last copies from or receives a frame, and a frame
    is eight bytes at least. *)
Definition relay_read_exactly (n : Z) : M RelayChannel bytes := fun c =>
  relay_read_loop (3 + 2 * length (rx_stream (rx (control_ c)))) n [] c.

Fixpoint relay_write_loop (fuel : nat) (data : bytes) : M ksock unit :=
  match fuel with
  | O => mret tt
  | S fuel =>
      if len data <=? 0 then mret tt
      else
        let batch := if len data <? kRelayPayloadSize then len data else kRelayPayloadSize in
        do* write_frame RelayDataT (ztake batch data) 0 in
        relay_write_loop fuel (zdrop batch data)
  end.

Definition relay_write_bytes (data : bytes) : M RelayChannel unit :=
  on_control (relay_write_loop (S (length data)) data).

(** [close_gracefully]: an error of the program is swallowed. *)
Definition relay_close_gracefully : M RelayChannel unit := fun c =>
  match on_control (write_frame RelayCloseT [] 0) c with
  | (Err e, c) => if is_dz_error e then (Ok tt, c) else (Err e, c)
  | r => r
  end.

(** [sendfile_fd] is -1: a [sendfile] on it would fail with [EBADF]. *)
#[global] Instance RelayChannelOps : Channel RelayChannel := {|
  ch_kind _ := ServerRelay;
  ch_read_exactly := relay_read_exactly;
  ch_write_bytes := relay_write_bytes;
  ch_write_pair := default_write_pair relay_write_bytes;
  ch_flush := mret tt;
  ch_can_splice _ := false;
  ch_sendfile _ _ := mthrow (SysError (str "sendfile failed") 9);
|}.

(** A frame on the control connection. *)
Record tframe := mk_tframe { tf_type : MessageType; tf_flags : Z; tf_data : bytes }.

Definition tframe_ok (f : tframe) : Prop :=
  type_ok (tf_type f) /\ is_u16 (tf_flags f) /\ len (tf_data f) <= kMaxFrameLength.

Definition tframes (fs : list tframe) : bytes :=
  mjoin ((fun f => frame_bytes (tf_type f) (tf_flags f) (tf_data f)) <$> fs).

(** What the frames carry of the relayed stream. *)
Definition tunnelled (fs : list tframe) : bytes :=
  mjoin ((fun f => if bool_decide (tf_type f = RelayDataT) then tf_data f else []) <$> fs).

Definition inbox_ok (c : RelayChannel) : Prop := 0 <= inbox_consumed_ c <= len (inbox_ c).
Definition inbox_left (c : RelayChannel) : bytes := zdrop (inbox_consumed_ c) (inbox_ c).

(** The control connection brings [b], in frames of any size and with keep-alives
    between them. *)
Definition relay_delivers (c : RelayChannel) (b : bytes) : Prop :=
  inbox_ok c /\ closed_ c = false /\
  exists fs rest extra,
    rx_stream (rx (control_ c)) = tframes fs ++ rest /\
    Forall (fun f => tframe_ok f /\ (tf_type f = RelayDataT \/ tf_type f = KeepAliveT)) fs /\
    inbox_left c ++ tunnelled fs = b ++ extra.

Definition relay_sent (c : RelayChannel) (b : bytes) : Prop :=
  exists fs, wire (control_ c) = tframes fs /\ b = tunnelled fs.

(** A header costs no more than eight times what a batch carries. *)
Definition relay_room (c : RelayChannel) (n : Z) : Prop := 9 * n <= tx_budget (tx (control_ c)).

Definition relay_inv (c : RelayChannel) : Prop :=
  inbox_ok c /\ bytes_ok (inbox_ c) /\ rx_ok (rx (control_ c)).

Lemma inbox_left_len c : inbox_ok c -> len (inbox_left c) = len (inbox_ c) - inbox_consumed_ c.
Proof. intros H. apply len_zdrop. done. Qed.

Lemma take_from_inbox_spec take c got c' :
  inbox_ok c -> 0 <= take <= len (inbox_left c) -> take_from_inbox take c = (got, c') ->
  inbox_ok c' /\ inbox_left c = got ++ inbox_left c' /\ len got = take /\
  control_ c' = control_ c /\ closed_ c' = closed_ c.
Proof.
  intros Hc Ht [= <- <-]. fold (inbox_left c). pose proof (inbox_left_len c Hc) as Hl.
  rewrite len_ztake by done. destruct (Z.eqb_spec (inbox_consumed_ c + take) (len (inbox_ c))) as [E|E].
  - split_and!; try done. rewrite (ztake_len take) by lia. cbn. by rewrite app_nil_r.
  - split; [unfold inbox_ok in *; cbn; lia|]. split; [|done].
    unfold inbox_left in *. cbn. rewrite <- zdrop_zdrop by (unfold inbox_ok in *; lia).
    symmetry. apply ztake_zdrop.
Qed.

(** Receiving a data frame appends its payload; a keep-alive changes nothing. *)
Lemma receive_frame_data f fs rest c :
  tframe_ok f -> tf_type f = RelayDataT \/ tf_type f = KeepAliveT -> inbox_ok c ->
  rx_stream (rx (control_ c)) = tframes (f :: fs) ++ rest ->
  exists c', receive_frame c = (Ok tt, c') /\ inbox_ok c' /\ closed_ c' = closed_ c /\
    inbox_left c' = inbox_left c ++ tunnelled [f] /\
    rx_stream (rx (control_ c')) = tframes fs ++ rest /\
    tx (control_ c') = tx (control_ c) /\ wire (control_ c') = wire (control_ c).
Proof.
  intros (Ht & Hf & Hd) Hty Hc Hs. unfold tframes in Hs. rewrite mjoin_fmap_cons, <- app_assoc in Hs.
  destruct (read_frame_stream _ _ _ _ _ Ht Hf Hd Hs) as (s' & E & Hs' & Htx & Hw).
  unfold receive_frame, on_control, mzoom, mbind. rewrite E. cbn [header type out_header].
  unfold tunnelled. cbn. rewrite app_nil_r. destruct Hty as [Hty|Hty]; rewrite Hty.
  - rewrite bool_decide_eq_true_2 by done. eexists. split; [reflexivity|].
    unfold inbox_ok, inbox_left in *. cbn. pose proof (len_nonneg (tf_data f)).
    destruct (Z.ltb_spec 0 (inbox_consumed_ c)) as [Hp|Hp]; rewrite ?len_app.
    + pose proof (len_nonneg (zdrop (inbox_consumed_ c) (inbox_ c))). split_and!; try done; lia.
    + replace (inbox_consumed_ c) with 0 by lia. split_and!; try done; lia.
  - rewrite bool_decide_eq_false_2 by done. eexists. split; [reflexivity|]. rewrite app_nil_r. done.
Qed.

(** The read loop, with [fs] still to come and [b] wanted. *)
(** Bytes taken from the inbox are the first of what is wanted; more are wanted only when it
    is empty. *)
Lemma inbox_step take c got c1 b later extra :
  inbox_ok c -> take_from_inbox take c = (got, c1) ->
  0 < take <= len (inbox_left c) /\ take <= len b /\ (take < len b -> take = len (inbox_left c)) ->
  inbox_left c ++ later = b ++ extra ->
  exists b', b = got ++ b' /\ inbox_ok c1 /\ control_ c1 = control_ c /\ closed_ c1 = closed_ c /\
    inbox_left c1 ++ later = b' ++ extra /\ (b' <> [] -> inbox_left c1 = []).
Proof.
  intros Hc E Ht Hb. apply take_from_inbox_spec in E as (Hc1 & Hg & Hlg & Hct & Hcl1); [|done|lia]. rewrite Hg, <- app_assoc in Hb.
  assert (exists b', b = got ++ b') as [b' ->].
  { exists (zdrop take b). rewrite <- (ztake_zdrop take b) at 1. f_equal.
    apply (f_equal (ztake take)) in Hb. rewrite <- Hlg, ztake_app_len, ztake_app_le in Hb by lia. by rewrite <- Hlg. }
  rewrite <- app_assoc in Hb. apply app_inv_head in Hb. exists b'. split_and!; try done.
  intros Hne. apply len_zero_nil. rewrite Hg, !len_app in Ht. destruct b'; [done|]. rewrite len_cons in Ht. pose proof (len_nonneg b'). lia.
Qed.

Lemma relay_read_loop_total fuel n out b extra fs rest c :
  inbox_ok c -> closed_ c = false -> rx_stream (rx (control_ c)) = tframes fs ++ rest ->
  Forall (fun f => tframe_ok f /\ (tf_type f = RelayDataT \/ tf_type f = KeepAliveT)) fs ->
  inbox_left c ++ tunnelled fs = b ++ extra -> n = len out + len b ->
  (2 * length fs + 1 + (if decide (inbox_left c = []) then 0 else 1) <= fuel)%nat ->
  exists c' fs', relay_read_loop fuel n out c = (Ok (out ++ b), c') /\ inbox_ok c' /\ closed_ c' = false /\
    rx_stream (rx (control_ c')) = tframes fs' ++ rest /\ (exists ds, fs = ds ++ fs') /\
    inbox_left c' ++ tunnelled fs' = extra /\
    tx (control_ c') = tx (control_ c) /\ wire (control_ c') = wire (control_ c).
Proof.
  revert out b fs c. induction fuel as [|fuel IH]; intros out b fs c Hc Hcl Hs Hfs Hb Hn Hf; [lia|].
  cbn [relay_read_loop]. pose proof (inbox_left_len c Hc) as Hl.
  destruct (Z.leb_spec n (len out)) as [Hdone|Hmore].
  { assert (b = []) as -> by (apply len_zero_nil; pose proof (len_nonneg b); lia).
    exists c, fs. rewrite app_nil_r. split_and!; try done. by exists []. }
  rewrite <- Hl. destruct (Z.ltb_spec 0 (len (inbox_left c))) as [Hav|Hav].
  - rewrite decide_False in Hf by (intros E; rewrite E in Hav; done).
    set (take := if _ <? _ then _ else _).
    assert (0 < take <= len (inbox_left c) /\ take <= len b /\ (take < len b -> take = len (inbox_left c))) as Ht.
    { unfold take. destruct (Z.ltb_spec (len (inbox_left c)) (n - len out)); lia. }
    destruct (take_from_inbox take c) as [got c1] eqn:E.
    destruct (inbox_step take c got c1 b (tunnelled fs) extra Hc E Ht Hb) as (b' & -> & Hc1 & Hct & Hcl1 & Hb' & Hemp).
    clear Hb. rename Hb' into Hb. rewrite len_app in Hn.
    destruct (decide (b' = [])) as [->|Hne].
    + destruct fuel as [|fuel]; [lia|]. cbn [relay_read_loop].
      destruct (Z.leb_spec n (len (out ++ got))); [|rewrite len_app, len_nil in *; lia].
      exists c1, fs. rewrite app_nil_r, Hct, Hcl1. split_and!; try done. by exists [].
    + destruct (IH (out ++ got) b' fs c1) as (c' & fs' & HE & HR); try done.
      * by rewrite Hcl1.
      * by rewrite Hct.
      * rewrite len_app. lia.
      * rewrite decide_True by auto. lia.
      * exists c', fs'. rewrite app_assoc, <- Hct. done.
  - assert (inbox_left c = []) as E by (apply len_zero_nil; pose proof (len_nonneg (inbox_left c)); lia).
    rewrite Hcl. rewrite E, app_nil_l in Hb. rewrite decide_True in Hf by done.
    destruct fs as [|f fs].
    { apply (f_equal len) in Hb. change (len (tunnelled [])) with 0 in Hb. rewrite len_app in Hb.
      pose proof (len_nonneg extra). lia. }
    apply Forall_cons in Hfs as [[Hf1 Hf2] Hfs].
    destruct (receive_frame_data f fs rest c Hf1 Hf2 Hc Hs) as (c1 & HE & Hc1 & Hcl1 & Hi & Hs1 & Ht1 & Hw1).
    rewrite HE. destruct (IH out b fs c1) as (c' & fs' & HE' & HR); try done.
    + by rewrite Hcl1.
    + rewrite Hi, E, app_nil_l. unfold tunnelled in *. rewrite !mjoin_fmap_cons in *. cbn [fmap list_fmap mjoin list_join].
      by rewrite app_nil_r.
    + cbn [length] in Hf. destruct (decide _); lia.
    + exists c', fs'. rewrite Ht1, Hw1 in HR. destruct HR as (? & ? & ? & [ds ->] & ? & ? & ?).
      split_and!; try done. by exists (f :: ds).
Qed.

Lemma tframes_len fs : 8 * len fs <= len (tframes fs).
Proof.
  induction fs as [|f fs IH]; [done|]. unfold tframes in *. rewrite mjoin_fmap_cons, len_cons, len_app.
  unfold frame_bytes at 1. rewrite len_app, encode_frame_header_len. unfold kFrameHeaderSize.
  pose proof (len_nonneg (tf_data f)). lia.
Qed.

Lemma tframes_app fs gs : tframes (fs ++ gs) = tframes fs ++ tframes gs.
Proof. unfold tframes. by rewrite fmap_app, join_app. Qed.

Lemma tunnelled_app fs gs : tunnelled (fs ++ gs) = tunnelled fs ++ tunnelled gs.
Proof. unfold tunnelled. by rewrite fmap_app, join_app. Qed.

(** What one [read_exactly] does, for each reading of what is to come. *)
Lemma relay_read_exactly_total c b b' :
  relay_delivers c (b ++ b') ->
  exists c', relay_read_exactly (len b) c = (Ok b, c') /\ relay_delivers c' b' /\
    tx (control_ c') = tx (control_ c) /\ wire (control_ c') = wire (control_ c).
Proof.
  intros (Hc & Hcl & fs & rest & extra & Hs & Hfs & Hb). rewrite <- app_assoc in Hb.
  destruct (relay_read_loop_total (3 + 2 * length (rx_stream (rx (control_ c)))) (len b) [] b
    (b' ++ extra) fs rest c) as (c' & fs' & HE & Hc' & Hcl' & Hs' & [ds ->] & Hb' & Ht & Hw); try done.
  { rewrite Hs, length_app. pose proof (tframes_len fs). unfold len in *. destruct (decide _); lia. }
  exists c'. split_and!; try done. split_and!; try done. exists fs', rest, extra.
  split_and!; try done. by apply Forall_app in Hfs as [_ ?].
Qed.

Lemma relay_read_total c b :
  relay_delivers c b ->
  exists c', relay_read_exactly (len b) c = (Ok b, c') /\
    took_ relay_delivers relay_sent relay_room b c c' /\ same_transport c c'.
Proof.
  intros Hd. rewrite <- (app_nil_r b) in Hd.
  destruct (relay_read_exactly_total c b [] Hd) as (c' & HE & _ & Ht & Hw).
  exists c'. split; [done|]. split; [|done]. split_and!.
  - intros b' (c2 & HE2 & Hd2 & _)%relay_read_exactly_total. rewrite HE in HE2. by injection HE2 as <-.
  - intros x (fs & Hf & ->). exists fs. by rewrite Hw.
  - intros n Hn. unfold relay_room in *. by rewrite Ht.
Qed.

(** A frame written on the control connection. *)
Lemma write_frame_paid t data s :
  len data <= kMaxFrameLength -> kFrameHeaderSize + len data <= tx_budget (tx s) ->
  exists s', write_frame t data 0 s = (Ok tt, s') /\ rx s' = rx s /\
    wire s' = wire s ++ frame_bytes t 0 data /\
    tx_budget (tx s) - (kFrameHeaderSize + len data) <= tx_budget (tx s').
Proof.
  intros Hl Hb. unfold write_frame, write_all, frame_bytes.
  destruct (Z.ltb_spec kMaxFrameLength (len data)); [lia|].
  set (hdr := encode_frame_header _). assert (len hdr = kFrameHeaderSize) as Hh by done.
  destruct (Z.eqb_spec (len data) 0) as [E|E].
  - apply len_zero_nil in E as ->. pose proof (write_all_loop_paid (tx s) hdr (wire s)) as Hp.
    destruct (write_all_loop _ _ _) as [r [tx' w']]. rewrite len_nil in *.
    destruct Hp as (Hr & Hw & Ht); [lia|]. cbn in Hr, Hw, Ht. subst r w'.
    eexists. split; [done|]. rewrite app_nil_r. split_and!; cbn; try done; lia.
  - pose proof (writev_loop_paid "writev to socket failed" "frame write timed out" true (tx s)
      [hdr; data] (len hdr + len data) 0 (wire s)) as Hp.
    destruct (writev_loop _ _ _ _ _ _ _ _) as [r [tx' w']]. cbn [concat] in Hp.
    rewrite app_nil_r, len_app in Hp. destruct Hp as (Hr & Hw & Ht); [lia|lia|].
    cbn [fst snd] in Hr, Hw, Ht. rewrite len_app in Ht. subst r w'. eexists. split; [done|]. split_and!; cbn; try done; lia.
Qed.

Lemma relay_write_loop_total fuel data s :
  (length data < fuel)%nat -> 9 * len data <= tx_budget (tx s) ->
  exists s' gs, relay_write_loop fuel data s = (Ok tt, s') /\ rx s' = rx s /\
    wire s' = wire s ++ tframes gs /\ tunnelled gs = data /\
    Forall (fun f => tframe_ok f /\ tf_type f = RelayDataT) gs /\
    tx_budget (tx s) - 9 * len data <= tx_budget (tx s').
Proof.
  revert data s. induction fuel as [|fuel IH]; intros data s Hf Hb; [lia|]. cbn [relay_write_loop].
  destruct (Z.leb_spec (len data) 0) as [Hz|Hp].
  { assert (data = []) as -> by (apply len_zero_nil; pose proof (len_nonneg data); lia).
    exists s, []. rewrite app_nil_r. split_and!; try done. change (len (@nil Z)) with 0. lia. }
  set (batch := if _ <? _ then _ else _).
  assert (1 <= batch <= len data /\ batch <= kMaxFrameLength) as [Hba Hbm].
  { unfold batch, kRelayPayloadSize, kMaxFrameLength.
    destruct (Z.ltb_spec (len data) (256 * 1024)); lia. }
  pose proof (len_ztake batch data ltac:(lia)) as Hlt. pose proof (len_zdrop batch data ltac:(lia)) as Hld.
  destruct (write_frame_paid RelayDataT (ztake batch data) s) as (s1 & E1 & Hrx & Hw1 & Ht1);
    [lia|unfold kFrameHeaderSize; lia|].
  erewrite mbind_ok by exact E1. unfold kFrameHeaderSize in Ht1.
  destruct (IH (zdrop batch data) s1) as (s' & gs & E' & Hrx' & Hw' & Htu & Hgs & Ht').
  - unfold len in *. lia.
  - lia.
  - exists s', (mk_tframe RelayDataT 0 (ztake batch data) :: gs).
    split_and!; [done|congruence| | | |lia].
    + rewrite Hw', Hw1, <- app_assoc. unfold tframes. by rewrite mjoin_fmap_cons.
    + unfold tunnelled in *. rewrite mjoin_fmap_cons, Htu. cbn. apply ztake_zdrop.
    + constructor; [|done]. split; [|done]. split_and!; cbn; [done|done|lia].
Qed.

Lemma relay_write_total c d :
  relay_room c (len d) ->
  exists c', relay_write_bytes d c = (Ok tt, c') /\
    wrote_ relay_delivers relay_sent relay_room d c c' /\ same_transport c c'.
Proof.
  intros Hr. destruct (relay_write_loop_total (S (length d)) d (control_ c)) as (s' & gs & E & Hrx & Hw & Htu & _ & Ht);
    [lia|done|].
  unfold relay_write_bytes, on_control, mzoom. rewrite E. eexists. split; [done|]. split; [|done]. split_and!.
  - intros b (Hc & Hcl & Hd). split_and!; try done. cbn. by rewrite Hrx.
  - intros b (fs & Hfs & ->). exists (fs ++ gs). cbn. rewrite Hw, Hfs, tframes_app, tunnelled_app, Htu. done.
  - intros n Hn Hrn. unfold relay_room in *. cbn. lia.
Qed.

(** The control connection under any peer. *)
Lemma write_frame_any t data s :
  rx_ok (rx s) -> any_outcome (fun s => rx_ok (rx s)) (fun _ => True) s (write_frame t data 0 s).
Proof.
  intros Hs. unfold write_frame, write_all. destruct (_ <? _); [done|]. set (hdr := encode_frame_header _).
  destruct (len data =? 0).
  - pose proof (write_all_loop_error (tx s) hdr (wire s)).
    destruct (write_all_loop _ _ _) as [[] [tx' w']]; apply tcp_any; naive_solver.
  - pose proof (writev_loop_error "writev to socket failed" "frame write timed out" true (tx s) [hdr; data]
      (len hdr + len data) 0 (wire s)).
    destruct (writev_loop _ _ _ _ _ _ _ _) as [[] [tx' w']]; apply tcp_any; naive_solver.
Qed.

Lemma relay_write_loop_any fuel data s :
  rx_ok (rx s) -> any_outcome (fun s => rx_ok (rx s)) (fun _ => True) s (relay_write_loop fuel data s).
Proof.
  revert data s. induction fuel as [|fuel IH]; intros data s Hs; [done|]. cbn [relay_write_loop].
  destruct (_ <=? _); [done|]. eapply any_bind; [by apply write_frame_any|].
  intros [] s' _ Hs' _. by apply IH.
Qed.

Lemma relay_write_any d c :
  relay_inv c -> any_outcome relay_inv (fun _ => True) c (relay_write_bytes d c).
Proof.
  intros (Hc & Hb & Hrx). unfold relay_write_bytes, on_control, mzoom.
  pose proof (relay_write_loop_any (S (length d)) d (control_ c) Hrx) as (Hs & _ & Hr).
  destruct (relay_write_loop _ _ _) as [r s']. by split_and!.
Qed.

Lemma receive_frame_any c :
  relay_inv c -> any_outcome relay_inv (fun _ => True) c (receive_frame c).
Proof.
  intros (Hc & Hb & Hrx). unfold receive_frame, on_control, mzoom, mbind at 1.
  pose proof (channel_read_frame_any (control_ c) Hrx) as (Hs & _ & Hr).
  change (channel_read_frame (control_ c)) with (read_frame (control_ c)) in *.
  destruct (read_frame (control_ c)) as [[f|e] s']; [|by split_and!]. cbn in Hr.
  destruct Hr as (Hp & _). set (c1 := mk_RelayChannel _ _ _ _).
  assert (relay_inv c1) as H1 by (by split_and!).
  destruct (type (header f)); try (by split_and!).
  split_and!; try done. unfold relay_inv, inbox_ok in *. cbn in *.
  pose proof (len_nonneg (payload f)). destruct (Z.ltb_spec 0 (inbox_consumed_ c)); rewrite len_app.
  - pose proof (len_nonneg (zdrop (inbox_consumed_ c) (inbox_ c))).
    split_and!; try lia; [|done]. apply bytes_ok_app. split; [by apply bytes_ok_zdrop|done].
  - split_and!; try lia; [|done]. by apply bytes_ok_app.
Qed.

Lemma relay_read_loop_any fuel n out c :
  relay_inv c -> bytes_ok out -> len out <= n ->
  any_outcome relay_inv (fun b => len b = n /\ bytes_ok b) c (relay_read_loop fuel n out c).
Proof.
  revert out c. induction fuel as [|fuel IH]; intros out c Hc Hout Hlen; cbn [relay_read_loop]; [done|].
  destruct (Z.leb_spec n (len out)); [split_and!; try done; cbn; split; [lia|done]|].
  destruct Hc as (Hi & Hb & Hrx). rewrite <- inbox_left_len by done.
  destruct (Z.ltb_spec 0 (len (inbox_left c))) as [Hav|_].
  - set (take := if _ <? _ then _ else _).
    assert (0 <= take <= len (inbox_left c) /\ take <= n - len out) as [Ht Htn].
    { unfold take. destruct (Z.ltb_spec (len (inbox_left c)) (n - len out)); lia. }
    destruct (take_from_inbox take c) as [got c1] eqn:E. pose proof E as [= Eg Ec].
    apply take_from_inbox_spec in E as (Hc1 & Hg & Hlg & Hct & _); [|done|done].
    assert (bytes_ok (inbox_left c)) as Hbl by (by apply bytes_ok_zdrop).
    rewrite Hg in Hbl. apply bytes_ok_app in Hbl as [Hbg _].
    eapply (any_trans _ _ c c1); [done|]. apply IH; [|by apply bytes_ok_app|rewrite len_app; lia].
    split_and!; [apply Hc1..| |by rewrite Hct]. subst c1. by destruct (_ =? _); [constructor|].
  - destruct (closed_ c); [done|]. pose proof (receive_frame_any c ltac:(done)) as (Hr1 & Hr2 & Hr3).
    destruct (receive_frame c) as [[[]|e] c1]; [|done]. eapply any_trans; [exact Hr2|]. by apply IH.
Qed.

#[global] Program Instance RelayChannelSpec : ChannelSpec RelayChannel := {|
  ch_inv := relay_inv;
  ch_sent := relay_sent;
  ch_delivers := relay_delivers;
  ch_room := relay_room;
|}.
Next Obligation.
  intros c b b' (Hc & Hcl & fs & rest & extra & Hs & Hf & E). split_and!; [done..|].
  exists fs, rest, (b' ++ extra). by rewrite app_assoc.
Qed.
Next Obligation. unfold relay_room. intros. lia. Qed.
Next Obligation. apply relay_read_total. Qed.
Next Obligation. apply relay_write_total. Qed.
Next Obligation.
  intros c d1 d2 Hr. cbn. unfold default_write_pair. pose proof (len_nonneg d2).
  destruct (relay_write_total c d1) as (c1 & E1 & W1 & T1); [unfold relay_room in *; lia|].
  erewrite mbind_ok by exact E1. destruct (Z.ltb_spec 0 (len d2)).
  - destruct (relay_write_total c1 d2) as (c2 & E2 & W2 & T2); [by apply W1; [lia|]|].
    exists c2. split; [done|]. split; [by eapply wrote_trans|done].
  - assert (d2 = []) as -> by (apply len_zero_nil; lia). rewrite app_nil_r. by exists c1.
Qed.
Next Obligation. intros c. exists c. split; [done|]. split; [apply wrote_nil|done]. Qed.
Next Obligation. done. Qed.
Next Obligation. intros c n Hc Hn. by apply relay_read_loop_any; [|constructor|]. Qed.
Next Obligation.
  intros c d1 d2 Hc. eapply any_bind; [by apply relay_write_any|]. intros [] c' _ Hc' _.
  destruct (_ <? _); [by apply relay_write_any|done].
Qed.
Next Obligation. done. Qed.

(** * The tunnel *)

(** One [read_exactly] per size. *)
Fixpoint read_parts {C} `{Channel C} (sizes : list Z) : M C (list bytes) :=
  match sizes with
  | [] => mret []
  | n :: sizes =>
      let* b := ch_read_exactly n in
      let* bs := read_parts sizes in mret (b :: bs)
  end.

Lemma read_parts_total {C} `{ChannelSpec C} (parts : list bytes) (c : C) b :
  ch_delivers c (concat parts ++ b) ->
  exists c', read_parts (len <$> parts) c = (Ok parts, c') /\ ch_delivers c' b.
Proof.
  revert c. induction parts as [|p parts IH]; intros c Hd; [by exists c|]. cbn in Hd |- *.
  rewrite <- app_assoc in Hd.
  destruct (ch_read_total c p) as (c1 & E1 & (T1 & _) & _); [by eapply ch_delivers_prefix|].
  erewrite mbind_ok by exact E1. destruct (IH c1) as (c2 & E2 & D2); [by apply T1|].
  erewrite mbind_ok by exact E2. by exists c2.
Qed.

Lemma tunnelled_filter fs :
  tunnelled (filter (fun f => tf_type f <> KeepAliveT) fs) = tunnelled fs.
Proof.
  induction fs as [|f fs IH]; [done|]. unfold tunnelled in *. rewrite filter_cons, mjoin_fmap_cons.
  destruct (decide _) as [Hk|Hk]; [by rewrite mjoin_fmap_cons, IH|]. rewrite IH.
  apply dec_stable in Hk. by rewrite Hk.
Qed.

(** C22. The relay is a transparent byte stream. What one peer writes becomes
    RelayData frames on its control connection; whatever keep-alives come between
    those frames, and however the other peer's reads cut the stream up, the other peer
    reads back the same bytes. *)
Theorem relay_tunnel c d :
  relay_room c (len d) ->
  exists c' gs, relay_write_bytes d c = (Ok tt, c') /\
    wire (control_ c') = wire (control_ c) ++ tframes gs /\
    Forall (fun f => tf_type f = RelayDataT) gs /\
    forall r fs rest parts,
      inbox_ r = [] -> inbox_consumed_ r = 0 -> closed_ r = false ->
      filter (fun f => tf_type f <> KeepAliveT) fs = gs ->
      Forall (fun f => tf_type f = KeepAliveT -> tframe_ok f) fs ->
      rx_stream (rx (control_ r)) = tframes fs ++ rest -> concat parts = d ->
      exists r', read_parts (len <$> parts) r = (Ok parts, r').
Proof.
  intros Hr. destruct (relay_write_loop_total (S (length d)) d (control_ c))
    as (s' & gs & E & Hrx & Hw & Htu & Hgs & Ht); [lia|done|].
  unfold relay_write_bytes, on_control, mzoom. rewrite E. eexists _, gs. split; [done|]. split; [done|].
  split; [eapply Forall_impl; [exact Hgs|]; by intros ? []|]. intros r fs rest parts Hi Hic Hcl Hf Hk Hs Hp.
  destruct (read_parts_total parts r []) as (r' & Er & _); [|by exists r'].
  split; [unfold inbox_ok; by rewrite Hi, Hic|]. split; [done|]. exists fs, rest, []. split; [done|]. split.
  - rewrite Forall_forall in Hk, Hgs |- *. intros f Hin. destruct (decide (tf_type f = KeepAliveT)) as [He|He].
    + auto.
    + destruct (Hgs f) as [? ?]; [|by auto]. rewrite <- Hf. by apply list_elem_of_filter.
  - unfold inbox_left. rewrite Hi, Hic. cbn. rewrite !app_nil_r, Hp, <- Htu, <- Hf. symmetry.
    apply tunnelled_filter.
Qed.

Lemma relay_frames_kept gs :
  Forall (fun f => tf_type f = RelayDataT) gs -> filter (fun f => tf_type f <> KeepAliveT) gs = gs.
Proof.
  induction 1 as [|f gs Hf _ IH]; [done|]. rewrite filter_cons_True by (by rewrite Hf). by rewrite IH.
Qed.

Lemma relay_tunnel_witness :
  let c := mk_RelayChannel (mk_ksock [] (replicate 60 (TxWrote 100)) []) [] 0 false in
  exists c', relay_write_bytes [1; 2; 3] c = (Ok tt, c') /\
    exists r', read_parts [1; 2] (mk_RelayChannel (mk_ksock [RxData (wire (control_ c'))] [] []) [] 0 false) =
      (Ok [[1]; [2; 3]], r').
Proof.
  intros c. destruct (relay_tunnel c [1; 2; 3] ltac:(by vm_compute)) as (c' & gs & E & Hw & Hgs & Hr).
  exists c'. split; [exact E|]. change (wire (control_ c)) with (@nil Z) in Hw. cbn [app] in Hw. rewrite Hw.
  apply (Hr (mk_RelayChannel (mk_ksock [RxData (tframes gs)] [] []) [] 0 false) gs [] [[1]; [2; 3]]); try reflexivity.
  - by apply relay_frames_kept.
  - eapply Forall_impl; [exact Hgs|]. cbn. intros f -> Hk. discriminate Hk.
  - cbn. by destruct (tframes gs).
Defined.
