(* ===== verification/Text.v ===== *)
(** Text the client keeps on disk: hexadecimal of [common/src/secure.cpp], and the reading
    of whitespace-separated fields and of an unsigned number with [operator>>]. *)

From S2P Require Import Prelude Protocol Messages.

(** * Hexadecimal *)

Definition hex_digit (v : Z) : Z := default 0 (str "0123456789abcdef" !! Z.to_nat v).

Definition to_hex (data : bytes) : bytes :=
  mjoin ((fun b => [hex_digit (Z.shiftr b 4); hex_digit (Z.land b 15)]) <$> data).

Definition hex_value (c : Z) : Z :=
  if in_range 48 57 c then c - 48
  else if in_range 97 102 c then c - 97 + 10
  else if in_range 65 70 c then c - 65 + 10
  else -1.

(** The loop of [from_hex], two characters at a time. *)
Fixpoint from_hex_loop (hex : bytes) : option bytes :=
  match hex with
  | h :: l :: hex =>
      let high := hex_value h in
      let low := hex_value l in
      if (high <? 0) || (low <? 0) then None
      else match from_hex_loop hex with
           | Some out => Some (u8 (Z.lor (Z.shiftl high 4) low) :: out)
           | None => None
           end
  | _ => Some []
  end.

Definition from_hex (hex : bytes) : option bytes :=
  if negb (len hex mod 2 =? 0) then None else from_hex_loop hex.

Lemma to_hex_len data : len (to_hex data) = 2 * len data.
Proof.
  induction data as [|b data IH]; [done|]. unfold to_hex in *. rewrite mjoin_fmap_cons, len_app, IH, len_cons.
  unfold len. cbn [length]. lia.
Qed.

(** Every byte survives, checked on all of them. *)
Lemma hex_byte b :
  is_u8 b ->
  let h := hex_value (hex_digit (Z.shiftr b 4)) in
  let l := hex_value (hex_digit (Z.land b 15)) in
  (h <? 0) || (l <? 0) = false /\ u8 (Z.lor (Z.shiftl h 4) l) = b.
Proof.
  intros Hb.
  assert (forallb (fun b =>
    let h := hex_value (hex_digit (Z.shiftr b 4)) in
    let l := hex_value (hex_digit (Z.land b 15)) in
    negb ((h <? 0) || (l <? 0)) && (u8 (Z.lor (Z.shiftl h 4) l) =? b)) (seqZ 0 256) = true) as H by (by vm_compute).
  rewrite forallb_forall in H. intros h l.
  specialize (H b ltac:(apply list_elem_of_In, elem_of_seqZ; unfold is_u in Hb; lia)). fold h l in H. cbv zeta in H.
  by apply andb_prop in H as [H1%negb_true_iff H2%Z.eqb_eq].
Qed.

Lemma from_to_hex data : bytes_ok data -> from_hex (to_hex data) = Some data.
Proof.
  intros Hb. unfold from_hex. rewrite to_hex_len, Z.mul_comm, Z_mod_mult. cbn [Z.eqb negb].
  induction Hb as [|b data Hb _ IH]; [done|]. unfold to_hex in *. rewrite mjoin_fmap_cons. cbn [app from_hex_loop].
  destruct (hex_byte b Hb) as [-> ->]. by rewrite IH.
Qed.

(** * Fields *)

(** [isspace] in the C locale. *)
Definition is_space (c : Z) : bool := (c =? 32) || in_range 9 13 c.

(** What successive [>>] into a string take from a line. *)
Fixpoint words_loop (l cur : bytes) : list bytes :=
  match l with
  | [] => if len cur =? 0 then [] else [cur]
  | c :: l =>
      if is_space c then (if len cur =? 0 then words_loop l [] else cur :: words_loop l [])
      else words_loop l (cur ++ [c])
  end.
Definition words (line : bytes) : list bytes := words_loop line [].

Definition is_digit (c : Z) : bool := in_range 48 57 c.

Fixpoint take_digits (l : bytes) : bytes :=
  match l with
  | c :: l => if is_digit c then c :: take_digits l else []
  | [] => []
  end.

Definition decimal (digits : bytes) : Z := foldl (fun v c => 10 * v + (c - 48)) 0 digits.

(** [>>] into an unsigned 64-bit integer that is zero before: a sign, then digits; no
    digits leave zero, a number too large is the largest, a negative one wraps. *)
Definition extract_u64 (text : bytes) : Z :=
  let '(negative, text) := match text with
                           | c :: t => if c =? 45 then (true, t) else if c =? 43 then (false, t) else (false, text)
                           | [] => (false, [])
                           end in
  let v := decimal (take_digits text) in
  if 2 ^ 64 <=? v then 2 ^ 64 - 1 else if negative then u64 (- v) else v.

(** [std::from_chars] into an [unsigned]: digits only, anything may follow them; no digits
    or a number too large is an error. *)
Definition from_chars_u32 (text : bytes) : option Z :=
  let digits := take_digits text in
  if len digits =? 0 then None
  else if 2 ^ 32 <=? decimal digits then None else Some (decimal digits).

(** [remove_prefix(1)] while the first character satisfies [p]. *)
Fixpoint drop_while (p : Z -> bool) (text : bytes) : bytes :=
  match text with
  | c :: rest => if p c then drop_while p rest else text
  | [] => []
  end.

(** [strtoul] in base 10: the value and where it stopped. White space, a sign and digits;
    no digits is no conversion, a number too large is the largest, a negative one wraps. *)
Definition strtoul (text : bytes) : Z * bytes :=
  let start := drop_while is_space text in
  let '(negative, rest) := match start with
                           | c :: t => if c =? 45 then (true, t) else if c =? 43 then (false, t) else (false, start)
                           | [] => (false, [])
                           end in
  let digits := take_digits rest in
  if len digits =? 0 then (0, text)
  else
    let v := decimal digits in
    (if 2 ^ 64 <=? v then 2 ^ 64 - 1 else if negative then u64 (- v) else v, zdrop (len digits) rest).

(** A word: not empty and without white space. *)
Definition word (w : bytes) : Prop := len w <> 0 /\ Forall (fun c => is_space c = false) w.

Lemma words_loop_word w l cur :
  Forall (fun c => is_space c = false) w -> words_loop (w ++ l) cur = words_loop l (cur ++ w).
Proof.
  intros Hw. revert cur. induction Hw as [|c w Hc _ IH]; intros cur; cbn; [by rewrite app_nil_r|].
  rewrite Hc, IH. by rewrite <- app_assoc.
Qed.

Lemma words_cons w l : word w -> words (w ++ 32 :: l) = w :: words l.
Proof.
  intros [Hn Hw]. unfold words. rewrite words_loop_word by done. cbn.
  by destruct (Z.eqb_spec (len w) 0).
Qed.

Lemma words_last w : word w -> words w = [w].
Proof.
  intros [Hn Hw]. unfold words. rewrite <- (app_nil_r w) at 1. rewrite words_loop_word by done. cbn.
  by destruct (Z.eqb_spec (len w) 0).
Qed.

(** * Decimal numbers *)

Lemma decimal_snoc l c : decimal (l ++ [c]) = 10 * decimal l + (c - 48).
Proof. unfold decimal. by rewrite foldl_snoc. Qed.

Lemma pretty_digit (d : N) :
  (d < 10)%N -> exists c, Z.of_N (Ascii.N_of_ascii (pretty_N_char d)) = c /\ c = 48 + Z.of_N d /\ is_digit c = true.
Proof.
  intros Hd. exists (48 + Z.of_N d).
  assert (forallb (fun d => (Z.of_N (Ascii.N_of_ascii (pretty_N_char d)) =? 48 + Z.of_N d) && is_digit (48 + Z.of_N d))
    (N.of_nat <$> seq 0 10) = true) as H by (by vm_compute).
  rewrite forallb_forall in H. specialize (H d).
  destruct (andb_prop _ _ (H ltac:(apply list_elem_of_In, list_elem_of_fmap; exists (N.to_nat d); rewrite elem_of_seq; lia)))
    as [H1%Z.eqb_eq H2]. done.
Qed.

Lemma str_cons c s : str (String.String c s) = Z.of_N (Ascii.N_of_ascii c) :: str s.
Proof. done. Qed.

(** The digits [pretty] puts before what it has already written. *)
Lemma pretty_go_digits (n : N) : (0 < n)%N -> forall s,
  exists ds, str (pretty_N_go n s) = ds ++ str s /\ ds <> [] /\ Forall (fun c => is_digit c = true) ds /\ decimal ds = Z.of_N n.
Proof.
  induction (N.lt_wf_0 n) as [n _ IH]. intros Hn s. rewrite pretty_N_go_step by done.
  destruct (pretty_digit (n mod 10)) as (c & Hc & Hv & Hd); [apply N.mod_lt; lia|].
  destruct (decide (0 < n `div` 10)%N) as [Hp|Hz].
  - destruct (IH (n `div` 10)%N ltac:(apply N.div_lt; lia) Hp (String.String (pretty_N_char (n mod 10)) s)) as (ds & E & Hne & Hf & Hdec).
    exists (ds ++ [c]). rewrite E, str_cons, Hc, <- app_assoc. split_and!; [done|by destruct ds| |].
    + apply Forall_app. split; [done|by constructor].
    + rewrite decimal_snoc, Hdec, Hv. pose proof (N.div_mod n 10 ltac:(lia)). lia.
  - exists [c]. assert (n `div` 10 = 0)%N as Hq by (by apply N.le_0_r, N.nlt_ge). rewrite Hq, pretty_N_go_0, str_cons, Hc. split_and!; [done|done|by constructor|].
    unfold decimal. cbn. pose proof (N.div_mod n 10 ltac:(lia)). lia.
Qed.

Lemma to_string_digits z :
  0 <= z -> to_string z <> [] /\ Forall (fun c => is_digit c = true) (to_string z) /\ decimal (to_string z) = z.
Proof.
  intros Hz. unfold to_string. destruct z as [|p|p]; [|
    |lia].
  - split_and!; [done|by repeat constructor|done].
  - change (pretty (Z.pos p)) with (pretty (N.pos p)). unfold pretty, pretty_N.
    destruct (decide _) as [E|_]; [done|].
    destruct (pretty_go_digits (N.pos p) ltac:(lia) "") as (ds & -> & Hne & Hf & Hd). cbn [str]. rewrite app_nil_r.
    by split_and!.
Qed.

(** * Words that are printed *)

Lemma hex_digit_char v : 0 <= v < 16 -> in_range 48 57 (hex_digit v) || in_range 97 102 (hex_digit v) = true.
Proof.
  intros Hv. assert (forallb (fun v => in_range 48 57 (hex_digit v) || in_range 97 102 (hex_digit v)) (seqZ 0 16) = true)
    as H by (by vm_compute). rewrite forallb_forall in H. apply H, list_elem_of_In, elem_of_seqZ. lia.
Qed.

Lemma hex_chars b :
  bytes_ok b -> Forall (fun c => in_range 48 57 c || in_range 97 102 c = true) (to_hex b).
Proof.
  induction 1 as [|x b [Hx0 Hx1] _ IH]; [constructor|]. unfold to_hex in *. rewrite mjoin_fmap_cons. apply Forall_app. split; [|done].
  repeat constructor; apply hex_digit_char.
  - rewrite Z.shiftr_div_pow2 by lia. change (2 ^ 4) with 16. change (2 ^ 8) with 256 in Hx1.
    split; [apply Z.div_pos; lia|]. apply Z.div_lt_upper_bound; lia.
  - change 15 with (Z.ones 4). rewrite Z.land_ones by lia. apply Z.mod_pos_bound. done.
Qed.

Lemma hex_word b : bytes_ok b -> len b <> 0 -> word (to_hex b) /\ Forall (fun c => c <> 10) (to_hex b).
Proof.
  intros Hb Hl. pose proof (hex_chars b Hb) as Hc. split; [split; [rewrite to_hex_len; lia|]|];
    (eapply Forall_impl; [exact Hc|]); intros c; unfold is_space, in_range; lia.
Qed.

Lemma number_word n : 0 <= n -> word (to_string n) /\ Forall (fun c => c <> 10) (to_string n).
Proof.
  intros Hn. destruct (to_string_digits n Hn) as (Hne & Hd & _). split; [split; [by intros ?%len_zero_nil|]|];
    (eapply Forall_impl; [exact Hd|]); intros c; unfold is_digit, is_space, in_range; lia.
Qed.

Lemma take_digits_all l : Forall (fun c => is_digit c = true) l -> take_digits l = l.
Proof. induction 1 as [|c l Hc _ IH]; [done|]. cbn. by rewrite Hc, IH. Qed.

Lemma extract_to_string n : is_u64 n -> extract_u64 (to_string n) = n.
Proof.
  intros [H0 H1]. destruct (to_string_digits n H0) as (Hne & Hd & Hv). unfold extract_u64.
  assert (match to_string n with
          | c :: t => if c =? 45 then (true, t) else if c =? 43 then (false, t) else (false, to_string n)
          | [] => (false, [])
          end = (false, to_string n)) as ->.
  { destruct Hd as [|c t Hc _]; [done|]. unfold is_digit, in_range in Hc.
    destruct (Z.eqb_spec c 45); [lia|]. by destruct (Z.eqb_spec c 43); [lia|]. }
  rewrite take_digits_all, Hv by done. by destruct (Z.leb_spec (2 ^ 64) n); [lia|].
Qed.

Lemma not_in_check c l : forallb (fun x => negb (x =? c)) l = true -> c ∉ l.
Proof. rewrite forallb_forall. intros H Hin%list_elem_of_In%H. by rewrite Z.eqb_refl in Hin. Qed.

Lemma valid_name_chars u : valid_name u -> Forall (fun c => username_char c = true) u.
Proof.
  unfold valid_name, is_valid_username. destruct (_ || _); [done|]. destruct (forallb username_char u) eqn:E; [|done].
  intros _. by apply forallb_Forall in E.
Qed.

Lemma username_word u : valid_name u -> word u /\ Forall (fun c => c <> 10) u.
Proof.
  intros Hu. pose proof (valid_name_len u Hu) as Hl. apply valid_name_chars in Hu. split; [split; [lia|]|];
    (eapply Forall_impl; [exact Hu|]); intros c; unfold username_char, is_space, in_range; lia.
Qed.

Lemma take_digits_zdrop l : Forall (fun c => is_digit c = true) l -> zdrop (len (take_digits l)) l = [].
Proof. intros Hl. rewrite take_digits_all by done. apply zdrop_len. done. Qed.

(** A printed number is read back whole. *)
Lemma strtoul_to_string n : is_u64 n -> strtoul (to_string n) = (n, []).
Proof.
  intros [H0 H1]. destruct (to_string_digits n H0) as (Hne & Hd & Hv). unfold strtoul.
  assert (drop_while is_space (to_string n) = to_string n) as ->.
  { destruct Hd as [|c t Hc _]; [done|]. cbn. unfold is_digit, is_space, in_range in *.
    destruct (Z.eqb_spec c 32); [lia|]. destruct (Z.leb_spec 9 c), (Z.leb_spec c 13); try done; lia. }
  assert (match to_string n with
          | c :: t => if c =? 45 then (true, t) else if c =? 43 then (false, t) else (false, to_string n)
          | [] => (false, [])
          end = (false, to_string n)) as ->.
  { destruct Hd as [|c t Hc _]; [done|]. unfold is_digit, in_range in Hc.
    destruct (Z.eqb_spec c 45); [lia|]. by destruct (Z.eqb_spec c 43); [lia|]. }
  rewrite take_digits_zdrop, take_digits_all, Hv by done.
  destruct (Z.eqb_spec (len (to_string n)) 0) as [E%len_zero_nil|]; [done|]. by destruct (Z.leb_spec (2 ^ 64) n); [lia|].
Qed.

Lemma take_digits_digits l : Forall (fun c => is_digit c = true) (take_digits l).
Proof. induction l as [|c l IH]; cbn; [constructor|]. destruct (is_digit c) eqn:E; by constructor. Qed.

Lemma decimal_nonneg l : Forall (fun c => is_digit c = true) l -> 0 <= decimal l.
Proof.
  intros Hl. induction l as [|c l IH] using rev_ind; [done|]. apply Forall_app in Hl as [Hl Hc]. rewrite decimal_snoc.
  apply Forall_inv in Hc. unfold is_digit, in_range in Hc. specialize (IH Hl). lia.
Qed.

(** Whatever the text, the value is an [unsigned long]. *)
Lemma strtoul_range text v rest : strtoul text = (v, rest) -> is_u64 v.
Proof.
  unfold strtoul. destruct (match drop_while is_space text with [] => _ | _ => _ end) as [neg t].
  destruct (len (take_digits t) =? 0); [by intros [= <- <-]|]. intros [= <- <-].
  pose proof (decimal_nonneg _ (take_digits_digits t)). destruct (Z.leb_spec (2 ^ 64) (decimal (take_digits t))); [done|].
  destruct neg; [apply u64_range|done].
Qed.
