(* ===== verification/Getopt.v ===== *)
(** [getopt_long] of the C library as both programs use it: arguments are permuted, a long
    option may be abbreviated, short options may be run together, and ["--"] ends the options.

    One call after another returns the events in order; what is left in [argv] at the end
    are the operands. *)

From S2P Require Import Prelude Protocol.

Record long_option := mk_long_option { lo_name : bytes; lo_required : bool; lo_val : Z }.

(** What one call returns: an option with [optarg], or ['?']. *)
Inductive getopt_event := GotOption (val : Z) (optarg : bytes) | GotError.

Definition dash : Z := 45.

(** Whether the character is an option of [optstring], and whether it takes an argument. *)
Fixpoint short_option (c : Z) (optstring : bytes) : option bool :=
  match optstring with
  | [] => None
  | o :: optstring =>
      if (c =? o) && negb (c =? 58) then Some (match optstring with n :: _ => n =? 58 | [] => false end)
      else short_option c optstring
  end.

Definition long_eqb (a b : long_option) : bool := Bool.eqb (lo_required a) (lo_required b) && (lo_val a =? lo_val b).

(** An exact name, or one that every option beginning with it agrees on. *)
Definition find_long (longs : list long_option) (name : bytes) : option long_option :=
  match list_find (fun o => lo_name o = name) longs with
  | Some (_, o) => Some o
  | None =>
      match filter (fun o => name `prefix_of` lo_name o) longs with
      | [] => None
      | o :: others => if forallb (long_eqb o) others then Some o else None
      end
  end.

(** The name and, after ['='], the argument of ["--name=argument"] without its dashes. *)
Definition split_long (text : bytes) : bytes * option bytes :=
  match find_from 61 text 0 with
  | Some eq => (ztake eq text, Some (zdrop (eq + 1) text))
  | None => (text, None)
  end.

Section Getopt.
Context (optstring : bytes) (longs : list long_option).

(** Short options run together; the second result is an option that still needs its argument. *)
Fixpoint cluster (cs : bytes) : list getopt_event * option Z :=
  match cs with
  | [] => ([], None)
  | c :: cs =>
      match short_option c optstring with
      | None => let '(evs, open) := cluster cs in (GotError :: evs, open)
      | Some false => let '(evs, open) := cluster cs in (GotOption c [] :: evs, open)
      | Some true => if len cs =? 0 then ([], Some c) else ([GotOption c cs], None)
      end
  end.

(** One long option, in the same form. *)
Definition long (text : bytes) : list getopt_event * option Z :=
  let '(name, value) := split_long text in
  match find_long longs name with
  | None => ([GotError], None)
  | Some o =>
      match lo_required o, value with
      | true, Some v => ([GotOption (lo_val o) v], None)
      | true, None => ([], Some (lo_val o))
      | false, Some _ => ([GotError], None)
      | false, None => ([GotOption (lo_val o) []], None)
      end
  end.

Definition is_option (arg : bytes) : bool :=
  match arg with
  | c :: _ :: _ => c =? dash
  | _ => false
  end.

(** The events of all calls and the operands. *)
Fixpoint getopt_long (args : list bytes) : list getopt_event * list bytes :=
  match args with
  | [] => ([], [])
  | arg :: args =>
      if bool_decide (arg = [dash; dash]) then ([], args)
      else if negb (is_option arg) then
        let '(evs, operands) := getopt_long args in (evs, arg :: operands)
      else
        let '(first, open) := match arg with
                              | _ :: c :: text => if c =? dash then long text else cluster (c :: text)
                              | _ => ([], None)
                              end in
        match open with
        | None => let '(evs, operands) := getopt_long args in (first ++ evs, operands)
        | Some val =>
            match args with
            | [] => (first ++ [GotError], [])
            | value :: args => let '(evs, operands) := getopt_long args in (first ++ GotOption val value :: evs, operands)
            end
        end
  end.
End Getopt.

(** * How a command line ends *)

(** The printing of the help ends the process, with the message of an error or [None] for
    the help that was asked for. *)
Inductive parse_outcome (A : Type) := Parsed (a : A) | Exits (error : option bytes).
Arguments Parsed {A} a.
Arguments Exits {A} error.

Definition obind {A B} (o : parse_outcome A) (k : A -> parse_outcome B) : parse_outcome B :=
  match o with Parsed a => k a | Exits e => Exits e end.

Definition exit_code {A} (o : parse_outcome A) : option Z :=
  match o with Parsed _ => None | Exits None => Some 0 | Exits (Some _) => Some 1 end.

Lemma obind_parsed {A B} (o : parse_outcome A) (k : A -> parse_outcome B) b :
  obind o k = Parsed b -> exists a, o = Parsed a /\ k a = Parsed b.
Proof. destruct o; [by eauto|done]. Qed.

(** * Options among operands *)

(** An argument that is an operand. *)
Definition operand (arg : bytes) : Prop := is_option arg = false.

(** [args] has the arguments of [opts] and of [ops], each in its own order. *)
Inductive merged : list bytes -> list bytes -> list bytes -> Prop :=
  | merged_nil : merged [] [] []
  | merged_option o opts ops args : merged opts ops args -> merged (o :: opts) ops (o :: args)
  | merged_operand o opts ops args : operand o -> merged opts ops args -> merged opts (o :: ops) (o :: args).

(** An argument that is one option by itself. *)
Definition says (optstring : bytes) (longs : list long_option) (arg : bytes) (ev : getopt_event) : Prop :=
  forall args, getopt_long optstring longs (arg :: args) =
    let '(evs, operands) := getopt_long optstring longs args in (ev :: evs, operands).

Lemma operand_skipped optstring longs o args :
  operand o -> getopt_long optstring longs (o :: args) = let '(evs, operands) := getopt_long optstring longs args in (evs, o :: operands).
Proof.
  intros Ho. cbn [getopt_long]. destruct (bool_decide (o = [dash; dash])) eqn:E; [by apply bool_decide_eq_true_1 in E as ->|].
  by rewrite Ho.
Qed.

(** Options are found wherever they stand. *)
Lemma getopt_merged optstring longs opts ops args evs :
  merged opts ops args -> Forall2 (says optstring longs) opts evs -> getopt_long optstring longs args = (evs, ops).
Proof.
  intros Hm. revert evs. induction Hm as [|o opts ops args _ IH|o opts ops args Ho _ IH]; intros evs He.
  - by inversion He.
  - inversion He as [|? ev ? evs' Hsays Hrest]; subst. by rewrite Hsays, (IH evs').
  - by rewrite operand_skipped, (IH evs) by done.
Qed.

(** ["--name"] and ["--name=value"]. *)
Definition flag (name : string) : bytes := str "--" ++ str name.
Definition setting (name : string) (value : bytes) : bytes := str "--" ++ str name ++ [61] ++ value.

Lemma find_from_skip c l rest : c ∉ l -> find_from c (l ++ c :: rest) 0 = Some (len l).
Proof.
  intros Hc. unfold find_from. pose proof (len_nonneg (l ++ c :: rest)). destruct (Z.ltb_spec (len (l ++ c :: rest)) 0); [lia|].
  change (zdrop 0 (l ++ c :: rest)) with (l ++ c :: rest). rewrite list_find_app_r.
  - cbn. destruct (decide (c = c)); [|done]. cbn. unfold len. repeat f_equal; lia.
  - apply list_find_None, Forall_forall. intros x Hx ->. done.
Qed.

Lemma split_setting name value : 61 ∉ name -> split_long (name ++ 61 :: value) = (name, Some value).
Proof.
  intros Hn. unfold split_long. rewrite find_from_skip by done. rewrite ztake_app_len. f_equal. f_equal.
  change (name ++ 61 :: value) with (name ++ [61] ++ value). rewrite app_assoc.
  replace (len name + 1) with (len (name ++ [61])) by (by rewrite len_app). apply zdrop_app_len.
Qed.

Lemma setting_says optstring longs name value o :
  61 ∉ str name -> find_long longs (str name) = Some o -> lo_required o = true ->
  says optstring longs (setting name value) (GotOption (lo_val o) value).
Proof.
  intros Hn Hf Hr args. unfold setting. cbn [getopt_long app]. change (str "--") with [dash; dash]. cbn [app].
  destruct (bool_decide _) eqn:E.
  { apply bool_decide_eq_true_1 in E. injection E as E. apply (f_equal len) in E. rewrite len_app, len_cons, len_nil in E.
    pose proof (len_nonneg (str name)). pose proof (len_nonneg value). lia. }
  cbn [is_option negb]. rewrite Z.eqb_refl. unfold long. rewrite split_setting, Hf, Hr by done.
  by destruct (getopt_long optstring longs args).
Qed.

Lemma flag_says optstring longs name o :
  str name <> [] -> split_long (str name) = (str name, None) -> find_long longs (str name) = Some o -> lo_required o = false ->
  says optstring longs (flag name) (GotOption (lo_val o) []).
Proof.
  intros Hne Hs Hf Hr args. unfold flag. change (str "--") with [dash; dash]. cbn [getopt_long app].
  destruct (bool_decide _) eqn:E; [apply bool_decide_eq_true_1 in E; by injection E|].
  cbn [is_option negb]. rewrite Z.eqb_refl. unfold long. rewrite Hs, Hf, Hr. by destruct (getopt_long optstring longs args).
Qed.
