(* ===== verification/Cli.v ===== *)
(** The client's command line, [client/src/cli.cpp].

    [print_help] is the outcome [Exits]. *)

From S2P Require Import Prelude Protocol Messages Text Getopt.

Inductive Command :=
  | CmdNone | CmdSetup | CmdAccept | CmdSend | CmdWhoAmI | CmdStatus | CmdSetServer | CmdSetOutput | CmdSetPublicPassword
  | CmdHelp | CmdVersion.

#[global] Instance Command_eq_dec : EqDecision Command.
Proof. solve_decision. Defined.

Record CommandLine := mk_CommandLine {
  command : Command;
  inputs : list bytes;
  target : bytes;
  group : bytes;
  public_password : bytes;
  output_directory : bytes;
  encrypt : bool;
  encrypt_set : bool;
  verify : bool;
  verify_set : bool;
  assume_yes : bool;
  once : bool;
  server_host : bytes;
  server_port : Z;
  force_transport : TransportKind;
  config_directory : bytes;
  log_level : bytes;
  quiet : bool;
  verbose : bool;
}.

Definition CommandLine_default : CommandLine :=
  mk_CommandLine CmdNone [] [] [] [] [] true false false false false false [] 0 NoTransport [] [] false false.

Definition print_help {A} (error : option bytes) : parse_outcome A := Exits error.
Definition usage {A} (message : string) : parse_outcome A := print_help (Some (str message)).

(** One assignment each. *)
Section Setters.
Context (l : CommandLine).
Definition with_command v := mk_CommandLine v (inputs l) (target l) (group l) (public_password l) (output_directory l) (encrypt l) (encrypt_set l) (verify l) (verify_set l) (assume_yes l) (once l) (server_host l) (server_port l) (force_transport l) (config_directory l) (log_level l) (quiet l) (verbose l).
Definition with_inputs v := mk_CommandLine (command l) v (target l) (group l) (public_password l) (output_directory l) (encrypt l) (encrypt_set l) (verify l) (verify_set l) (assume_yes l) (once l) (server_host l) (server_port l) (force_transport l) (config_directory l) (log_level l) (quiet l) (verbose l).
Definition with_target v := mk_CommandLine (command l) (inputs l) v (group l) (public_password l) (output_directory l) (encrypt l) (encrypt_set l) (verify l) (verify_set l) (assume_yes l) (once l) (server_host l) (server_port l) (force_transport l) (config_directory l) (log_level l) (quiet l) (verbose l).
Definition with_group v := mk_CommandLine (command l) (inputs l) (target l) v (public_password l) (output_directory l) (encrypt l) (encrypt_set l) (verify l) (verify_set l) (assume_yes l) (once l) (server_host l) (server_port l) (force_transport l) (config_directory l) (log_level l) (quiet l) (verbose l).
Definition with_password v := mk_CommandLine (command l) (inputs l) (target l) (group l) v (output_directory l) (encrypt l) (encrypt_set l) (verify l) (verify_set l) (assume_yes l) (once l) (server_host l) (server_port l) (force_transport l) (config_directory l) (log_level l) (quiet l) (verbose l).
Definition with_output v := mk_CommandLine (command l) (inputs l) (target l) (group l) (public_password l) v (encrypt l) (encrypt_set l) (verify l) (verify_set l) (assume_yes l) (once l) (server_host l) (server_port l) (force_transport l) (config_directory l) (log_level l) (quiet l) (verbose l).
Definition with_encrypt v := mk_CommandLine (command l) (inputs l) (target l) (group l) (public_password l) (output_directory l) v true (verify l) (verify_set l) (assume_yes l) (once l) (server_host l) (server_port l) (force_transport l) (config_directory l) (log_level l) (quiet l) (verbose l).
Definition with_verify v := mk_CommandLine (command l) (inputs l) (target l) (group l) (public_password l) (output_directory l) (encrypt l) (encrypt_set l) v true (assume_yes l) (once l) (server_host l) (server_port l) (force_transport l) (config_directory l) (log_level l) (quiet l) (verbose l).
Definition with_yes := mk_CommandLine (command l) (inputs l) (target l) (group l) (public_password l) (output_directory l) (encrypt l) (encrypt_set l) (verify l) (verify_set l) true (once l) (server_host l) (server_port l) (force_transport l) (config_directory l) (log_level l) (quiet l) (verbose l).
Definition with_once := mk_CommandLine (command l) (inputs l) (target l) (group l) (public_password l) (output_directory l) (encrypt l) (encrypt_set l) (verify l) (verify_set l) (assume_yes l) true (server_host l) (server_port l) (force_transport l) (config_directory l) (log_level l) (quiet l) (verbose l).
Definition with_server host port := mk_CommandLine (command l) (inputs l) (target l) (group l) (public_password l) (output_directory l) (encrypt l) (encrypt_set l) (verify l) (verify_set l) (assume_yes l) (once l) host port (force_transport l) (config_directory l) (log_level l) (quiet l) (verbose l).
Definition with_transport v := mk_CommandLine (command l) (inputs l) (target l) (group l) (public_password l) (output_directory l) (encrypt l) (encrypt_set l) (verify l) (verify_set l) (assume_yes l) (once l) (server_host l) (server_port l) v (config_directory l) (log_level l) (quiet l) (verbose l).
Definition with_config_directory v := mk_CommandLine (command l) (inputs l) (target l) (group l) (public_password l) (output_directory l) (encrypt l) (encrypt_set l) (verify l) (verify_set l) (assume_yes l) (once l) (server_host l) (server_port l) (force_transport l) v (log_level l) (quiet l) (verbose l).
Definition with_log_level v := mk_CommandLine (command l) (inputs l) (target l) (group l) (public_password l) (output_directory l) (encrypt l) (encrypt_set l) (verify l) (verify_set l) (assume_yes l) (once l) (server_host l) (server_port l) (force_transport l) (config_directory l) v (quiet l) (verbose l).
Definition with_quiet := mk_CommandLine (command l) (inputs l) (target l) (group l) (public_password l) (output_directory l) (encrypt l) (encrypt_set l) (verify l) (verify_set l) (assume_yes l) (once l) (server_host l) (server_port l) (force_transport l) (config_directory l) (log_level l) true (verbose l).
Definition with_verbose := mk_CommandLine (command l) (inputs l) (target l) (group l) (public_password l) (output_directory l) (encrypt l) (encrypt_set l) (verify l) (verify_set l) (assume_yes l) (once l) (server_host l) (server_port l) (force_transport l) (config_directory l) (log_level l) (quiet l) true.
End Setters.

(** * Parsing *)

Definition command_names : list (bytes * Command) := [
  (str "setup", CmdSetup); (str "accept", CmdAccept); (str "receive", CmdAccept); (str "send", CmdSend);
  (str "whoami", CmdWhoAmI); (str "status", CmdStatus); (str "set-server", CmdSetServer); (str "set-output", CmdSetOutput);
  (str "set-public-password", CmdSetPublicPassword); (str "help", CmdHelp); (str "version", CmdVersion)].

Definition parse_command (text : bytes) : Command :=
  match list_find (fun p => p.1 = text) command_names with
  | Some (_, (_, c)) => c
  | None => CmdNone
  end.

(** [std::string::rfind] of a character. *)
Definition rfind (c : Z) (l : bytes) : option Z :=
  (fun p => len l - 1 - Z.of_nat p.1) <$> list_find (fun x => x = c) (reverse l).

(** A bare host leaves the port as it was. *)
Definition parse_server (text : bytes) (port : Z) : parse_outcome (bytes * Z) :=
  match rfind 58 text with
  | Some colon =>
      if bool_decide (find_from 58 text 0 = Some colon) then
        let port_text := zdrop (colon + 1) text in
        let '(parsed, end_) := strtoul port_text in
        if bool_decide (end_ = port_text) || negb (len end_ =? 0) || (parsed =? 0) || (65535 <? parsed) then
          usage "--server needs HOST or HOST:PORT"
        else Parsed (ztake colon text, u16 parsed)
      else Parsed (text, port)
  | None => Parsed (text, port)
  end.

Definition kNoEncrypt : Z := 1000.
Definition kEncrypt : Z := 1001.
Definition kVerify : Z := 1002.
Definition kNoVerify : Z := 1003.
Definition kOnce : Z := 1004.
Definition kServer : Z := 1005.
Definition kForceTransport : Z := 1006.
Definition kConfigDir : Z := 1007.
Definition kLogLevel : Z := 1008.
Definition kGroup : Z := 1009.

Definition short_options : bytes := str "t:p:o:yqvhV".

Definition long_options : list long_option := [
  mk_long_option (str "target") true 116; mk_long_option (str "password") true 112; mk_long_option (str "output") true 111;
  mk_long_option (str "yes") false 121; mk_long_option (str "quiet") false 113; mk_long_option (str "verbose") false 118;
  mk_long_option (str "help") false 104; mk_long_option (str "version") false 86;
  mk_long_option (str "no-encrypt") false kNoEncrypt; mk_long_option (str "encrypt") false kEncrypt;
  mk_long_option (str "verify") false kVerify; mk_long_option (str "no-verify") false kNoVerify;
  mk_long_option (str "once") false kOnce; mk_long_option (str "server") true kServer;
  mk_long_option (str "force-transport") true kForceTransport; mk_long_option (str "config-dir") true kConfigDir;
  mk_long_option (str "log-level") true kLogLevel; mk_long_option (str "group") true kGroup].

(** The [switch] of the option loop: [inr] goes on, [inl] is the early return. *)
Definition apply_option (opt : Z) (optarg : bytes) (l : CommandLine) : parse_outcome (CommandLine + CommandLine) :=
  if opt =? 116 then Parsed (inr (with_target l optarg))
  else if opt =? 112 then Parsed (inr (with_password l optarg))
  else if opt =? 111 then Parsed (inr (with_output l optarg))
  else if opt =? 121 then Parsed (inr (with_yes l))
  else if opt =? 113 then Parsed (inr (with_quiet l))
  else if opt =? 118 then Parsed (inr (with_verbose l))
  else if opt =? 104 then print_help None
  else if opt =? 86 then Parsed (inl (with_command l CmdVersion))
  else if opt =? kNoEncrypt then Parsed (inr (with_encrypt l false))
  else if opt =? kEncrypt then Parsed (inr (with_encrypt l true))
  else if opt =? kVerify then Parsed (inr (with_verify l true))
  else if opt =? kNoVerify then Parsed (inr (with_verify l false))
  else if opt =? kOnce then Parsed (inr (with_once l))
  else if opt =? kServer then
    obind (parse_server optarg (server_port l)) (fun hp => Parsed (inr (with_server l hp.1 hp.2)))
  else if opt =? kForceTransport then
    match parse_transport_kind optarg with
    | Some k => Parsed (inr (with_transport l k))
    | None => usage "--force-transport must be tcp, udp, relay or auto"
    end
  else if opt =? kConfigDir then Parsed (inr (with_config_directory l optarg))
  else if opt =? kLogLevel then Parsed (inr (with_log_level l optarg))
  else if opt =? kGroup then Parsed (inr (with_group l optarg))
  else usage "unrecognised option".

Fixpoint apply_options (evs : list getopt_event) (l : CommandLine) : parse_outcome (CommandLine + CommandLine) :=
  match evs with
  | [] => Parsed (inr l)
  | GotError :: _ => usage "unrecognised option"
  | GotOption opt optarg :: evs =>
      obind (apply_option opt optarg l) (fun r =>
        match r with
        | inl done_ => Parsed (inl done_)
        | inr l => apply_options evs l
        end)
  end.

Definition empty (b : bytes) : bool := len b =? 0.

(** The [switch] on the command at the end. *)
Definition check_command (l : CommandLine) : parse_outcome CommandLine :=
  match command l with
  | CmdSend =>
      if len (inputs l) =? 0 then usage "say which file or directory to send"
      else if Bool.eqb (empty (target l)) (empty (group l)) then
        usage "say who to send to with --target or --group (not both)"
      else if negb (empty (target l)) && negb (is_valid_username (target l)) then
        usage "a username may only contain lowercase letters, digits, '-', '_' and '.'"
      else if negb (empty (group l)) && negb (is_valid_username (group l)) then
        usage "a group name may only contain lowercase letters, digits, '-', '_' and '.'"
      else Parsed l
  | CmdAccept =>
      if negb (len (inputs l) =? 0) then usage "`accept` takes no file arguments"
      else if negb (empty (group l)) && negb (is_valid_username (group l)) then
        usage "a group name may only contain lowercase letters, digits, '-', '_' and '.'"
      else Parsed l
  | CmdSetServer =>
      match inputs l with
      | [text] =>
          obind (parse_server text (server_port l)) (fun hp =>
            if empty hp.1 then usage "`set-server` needs HOST or HOST:PORT"
            else Parsed (with_server l hp.1 hp.2))
      | _ => usage "`set-server` needs HOST or HOST:PORT"
      end
  | CmdSetOutput =>
      match inputs l with
      | [directory] => Parsed (with_output l directory)
      | _ => usage "`set-output` needs a directory"
      end
  | CmdSetPublicPassword =>
      if negb (len (inputs l) =? 0) then usage "`set-public-password` takes no arguments; it will ask" else Parsed l
  | _ => Parsed l
  end.

(** [argv] with the name of the program first. *)
Definition parse_command_line (argv : list bytes) : parse_outcome CommandLine :=
  match argv with
  | _ :: word :: args =>
      let command := parse_command word in
      if bool_decide (command = CmdNone) then
        if bool_decide (word = str "-h") || bool_decide (word = str "--help") then print_help None
        else if bool_decide (word = str "-V") || bool_decide (word = str "--version") then
          Parsed (with_command CommandLine_default CmdVersion)
        else print_help (Some (str "unknown command '" ++ word ++ str "'"))
      else
        let '(evs, operands) := getopt_long short_options long_options args in
        obind (apply_options evs (with_command CommandLine_default command)) (fun r =>
          match r with
          | inl done_ => Parsed done_
          | inr l => check_command (with_inputs l operands)
          end)
  | _ => usage "no command given"
  end.

(** * What a command line that is accepted promises *)

(** A switch that was not given has its default. *)
Definition defaults_kept (l : CommandLine) : Prop :=
  0 <= server_port l <= 65535 /\ (encrypt_set l = false -> encrypt l = true) /\ (verify_set l = false -> verify l = false).

(** Exactly one of the two recipients of [send], spelled as a username. *)
Definition one_recipient (l : CommandLine) : Prop :=
  (valid_name (target l) /\ group l = []) \/ (target l = [] /\ valid_name (group l)).

Definition wellformed (l : CommandLine) : Prop :=
  defaults_kept l /\
  match command l with
  | CmdNone => False
  | CmdSend => inputs l <> [] /\ one_recipient l
  | CmdAccept => inputs l = [] /\ (group l = [] \/ valid_name (group l))
  | CmdSetServer => server_host l <> [] /\ len (inputs l) = 1
  | CmdSetOutput => inputs l = [output_directory l]
  | CmdSetPublicPassword => inputs l = []
  | _ => True
  end.

Lemma empty_spec b : empty b = true <-> b = [].
Proof. unfold empty. rewrite Z.eqb_eq. split; [apply len_zero_nil|by intros ->]. Qed.

Lemma empty_false b : empty b = false <-> b <> [].
Proof. rewrite <- not_true_iff_false. by rewrite empty_spec. Qed.

(** The port is the one it was, or one that fits. *)
Lemma parse_server_port text port hp :
  parse_server text port = Parsed hp -> hp.2 = port \/ 1 <= hp.2 <= 65535.
Proof.
  unfold parse_server. destruct (rfind 58 text) as [colon|]; [|intros [= <-]; by left].
  destruct (bool_decide _); [|intros [= <-]; by left].
  destruct (strtoul _) as [parsed end_] eqn:Es.
  pose proof (strtoul_range _ _ _ Es) as [Hp _].
  destruct (_ || _ || _ || _) eqn:E; [done|]. intros [= <-]. right. cbn. rewrite u16_small by (unfold is_u; lia). lia.
Qed.

Ltac parse_cases H :=
  unfold apply_option in H;
  repeat match type of H with
  | (if ?b then _ else _) = Parsed _ => destruct b eqn:?
  end.

Lemma apply_option_kept opt optarg l r :
  defaults_kept l -> apply_option opt optarg l = Parsed r ->
  match r with
  | inl l' => command l' = CmdVersion /\ defaults_kept l'
  | inr l' => command l' = command l /\ defaults_kept l'
  end.
Proof.
  intros Hk H. parse_cases H; try done; try (injection H as <-; unfold defaults_kept in *; cbn; naive_solver).
  - apply obind_parsed in H as (hp & Hs & [= <-]). apply parse_server_port in Hs. destruct Hk as (? & ? & ?).
    split; [done|]. unfold defaults_kept. cbn. split; [lia|done].
  - destruct (parse_transport_kind optarg); [|done]. by injection H as <-.
Qed.

Lemma apply_options_kept evs l r :
  defaults_kept l -> apply_options evs l = Parsed r ->
  match r with
  | inl l' => command l' = CmdVersion /\ defaults_kept l'
  | inr l' => command l' = command l /\ defaults_kept l'
  end.
Proof.
  revert l. induction evs as [|[opt optarg|] evs IH]; intros l Hk H; [by injection H as <-| |done].
  cbn in H. apply obind_parsed in H as ([l'|l'] & Ho & H); apply apply_option_kept in Ho as [Hc Hk']; try done.
  - by injection H as <-.
  - apply IH in H; [|done]. by destruct r; rewrite ?Hc in H.
Qed.

Lemma check_command_wellformed l l' :
  defaults_kept l -> command l <> CmdNone -> check_command l = Parsed l' -> wellformed l'.
Proof.
  intros Hk Hn. unfold check_command, wellformed, one_recipient.
  destruct (command l) eqn:Ec; try done; try (intros [= <-]; by rewrite Ec).
  - destruct (len (inputs l) =? 0) eqn:Ei; [|done]. cbn. apply Z.eqb_eq, len_zero_nil in Ei.
    destruct (empty (group l)) eqn:Eg; [|destruct (is_valid_username (group l)) eqn:Ev; [|done]]; cbn; intros [= <-]; rewrite Ec;
      (split; [done|]; split; [done|]); [left; by apply empty_spec|by right].
  - destruct (Z.eqb_spec (len (inputs l)) 0) as [|Hi]; [done|].
    assert (inputs l <> []) by (by intros Hi'; rewrite Hi' in Hi).
    destruct (empty (target l)) eqn:Et, (empty (group l)) eqn:Eg; cbn; try done.
    + destruct (is_valid_username (group l)) eqn:Ev; [|done]. intros [= <-]. rewrite Ec. split; [done|]. split; [done|]. right. by rewrite <- empty_spec.
    + destruct (is_valid_username (target l)) eqn:Ev; [|done]. intros [= <-]. rewrite Ec. split; [done|]. split; [done|]. left. by rewrite <- empty_spec.
  - destruct (inputs l) as [|text [|? ?]] eqn:Ei; try done. intros H. apply obind_parsed in H as (hp & Hs & H).
    destruct (empty hp.1) eqn:Eh; [done|]. injection H as <-. cbn. rewrite Ec, Ei. apply parse_server_port in Hs.
    destruct Hk as (? & ? & ?). split; [unfold defaults_kept; cbn; split; [lia|done]|]. by rewrite <- empty_false.
  - destruct (inputs l) as [|text [|? ?]] eqn:Ei; try done. intros [= <-]. cbn. by rewrite Ec, Ei.
  - destruct (len (inputs l) =? 0) eqn:Ei; [|done]. cbn. apply Z.eqb_eq, len_zero_nil in Ei. intros [= <-]. by rewrite Ec.
Qed.



(** * Writing a command line *)

Definition given (name : string) (value : bytes) : list bytes := if empty value then [] else [setting name value].
Definition switched (name : string) (on : bool) : list bytes := if on then [flag name] else [].

(** ["host"] or ["host:port"]. *)
Definition server_text (host : bytes) (port : Z) : bytes := if port =? 0 then host else host ++ 58 :: to_string port.

Definition transport_word (k : TransportKind) : bytes :=
  match k with NoTransport => [] | DirectTcp => str "tcp" | HolePunchUdp => str "udp" | ServerRelay => str "relay" end.

(** The options that say what [l] says. *)
Definition options_of (l : CommandLine) : list bytes :=
  given "target" (target l) ++ given "group" (group l) ++ given "password" (public_password l) ++
  given "output" (output_directory l) ++ given "server" (server_text (server_host l) (server_port l)) ++
  given "force-transport" (transport_word (force_transport l)) ++
  given "config-dir" (config_directory l) ++ given "log-level" (log_level l) ++
  (if encrypt_set l then [flag (if encrypt l then "encrypt" else "no-encrypt")] else []) ++
  (if verify_set l then [flag (if verify l then "verify" else "no-verify")] else []) ++
  switched "yes" (assume_yes l) ++ switched "once" (once l) ++ switched "quiet" (quiet l) ++ switched "verbose" (verbose l).

(** A host that [parse_server] does not split. *)
Definition plain_host (host : bytes) (port : Z) : Prop :=
  if port =? 0 then rfind 58 host = None \/ find_from 58 host 0 <> rfind 58 host else 58 ∉ host.

(** What the options cannot say: a host with a port in it, and for [set-server] and
    [set-output] a setting other than their operand. *)
Definition writable (l : CommandLine) : Prop :=
  plain_host (server_host l) (server_port l) /\
  match command l with
  | CmdSetServer => inputs l = [server_text (server_host l) (server_port l)]
  | _ => True
  end.

(** A stretch of options and the structure they make of another. *)
Definition options_do (args : list bytes) (l l' : CommandLine) : Prop :=
  exists evs, Forall2 (says short_options long_options) args evs /\
    forall evs', apply_options (evs ++ evs') l = apply_options evs' l'.

Lemma options_do_nil l : options_do [] l l.
Proof. exists []. split; [constructor|done]. Qed.

Lemma options_do_app args1 args2 l1 l2 l3 : options_do args1 l1 l2 -> options_do args2 l2 l3 -> options_do (args1 ++ args2) l1 l3.
Proof.
  intros (e1 & Hs1 & H1) (e2 & Hs2 & H2). exists (e1 ++ e2). split; [by apply Forall2_app|].
  intros evs'. by rewrite <- app_assoc, H1, H2.
Qed.

Lemma setting_does name value o l l' :
  forallb (fun x => negb (x =? 61)) (str name) = true -> find_long long_options (str name) = Some o -> lo_required o = true ->
  apply_option (lo_val o) value l = Parsed (inr l') -> options_do [setting name value] l l'.
Proof.
  intros Hn Hf Hr Ha. exists [GotOption (lo_val o) value]. split.
  - constructor; [|constructor]. apply setting_says; [by apply not_in_check|done..].
  - intros evs'. cbn [app apply_options]. by rewrite Ha.
Qed.

Lemma flag_does name o l l' :
  split_long (str name) = (str name, None) -> find_long long_options (str name) = Some o -> lo_required o = false ->
  apply_option (lo_val o) [] l = Parsed (inr l') -> options_do [flag name] l l'.
Proof.
  intros Hs Hf Hr Ha. exists [GotOption (lo_val o) []]. split.
  - constructor; [|constructor]. apply flag_says; [|done..]. intros Hn. by rewrite Hn in Hf.
  - intros evs'. cbn [app apply_options]. by rewrite Ha.
Qed.

(** A setting that is left out is one that already has its value. *)
Lemma given_does name value o l l' :
  forallb (fun x => negb (x =? 61)) (str name) = true -> find_long long_options (str name) = Some o -> lo_required o = true ->
  (value = [] -> l' = l) -> (value <> [] -> apply_option (lo_val o) value l = Parsed (inr l')) -> options_do (given name value) l l'.
Proof.
  intros Hn Hf Hr He Ha. unfold given. destruct (empty value) eqn:E.
  - apply empty_spec in E. rewrite (He E). apply options_do_nil.
  - apply empty_false in E. by eapply setting_does; eauto.
Qed.

Lemma switched_does name on o l l' :
  split_long (str name) = (str name, None) -> find_long long_options (str name) = Some o -> lo_required o = false ->
  (on = false -> l' = l) -> (on = true -> apply_option (lo_val o) [] l = Parsed (inr l')) -> options_do (switched name on) l l'.
Proof.
  intros Hs Hf Hr He Ha. unfold switched. destruct on; [by eapply flag_does; eauto|]. rewrite (He eq_refl). apply options_do_nil.
Qed.

(** ** The server *)

Lemma rfind_skip c l rest : c ∉ rest -> rfind c (l ++ c :: rest) = Some (len l).
Proof.
  intros Hc. unfold rfind. rewrite reverse_app, reverse_cons, <- app_assoc. rewrite list_find_app_r.
  - cbn. destruct (decide (c = c)); [|done]. cbn. rewrite len_app, len_cons, length_reverse. unfold len. f_equal. lia.
  - apply list_find_None, Forall_forall. intros x Hx ->. by rewrite elem_of_reverse in Hx.
Qed.

Lemma server_text_parsed host port old :
  0 <= port <= 65535 -> plain_host host port -> (port = 0 -> old = 0) ->
  parse_server (server_text host port) old = Parsed (host, port).
Proof.
  intros Hp Hh Ho. unfold parse_server, server_text, plain_host in *. destruct (Z.eqb_spec port 0) as [->|Hz].
  - rewrite (Ho eq_refl). destruct (rfind 58 host) as [colon|]; [|done]. rewrite bool_decide_eq_false_2; [done|]. naive_solver.
  - destruct (to_string_digits port ltac:(lia)) as (Hne & Hd & _). rewrite rfind_skip, find_from_skip; [|done|].
    2:{ intros Hin. rewrite Forall_forall in Hd. by specialize (Hd _ Hin). }
    rewrite bool_decide_eq_true_2 by done.
    change (host ++ 58 :: to_string port) with (host ++ [58] ++ to_string port). rewrite (app_assoc host).
    replace (len host + 1) with (len (host ++ [58])) by (by rewrite len_app). rewrite zdrop_app_len.
    rewrite strtoul_to_string by (unfold is_u; lia). rewrite bool_decide_eq_false_2 by (by intros E; rewrite <- E in Hne). cbn [orb].
    destruct (Z.eqb_spec port 0); [lia|]. destruct (Z.ltb_spec 65535 port); [lia|]. cbn [orb negb].
    rewrite <- app_assoc, ztake_app_len, u16_small by (unfold is_u; lia). done.
Qed.

(** ** The whole line *)

Lemma eta_command_line l :
  mk_CommandLine (command l) (inputs l) (target l) (group l) (public_password l) (output_directory l) (encrypt l) (encrypt_set l)
    (verify l) (verify_set l) (assume_yes l) (once l) (server_host l) (server_port l) (force_transport l) (config_directory l)
    (log_level l) (quiet l) (verbose l) = l.
Proof. by destruct l. Qed.

Lemma check_command_ok l : wellformed l -> writable l -> check_command l = Parsed l.
Proof.
  unfold wellformed, writable, check_command, one_recipient. intros [(Hp & _ & _) Hw] [Hh Hi].
  destruct (command l) eqn:Ec; try done.
  - destruct Hw as [-> [->|Hg]]; cbn; [done|]. unfold valid_name in Hg. rewrite Hg. by rewrite andb_false_r.
  - destruct Hw as [Hin Hr]. destruct (Z.eqb_spec (len (inputs l)) 0) as [E%len_zero_nil|_]; [done|].
    destruct Hr as [[Hv Hg]|[Ht Hv]]; pose proof (valid_name_len _ Hv) as Hlen; unfold valid_name in Hv; rewrite Hv, ?Hg, ?Ht.
    + unfold empty at 1. destruct (Z.eqb_spec (len (target l)) 0); [lia|]. cbn. by rewrite andb_false_r.
    + unfold empty at 2. destruct (Z.eqb_spec (len (group l)) 0); [lia|]. cbn. by rewrite andb_false_r.
  - destruct Hw as [Hhost _]. rewrite Hi. rewrite server_text_parsed by done. cbn [obind fst snd].
    rewrite (proj2 (empty_false _) Hhost). unfold with_server. by rewrite eta_command_line.
  - rewrite Hw. unfold with_output. by rewrite eta_command_line.
  - by rewrite Hw.
Qed.

Lemma transport_word_parsed k : k <> NoTransport -> parse_transport_kind (transport_word k) = Some k.
Proof. by destruct k. Qed.

Lemma server_does l host port :
  0 <= port <= 65535 -> plain_host host port -> server_host l = [] -> server_port l = 0 ->
  options_do (given "server" (server_text host port)) l (with_server l host port).
Proof.
  intros Hp Hh Hh0 Hp0. eapply given_does; [done|reflexivity|done| |].
  - unfold server_text. destruct (Z.eqb_spec port 0) as [->|]; [|by destruct host]. intros ->.
    unfold with_server. by rewrite <- Hh0, <- Hp0, eta_command_line.
  - intros _. cbn. by rewrite server_text_parsed.
Qed.

Ltac say_setting := eapply given_does; [done|reflexivity|done|by intros ->|done].
Ltac say_switch l := eapply switched_does; [done|reflexivity|done|by unfold l; intros ->..].

(** The options build the structure, one field after another. *)
Lemma options_of_do l :
  defaults_kept l -> plain_host (server_host l) (server_port l) ->
  exists l', options_do (options_of l) (with_command CommandLine_default (command l)) l' /\ with_inputs l' (inputs l) = l.
Proof.
  destruct l as [c i t g p o e es v vs y on h port k cd ll q vb]. unfold defaults_kept. cbn. intros (Hp & He & Hv) Hh.
  exists (mk_CommandLine c [] t g p o e es v vs y on h port k cd ll q vb). split; [|done]. unfold options_of. cbn.
  pose (l1 := with_target (with_command CommandLine_default c) t). pose (l2 := with_group l1 g). pose (l3 := with_password l2 p).
  pose (l4 := with_output l3 o). pose (l5 := with_server l4 h port). pose (l6 := with_transport l5 k).
  pose (l7 := with_config_directory l6 cd). pose (l8 := with_log_level l7 ll).
  pose (l9 := if es then with_encrypt l8 e else l8). pose (l10 := if vs then with_verify l9 v else l9).
  pose (l11 := if y then with_yes l10 else l10). pose (l12 := if on then with_once l11 else l11).
  pose (l13 := if q then with_quiet l12 else l12).
  apply (options_do_app _ _ _ l1); [say_setting|].
  apply (options_do_app _ _ _ l2); [say_setting|].
  apply (options_do_app _ _ _ l3); [say_setting|].
  apply (options_do_app _ _ _ l4); [say_setting|].
  apply (options_do_app _ _ _ l5); [by apply server_does|].
  apply (options_do_app _ _ _ l6); [eapply given_does; [done|reflexivity|done|by destruct k|by destruct k]|].
  apply (options_do_app _ _ _ l7); [say_setting|].
  apply (options_do_app _ _ _ l8); [say_setting|].
  apply (options_do_app _ _ _ l9).
  { unfold l9. destruct es; [|apply options_do_nil]. by destruct e; (eapply flag_does; [done|reflexivity|done..]). }
  apply (options_do_app _ _ _ l10).
  { unfold l10. destruct vs; [|apply options_do_nil]. by destruct v; (eapply flag_does; [done|reflexivity|done..]). }
  apply (options_do_app _ _ _ l11); [say_switch l11|].
  apply (options_do_app _ _ _ l12); [say_switch l12|].
  apply (options_do_app _ _ _ l13); [say_switch l13|].
  replace (mk_CommandLine _ _ _ _ _ _ _ _ _ _ _ _ _ _ _ _ _ _ _) with (if vb then with_verbose l13 else l13); [say_switch l13|].
  destruct es; [|rewrite He by done]; destruct vs; try rewrite Hv by done; by destruct vb, q, on, y.
Qed.


Definition sample_line : CommandLine :=
  with_server (with_verify (with_target (with_inputs (with_command CommandLine_default CmdSend) [str "a.txt"; str "b"]) (str "alice")) true) (str "example.org") 443.


(** Numbers that are not ports: a port is read modulo [2 ^ 64] when it has a minus sign, and
    an address in brackets is one host with its port in it. *)
Lemma server_oddities :
  parse_server (str "h:-18446744073709551615") 0 = Parsed (str "h", 1) /\
  parse_server (str "[::1]:9000") 0 = Parsed (str "[::1]:9000", 0) /\
  (exists l, parse_command_line (str <$> ["drop-zone"; "status"; "--server=a:1"; "--server=b"]) = Parsed l /\
     server_host l = str "b" /\ server_port l = 1).
Proof. split_and!; [by vm_compute..|]. eexists. by vm_compute. Qed.
