(* ===== verification/Address.v ===== *)
(** Endpoints as text, [Endpoint::parse], [ip_string] and [to_string] of
    [common/src/socket.cpp]. [Inet] is [inet_pton] and [inet_ntop] of the C library, for each
    family; [InetLaws] is what the code relies on of them. *)

From S2P Require Import Prelude Socket Protocol Paths Messages Text Getopt Cli.

Class Inet := {
  inet_pton4 : bytes -> option bytes;
  inet_pton6 : bytes -> option bytes;
  inet_ntop4 : bytes -> bytes;
  inet_ntop6 : bytes -> bytes;
}.

Class InetLaws `{Inet} := {
  pton4_ntop4 a : fixed 4 a -> inet_pton4 (inet_ntop4 a) = Some a;
  pton6_ntop6 a : fixed 16 a -> inet_pton6 (inet_ntop6 a) = Some a;
  ntop4_plain a : fixed 4 a -> inet_ntop4 a <> [] /\ (58 ∉ inet_ntop4 a) /\ (91 ∉ inet_ntop4 a);
  ntop6_colons a : fixed 16 a -> 58 ∈ inet_ntop6 a /\ (93 ∉ inet_ntop6 a);
  pton4_colons t a : inet_pton4 t = Some a -> 58 ∉ t;
}.

Section Text.
Context `{Inet}.

Definition ip_string (e : Endpoint) : bytes :=
  match e with
  | EpV4 _ a => inet_ntop4 a
  | EpV6 _ _ a _ => inet_ntop6 a
  | EpOther _ => str "unspecified"
  end.

Definition endpoint_to_string (e : Endpoint) : bytes :=
  match e with
  | EpV6 p _ _ _ => str "[" ++ ip_string e ++ str "]:" ++ to_string p
  | EpV4 p _ => ip_string e ++ str ":" ++ to_string p
  | EpOther _ => str "unspecified"
  end.

(** The host and the port of ["host:port"] or ["[host]:port"]. *)
Definition split_endpoint (text : bytes) : option (bytes * bytes) :=
  if bool_decide (head text = Some 91) then
    match find_from 93 text 0 with
    | None => None
    | Some close =>
        if (len text <=? close + 2) || negb (bool_decide (text !! Z.to_nat (close + 1) = Some 58)) then None
        else Some (substr text 1 (Some (close - 1)), zdrop (close + 2) text)
    end
  else
    match rfind 58 text with
    | None => None
    | Some colon =>
        let host := ztake colon text in
        if bool_decide (is_Some (find_from 58 host 0)) then None else Some (host, zdrop (colon + 1) text)
    end.

Definition endpoint_parse (text : bytes) : option Endpoint :=
  if len text =? 0 then None
  else
    match split_endpoint text with
    | None => None
    | Some (host, port_text) =>
        match from_chars_u32 port_text with
        | None => None
        | Some p =>
            if negb (len (take_digits port_text) =? len port_text) then None
            else if (p =? 0) || (65535 <? p) then None
            else match inet_pton4 host with
                 | Some a => Some (EpV4 (u16 p) a)
                 | None => match inet_pton6 host with
                           | Some a => Some (EpV6 (u16 p) 0 a 0)
                           | None => None
                           end
                 end
        end
    end.
End Text.

(** * Reading back *)

Lemma split_v4 ip p :
  ip <> [] -> 58 ∉ ip -> 91 ∉ ip -> 0 <= p -> split_endpoint (ip ++ str ":" ++ to_string p) = Some (ip, to_string p).
Proof.
  intros Hne Hc Hb Hp. destruct (to_string_digits p Hp) as (_ & Hd & _). unfold split_endpoint.
  rewrite bool_decide_eq_false_2; [|destruct ip as [|x ip]; [done|]; intros [= ->]; apply Hb; by left].
  change (str ":" ++ to_string p) with (58 :: to_string p). rewrite rfind_skip.
  2:{ intros Hin. rewrite Forall_forall in Hd. by specialize (Hd _ Hin). }
  rewrite ztake_app_len, (proj2 (notin_find 58 ip) Hc).
  change (ip ++ 58 :: to_string p) with (ip ++ [58] ++ to_string p). rewrite app_assoc.
  replace (len ip + 1) with (len (ip ++ [58])) by (by rewrite len_app). by rewrite zdrop_app_len.
Qed.

Lemma split_v6 ip p :
  93 ∉ ip -> 0 <= p -> split_endpoint (str "[" ++ ip ++ str "]:" ++ to_string p) = Some (ip, to_string p).
Proof.
  intros Hb Hp. destruct (to_string_digits p Hp) as (Hne & _). unfold split_endpoint.
  rewrite bool_decide_eq_true_2 by done.
  set (text := str "[" ++ ip ++ str "]:" ++ to_string p).
  assert (text = (91 :: ip) ++ 93 :: 58 :: to_string p) as Et by done.
  assert (find_from 93 text 0 = Some (1 + len ip)) as ->.
  { rewrite Et, find_from_skip; [by rewrite len_cons|]. by intros [?|?]%elem_of_cons. }
  assert (text = ((91 :: ip) ++ [93; 58]) ++ to_string p) as Et2 by (by rewrite Et, <- app_assoc).
  assert (len ((91 :: ip) ++ [93; 58]) = 1 + len ip + 2) as Hl by (rewrite len_app, len_cons; done).
  destruct (Z.leb_spec (len text) (1 + len ip + 2)) as [Hshort|_].
  { rewrite Et2, len_app, Hl in Hshort. pose proof (len_nonneg (to_string p)). by destruct (to_string p) as [|x t]; [|rewrite len_cons in Hshort; pose proof (len_nonneg t); lia]. }
  rewrite bool_decide_eq_true_2.
  2:{ rewrite Et. replace (Z.to_nat (1 + len ip + 1)) with (length (91%Z :: ip) + 1)%nat by (unfold len; cbn; lia).
      by rewrite lookup_app_r, Nat.add_comm, Nat.add_sub by lia. }
  cbn [orb negb]. f_equal. f_equal.
  - unfold substr. rewrite Et. change (zdrop 1 ((91 :: ip) ++ 93 :: 58 :: to_string p)) with (ip ++ 93 :: 58 :: to_string p).
    replace (1 + len ip - 1) with (len ip) by lia. apply ztake_app_len.
  - rewrite Et2, <- Hl. apply zdrop_app_len.
Qed.

Lemma port_text p : 1 <= p <= 65535 ->
  from_chars_u32 (to_string p) = Some p /\ len (take_digits (to_string p)) = len (to_string p).
Proof.
  intros Hp. destruct (to_string_digits p ltac:(lia)) as (Hne & Hd & Hv). unfold from_chars_u32.
  rewrite take_digits_all, Hv by done. split; [|done].
  destruct (Z.eqb_spec (len (to_string p)) 0) as [E%len_zero_nil|_]; [done|]. by destruct (Z.leb_spec (2 ^ 32) p); [lia|].
Qed.

(** An endpoint with a port reads back from its text, but for the flow and the scope of an
    IPv6 address, which are not in it. *)
Theorem endpoint_text_roundtrip `{InetLaws} e :
  endpoint_ok e -> 1 <= port e <= 65535 -> endpoint_parse (endpoint_to_string e) = Some (wire_view e).
Proof.
  intros He Hp. destruct (port_text _ Hp) as [Hf Ht]. unfold endpoint_parse.
  destruct e as [p a|p fl a sc|f]; cbn in Hp; [| |lia]; cbn [endpoint_to_string ip_string wire_view port] in *.
  - destruct He as (_ & Hl & Hb). destruct (ntop4_plain a (conj Hl Hb)) as (Hne & Hc & Hbr).
    destruct (Z.eqb_spec (len (inet_ntop4 a ++ str ":" ++ to_string p)) 0) as [E%len_zero_nil|_]; [by apply app_eq_nil in E as [? _]|].
    rewrite split_v4, Hf, Ht, Z.eqb_refl by (done || lia). cbn [negb].
    rewrite (proj2 (Z.eqb_neq p 0)), (proj2 (Z.ltb_ge 65535 p)) by lia. cbn [orb].
    rewrite (pton4_ntop4 a (conj Hl Hb)), u16_small by (unfold is_u; lia). done.
  - destruct He as (_ & Hl & Hb & _). destruct (ntop6_colons a (conj Hl Hb)) as (Hc & Hbr).
    destruct (Z.eqb_spec (len (str "[" ++ inet_ntop6 a ++ str "]:" ++ to_string p)) 0) as [E%len_zero_nil|_]; [done|].
    rewrite split_v6, Hf, Ht, Z.eqb_refl by (done || lia). cbn [negb].
    rewrite (proj2 (Z.eqb_neq p 0)), (proj2 (Z.ltb_ge 65535 p)) by lia. cbn [orb].
    destruct (inet_pton4 (inet_ntop6 a)) as [x|] eqn:E4; [by apply pton4_colons in E4|].
    rewrite (pton6_ntop6 a (conj Hl Hb)), u16_small by (unfold is_u; lia). done.
Qed.

(** * The theorem at work *)

(** Addresses in hexadecimal, those of IPv6 after a colon. *)
Definition hex_inet : Inet := {|
  inet_pton4 t := match from_hex t with Some a => if len a =? 4 then Some a else None | None => None end;
  inet_pton6 t := match t with
                  | c :: t => if c =? 58 then from_hex t else None
                  | [] => None
                  end;
  inet_ntop4 a := to_hex a;
  inet_ntop6 a := 58 :: to_hex a;
|}.

Lemma hex_no c a : bytes_ok a -> in_range 48 57 c || in_range 97 102 c = false -> c ∉ to_hex a.
Proof. intros Ha Hc Hin. pose proof (hex_chars a Ha) as Hf. rewrite Forall_forall in Hf. specialize (Hf _ Hin). congruence. Qed.

Lemma hex_value_range c : 0 <= hex_value c -> c <> 58.
Proof. by intros Hc ->. Qed.

Lemma from_hex_loop_colon t : forall a, from_hex_loop t = Some a -> len t mod 2 = 0 -> 58 ∉ t.
Proof.
  induction t as [t IH] using (induction_ltof1 _ (@length Z)). intros a. destruct t as [|h [|l t]]; cbn.
  - intros _ _. by apply not_elem_of_nil.
  - intros _ Hm. discriminate Hm.
  - destruct (Z.ltb_spec (hex_value h) 0) as [|Hh]; cbn; [done|]. destruct (Z.ltb_spec (hex_value l) 0) as [|Hl]; [done|].
    destruct (from_hex_loop t) as [out|] eqn:E; [|done]. intros _ Hm.
    assert (58 ∉ t) as Ht. { eapply IH; [|exact E|]; [unfold ltof; cbn; lia|]. rewrite <- Hm. unfold len. cbn [length].
      rewrite !Nat2Z.inj_succ. replace (Z.succ (Z.succ (Z.of_nat (length t)))) with (Z.of_nat (length t) + 1 * 2) by lia. by rewrite Z_mod_plus_full. }
    rewrite !not_elem_of_cons. split_and!; [apply not_eq_sym; by apply hex_value_range|apply not_eq_sym; by apply hex_value_range|done].
Qed.

Lemma hex_inet_laws : @InetLaws hex_inet.
Proof.
  split; cbn.
  - intros a [Hl Hb]. rewrite from_to_hex by done. by rewrite (proj2 (Z.eqb_eq _ _) Hl).
  - intros a [Hl Hb]. by apply from_to_hex.
  - intros a [Hl Hb]. split_and!; [|by apply hex_no..]. intros E. apply (f_equal len) in E. rewrite to_hex_len, Hl in E. discriminate E.
  - intros a [Hl Hb]. split; [by left|]. apply not_elem_of_cons. split; [done|by apply hex_no].
  - intros t a. unfold from_hex. destruct (Z.eqb_spec (len t mod 2) 0) as [Hm|]; [|done]. cbn.
    destruct (from_hex_loop t) as [x|] eqn:E; [|done]. intros _. by eapply from_hex_loop_colon.
Qed.

Lemma endpoint_text_roundtrip_witness :
  endpoint_parse (H := hex_inet) (str "[:" ++ to_hex (replicate 16 254) ++ str "]:9000") = Some (EpV6 9000 0 (replicate 16 254) 0).
Proof.
  refine (endpoint_text_roundtrip (H0 := hex_inet_laws) (EpV6 9000 7 (replicate 16 254) 3) _ _).
  - apply (bool_decide_unpack _). vm_compute. exact I.
  - cbn. lia.
Defined.
