(* ===== verification/Storage.v ===== *)
(** Small files kept by the client: [write_file_all] of [common/src/fileio.cpp],
    [write_sealed_file] and [read_file_bytes] of [client/src/identity.cpp] and
    [write_private_file] of [client/src/config.cpp].

    A file on disk is its content with that of the temporary file beside it. What the
    kernel answers is [file_env]; a read or a write takes the events it is given and
    then all that is left. *)

From S2P Require Import Prelude Socket.

Record disk_file := mk_disk_file { df_file : option bytes; df_tmp : option bytes }.

(** What one [read] does. *)
Inductive read_event := RdGot (n : Z) | RdEintr | RdFail (errno : Z).

Record file_env := mk_file_env {
  fe_open : option Z;
  fe_write : list tx_event;
  fe_fsync : option Z;
  fe_rename : option Z;
  fe_read : list read_event;
}.

(** [write_file_all]: what is in the file when it returns or throws. *)
Fixpoint write_file_loop (evs : list tx_event) (data content : bytes) : result unit * bytes :=
  if len data <=? 0 then (Ok tt, content)
  else match evs with
       | [] => (Ok tt, content ++ data)
       | TxEintr :: evs => write_file_loop evs data content
       | TxAgain _ :: _ => (Err (SysError (str "cannot write to file") 11), content)
       | TxFail e :: _ => (Err (SysError (str "cannot write to file") e), content)
       | TxWrote n :: evs =>
           let written := moved n (len data) in
           if written =? 0 then (Err (Error (str "the file accepted no bytes")), content)
           else write_file_loop evs (zdrop written data) (content ++ ztake written data)
       end.

(** [write_private_file] of [config.cpp]. *)
Definition write_private_file (env : file_env) (path contents : bytes) : M disk_file unit :=
  let temporary := path ++ str ".tmp" in
  match fe_open env with
  | Some e => mthrow (SysError (str "cannot create '" ++ temporary ++ str "'") e)
  | None =>
      let '(r, written) := write_file_loop (fe_write env) contents [] in
      do* mmodify (fun d => mk_disk_file (df_file d) (Some written)) in
      do* mlift r in
      match fe_fsync env with
      | Some e => mthrow (SysError (str "cannot flush the output file to disk") e)
      | None =>
          match fe_rename env with
          | Some e =>
              do* mmodify (fun d => mk_disk_file (df_file d) None) in
              mthrow (SysError (str "cannot move '" ++ temporary ++ str "' into place") e)
          | None => mput (mk_disk_file (Some written) None)
          end
      end
  end.

(** The same code in [identity.cpp]. *)
Definition write_sealed_file (env : file_env) (path contents : bytes) : M disk_file unit := write_private_file env path contents.

(** The loop of [read_file_bytes] over a file that holds [left_] from the cursor on. *)
Fixpoint read_file_loop (path : bytes) (evs : list read_event) (left_ contents : bytes) : result bytes :=
  match evs with
  | [] => Ok (contents ++ left_)
  | RdEintr :: evs => read_file_loop path evs left_ contents
  | RdFail e :: _ => Err (SysError (str "cannot read '" ++ path ++ str "'") e)
  | RdGot n :: evs =>
      if len left_ =? 0 then Ok contents
      else
        let got := Z.max 1 (moved n (Z.min 4096 (len left_))) in
        read_file_loop path evs (zdrop got left_) (contents ++ ztake got left_)
  end.

Definition read_file_bytes (env : file_env) (path : bytes) (d : disk_file) : result bytes :=
  match df_file d with
  | None => Err (SysError (str "cannot open '" ++ path ++ str "'") 2)
  | Some c => read_file_loop path (fe_read env) c []
  end.

(** * What they do *)

Lemma write_file_loop_spec evs data content r content' :
  write_file_loop evs data content = (r, content') ->
  match r with Ok _ => content' = content ++ data | Err e => is_dz_error e = true end.
Proof.
  revert data content. induction evs as [|ev evs IH]; intros data content; cbn [write_file_loop];
    (destruct (Z.leb_spec (len data) 0);
     [intros [= <- <-]; pose proof (len_nonneg data); assert (data = []) as -> by (apply len_zero_nil; lia); by rewrite app_nil_r|]).
  - by intros [= <- <-].
  - destruct ev as [n| |b|e]; [|by apply IH|by intros [= <- <-]..].
    destruct (Z.eqb_spec (moved n (len data)) 0); [by intros [= <- <-]|]. intros E%IH. destruct r; [|done].
    by rewrite E, <- app_assoc, ztake_zdrop.
Qed.

(** The file is replaced as a whole or not at all. *)
Lemma write_private_file_spec env path contents d r d' :
  write_private_file env path contents d = (r, d') ->
  match r with
  | Ok _ => d' = mk_disk_file (Some contents) None
  | Err e => is_dz_error e = true /\ df_file d' = df_file d
  end.
Proof.
  unfold write_private_file, mlift, mmodify, mput, mbind, mthrow. destruct (fe_open env); [by intros [= <- <-]|].
  destruct (write_file_loop _ _ _) as [rw written] eqn:Ew. apply write_file_loop_spec in Ew.
  destruct rw as [[]|e]; [|by intros [= <- <-]]. cbn in Ew. subst written.
  destruct (fe_fsync env); [by intros [= <- <-]|]. destruct (fe_rename env); by intros [= <- <-].
Qed.

Lemma read_file_loop_spec path evs left_ contents :
  match read_file_loop path evs left_ contents with
  | Ok b => b = contents ++ left_
  | Err e => is_dz_error e = true
  end.
Proof.
  revert left_ contents. induction evs as [|ev evs IH]; intros left_ contents; cbn; [done|].
  destruct ev as [n| |e]; [|apply IH|done]. destruct (Z.eqb_spec (len left_) 0) as [E|E].
  - apply len_zero_nil in E as ->. by rewrite app_nil_r.
  - specialize (IH (zdrop (Z.max 1 (moved n (Z.min 4096 (len left_)))) left_)
      (contents ++ ztake (Z.max 1 (moved n (Z.min 4096 (len left_)))) left_)).
    by rewrite <- app_assoc, ztake_zdrop in IH.
Qed.

Lemma read_file_bytes_spec env path d :
  match read_file_bytes env path d with
  | Ok b => df_file d = Some b
  | Err e => is_dz_error e = true
  end.
Proof.
  unfold read_file_bytes. destruct (df_file d) as [c|]; [|done].
  pose proof (read_file_loop_spec path (fe_read env) c []) as H.
  destruct (read_file_loop _ _ _ _); [by rewrite H|done].
Qed.

(** The events of a read that does not fail. *)
Definition reads_fine (evs : list read_event) : Prop :=
  Forall (fun ev => match ev with RdFail _ => False | _ => True end) evs.

Lemma read_file_loop_fine path evs left_ contents :
  reads_fine evs -> read_file_loop path evs left_ contents = Ok (contents ++ left_).
Proof.
  intros Hf. pose proof (read_file_loop_spec path evs left_ contents) as H.
  destruct (read_file_loop path evs left_ contents) as [b|e] eqn:E; [by rewrite H|]. exfalso. clear H.
  revert left_ contents E. induction Hf as [|ev evs Hev _ IH]; intros left_ contents; cbn; [done|].
  destruct ev; [|by apply IH|done]. destruct (_ =? _); [done|by apply IH].
Qed.

(** The events of a write that does not fail. *)
Definition writes_fine (evs : list tx_event) : Prop :=
  Forall (fun ev => match ev with TxWrote n => 0 < n | TxEintr => True | _ => False end) evs.

(** Nothing goes wrong with the file. *)
Record io_fine (env : file_env) : Prop := {
  io_open : fe_open env = None;
  io_write : writes_fine (fe_write env);
  io_fsync : fe_fsync env = None;
  io_rename : fe_rename env = None;
  io_read : reads_fine (fe_read env);
}.

Lemma write_file_loop_fine evs data content : writes_fine evs -> write_file_loop evs data content = (Ok tt, content ++ data).
Proof.
  intros Hf. revert data content. induction Hf as [|ev evs Hev _ IH]; intros data content; cbn [write_file_loop];
    (destruct (Z.leb_spec (len data) 0);
     [pose proof (len_nonneg data); assert (data = []) as -> by (apply len_zero_nil; lia); by rewrite app_nil_r|]); [done|].
  destruct ev as [n| | |]; [|by apply IH|done..]. destruct (Z.eqb_spec (moved n (len data)) 0); [unfold moved in *; lia|].
  by rewrite IH, <- app_assoc, ztake_zdrop.
Qed.

Lemma write_private_file_fine env path contents d :
  io_fine env -> write_private_file env path contents d = (Ok tt, mk_disk_file (Some contents) None).
Proof.
  intros []. unfold write_private_file. rewrite io_open0, io_fsync0, io_rename0. rewrite write_file_loop_fine by done. done.
Qed.
