(* ===== verification/KnownPeers.v ===== *)
(** The record of identity keys seen, [client/src/known_peers.cpp],
    and [enforce_pinning] of [client/src/rendezvous.cpp].

    The state is the list in memory with the file and the temporary file beside it on
    disk; what the kernel answers is [peers_env]. *)

From S2P Require Import Prelude Socket Protocol Paths Messages Text Storage.

(** * Data *)

Record KnownPeer := mk_KnownPeer {
  kp_username : bytes;
  kp_identity_key : bytes;
  kp_first_seen : Z;
}.

Inductive PinResult := FirstSight | Matches | Changed.

Record KnownPeers := mk_KnownPeers {
  peers_ : list KnownPeer;
  known_file : option bytes;
  known_tmp : option bytes;
}.

Record peers_env := mk_peers_env {
  path_ : bytes;
  pe_mkdir : bytes -> option Z;
  pe_open : option Z;
  pe_write : list tx_event;
  pe_rename : option Z;
  pe_time : Z;
}.

(** * The file *)

(** One turn of the loop of [load]. *)
Definition parse_line (line : bytes) : option KnownPeer :=
  if (len line =? 0) || bool_decide (head line = Some 35) then None
  else
    let fields := words line in
    match fields with
    | username :: key_hex :: rest =>
        let first_seen := extract_u64 (default [] (head rest)) in
        if negb (is_valid_username username) then None
        else match from_hex key_hex with
             | None => None
             | Some key =>
                 if negb (len key =? kEd25519PublicKeySize) then None
                 else Some (mk_KnownPeer username key first_seen)
             end
    | _ => None
    end.

Definition parse_file (contents : bytes) : list KnownPeer := omap parse_line (split_on 10 contents).

Definition load : M KnownPeers unit := fun k =>
  (Ok tt, mk_KnownPeers (match known_file k with None => [] | Some c => parse_file c end)
            (known_file k) (known_tmp k)).

Definition file_header : bytes :=
  str "# drop-zone known peers." ++ [10] ++
  str "# One line per peer: username, Ed25519 identity key, and when it was first" ++ [10] ++
  str "# seen. Delete a line to forget a peer -- the next transfer will then treat" ++ [10] ++
  str "# them as new. A key that changes unexpectedly means either the peer" ++ [10] ++
  str "# reinstalled or somebody else has taken their username." ++ [10].

Definition print_peer (p : KnownPeer) : bytes :=
  kp_username p ++ str " " ++ to_hex (kp_identity_key p) ++ str " " ++ to_string (kp_first_seen p) ++ [10].

Definition print_file (ps : list KnownPeer) : bytes := file_header ++ mjoin (print_peer <$> ps).

Definition set_tmp (t : option bytes) (k : KnownPeers) : KnownPeers := mk_KnownPeers (peers_ k) (known_file k) t.

Section Save.
Context (env : peers_env).

Definition save_unlocked : M KnownPeers unit :=
  let* k := mget in
  let contents := print_file (peers_ k) in
  let temporary := path_ env ++ str ".tmp" in
  do* mlift (mkdirs (pe_mkdir env) (make_directories (parent_path (path_ env)))) in
  match pe_open env with
  | Some e => mthrow (SysError (str "cannot create '" ++ temporary ++ str "'") e)
  | None =>
      let '(r, written) := write_file_loop (pe_write env) contents [] in
      do* mmodify (set_tmp (Some written)) in
      do* mlift r in
      match pe_rename env with
      | Some e =>
          do* mmodify (set_tmp None) in
          mthrow (SysError (str "cannot move '" ++ temporary ++ str "' into place") e)
      | None => mmodify (fun k => mk_KnownPeers (peers_ k) (Some written) None)
      end
  end.

(** * Lookups *)

Definition find (username : bytes) (ps : list KnownPeer) : option KnownPeer :=
  snd <$> list_find (fun p => kp_username p = username) ps.

Definition check (username identity_key : bytes) (k : KnownPeers) : PinResult :=
  match find username (peers_ k) with
  | None => FirstSight
  | Some p => if bool_decide (kp_identity_key p = identity_key) then Matches else Changed
  end.

(** The first record of a name is overwritten in place, a new one goes to the end. *)
Definition remember_peer (username identity_key : bytes) (ps : list KnownPeer) : list KnownPeer :=
  match list_find (fun p => kp_username p = username) ps with
  | Some (i, p) => <[i := mk_KnownPeer (kp_username p) identity_key (kp_first_seen p)]> ps
  | None => ps ++ [mk_KnownPeer username identity_key (u64 (pe_time env))]
  end.

Definition remember (username identity_key : bytes) : M KnownPeers unit :=
  do* mmodify (fun k => mk_KnownPeers (remember_peer username identity_key (peers_ k)) (known_file k) (known_tmp k)) in
  save_unlocked.

(** * Pinning *)

Context (sha256 : bytes -> bytes).

Definition fingerprint_of (public_key : bytes) : bytes := to_hex (ztake 16 (sha256 public_key)).

Definition enforce_pinning (username identity_key : bytes) : M KnownPeers unit :=
  let* k := mget in
  match check username identity_key k with
  | Matches => mret tt
  | FirstSight => remember username identity_key
  | Changed =>
      let previous := match find username (peers_ k) with
                      | Some p => fingerprint_of (kp_identity_key p)
                      | None => str "unknown"
                      end in
      fail_user (str "'" ++ username ++ str "' presented a different identity than last time." ++ [10] ++
        str "  recorded:  " ++ previous ++ [10] ++ str "  presented: " ++ fingerprint_of identity_key ++ [10] ++
        str "Either they reinstalled drop-zone, or somebody else has taken their username." ++ [10] ++
        str "If you are sure it is them, remove their line from known_peers and try again.")
  end.
End Save.

(** * The file reads back *)

Definition peer_ok (p : KnownPeer) : Prop :=
  valid_name (kp_username p) /\ fixed kEd25519PublicKeySize (kp_identity_key p) /\ is_u64 (kp_first_seen p).

Lemma parse_file_line l rest :
  10 ∉ l -> parse_file (l ++ 10 :: rest) =
    match parse_line l with Some p => p :: parse_file rest | None => parse_file rest end.
Proof. intros Hl. unfold parse_file. by rewrite split_on_app. Qed.

Lemma parse_file_skip l rest : 10 ∉ l -> parse_line l = None -> parse_file (l ++ 10 :: rest) = parse_file rest.
Proof. intros Hl E. by rewrite parse_file_line, E. Qed.

Definition peer_line (p : KnownPeer) : bytes :=
  kp_username p ++ 32 :: to_hex (kp_identity_key p) ++ 32 :: to_string (kp_first_seen p).

Lemma parse_peer_line p : peer_ok p -> parse_line (peer_line p) = Some p.
Proof.
  intros (Hu & [Hkl Hk] & Hf). destruct (username_word _ Hu) as [Hw _].
  destruct (hex_word (kp_identity_key p) Hk) as [Hh _]; [by rewrite Hkl|].
  destruct (number_word (kp_first_seen p)) as [Hn _]; [apply Hf|].
  unfold parse_line. pose proof (valid_name_len _ Hu). pose proof (valid_name_chars _ Hu) as Hc.
  assert ((len (peer_line p) =? 0) || bool_decide (head (peer_line p) = Some 35) = false) as ->.
  { apply orb_false_intro; [apply Z.eqb_neq; unfold peer_line; rewrite len_app; pose proof (len_nonneg (32 :: to_hex (kp_identity_key p) ++ 32 :: to_string (kp_first_seen p))); lia|].
    apply bool_decide_eq_false_2. unfold peer_line. destruct (kp_username p) as [|c u]; [done|]. cbn. intros [= ->].
    by apply Forall_cons in Hc as [? _]. }
  unfold peer_line. rewrite words_cons, words_cons, words_last by done. cbn [head default from_option id].
  rewrite Hu, from_to_hex, extract_to_string by done. cbn [negb]. rewrite Hkl. by destruct p.
Qed.

Lemma peer_line_end p : peer_ok p -> 10 ∉ peer_line p.
Proof.
  intros (Hu & [Hkl Hk] & Hf). unfold peer_line. rewrite not_elem_of_app, not_elem_of_cons, not_elem_of_app, not_elem_of_cons.
  destruct (username_word _ Hu) as [_ H1]. destruct (hex_word (kp_identity_key p) Hk) as [_ H2]; [by rewrite Hkl|].
  destruct (number_word (kp_first_seen p)) as [_ H3]; [apply Hf|]. rewrite Forall_forall in H1, H2, H3. naive_solver.
Qed.

Lemma parse_print_file ps : Forall peer_ok ps -> parse_file (print_file ps) = ps.
Proof.
  intros Hps. unfold print_file, file_header. rewrite <- !app_assoc. cbn [app].
  do 5 (rewrite parse_file_skip; [|apply not_in_check; by vm_compute|by vm_compute]).
  induction Hps as [|p ps Hp _ IH]; [done|]. rewrite mjoin_fmap_cons.
  assert (print_peer p = peer_line p ++ [10]) as ->.
  { unfold print_peer, peer_line. change (str " ") with [32]. rewrite <- !app_assoc. cbn [app]. by rewrite <- app_assoc. }
  rewrite <- app_assoc. cbn [app]. rewrite parse_file_line by (by apply peer_line_end). by rewrite parse_peer_line, IH.
Qed.

(** * Saving *)

(** The file is replaced as a whole or not at all. *)
Lemma save_unlocked_spec env k r k' :
  save_unlocked env k = (r, k') ->
  peers_ k' = peers_ k /\
  match r with
  | Ok _ => known_file k' = Some (print_file (peers_ k))
  | Err e => is_dz_error e = true /\ known_file k' = known_file k
  end.
Proof.
  unfold save_unlocked, mget, mlift, mmodify, mbind.
  destruct (mkdirs _ _) as [[]|e] eqn:Ed; [|intros [= <- <-]; split; [done|split; [by eapply mkdirs_error|done]]].
  destruct (pe_open env); [by intros [= <- <-]|].
  destruct (write_file_loop _ _ _) as [rw written] eqn:Ew. apply write_file_loop_spec in Ew.
  destruct rw as [[]|e]; [|by intros [= <- <-]]. destruct (pe_rename env); [by intros [= <- <-]|].
  intros [= <- <-]. by subst.
Qed.

Lemma find_other env u u' key ps : u' <> u -> find u' (remember_peer env u key ps) = find u' ps.
Proof.
  intros Hne. unfold remember_peer, find. destruct (list_find (fun p => kp_username p = u) ps) as [[i p]|] eqn:E.
  - apply list_find_Some in E as (Hp & Hu & _).
    assert (forall (q : KnownPeer), kp_username q = kp_username p ->
      snd <$> list_find (fun p => kp_username p = u') (<[i := q]> ps) = snd <$> list_find (fun p => kp_username p = u') ps) as H;
      [|by apply H].
    clear key. revert i Hp. induction ps as [|q0 ps IH]; intros [|i] Hp q Hq; cbn in *; [done|done|..].
    + injection Hp as ->. destruct (decide (kp_username q = u')); [congruence|].
      destruct (decide (kp_username p = u')); [congruence|done].
    + destruct (decide (kp_username q0 = u')); [done|]. specialize (IH i Hp q Hq).
      destruct (list_find _ (<[i:=q]> ps)) as [[? ?]|], (list_find _ ps) as [[? ?]|]; cbn in *; congruence.
  - induction ps as [|q ps IH]; cbn in *; [by destruct (decide (u = u'))|].
    destruct (decide (kp_username q = u)); [done|]. destruct (decide (kp_username q = u')); [done|].
    destruct (list_find (fun p => kp_username p = u) ps) as [[? ?]|]; [done|]. specialize (IH eq_refl).
    destruct (list_find _ (ps ++ _)) as [[? ?]|], (list_find _ ps) as [[? ?]|]; cbn in *; congruence.
Qed.

Lemma find_new env u key ps :
  find u ps = None -> remember_peer env u key ps = ps ++ [mk_KnownPeer u key (u64 (pe_time env))] /\
    find u (remember_peer env u key ps) = Some (mk_KnownPeer u key (u64 (pe_time env))).
Proof.
  unfold find, remember_peer. intros E. destruct (list_find (fun p => kp_username p = u) ps) as [[i p]|] eqn:El; [done|].
  split; [done|]. rewrite list_find_app_r by done. cbn. by rewrite decide_True by done.
Qed.

Lemma enforce_pinning_spec env sha256 u key k r k' :
  enforce_pinning env sha256 u key k = (r, k') ->
  match r with
  | Ok _ => kp_identity_key <$> find u (peers_ k') = Some key /\
            (forall old, find u (peers_ k) = Some old -> kp_identity_key old = key)
  | Err e => is_dz_error e = true
  end.
Proof.
  unfold enforce_pinning, check, mget, mbind at 1. destruct (find u (peers_ k)) as [p|] eqn:Ef.
  - case_bool_decide; intros [= <- <-]; [|done]. rewrite Ef. cbn. split; [congruence|]. by intros ? [= <-].
  - unfold remember, mmodify, mbind. intros Es. apply save_unlocked_spec in Es as [Hp Hr]. cbn [peers_ known_file] in Hp, Hr.
    destruct (find_new env u key _ Ef) as [_ Hfind]. destruct r; [|naive_solver]. split; [|done]. by rewrite Hp, Hfind.
Qed.

(** C36. An identity key is pinned at first sight and cannot be replaced: a peer whose name
    is on record passes exactly with the recorded key, is refused with any other, and
    neither changes the record. A first sighting records the key and nothing else; when
    the call returns, a later [load] of the file gives the same list, and when it throws,
    whatever failed, the file is as it was. *)
Theorem pinning_correct env sha256 u key k r k' :
  Forall peer_ok (peers_ k) -> valid_name u -> fixed kEd25519PublicKeySize key ->
  enforce_pinning env sha256 u key k = (r, k') ->
  match find u (peers_ k) with
  | Some p => k' = k /\ if decide (kp_identity_key p = key) then r = Ok tt else exists m, r = Err (UserError m)
  | None =>
      kp_identity_key <$> find u (peers_ k') = Some key /\
      (forall u', u' <> u -> find u' (peers_ k') = find u' (peers_ k)) /\
      match r with
      | Ok _ => peers_ (load k').2 = peers_ k'
      | Err e => is_dz_error e = true /\ known_file k' = known_file k
      end
  end.
Proof.
  intros Hps Hu Hk. unfold enforce_pinning, check, mget, mbind at 1.
  destruct (find u (peers_ k)) as [p|] eqn:Ef.
  - destruct (decide (kp_identity_key p = key)) as [E|E].
    + rewrite bool_decide_eq_true_2 by done. by intros [= <- <-].
    + rewrite bool_decide_eq_false_2 by done. intros [= <- <-]. split; [done|]. by eexists.
  - unfold remember, mmodify, mbind. intros Es. apply save_unlocked_spec in Es as [Hp Hr]. cbn [peers_ known_file] in Hp, Hr.
    destruct (find_new env u key _ Ef) as [Hnew Hfind]. rewrite Hp. split_and!.
    + by rewrite Hfind.
    + intros u' Hne. by apply find_other.
    + destruct r as [|e]; [|done]. cbn [load peers_ snd]. rewrite Hr. apply parse_print_file. rewrite Hnew.
      apply Forall_app. split; [done|]. constructor; [|constructor]. split_and!; [done|done|apply u64_range].
Qed.

(** * The theorem at work *)

Definition sample_peers_env : peers_env :=
  mk_peers_env (str "/home/ann/.drop-zone/known_peers") (fun _ => None) None [TxWrote 7; TxEintr; TxWrote 100] None 1700000000.

Lemma pinning_correct_witness :
  let k := mk_KnownPeers [mk_KnownPeer (str "bob") (replicate 32 1) 5] None None in
  let k' := (enforce_pinning sample_peers_env (fun _ => replicate 32 0) (str "eve") (replicate 32 2) k).2 in
  kp_identity_key <$> find (str "eve") (peers_ k') = Some (replicate 32 2) /\ peers_ (load k').2 = peers_ k'.
Proof.
  intros k k'.
  assert (enforce_pinning sample_peers_env (fun _ => replicate 32 0) (str "eve") (replicate 32 2) k = (Ok tt, k')) as E
    by (vm_compute; reflexivity).
  destruct (pinning_correct sample_peers_env (fun _ => replicate 32 0) (str "eve") (replicate 32 2) k (Ok tt) k') as (H1 & _ & H2).
  - constructor; [|constructor]. split; [done|]. split; [|unfold is_u; cbn; lia]. split; [done|]. repeat constructor; by vm_compute.
  - done.
  - split; [done|]. repeat constructor; by vm_compute.
  - exact E.
  - split; [exact H1|exact H2].
Defined.
