(* ===== verification/Config.v ===== *)
(** The client's settings, [client/src/config.cpp].

    The environment variables are arguments; an empty one counts as unset, as in the
    code. *)

From S2P Require Import Prelude Socket Protocol Paths Messages Text Storage.

Definition kDefaultServerHost : bytes := str "129.153.161.241".

Record Config := mk_Config {
  c_username : bytes;
  c_server_host : bytes;
  c_server_port : Z;
  c_default_output_directory : bytes;
  c_encrypt_by_default : bool;
  c_verify_digests : bool;
  c_prompt_before_accepting : bool;
  c_keystore_salt : bytes;
  c_directory : bytes;
}.

Definition Config_default : Config :=
  mk_Config [] kDefaultServerHost kDefaultServerPort [] true false true (replicate 16 0) [].

Definition config_path (c : Config) : bytes := join_path (c_directory c) (str "config.toml").
Definition identity_path (c : Config) : bytes := join_path (c_directory c) (str "identity.key").
Definition known_peers_path (c : Config) : bytes := join_path (c_directory c) (str "known_peers").

(** * Reading *)

Definition trim (text : bytes) : bytes :=
  let text := drop_while (fun c => (c =? 32) || (c =? 9)) text in
  reverse (drop_while (fun c => (c =? 32) || (c =? 9) || (c =? 13)) (reverse text)).

Definition unquote (text : bytes) : bytes :=
  if (2 <=? len text) && bool_decide (head text = Some 34) && bool_decide (last text = Some 34)
  then substr text 1 (Some (len text - 2)) else text.

Definition parse_bool (text : bytes) (fallback : bool) : bool :=
  if bool_decide (text = str "true") || bool_decide (text = str "yes") || bool_decide (text = str "1") then true
  else if bool_decide (text = str "false") || bool_decide (text = str "no") || bool_decide (text = str "0") then false
  else fallback.

Definition default_config_directory (drop_zone_home xdg_config_home home : option bytes) : result bytes :=
  match drop_zone_home with
  | Some ((_ :: _) as p) => Ok (expand_user_path home p)
  | _ =>
      match xdg_config_home with
      | Some ((_ :: _) as p) => Ok (join_path (expand_user_path home p) (str "drop-zone"))
      | _ =>
          match home with
          | Some ((_ :: _) as p) => Ok (join_path p (str ".config/drop-zone"))
          | _ => Err (Error (str "cannot work out where to keep the configuration: neither $DROP_ZONE_HOME, $XDG_CONFIG_HOME nor $HOME is set"))
          end
      end
  end.

(** The key and the value of a line, [None] where the loop continues. *)
Definition key_value (line : bytes) : option (bytes * bytes) :=
  let view := trim line in
  if (len view =? 0) || bool_decide (head view = Some 35) || bool_decide (head view = Some 91) then None
  else match find_from 61 view 0 with
       | None => None
       | Some equals =>
           Some (trim (substr view 0 (Some equals)), unquote (trim (substr view (equals + 1) None)))
       end.

Definition set_username u c := mk_Config u (c_server_host c) (c_server_port c) (c_default_output_directory c)
  (c_encrypt_by_default c) (c_verify_digests c) (c_prompt_before_accepting c) (c_keystore_salt c) (c_directory c).
Definition set_server_host h c := mk_Config (c_username c) h (c_server_port c) (c_default_output_directory c)
  (c_encrypt_by_default c) (c_verify_digests c) (c_prompt_before_accepting c) (c_keystore_salt c) (c_directory c).
Definition set_server_port p c := mk_Config (c_username c) (c_server_host c) p (c_default_output_directory c)
  (c_encrypt_by_default c) (c_verify_digests c) (c_prompt_before_accepting c) (c_keystore_salt c) (c_directory c).
Definition set_output_directory d c := mk_Config (c_username c) (c_server_host c) (c_server_port c) d
  (c_encrypt_by_default c) (c_verify_digests c) (c_prompt_before_accepting c) (c_keystore_salt c) (c_directory c).
Definition set_encrypt b c := mk_Config (c_username c) (c_server_host c) (c_server_port c) (c_default_output_directory c)
  b (c_verify_digests c) (c_prompt_before_accepting c) (c_keystore_salt c) (c_directory c).
Definition set_verify b c := mk_Config (c_username c) (c_server_host c) (c_server_port c) (c_default_output_directory c)
  (c_encrypt_by_default c) b (c_prompt_before_accepting c) (c_keystore_salt c) (c_directory c).
Definition set_prompt b c := mk_Config (c_username c) (c_server_host c) (c_server_port c) (c_default_output_directory c)
  (c_encrypt_by_default c) (c_verify_digests c) b (c_keystore_salt c) (c_directory c).
Definition set_salt s c := mk_Config (c_username c) (c_server_host c) (c_server_port c) (c_default_output_directory c)
  (c_encrypt_by_default c) (c_verify_digests c) (c_prompt_before_accepting c) s (c_directory c).
Definition set_directory d c := mk_Config (c_username c) (c_server_host c) (c_server_port c) (c_default_output_directory c)
  (c_encrypt_by_default c) (c_verify_digests c) (c_prompt_before_accepting c) (c_keystore_salt c) d.

(** The chain of comparisons in [load_config]. *)
Definition apply_setting (home : option bytes) (key value : bytes) (c : Config) : result Config :=
  if bool_decide (key = str "username") then Ok (set_username value c)
  else if bool_decide (key = str "server_host") then Ok (set_server_host value c)
  else if bool_decide (key = str "server_port") then
    match from_chars_u32 value with
    | Some port => if (0 <? port) && (port <=? 65535) then Ok (set_server_port port c) else Ok c
    | None => Ok c
    end
  else if bool_decide (key = str "output_directory") then Ok (set_output_directory (expand_user_path home value) c)
  else if bool_decide (key = str "encrypt") then Ok (set_encrypt (parse_bool value true) c)
  else if bool_decide (key = str "verify_digests") then Ok (set_verify (parse_bool value false) c)
  else if bool_decide (key = str "prompt_before_accepting") then Ok (set_prompt (parse_bool value true) c)
  else if bool_decide (key = str "keystore_salt") then
    match from_hex value with
    | Some salt =>
        if len salt =? kKeystoreSaltSize then Ok (set_salt salt c)
        else Err (Error (str "config.toml has a malformed keystore_salt; the identity cannot be unlocked"))
    | None => Err (Error (str "config.toml has a malformed keystore_salt; the identity cannot be unlocked"))
    end
  else Ok c.

Fixpoint load_lines (home : option bytes) (lines : list bytes) (c : Config) : result Config :=
  match lines with
  | [] => Ok c
  | line :: lines =>
      match key_value line with
      | None => load_lines home lines c
      | Some (key, value) =>
          let? c := apply_setting home key value c in
          load_lines home lines c
      end
  end.

Definition load_config (home : option bytes) (directory : bytes) (d : disk_file) : result Config :=
  match df_file d with
  | None =>
      Err (UserError (str "no drop-zone configuration found at '" ++ join_path directory (str "config.toml") ++
        str "'. Run `drop-zone setup` first."))
  | Some contents =>
      let? c := load_lines home (split_on 10 contents) (set_directory directory Config_default) in
      if len (c_username c) =? 0 then Err (Error (str "config.toml does not name a username"))
      else if negb (is_valid_username (c_username c)) then
        Err (Error (str "config.toml names an invalid username: '" ++ c_username c ++ str "'"))
      else if len (c_server_host c) =? 0 then Err (Error (str "config.toml does not name a server"))
      else Ok c
  end.

(** * Writing *)

Definition print_bool (b : bool) : bytes := if b then str "true" else str "false".

Definition quoted (v : bytes) : bytes := [34] ++ v ++ [34].

Definition config_lines (c : Config) : list bytes := [
  str "# drop-zone client configuration.";
  str "#";
  str "# Written by `drop-zone setup`. Safe to edit by hand; it holds no secrets.";
  str "# The private password is never stored -- it only unlocks identity.key. The";
  str "# public password is sealed inside identity.key, not written here, so reading";
  str "# this file is not enough to receive files as this user.";
  [];
  str "[identity]";
  str "username = " ++ quoted (c_username c);
  str "# Random per installation, so the same password on two machines does not";
  str "# produce the same key for identity.key.";
  str "keystore_salt = " ++ quoted (to_hex (c_keystore_salt c));
  [];
  str "[server]";
  str "# The rendezvous server only introduces peers; files never pass through it";
  str "# unless neither side can open a direct path.";
  str "server_host = " ++ quoted (c_server_host c);
  str "server_port = " ++ to_string (c_server_port c);
  [];
  str "[transfers]";
  str "# Where received files go when `drop-zone accept` is given no -o. Empty (the";
  str "# setup default) means whichever directory the command was run from. Change";
  str "# this with `drop-zone set-output DIR`, or override it for one run with -o.";
  str "output_directory = " ++ quoted (c_default_output_directory c);
  str "# Encrypt file contents end to end. Turn it off only on a network you trust:";
  str "# the handshake stays encrypted either way, but the file bytes would not be.";
  str "encrypt = " ++ print_bool (c_encrypt_by_default c);
  str "# Hash every file and compare. Costs an extra read pass on both sides and adds";
  str "# nothing when encryption is on, which is why it is off by default.";
  str "verify_digests = " ++ print_bool (c_verify_digests c);
  str "# Ask before accepting each transfer. Set to false for an unattended receiver.";
  str "prompt_before_accepting = " ++ print_bool (c_prompt_before_accepting c)
].

Definition print_config (c : Config) : bytes := mjoin ((fun l => l ++ [10]) <$> config_lines c).

Definition save_config (env : file_env) (mkdir : bytes -> option Z) (c : Config) : M disk_file unit :=
  do* mlift (mkdirs mkdir (make_directories (c_directory c))) in
  write_private_file env (config_path c) (print_config c).

(** * The file reads back *)

Lemma split_lines ls :
  Forall (fun l => 10 ∉ l) ls -> split_on 10 (mjoin ((fun l => l ++ [10]) <$> ls)) = ls ++ [[]].
Proof.
  induction 1 as [|l ls Hl _ IH]; [done|]. rewrite mjoin_fmap_cons, <- app_assoc. cbn [app].
  by rewrite split_on_app, IH.
Qed.

Lemma drop_while_keep p c rest : p c = false -> drop_while p (c :: rest) = c :: rest.
Proof. cbn. by intros ->. Qed.

Definition blank (c : Z) : bool := (c =? 32) || (c =? 9) || (c =? 13).

(** Text that starts and ends with a character that is not blank. *)
Definition solid (v : bytes) : Prop :=
  (exists a t, v = a :: t /\ blank a = false) /\ (exists t b, v = t ++ [b] /\ blank b = false).

Lemma trim_solid v : solid v -> trim v = v.
Proof.
  intros [(a & t & Ev & Ha) (t' & b & Ev' & Hb)]. assert ((a =? 32) || (a =? 9) = false) as Ha' by (unfold blank in Ha; lia).
  unfold trim. change (fun c => (c =? 32) || (c =? 9) || (c =? 13)) with blank.
  rewrite Ev, drop_while_keep, <- Ev, Ev', reverse_snoc, drop_while_keep by done.
  by rewrite <- reverse_snoc, reverse_involutive.
Qed.

Lemma trim_blank v : solid v -> trim (32 :: v) = v.
Proof. intros Hv. change (trim (32 :: v)) with (trim v). by apply trim_solid. Qed.

Lemma trim_space v : solid v -> trim (v ++ [32]) = v.
Proof.
  intros [(a & t & Ev & Ha) (t' & b & Ev' & Hb)]. assert ((a =? 32) || (a =? 9) = false) as Ha' by (unfold blank in Ha; lia).
  unfold trim. change (fun c => (c =? 32) || (c =? 9) || (c =? 13)) with blank.
  rewrite Ev. cbn [app]. rewrite drop_while_keep by done. change (a :: t ++ [32]) with ((a :: t) ++ [32]).
  rewrite <- Ev, Ev', reverse_snoc. cbn [drop_while blank]. rewrite reverse_snoc.
  change (blank 32) with true. cbv iota. rewrite drop_while_keep by done. by rewrite <- reverse_snoc, reverse_involutive.
Qed.

Lemma solid_app v m w : solid v -> solid w -> solid (v ++ m ++ w).
Proof.
  intros [(a & t & -> & Ha) _] [_ (t' & b & -> & Hb)]. split; [by exists a, (t ++ m ++ t' ++ [b])|].
  exists ((a :: t) ++ m ++ t'), b. split; [|done]. by rewrite <- !app_assoc.
Qed.

Lemma solid_chars v : v <> [] -> Forall (fun c => blank c = false) v -> solid v.
Proof.
  intros Hne Hv. split.
  - destruct Hv as [|a t Ha _]; [done|]. by exists a, t.
  - destruct v as [|b t _] using rev_ind; [done|]. apply Forall_app in Hv as [_ Hb%Forall_cons]. exists t, b. naive_solver.
Qed.

Lemma solid_quoted v : solid (quoted v).
Proof. split; [by exists 34, (v ++ [34])|]. by exists (34 :: v), 34. Qed.

Lemma unquote_quoted v : unquote (quoted v) = v.
Proof.
  unfold unquote, quoted. rewrite !len_app. pose proof (len_nonneg v). change (len [34]) with 1.
  destruct (Z.leb_spec 2 (1 + (len v + 1))); [|lia]. rewrite app_assoc, last_snoc, <- app_assoc. cbn [head app].
  rewrite !bool_decide_eq_true_2 by done. cbn [andb]. unfold substr.
  replace (1 + (len v + 1) - 2) with (len v) by lia. by apply ztake_app_len.
Qed.

Definition key_char (c : Z) : bool := in_range 97 122 c || (c =? 95).

Lemma key_value_setting key v :
  key <> [] -> forallb key_char key = true -> solid v ->
  key_value (key ++ str " = " ++ v) = Some (key, unquote v).
Proof.
  intros Hne Hk%forallb_Forall Hv.
  assert (solid key) as Hs.
  { apply solid_chars; [done|]. eapply Forall_impl; [exact Hk|]. intros c. unfold key_char, blank, in_range. lia. }
  unfold key_value. rewrite trim_solid by (by apply solid_app).
  assert ((len (key ++ str " = " ++ v) =? 0) || bool_decide (head (key ++ str " = " ++ v) = Some 35) ||
    bool_decide (head (key ++ str " = " ++ v) = Some 91) = false) as ->.
  { destruct Hk as [|c t Hc _]; [done|]. unfold key_char, in_range in Hc. cbn [app head]. rewrite len_cons.
    pose proof (len_nonneg (t ++ str " = " ++ v)). rewrite (proj2 (Z.eqb_neq _ _)) by lia.
    rewrite !bool_decide_eq_false_2; [done|intros [= ->]; lia..]. }
  assert (find_from 61 (key ++ str " = " ++ v) 0 = Some (len key + 1)) as ->.
  { unfold find_from. pose proof (len_nonneg (key ++ str " = " ++ v)). rewrite (proj2 (Z.ltb_ge _ _)) by lia.
    rewrite zdrop_0. change (str " = " ++ v) with ([32] ++ 61 :: 32 :: v). rewrite app_assoc.
    rewrite (list_find_app_r (fun x => x = 61) (key ++ [32])).
    - cbn [list_find]. rewrite decide_True by done. cbn -[length]. f_equal. rewrite length_app. unfold len. cbn [length]. lia.
    - apply list_find_None, Forall_app. split; [|by constructor].
      eapply Forall_impl; [exact Hk|]. intros c. unfold key_char, in_range. lia. }
  unfold substr. change (zdrop 0 (key ++ str " = " ++ v)) with (key ++ str " = " ++ v).
  change (str " = " ++ v) with ([32] ++ [61] ++ 32 :: v). rewrite (app_assoc key [32]).
  replace (len key + 1) with (len (key ++ [32])) by (by rewrite len_app).
  rewrite ztake_app_len, trim_space by done. f_equal. f_equal. f_equal.
  replace (len (key ++ [32]) + 1) with (len ((key ++ [32]) ++ [61])) by (by rewrite !len_app).
  rewrite app_assoc, zdrop_app_len. by apply trim_blank.
Qed.

(** What [setup] and [set-*] keep in a configuration. *)
Record config_ok (home : option bytes) (c : Config) : Prop := {
  co_username : valid_name (c_username c);
  co_host : c_server_host c <> [] /\ (10 ∉ c_server_host c);
  co_port : 0 < c_server_port c <= 65535;
  co_output : (10 ∉ c_default_output_directory c) /\
    expand_user_path home (c_default_output_directory c) = c_default_output_directory c;
  co_salt : fixed kKeystoreSaltSize (c_keystore_salt c);
}.

Lemma load_skip home line lines c : key_value line = None -> load_lines home (line :: lines) c = load_lines home lines c.
Proof. cbn. by intros ->. Qed.

Lemma load_setting home key v line lines c c' :
  line = key ++ str " = " ++ v -> negb (len key =? 0) && forallb key_char key = true -> solid v ->
  apply_setting home key (unquote v) c = Ok c' -> load_lines home (line :: lines) c = load_lines home lines c'.
Proof.
  intros -> [H1%negb_true_iff%Z.eqb_neq H2]%andb_prop H3 E. cbn [load_lines].
  rewrite key_value_setting by (try done; by intros ->). by rewrite E.
Qed.

Lemma from_chars_to_string n : 0 <= n < 2 ^ 32 -> from_chars_u32 (to_string n) = Some n.
Proof.
  intros Hn. destruct (to_string_digits n) as (Hne & Hd & Hv); [lia|]. unfold from_chars_u32.
  rewrite take_digits_all, Hv by done. destruct (Z.eqb_spec (len (to_string n)) 0) as [E|_]; [by apply len_zero_nil in E|].
  by destruct (Z.leb_spec (2 ^ 32) n); [lia|].
Qed.

Lemma solid_number n : 0 <= n -> solid (to_string n).
Proof.
  intros Hn. destruct (to_string_digits n Hn) as (Hne & Hd & _). apply solid_chars; [done|].
  eapply Forall_impl; [exact Hd|]. intros c. unfold is_digit, blank, in_range. lia.
Qed.

Lemma solid_bool b : solid (print_bool b).
Proof. apply solid_chars; destruct b; by repeat constructor. Qed.

Lemma unquote_number n : 0 <= n -> unquote (to_string n) = to_string n.
Proof.
  intros Hn. destruct (to_string_digits n Hn) as (Hne & Hd & _). unfold unquote.
  rewrite (bool_decide_eq_false_2 (head _ = _)); [by rewrite andb_false_r|].
  destruct Hd as [|c t Hc _]; [done|]. intros [= ->]. done.
Qed.

(** * Loading what was saved *)

Lemma quoted_end v : 10 ∉ v -> 10 ∉ quoted v.
Proof. unfold quoted. set_solver. Qed.

Lemma word_end w : Forall (fun c => c <> 10) w -> 10 ∉ w.
Proof. rewrite Forall_forall. naive_solver. Qed.

Lemma config_lines_end c home : config_ok home c -> Forall (fun l => (10 ∉ l)) (config_lines c).
Proof.
  intros [Hu [_ Hh] Hp [Ho _] [Hsl Hs]]. destruct (username_word _ Hu) as [_ Hu'].
  destruct (hex_word (c_keystore_salt c) Hs) as [_ Hs']; [by rewrite Hsl|]. destruct (number_word (c_server_port c)) as [_ Hp']; [lia|].
  unfold config_lines. repeat (apply Forall_cons_2; [|]); [..|apply Forall_nil_2];
    first [ by apply not_in_check
          | apply not_elem_of_app; split; [by apply not_in_check|]; first
              [ apply quoted_end; first [done|by apply word_end] | by apply word_end
              | apply not_in_check; by destruct (c_encrypt_by_default c), (c_verify_digests c), (c_prompt_before_accepting c) ] ].
Qed.

Ltac skip_line := rewrite load_skip by reflexivity.

Lemma load_config_lines home c c0 :
  config_ok home c ->
  load_lines home (config_lines c ++ [[]]) c0 = Ok (set_directory (c_directory c0) c).
Proof.
  intros [Hu _ Hp [_ Ho] [Hsl Hs]]. unfold config_lines. cbn [app].
  repeat skip_line. rewrite (load_setting home (str "username") (quoted (c_username c)) _ _ _ (set_username (c_username c) c0));
    [|done|done|apply solid_quoted|by rewrite unquote_quoted].
  repeat skip_line. erewrite (load_setting home (str "keystore_salt") (quoted (to_hex (c_keystore_salt c)))); [|done|done|apply solid_quoted|].
  2: { rewrite unquote_quoted. unfold apply_setting. cbn -[Z.eqb from_hex]. rewrite from_to_hex, Hsl by done. done. }
  repeat skip_line. erewrite (load_setting home (str "server_host") (quoted (c_server_host c)));
    [|done|done|apply solid_quoted|by rewrite unquote_quoted].
  erewrite (load_setting home (str "server_port") (to_string (c_server_port c))); [|done|done|apply solid_number; lia|].
  2: { rewrite unquote_number by lia. unfold apply_setting. cbn -[Z.eqb Z.ltb Z.leb from_chars_u32]. rewrite from_chars_to_string by lia.
    by rewrite (proj2 (Z.ltb_lt _ _)), (proj2 (Z.leb_le _ _)) by lia. }
  repeat skip_line. erewrite (load_setting home (str "output_directory") (quoted (c_default_output_directory c)));
    [|done|done|apply solid_quoted|by rewrite unquote_quoted].
  repeat skip_line. erewrite (load_setting home (str "encrypt") (print_bool (c_encrypt_by_default c))); [|done|done|apply solid_bool|done].
  repeat skip_line. erewrite (load_setting home (str "verify_digests") (print_bool (c_verify_digests c))); [|done|done|apply solid_bool|done].
  repeat skip_line. erewrite (load_setting home (str "prompt_before_accepting") (print_bool (c_prompt_before_accepting c)));
    [|done|done|apply solid_bool|done].
  repeat skip_line. cbn. rewrite Ho. destruct c; cbn. by destruct c_encrypt_by_default0, c_verify_digests0, c_prompt_before_accepting0.
Qed.

Lemma config_saved home c : config_ok home c -> load_config home (c_directory c) (mk_disk_file (Some (print_config c)) None) = Ok c.
Proof.
  intros Hc. unfold load_config. cbn [df_file].
  unfold print_config. rewrite split_lines by (by eapply config_lines_end). rewrite load_config_lines by done.
  pose proof (valid_name_len _ (co_username _ _ Hc)) as Hn. destruct (co_host _ _ Hc) as [Hh _].
  cbn [c_username c_server_host set_directory]. rewrite (co_username _ _ Hc). rewrite (proj2 (Z.eqb_neq _ _)) by lia. cbn [negb].
  destruct (Z.eqb_spec (len (c_server_host c)) 0) as [E%len_zero_nil|_]; [done|]. by destruct c.
Qed.

Lemma save_config_spec env mkdir home c d r d' :
  config_ok home c -> save_config env mkdir c d = (r, d') ->
  match r with
  | Ok _ => d' = mk_disk_file (Some (print_config c)) None
  | Err e => is_dz_error e = true /\ df_file d' = df_file d
  end.
Proof.
  intros Hc. unfold save_config, mlift, mbind. destruct (mkdirs _ _) as [[]|e] eqn:Em;
    [|intros [= <- <-]; split; [by eapply mkdirs_error|done]].
  apply write_private_file_spec.
Qed.

Lemma save_config_fine env mkdir c d :
  io_fine env -> (forall p, mkdir p = None) -> save_config env mkdir c d = (Ok tt, mk_disk_file (Some (print_config c)) None).
Proof. intros Hio Hm. unfold save_config, mlift, mbind. rewrite mkdirs_fine by done. by apply write_private_file_fine. Qed.

(** Saving the configuration replaces the file as a whole or leaves it as it was, and
    what was saved loads back to the same settings, every one of them. *)
Theorem config_roundtrip env mkdir home c d r d' :
  config_ok home c -> save_config env mkdir c d = (r, d') ->
  match r with
  | Ok _ => load_config home (c_directory c) d' = Ok c
  | Err e => is_dz_error e = true /\ df_file d' = df_file d
  end.
Proof.
  intros Hc Hs. eapply save_config_spec in Hs; [|done]. destruct r; [|done]. subst. by apply config_saved.
Qed.

(** * The theorem at work *)

Definition sample_config : Config :=
  mk_Config (str "ann") (str "rendezvous.example") 4000 (str "/srv/in box") true true false (replicate 16 7) (str "/home/ann/.config/drop-zone").

Definition sample_file_env : file_env :=
  mk_file_env None [TxWrote 7; TxEintr; TxWrote 100] None None [RdGot 3; RdEintr; RdGot 5000].

Lemma config_roundtrip_witness :
  let d' := (save_config sample_file_env (fun _ => None) sample_config (mk_disk_file (Some (str "old")) None)).2 in
  load_config (Some (str "/home/ann")) (c_directory sample_config) d' = Ok sample_config.
Proof.
  intros d'. assert (config_ok (Some (str "/home/ann")) sample_config) as Hc.
  { split; [done|split; [done|by apply not_in_check]|done|split; [by apply not_in_check|done]|].
    split; [done|]. by repeat constructor. }
  exact (config_roundtrip sample_file_env (fun _ => None) (Some (str "/home/ann")) sample_config (mk_disk_file (Some (str "old")) None)
    (Ok tt) d' Hc ltac:(by vm_compute)).
Defined.
