(* ===== verification/Crypto.v ===== *)
(** Cryptography: [Aead], [build_nonce], [seal_standalone] and [open_standalone] of
    [common/src/crypto.cpp], the derivations of [common/src/protocol.cpp] from a password,
    and the session keys of [client/include/dz/client/rendezvous.hpp].

    The ciphers are OpenSSL's and are a parameter: [AeadCipher] has the two functions
    and [AeadLaws] what AES-256-GCM and ChaCha20-Poly1305 document of them, that a
    ciphertext is as long as its plaintext with a 16-byte tag after it and that what
    was sealed opens, to bytes. That a forged ciphertext does not open is a statement about
    effort and is not among them.

    The hashes, key derivations, signatures and key agreement are OpenSSL's too:
    [Openssl] and [OpensslLaws]. What the calls of libcrypto behind these functions do when one
    of them fails is in [Evp]. *)

From S2P Require Import Prelude Endian Protocol Messages.

Class AeadCipher := {
  cipher_seal : AeadAlgorithm -> bytes -> bytes -> bytes -> bytes -> bytes;
  cipher_open : AeadAlgorithm -> bytes -> bytes -> bytes -> bytes -> option bytes;
}.

Class AeadLaws `{AeadCipher} := {
  cipher_seal_len : forall a key nonce aad p, len (cipher_seal a key nonce aad p) = len p + kAeadTagSize;
  cipher_open_len : forall a key nonce aad c p,
    cipher_open a key nonce aad c = Some p -> len c = len p + kAeadTagSize;
  cipher_open_seal : forall a key nonce aad p,
    cipher_open a key nonce aad (cipher_seal a key nonce aad p) = Some p;
  cipher_open_bytes : forall a key nonce aad c p,
    bytes_ok c -> cipher_open a key nonce aad c = Some p -> bytes_ok p;
}.

Definition kInfoOfferKey : bytes := str "drop-zone/v1 sealed offer".

Record SessionKeys := mk_SessionKeys {
  send_key : bytes;
  receive_key : bytes;
  send_nonce_prefix : bytes;
  receive_nonce_prefix : bytes;
  offer_key : bytes;
  handshake_key : bytes;
  sk_algorithm : AeadAlgorithm;
}.

Definition sealed_size (plaintext_len : Z) : Z := plaintext_len + kAeadTagSize.

Definition build_nonce (prefix : bytes) (counter : Z) : bytes := ztake 4 prefix ++ store_u64 counter.

Section Aead.
Context `{AeadCipher}.

(** [Aead::seal] into a buffer with [room] bytes; what it wrote. *)
Definition aead_seal (a : AeadAlgorithm) (key nonce aad plaintext : bytes) (room : Z) : result bytes :=
  let out := cipher_seal a key nonce aad plaintext in
  if room <? len out then Err OutOfBounds else Ok out.

(** [Aead::open] into a buffer with [room] bytes: [None] is [false]. The plaintext is
    written before the tag is looked at, so a buffer too small for it is overrun
    whether or not the tag is right. *)
Definition aead_open (a : AeadAlgorithm) (key nonce aad ciphertext : bytes) (room : Z)
  : result (option bytes) :=
  if len ciphertext <? kAeadTagSize then Ok None
  else
    let body_len := len ciphertext - kAeadTagSize in
    if room <? body_len then Err OutOfBounds
    else Ok (cipher_open a key nonce aad ciphertext).

(** [random] is what [random_bytes] drew. *)
Definition seal_standalone (a : AeadAlgorithm) (key aad plaintext random : bytes) : result bytes :=
  let? body := aead_seal a key random aad plaintext (sealed_size (len plaintext)) in
  Ok (random ++ body).

Definition open_standalone (a : AeadAlgorithm) (key aad sealed : bytes) : result (option bytes) :=
  if len sealed <? kAeadNonceSize + kAeadTagSize then Ok None
  else
    let body_len := len sealed - kAeadNonceSize in
    aead_open a key (ztake kAeadNonceSize sealed) aad (zdrop kAeadNonceSize sealed)
      (body_len - kAeadTagSize).
End Aead.

Section Laws.
Context `{AeadLaws}.

Lemma aead_seal_ok a key nonce aad p room :
  len p + kAeadTagSize <= room -> aead_seal a key nonce aad p room = Ok (cipher_seal a key nonce aad p).
Proof. intros Hr. unfold aead_seal. rewrite cipher_seal_len. by destruct (Z.ltb_spec room (len p + kAeadTagSize)); [lia|]. Qed.

Lemma aead_open_seal a key nonce aad p room :
  len p <= room -> aead_open a key nonce aad (cipher_seal a key nonce aad p) room = Ok (Some p).
Proof.
  intros Hr. unfold aead_open. rewrite cipher_seal_len, cipher_open_seal. pose proof (len_nonneg p).
  unfold kAeadTagSize. destruct (Z.ltb_spec (len p + 16) 16); [lia|].
  destruct (Z.ltb_spec room (len p + 16 - 16)); [lia|done].
Qed.

(** A buffer of the declared length is enough exactly when the ciphertext is the
    declared length and a tag. *)
Lemma aead_open_safe a key nonce aad c room :
  len c <= room + kAeadTagSize -> exists o, aead_open a key nonce aad c room = Ok o.
Proof.
  intros Hr. unfold aead_open. destruct (_ <? kAeadTagSize); [eauto|].
  destruct (Z.ltb_spec room (len c - kAeadTagSize)); [lia|eauto].
Qed.

Lemma seal_standalone_ok a key aad p random :
  seal_standalone a key aad p random = Ok (random ++ cipher_seal a key random aad p).
Proof. unfold seal_standalone. by rewrite aead_seal_ok. Qed.

Lemma open_seal_standalone a key aad p random :
  len random = kAeadNonceSize ->
  open_standalone a key aad (random ++ cipher_seal a key random aad p) = Ok (Some p).
Proof.
  intros Hl. unfold open_standalone. rewrite len_app, cipher_seal_len, Hl, <- Hl, ztake_app_len, zdrop_app_len.
  pose proof (len_nonneg p). destruct (Z.ltb_spec (len random + (len p + kAeadTagSize)) (len random + kAeadTagSize)); [lia|].
  apply aead_open_seal. lia.
Qed.

(** The sealed offer is opened into a buffer of the right size whatever arrives. *)
Lemma open_standalone_safe a key aad c : exists o, open_standalone a key aad c = Ok o.
Proof.
  unfold open_standalone. destruct (Z.ltb_spec (len c) (kAeadNonceSize + kAeadTagSize)); [eauto|].
  apply aead_open_safe. rewrite len_zdrop; unfold kAeadNonceSize, kAeadTagSize in *; lia.
Qed.

Lemma open_standalone_bytes a key aad c p :
  bytes_ok c -> open_standalone a key aad c = Ok (Some p) -> bytes_ok p.
Proof.
  intros Hc. unfold open_standalone, aead_open. destruct (_ <? _); [done|]. destruct (_ <? _); [done|].
  destruct (_ <? _); [done|]. intros [= E]. eapply cipher_open_bytes; [|exact E]. by apply Forall_drop.
Qed.
End Laws.

(** Nonces of one key do not repeat: the counter can be read back. *)
Lemma build_nonce_inj prefix i j :
  is_u64 i -> is_u64 j -> build_nonce prefix i = build_nonce prefix j -> i = j.
Proof.
  intros Hi Hj E%app_inv_head. apply (f_equal load_u64) in E.
  rewrite <- (app_nil_r (store_u64 i)), <- (app_nil_r (store_u64 j)), !load_store_u64 in E by done.
  by injection E.
Qed.

(** A cipher with the laws, to run the definitions on: no secrecy at all. *)
Definition plain_cipher : AeadCipher := {|
  cipher_seal a key nonce aad p := p ++ replicate 16 0;
  cipher_open a key nonce aad c :=
    if bool_decide (zdrop (len c - 16) c = replicate 16 0 /\ 16 <= len c)
    then Some (ztake (len c - 16) c) else None;
|}.

Lemma plain_cipher_laws : @AeadLaws plain_cipher.
Proof.
  split; unfold cipher_seal, cipher_open, plain_cipher.
  - intros. by rewrite len_app.
  - intros a key nonce aad c p. case_bool_decide as Hc; [|done]. intros [= <-].
    destruct Hc. rewrite len_ztake by lia. unfold kAeadTagSize. lia.
  - intros a key nonce aad p. rewrite len_app. change (len (replicate 16 0)) with 16.
    replace (len p + 16 - 16) with (len p) by lia. rewrite zdrop_app_len, ztake_app_len.
    rewrite bool_decide_eq_true_2; [done|]. pose proof (len_nonneg p). split; [done|lia].
  - intros a key nonce aad c p Hc. case_bool_decide; [|done]. intros [= <-]. by apply Forall_take.
Qed.

(** * Hashes, derivations, signatures and key agreement *)

(** [None] of [x25519_derive] is a point libcrypto refuses. *)
Class Openssl := {
  sha256 : bytes -> bytes;
  hmac_sha256 : bytes -> bytes -> bytes;
  hkdf_sha256 : bytes -> bytes -> bytes -> Z -> bytes;
  scrypt_derive : bytes -> bytes -> Z -> bytes;
  ed25519_public : bytes -> bytes;
  ed25519_sign : bytes -> bytes -> bytes;
  ed25519_verify : bytes -> bytes -> bytes -> bool;
  x25519_public : bytes -> bytes;
  x25519_derive : bytes -> bytes -> option bytes;
}.

(** Sizes, that a signature verifies under the key of its signer, and that two honest
    private keys agree (RFC 7748, section 6.1). Nothing says that a proof or a signature
    cannot be forged. *)
Class OpensslLaws `{Openssl} := {
  sha256_fixed : forall b, fixed kSha256Size (sha256 b);
  hmac_fixed : forall key b, fixed kSha256Size (hmac_sha256 key b);
  hkdf_fixed : forall secret salt info n, 0 <= n -> fixed n (hkdf_sha256 secret salt info n);
  scrypt_fixed : forall password salt n, 0 <= n -> fixed n (scrypt_derive password salt n);
  ed25519_public_fixed : forall secret,
    fixed kEd25519PrivateKeySize secret -> fixed kEd25519PublicKeySize (ed25519_public secret);
  ed25519_sign_fixed : forall secret message,
    fixed kEd25519PrivateKeySize secret -> fixed kEd25519SignatureSize (ed25519_sign secret message);
  ed25519_verify_sign : forall secret message,
    fixed kEd25519PrivateKeySize secret ->
    ed25519_verify (ed25519_public secret) message (ed25519_sign secret message) = true;
  x25519_public_fixed : forall secret,
    fixed kX25519KeySize secret -> fixed kX25519KeySize (x25519_public secret);
  x25519_agree : forall a b, fixed kX25519KeySize a -> fixed kX25519KeySize b ->
    exists k, x25519_derive a (x25519_public b) = Some k /\ x25519_derive b (x25519_public a) = Some k;
}.

Record X25519KeyPair := mk_X25519KeyPair { x_secret : bytes; x_public_key : bytes }.
Record Ed25519KeyPair := mk_Ed25519KeyPair { ed_secret : bytes; ed_public_key : bytes }.

(** [cpu_prefers_aes] is the argument. *)
Definition preferred_aead (prefers_aes : bool) : AeadAlgorithm :=
  if prefers_aes then Aes256Gcm else ChaCha20Poly1305.

Definition kMacContextGroupVerifier : bytes := str "drop-zone/v1 group verifier".

Section Derivations.
Context `{Openssl}.

(** [x25519_shared]; libcrypto's own text follows the message. *)
Definition x25519_shared (own_secret peer_public : bytes) : result bytes :=
  match x25519_derive own_secret peer_public with
  | Some shared => Ok shared
  | None => Err (Error (str "X25519 key agreement failed"))
  end.

Definition public_password_salt (receiver_username : bytes) : bytes :=
  str "drop-zone/v1 public-password/" ++ receiver_username.

Definition derive_public_password_key (password receiver_username : bytes) : bytes :=
  scrypt_derive password (public_password_salt receiver_username) kAeadKeySize.

Definition derive_group_verifier (password_key group_name : bytes) : bytes :=
  hmac_sha256 password_key (kMacContextGroupVerifier ++ str "/" ++ group_name).
End Derivations.

(** Primitives with the laws, to run the definitions on: no security at all. *)
Definition toy_digest (b : bytes) : bytes :=
  store_u64 (foldl (fun h c => u64 (h * 31 + c + 1)) 7 b) ++ replicate 24 0.

Definition toy_stretch (b : bytes) (n : Z) : bytes := ztake n (toy_digest b ++ replicate (Z.to_nat n) 0).

Definition toy_sign (public message : bytes) : bytes := toy_digest (public ++ message) ++ replicate 32 0.

Definition toy_openssl : Openssl := {|
  sha256 := toy_digest;
  hmac_sha256 key b := toy_digest (key ++ b);
  hkdf_sha256 secret salt info n := toy_stretch (secret ++ salt ++ info) n;
  scrypt_derive password salt n := toy_stretch (password ++ salt) n;
  ed25519_public secret := secret;
  ed25519_sign := toy_sign;
  ed25519_verify public message signature := bool_decide (signature = toy_sign public message);
  x25519_public secret := secret;
  x25519_derive secret public := Some (zip_with (fun a b => u8 (a + b)) secret public);
|}.

Lemma toy_digest_fixed b : fixed 32 (toy_digest b).
Proof.
  unfold toy_digest. split; [by rewrite len_app, store_u64_len|]. apply bytes_ok_app. split; [apply store_u64_ok|].
  by repeat constructor.
Qed.

Lemma toy_stretch_fixed b n : 0 <= n -> fixed n (toy_stretch b n).
Proof.
  intros Hn. unfold toy_stretch. destruct (toy_digest_fixed b) as [Hl Hb]. split.
  - rewrite len_ztake; [done|]. rewrite len_app, Hl. unfold len. rewrite length_replicate. lia.
  - apply bytes_ok_ztake, bytes_ok_app. split; [done|]. apply Forall_replicate. done.
Qed.

Lemma toy_sign_fixed p b : fixed 64 (toy_sign p b).
Proof.
  unfold toy_sign. destruct (toy_digest_fixed (p ++ b)) as [Hl Hb]. split; [by rewrite len_app, Hl|].
  apply bytes_ok_app. split; [done|]. by apply Forall_replicate.
Qed.

Lemma toy_openssl_laws : @OpensslLaws toy_openssl.
Proof.
  split; cbn; try done.
  - apply toy_digest_fixed.
  - intros. apply toy_digest_fixed.
  - intros. by apply toy_stretch_fixed.
  - intros. by apply toy_stretch_fixed.
  - intros. apply toy_sign_fixed.
  - intros. by apply bool_decide_eq_true_2.
  - intros a b _ _. eexists. split; [done|]. f_equal. clear. revert b.
    induction a as [|x a IH]; intros [|y b]; cbn; [done..|]. by rewrite IH, Z.add_comm.
Qed.
