(* ===== verification/Evp.v ===== *)
(** The wrappers of libcrypto: [common/src/crypto.cpp] call by call, and [fail_openssl] and
    [clear_openssl_errors] of [common/src/error.cpp].

    [Lib] is libcrypto as the wrappers use it: its objects, the error queue of the thread, how
    the next calls end and what its random generator draws. A call that fails pushes its errors;
    every other one does what the primitives of [Crypto] say. Freeing an object that is not there
    is [OutOfBounds]. A local [Guard] is [guarded]: its destructor runs however the scope ends.

    [crypto_call] has every function of the interface, [run_call] is its wrapper and [spec_call]
    what the rest of the development takes the function to be. *)

From S2P Require Import Prelude Endian Protocol Messages Crypto.

(** * libcrypto *)

(** A cipher context: the key stays, a nonce starts a new message. *)
Record cctx := mk_cctx { cx_key : option (AeadAlgorithm * bytes); cx_nonce : bytes; cx_aad : bytes; cx_data : bytes }.

Inductive object := Plain | Hashing (data : bytes) | Ciphering (c : cctx).

Record Lib := mk_Lib {
  lib_objects : gmap Z object;
  lib_next : Z;
  lib_errors : list Z;
  lib_answers : list (option (list Z));
  lib_random : list bytes;
}.

Definition with_objects o l := mk_Lib o (lib_next l) (lib_errors l) (lib_answers l) (lib_random l).
Definition with_errors e l := mk_Lib (lib_objects l) (lib_next l) e (lib_answers l) (lib_random l).

(** Whether the next call succeeds; one that does not pushes its errors. *)
Definition answered : M Lib bool := fun l =>
  match lib_answers l with
  | [] => (Ok true, l)
  | None :: answers => (Ok true, mk_Lib (lib_objects l) (lib_next l) (lib_errors l) answers (lib_random l))
  | Some errors :: answers => (Ok false, mk_Lib (lib_objects l) (lib_next l) (lib_errors l ++ errors) answers (lib_random l))
  end.

(** A new object, or the null pointer. *)
Definition evp_new (o : object) : M Lib (option Z) :=
  let* ok := answered in
  if ok then fun l => (Ok (Some (lib_next l)),
      mk_Lib (<[lib_next l := o]> (lib_objects l)) (lib_next l + 1) (lib_errors l) (lib_answers l) (lib_random l))
  else mret None.

Definition evp_free (id : Z) : M Lib unit := fun l =>
  match lib_objects l !! id with
  | Some _ => (Ok tt, with_objects (delete id (lib_objects l)) l)
  | None => (Err OutOfBounds, l)
  end.

(** What the generator draws next. *)
Definition draw (n : Z) : M Lib bytes := fun l =>
  match lib_random l with
  | [] => (Err Blocks, l)
  | b :: rest => (Ok (ztake n b), mk_Lib (lib_objects l) (lib_next l) (lib_errors l) (lib_answers l) rest)
  end.

Section Evp.
Context `{AeadCipher} `{Openssl} (error_string : Z -> bytes).

Definition clear_openssl_errors : M Lib unit := mmodify (with_errors []).

Definition fail_openssl {A} (what : string) : M Lib A := fun l =>
  let message := str what ++
    match lib_errors l with
    | [] => str ": libcrypto reported no reason"
    | code :: _ => str ": " ++ error_string code
    end in
  (Err (Error message), with_errors [] l).

(** A call whose result is compared with one. *)
Definition evp (what : string) : M Lib unit :=
  let* ok := answered in if ok then mret tt else fail_openssl what.

Definition fail_unless (b : bool) (what : string) : M Lib unit :=
  if b then mret tt else mthrow (Error (str what)).

(** [static_cast<int>] of a length, and the bytes the library then reads. *)
Definition int_len (n : Z) : Z := i32 (u32 n).
Definition readable (b : bytes) : bytes := ztake (int_len (len b)) b.

(** The destructors of the pointers that are not null. *)
Fixpoint free_all (hs : list (option Z)) : M Lib unit :=
  match hs with
  | [] => mret tt
  | None :: hs => free_all hs
  | Some id :: hs => do* evp_free id in free_all hs
  end.

Definition guarded {A} (hs : list (option Z)) (body : M Lib A) : M Lib A := fun l =>
  let '(r, l) := body l in
  let '(freed, l) := free_all hs l in
  (match freed with Ok _ => r | Err e => Err e end, l).

(** The destructors of a constructor that did not finish. *)
Definition unless_built {A} (hs : list (option Z)) (body : M Lib A) : M Lib A := fun l =>
  match body l with
  | (Ok a, l) => (Ok a, l)
  | (Err e, l) => let '(freed, l) := free_all hs l in (match freed with Ok _ => Err e | Err e' => Err e' end, l)
  end.

(** * Randomness and hashing *)

Definition evp_random_bytes (n : Z) : M Lib bytes :=
  if n =? 0 then mret []
  else do* evp "the system random number generator failed" in draw (int_len n).

Definition evp_sha256 (data : bytes) : M Lib bytes := do* evp "SHA-256 failed" in mret (sha256 data).

(** [Sha256::Sha256]; nothing frees the context when the second call fails. *)
Definition sha256_begin : M Lib Z :=
  let* ctx := evp_new (Hashing []) in
  match ctx with
  | None => fail_openssl "cannot allocate a digest context"
  | Some ctx => do* evp "cannot initialise SHA-256" in mret ctx
  end.

Definition sha256_update (ctx : Z) (data : bytes) : M Lib unit :=
  if len data =? 0 then mret tt
  else do* evp "SHA-256 update failed" in
    mmodify (fun l => with_objects (alter (fun o => match o with Hashing d => Hashing (d ++ data) | _ => o end) ctx (lib_objects l)) l).

Definition sha256_finish (ctx : Z) : M Lib bytes :=
  do* evp "SHA-256 finalisation failed" in
  fun l => match lib_objects l !! ctx with
           | Some (Hashing d) => (Ok (sha256 d), l)
           | _ => (Err OutOfBounds, l)
           end.

Definition evp_hmac_sha256 (key data : bytes) : M Lib bytes :=
  do* evp "HMAC-SHA256 failed" in
  let out := hmac_sha256 (readable key) data in
  do* fail_unless (len out =? kSha256Size) "HMAC-SHA256 produced an unexpected length" in
  mret out.

Fixpoint evps (whats : list string) : M Lib unit :=
  match whats with
  | [] => mret tt
  | what :: whats => do* evp what in evps whats
  end.

Definition evp_hkdf_sha256 (secret salt info : bytes) (out_len : Z) : M Lib bytes :=
  let* ctx := evp_new Plain in
  match ctx with
  | None => fail_openssl "cannot allocate an HKDF context"
  | Some ctx =>
      guarded [Some ctx] (
        do* evps ["cannot initialise HKDF"; "cannot select SHA-256"; "cannot set the HKDF salt";
                  "cannot set the HKDF input key"; "cannot set the HKDF info string"; "HKDF derivation failed"]%string in
        let out := hkdf_sha256 (readable secret) (readable salt) (readable info) out_len in
        do* fail_unless (len out =? out_len) "HKDF produced an unexpected length" in
        mret out)
  end.

Definition evp_scrypt_derive (password salt : bytes) (out_len : Z) : M Lib bytes :=
  let* ctx := evp_new Plain in
  match ctx with
  | None => fail_openssl "cannot allocate an scrypt context"
  | Some ctx =>
      guarded [Some ctx] (
        do* evps ["cannot initialise scrypt"; "cannot set the scrypt password"; "cannot set the scrypt salt";
                  "cannot set scrypt N"; "cannot set scrypt r"; "cannot set scrypt p";
                  "cannot raise the scrypt memory limit"; "scrypt derivation failed"]%string in
        let out := scrypt_derive (readable password) (readable salt) out_len in
        do* fail_unless (len out =? out_len) "scrypt produced an unexpected length" in
        mret out)
  end.

(** * Keys, agreement and signatures *)

(** A check that is one with the call before it: both fail with libcrypto's errors. *)
Definition export (bs : bytes) (n : Z) (what : string) : M Lib bytes :=
  do* evp what in if len bs =? n then mret bs else fail_openssl what.

(** [generate_raw_keypair]; the curve is [public], from a private key to its public one. The
    source's one guard is two here. *)
Definition generate_raw_keypair (public : bytes -> bytes) (secret_len public_len : Z) : M Lib (bytes * bytes) :=
  let* ctx := evp_new Plain in
  match ctx with
  | None => fail_openssl "cannot allocate a key generation context"
  | Some ctx =>
      guarded [Some ctx] (
        do* evp "cannot initialise key generation" in
        let* key := evp_new Plain in
        match key with
        | None => fail_openssl "key generation failed"
        | Some key =>
            guarded [Some key] (
              let* drawn := draw secret_len in
              let* secret := export drawn secret_len "cannot export the generated private key" in
              let* public_key := export (public drawn) public_len "cannot export the generated public key" in
              mret (secret, public_key))
        end)
  end.

Definition evp_x25519_generate : M Lib X25519KeyPair :=
  let* pair := generate_raw_keypair x25519_public kX25519KeySize kX25519KeySize in
  mret (mk_X25519KeyPair pair.1 pair.2).

Definition evp_ed25519_generate : M Lib Ed25519KeyPair :=
  let* pair := generate_raw_keypair ed25519_public kEd25519PrivateKeySize kEd25519PublicKeySize in
  mret (mk_Ed25519KeyPair pair.1 pair.2).

Definition evp_x25519_shared (own_secret peer_public : bytes) : M Lib bytes :=
  let* own := evp_new Plain in
  match own with
  | None => fail_openssl "cannot load the local X25519 key"
  | Some own =>
      let* peer := evp_new Plain in
      let* ctx := match peer with Some _ => evp_new Plain | None => mret None end in
      guarded [ctx; peer; Some own] (
        match peer, ctx with
        | None, _ => fail_openssl "the peer sent an unusable X25519 public key"
        | _, None => fail_openssl "cannot allocate a key agreement context"
        | Some _, Some _ =>
            do* evp "cannot initialise key agreement" in
            do* evp "the peer's X25519 public key was rejected" in
            do* evp "X25519 key agreement failed" in
            match x25519_derive own_secret peer_public with
            | Some shared => if len shared =? kX25519KeySize then mret shared else fail_openssl "X25519 key agreement failed"
            | None => fail_openssl "X25519 key agreement failed"
            end
        end)
  end.

Definition evp_ed25519_public_from_secret (secret : bytes) : M Lib bytes :=
  let* key := evp_new Plain in
  match key with
  | None => fail_openssl "cannot load the Ed25519 private key"
  | Some key =>
      guarded [Some key] (export (ed25519_public secret) kEd25519PublicKeySize "cannot derive the Ed25519 public key")
  end.

Definition evp_ed25519_sign (secret message : bytes) : M Lib bytes :=
  let* key := evp_new Plain in
  match key with
  | None => fail_openssl "cannot load the Ed25519 signing key"
  | Some key =>
      let* ctx := evp_new Plain in
      guarded [ctx; Some key] (
        match ctx with
        | None => fail_openssl "cannot allocate a signing context"
        | Some _ =>
            do* evp "cannot initialise Ed25519 signing" in
            export (ed25519_sign secret message) kEd25519SignatureSize "Ed25519 signing failed"
        end)
  end.

Definition evp_ed25519_verify (public_key message signature : bytes) : M Lib bool :=
  let* key := evp_new Plain in
  match key with
  | None => do* clear_openssl_errors in mret false
  | Some key =>
      let* ctx := evp_new Plain in
      guarded [ctx; Some key] (
        match ctx with
        | None => mret false
        | Some _ =>
            let* ok := answered in
            if negb ok then mret false
            else
              let* ok := answered in
              do* clear_openssl_errors in
              mret (ok && ed25519_verify public_key message signature)
        end)
  end.

(** * Authenticated encryption *)

Record Aead := mk_Aead { ae_seal_ctx : Z; ae_open_ctx : Z; ae_algorithm : AeadAlgorithm }.

Definition on_ctx (ctx : Z) (f : cctx -> cctx) : M Lib unit :=
  mmodify (fun l => with_objects (alter (fun o => match o with Ciphering c => Ciphering (f c) | _ => o end) ctx (lib_objects l)) l).

Definition get_ctx (ctx : Z) : M Lib cctx := fun l =>
  match lib_objects l !! ctx with
  | Some (Ciphering c) => (Ok c, l)
  | _ => (Err OutOfBounds, l)
  end.

Definition install_key (a : AeadAlgorithm) (key : bytes) (c : cctx) : cctx := mk_cctx (Some (a, key)) (cx_nonce c) [] [].
Definition set_nonce (nonce : bytes) (c : cctx) : cctx := mk_cctx (cx_key c) nonce [] [].
Definition add_aad (aad : bytes) (c : cctx) : cctx := mk_cctx (cx_key c) (cx_nonce c) (cx_aad c ++ aad) (cx_data c).
Definition add_data (data : bytes) (c : cctx) : cctx := mk_cctx (cx_key c) (cx_nonce c) (cx_aad c) (cx_data c ++ data).
Definition new_cctx : object := Ciphering (mk_cctx None [] [] []).

(** [Aead::Aead]; [Impl]'s destructor frees both contexts when it throws. *)
Definition aead_new (a : AeadAlgorithm) (key : bytes) : M Lib Aead :=
  let* seal_ctx := evp_new new_cctx in
  let* open_ctx := evp_new new_cctx in
  unless_built [seal_ctx; open_ctx] (
    match seal_ctx, open_ctx with
    | Some s, Some o =>
        do* evp "cannot install the encryption key" in
        do* on_ctx s (install_key a key) in
        do* evp "cannot install the decryption key" in
        do* on_ctx o (install_key a key) in
        mret (mk_Aead s o a)
    | _, _ => fail_openssl "cannot allocate a cipher context"
    end).

(** Reading a context without its key is not a thing libcrypto documents. *)
Definition key_of (c : cctx) : result (AeadAlgorithm * bytes) :=
  match cx_key c with Some k => Ok k | None => Err OutOfBounds end.

(** [Aead::seal] into [room] bytes. *)
Definition evp_seal (ae : Aead) (nonce aad plaintext : bytes) (room : Z) : M Lib bytes :=
  let ctx := ae_seal_ctx ae in
  do* evp "cannot set the encryption nonce" in
  do* on_ctx ctx (set_nonce nonce) in
  do* (if 0 <? len aad then do* evp "cannot authenticate the chunk header" in on_ctx ctx (add_aad (readable aad)) else mret tt) in
  do* (if 0 <? len plaintext then
         do* evp "encryption failed" in
         if room <? len plaintext then mthrow OutOfBounds else on_ctx ctx (add_data (readable plaintext))
       else mret tt) in
  do* evp "encryption finalisation failed" in
  do* evp "cannot read the authentication tag" in
  let* c := get_ctx ctx in
  let* key := mlift (key_of c) in
  let out := cipher_seal key.1 key.2 (cx_nonce c) (cx_aad c) (cx_data c) in
  if room <? len out then mthrow OutOfBounds else mret out.

(** [Aead::open] into [room] bytes: [None] is [false]. *)
Definition evp_open (ae : Aead) (nonce aad ciphertext : bytes) (room : Z) : M Lib (option bytes) :=
  if len ciphertext <? kAeadTagSize then mret None
  else
  let body_len := len ciphertext - kAeadTagSize in
  let ctx := ae_open_ctx ae in
  do* evp "cannot set the decryption nonce" in
  do* on_ctx ctx (set_nonce nonce) in
  do* (if 0 <? len aad then do* evp "cannot authenticate the chunk header" in on_ctx ctx (add_aad (readable aad)) else mret tt) in
  let* decrypted := (if 0 <? body_len then
      let* ok := answered in
      if negb ok then do* clear_openssl_errors in mret false
      else if room <? body_len then mthrow OutOfBounds
      else do* on_ctx ctx (add_data (readable (ztake body_len ciphertext))) in mret true
    else mret true) in
  if negb decrypted then mret None
  else
  do* evp "cannot install the authentication tag" in
  let* ok := answered in
  let* c := get_ctx ctx in
  let* key := mlift (key_of c) in
  match (if ok then cipher_open key.1 key.2 (cx_nonce c) (cx_aad c) (cx_data c ++ zdrop body_len ciphertext) else None) with
  | None => do* clear_openssl_errors in mret None
  | Some p => mret (Some p)
  end.

(** An [Aead] of one call. *)
Definition with_aead {A} (a : AeadAlgorithm) (key : bytes) (body : Aead -> M Lib A) : M Lib A :=
  let* ae := aead_new a key in
  guarded [Some (ae_seal_ctx ae); Some (ae_open_ctx ae)] (body ae).

Definition evp_seal_standalone (a : AeadAlgorithm) (key aad plaintext : bytes) : M Lib bytes :=
  let* nonce := evp_random_bytes kAeadNonceSize in
  let* body := with_aead a key (fun ae => evp_seal ae nonce aad plaintext (sealed_size (len plaintext))) in
  mret (nonce ++ body).

Definition evp_open_standalone (a : AeadAlgorithm) (key aad sealed : bytes) : M Lib (option bytes) :=
  if len sealed <? kAeadNonceSize + kAeadTagSize then mret None
  else
    let body_len := len sealed - kAeadNonceSize in
    with_aead a key (fun ae =>
      evp_open ae (ztake kAeadNonceSize sealed) aad (zdrop kAeadNonceSize sealed) (body_len - kAeadTagSize)).

(** * The interface *)

Inductive crypto_call :=
  | CallRandom (n : Z)
  | CallSha256 (data : bytes)
  | CallHashParts (parts : list bytes)
  | CallHmac (key data : bytes)
  | CallHkdf (secret salt info : bytes) (out_len : Z)
  | CallScrypt (password salt : bytes) (out_len : Z)
  | CallX25519Generate
  | CallX25519Shared (own_secret peer_public : bytes)
  | CallEd25519Generate
  | CallEd25519Public (secret : bytes)
  | CallSign (secret message : bytes)
  | CallVerify (public_key message signature : bytes)
  | CallSeal (a : AeadAlgorithm) (key aad plaintext : bytes)
  | CallOpen (a : AeadAlgorithm) (key aad sealed : bytes).

Inductive crypto_value :=
  | Bytes (b : bytes)
  | X25519Pair (k : X25519KeyPair)
  | Ed25519Pair (k : Ed25519KeyPair)
  | Verdict (b : bool)
  | Opened (o : option bytes).

Definition mfmap {S A B} (f : A -> B) (m : M S A) : M S B := let* a := m in mret (f a).

(** The life of a [Sha256]. *)
Fixpoint sha256_updates (ctx : Z) (parts : list bytes) : M Lib unit :=
  match parts with
  | [] => mret tt
  | part :: parts => do* sha256_update ctx part in sha256_updates ctx parts
  end.

Definition hash_parts (parts : list bytes) : M Lib bytes :=
  let* ctx := sha256_begin in
  guarded [Some ctx] (do* sha256_updates ctx parts in sha256_finish ctx).

Definition run_call (c : crypto_call) : M Lib crypto_value :=
  match c with
  | CallRandom n => mfmap Bytes (evp_random_bytes n)
  | CallSha256 data => mfmap Bytes (evp_sha256 data)
  | CallHashParts parts => mfmap Bytes (hash_parts parts)
  | CallHmac key data => mfmap Bytes (evp_hmac_sha256 key data)
  | CallHkdf secret salt info n => mfmap Bytes (evp_hkdf_sha256 secret salt info n)
  | CallScrypt password salt n => mfmap Bytes (evp_scrypt_derive password salt n)
  | CallX25519Generate => mfmap X25519Pair evp_x25519_generate
  | CallX25519Shared own peer => mfmap Bytes (evp_x25519_shared own peer)
  | CallEd25519Generate => mfmap Ed25519Pair evp_ed25519_generate
  | CallEd25519Public secret => mfmap Bytes (evp_ed25519_public_from_secret secret)
  | CallSign secret message => mfmap Bytes (evp_ed25519_sign secret message)
  | CallVerify public_key message signature => mfmap Verdict (evp_ed25519_verify public_key message signature)
  | CallSeal a key aad plaintext => mfmap Bytes (evp_seal_standalone a key aad plaintext)
  | CallOpen a key aad sealed => mfmap Opened (evp_open_standalone a key aad sealed)
  end.

(** What the functions are elsewhere, [random] being what is drawn. *)
Definition spec_call (random : bytes) (c : crypto_call) : result crypto_value :=
  match c with
  | CallRandom n => Ok (Bytes (if n =? 0 then [] else random))
  | CallSha256 data => Ok (Bytes (sha256 data))
  | CallHashParts parts => Ok (Bytes (sha256 (mjoin parts)))
  | CallHmac key data => Ok (Bytes (hmac_sha256 key data))
  | CallHkdf secret salt info n => Ok (Bytes (hkdf_sha256 secret salt info n))
  | CallScrypt password salt n => Ok (Bytes (scrypt_derive password salt n))
  | CallX25519Generate => Ok (X25519Pair (mk_X25519KeyPair random (x25519_public random)))
  | CallX25519Shared own peer => let? shared := x25519_shared own peer in Ok (Bytes shared)
  | CallEd25519Generate => Ok (Ed25519Pair (mk_Ed25519KeyPair random (ed25519_public random)))
  | CallEd25519Public secret => Ok (Bytes (ed25519_public secret))
  | CallSign secret message => Ok (Bytes (ed25519_sign secret message))
  | CallVerify public_key message signature => Ok (Verdict (ed25519_verify public_key message signature))
  | CallSeal a key aad plaintext => let? sealed := seal_standalone a key aad plaintext random in Ok (Bytes sealed)
  | CallOpen a key aad sealed => let? opened := open_standalone a key aad sealed in Ok (Opened opened)
  end.
End Evp.

(** * Nothing is lost, and what is returned is right *)

(** [quiet]: every call of the library succeeds. [clean]: the error queue is looked at.
    [F]: an exception may come of it. *)
Section Rules.
Context `{HA : AeadLaws} `{HS : OpensslLaws} (error_string : Z -> bytes).
Context (quiet clean : bool) (F : Prop) (HF : quiet = false -> F).

(** The objects, what will be drawn, and an error queue that is empty. *)
Record tidy (O : gmap Z object) (R : list bytes) (l : Lib) : Prop := {
  td_objects : lib_objects l = O;
  td_fresh : forall id, is_Some (O !! id) -> id < lib_next l;
  td_quiet : quiet = true -> Forall (fun a => a = None) (lib_answers l);
  td_random : lib_random l = R;
  td_errors : clean = true -> lib_errors l = [];
}.

(** After a call that failed. *)
Definition untidy (O : gmap Z object) (R : list bytes) (l : Lib) : Prop := tidy O R (with_errors [] l) /\ F.

(** The objects are such that [I]. *)
Definition lost (I : gmap Z object -> Prop) (l : Lib) : Prop := exists O R, I O /\ tidy O R l.
Definition ends (I : gmap Z object -> Prop) {A} (φ : A -> Prop) (a : A) (l : Lib) : Prop := φ a /\ lost I l.

(** From [P], [m] returns with [Q] or throws an [Error] with [lost I], and then [F]. *)
Definition triple (P : Lib -> Prop) {A} (m : M Lib A) (Q : A -> Lib -> Prop) (I : gmap Z object -> Prop) : Prop := forall l, P l ->
  match m l with
  | (Ok a, l') => Q a l'
  | (Err e, l') => lost I l' /\ F /\ exists message, e = Error message
  end.

Lemma triple_bind P {A B} (m : M Lib A) (k : A -> M Lib B) Q Q' I :
  triple P m Q I -> (forall a, triple (Q a) (k a) Q' I) -> triple P (mbind m k) Q' I.
Proof. intros Hm Hk l Hl. specialize (Hm l Hl). unfold mbind. destruct (m l) as [[a|e] l1]; [by apply Hk|done]. Qed.

Lemma triple_lift P {A B} (a : A) (k : A -> M Lib B) Q I : triple P (k a) Q I -> triple P (mbind (mlift (Ok a)) k) Q I.
Proof. done. Qed.

Lemma triple_ret (P : Lib -> Prop) {A} (a : A) (Q : A -> Lib -> Prop) I : (forall l, P l -> Q a l) -> triple P (mret a) Q I.
Proof. intros HQ l Hl. by apply HQ. Qed.

Lemma triple_pre (P P' : Lib -> Prop) {A} (m : M Lib A) Q I : (forall l, P l -> P' l) -> triple P' m Q I -> triple P m Q I.
Proof. intros HP Hm l Hl. by apply Hm, HP. Qed.

Lemma triple_post P {A} (m : M Lib A) (Q Q' : A -> Lib -> Prop) I :
  triple P m Q I -> (forall a l, Q a l -> Q' a l) -> triple P m Q' I.
Proof. intros Hm HQ l Hl. specialize (Hm l Hl). by destruct (m l) as [[a|e] l1]; [apply HQ|]. Qed.

Lemma triple_pure (φ : Prop) (P : Lib -> Prop) {A} (m : M Lib A) Q I : (φ -> triple P m Q I) -> triple (fun l => φ /\ P l) m Q I.
Proof. intros Hm l [Hφ Hl]. by apply Hm. Qed.

Lemma triple_mfmap P {A B} (f : A -> B) (m : M Lib A) I I' (φ : A -> Prop) (ψ : B -> Prop) :
  triple P m (ends I φ) I' -> (forall a, φ a -> ψ (f a)) -> triple P (mfmap f m) (ends I ψ) I'.
Proof. intros Hm Hf. eapply triple_bind; [exact Hm|]. intros a. apply triple_ret. intros l [? ?]. split; [by apply Hf|done]. Qed.

Lemma tidy_lost (I : gmap Z object -> Prop) O R l : I O -> tidy O R l -> lost I l.
Proof. by exists O, R. Qed.

Lemma triple_done (I : gmap Z object -> Prop) O R {A} (a : A) (φ : A -> Prop) : I O -> φ a -> triple (tidy O R) (mret a) (ends I φ) I.
Proof. intros HI Ha. apply triple_ret. intros l Hl. split; [done|by eapply tidy_lost]. Qed.

Lemma untidy_loose O R l : clean = false -> untidy O R l -> tidy O R l.
Proof. intros Hc [[H1 H2 H3 H4 H5] Hf]. split; try done. congruence. Qed.

Lemma triple_answered O R I : triple (tidy O R) answered (fun ok l => if ok then tidy O R l else (quiet = false /\ untidy O R l)) I.
Proof.
  intros l [H1 H2 H3 H4 H5]. unfold answered. destruct (lib_answers l) as [|[errors|] answers] eqn:Ea.
  - by split; rewrite ?Ea.
  - assert (quiet = false) as Hq. { destruct quiet; [|done]. specialize (H3 eq_refl). by inversion H3. }
    split; [done|]. split; [|by apply HF]. split; cbn; try done. intros Hq'. congruence.
  - split; try done. cbn. intros Hq. specialize (H3 Hq). by inversion H3.
Qed.

Lemma triple_fail (I : gmap Z object -> Prop) O R {A} what (Q : A -> Lib -> Prop) : I O -> triple (untidy O R) (fail_openssl error_string what) Q I.
Proof. intros HI l [Hl Hf]. cbn. split; [by exists O, R|]. eauto. Qed.

Lemma tidy_fail (I : gmap Z object -> Prop) O R {A} what (Q : A -> Lib -> Prop) :
  I O -> F -> triple (tidy O R) (fail_openssl error_string what) Q I.
Proof. intros HI Hf. eapply triple_pre; [|by apply triple_fail]. intros l [? ? ? ? ?]. by split. Qed.

Lemma triple_clear O R I : triple (untidy O R) clear_openssl_errors (fun _ => tidy O R) I.
Proof. by intros l [Hl _]. Qed.

Lemma tidy_clear O R I : triple (tidy O R) clear_openssl_errors (fun _ => tidy O R) I.
Proof. by intros l [? ? ? ? ?]. Qed.

Lemma triple_evp (I : gmap Z object -> Prop) O R what : I O -> triple (tidy O R) (evp error_string what) (fun _ => tidy O R) I.
Proof.
  intros HI. eapply triple_bind; [apply triple_answered|]. intros []; [by apply triple_ret|].
  eapply triple_pure. intros _. by apply triple_fail.
Qed.

Lemma triple_evps (I : gmap Z object -> Prop) O R whats : I O -> triple (tidy O R) (evps error_string whats) (fun _ => tidy O R) I.
Proof. intros HI. induction whats as [|w ws IH]; cbn; [by apply triple_ret|]. eapply triple_bind; [by apply triple_evp|]. intros ?. apply IH. Qed.

Lemma triple_new O R o I :
  triple (tidy O R) (evp_new o) (fun h l => match h with
    | Some id => O !! id = None /\ tidy (<[id := o]> O) R l
    | None => quiet = false /\ untidy O R l end) I.
Proof.
  eapply triple_bind; [apply triple_answered|]. intros [|]; [|by apply triple_ret].
  intros l [H1 H2 H3 H4 H5]. assert (O !! lib_next l = None) as Hn.
  { apply eq_None_not_Some. intros Hs%H2. lia. }
  split; [done|]. split; cbn; try done; [by rewrite H1|]. intros id. rewrite lookup_insert_is_Some'. intros [<-|Hid]; [lia|].
  specialize (H2 _ Hid). lia.
Qed.

Lemma untidy_new O R o I :
  triple (untidy O R) (evp_new o) (fun h l => match h with
    | Some id => O !! id = None /\ untidy (<[id := o]> O) R l
    | None => untidy O R l end) I.
Proof.
  intros l [Hl Hf]. pose proof (triple_new O R o I (with_errors [] l) Hl) as Hn. revert Hn.
  unfold evp_new, answered, mbind. cbn. destruct (lib_answers l) as [|[errors|] answers]; cbn; [by intros [??]| |by intros [??]].
  by intros [_ [? _]].
Qed.

(** [O] without the objects of a evp_guard. *)
Fixpoint released (hs : list (option Z)) (O O' : gmap Z object) : Prop :=
  match hs with
  | [] => O = O'
  | None :: hs => released hs O O'
  | Some id :: hs => is_Some (O !! id) /\ released hs (delete id O) O'
  end.

Lemma free_all_released hs : forall O O' R l,
  tidy O R l -> released hs O O' -> exists l', free_all hs l = (Ok tt, l') /\ tidy O' R l'.
Proof.
  induction hs as [|[id|] hs IH]; intros O O' R l Hl Hr; cbn [free_all released] in *.
  - subst. by exists l.
  - destruct Hr as [[o Ho] Hr]. destruct Hl as [H1 H2 H3 H4 H5]. unfold mbind, evp_free. rewrite H1, Ho.
    eapply (IH (delete id O)); [|exact Hr]. split; cbn; try done. intros i. rewrite lookup_delete_is_Some. intros [_ Hi]. by apply H2.
  - by eapply IH.
Qed.

(** Releasing [hs] takes [I] to [I']. *)
Definition guards (hs : list (option Z)) (I I' : gmap Z object -> Prop) : Prop :=
  forall O, I O -> exists O', I' O' /\ released hs O O'.

Lemma lost_freed (I I' : gmap Z object -> Prop) hs l :
  guards hs I I' -> lost I l -> exists l', free_all hs l = (Ok tt, l') /\ lost I' l'.
Proof.
  intros HI (O & R & HO & Hl). destruct (HI _ HO) as (O' & HO' & Hr).
  destruct (free_all_released _ _ _ _ _ Hl Hr) as (l' & -> & Hl'). exists l'. split; [done|]. by exists O', R.
Qed.

Lemma triple_guarded hs P {A} (body : M Lib A) (I I' : gmap Z object -> Prop) (φ : A -> Prop) :
  guards hs I I' ->
  triple P body (ends I φ) I -> triple P (guarded hs body) (ends I' φ) I'.
Proof.
  intros HI Hb l Hl. specialize (Hb l Hl). unfold guarded. destruct (body l) as [[a|e] l1].
  - destruct Hb as [Ha Hl1]. by destruct (lost_freed _ _ _ _ HI Hl1) as (l2 & -> & Hl2).
  - destruct Hb as [Hl1 He]. by destruct (lost_freed _ _ _ _ HI Hl1) as (l2 & -> & Hl2).
Qed.

Lemma triple_unless_built hs P {A} (body : M Lib A) Q (I I' : gmap Z object -> Prop) :
  guards hs I I' ->
  triple P body Q I -> triple P (unless_built hs body) Q I'.
Proof.
  intros HI Hb l Hl. specialize (Hb l Hl). unfold unless_built. destruct (body l) as [[a|e] l1]; [done|].
  destruct Hb as [Hl1 He]. by destruct (lost_freed _ _ _ _ HI Hl1) as (l2 & -> & Hl2).
Qed.

Lemma triple_lost (I I' : gmap Z object -> Prop) {A} (m : M Lib A) Q :
  (forall O R, I O -> triple (tidy O R) m Q I') -> triple (lost I) m Q I'.
Proof. intros Hm l (O & R & HO & Hl). by eapply Hm. Qed.

Lemma guards_nil O : guards [] (eq O) (eq O).
Proof. intros O' <-. by exists O. Qed.

Lemma guards_none hs I I' : guards hs I I' -> guards (None :: hs) I I'.
Proof. done. Qed.

(** One more object, and it goes with its evp_guard. *)
Lemma guards_some id o (O : gmap Z object) hs I' : O !! id = None -> guards hs (eq O) I' -> guards (Some id :: hs) (eq (<[id := o]> O)) I'.
Proof.
  intros Hn Hg O1 <-. destruct (Hg O eq_refl) as (O' & HO' & Hr). exists O'. split; [done|]. cbn.
  rewrite lookup_insert_eq, delete_insert_id by done. split; [by eexists|done].
Qed.
Hint Resolve guards_nil guards_none guards_some : core.

Ltac evp_guard := lazymatch goal with |- triple (tidy ?O1 _) _ _ _ => eapply (triple_guarded _ _ _ (eq O1)); [by auto|] | |- triple (untidy ?O1 _) _ _ _ => eapply (triple_guarded _ _ _ (eq O1)); [by auto|] end.

Ltac evp_built := lazymatch goal with |- triple (fun l => untidy ?O1 _ l) _ _ _ => eapply (triple_unless_built _ _ _ _ (eq O1)); [by auto|] | |- triple (untidy ?O1 _) _ _ _ => eapply (triple_unless_built _ _ _ _ (eq O1)); [by auto|] end.

Ltac evp_step := eapply triple_bind; [by apply triple_evp|]; intros ?.

(** A guarded scope of one object. *)
Lemma triple_scope O R what {A} (body : Z -> M Lib A) (φ : A -> Prop) :
  (forall id, O !! id = None ->
    triple (tidy (<[id := Plain]> O) R) (body id) (ends (eq (<[id := Plain]> O)) φ) (eq (<[id := Plain]> O))) ->
  triple (tidy O R) (let* h := evp_new Plain in
    match h with None => fail_openssl error_string what | Some id => guarded [Some id] (body id) end) (ends (eq O) φ) (eq O).
Proof.
  intros Hb. eapply triple_bind; [apply triple_new|]. intros [id|].
  - apply triple_pure. intros Hn. evp_guard. by apply Hb.
  - apply triple_pure. intros _. by apply triple_fail.
Qed.

Definition short (b : bytes) : Prop := len b < 2 ^ 31.

Lemma int_len_id n : 0 <= n < 2 ^ 31 -> int_len n = n.
Proof. intros Hn. unfold int_len. rewrite u32_small by (unfold is_u; lia). by apply i32_small. Qed.

Lemma readable_id b : short b -> readable b = b.
Proof. intros Hb. unfold readable. rewrite int_len_id; [by apply ztake_len|]. pose proof (len_nonneg b). done. Qed.

Definition gives O R {A} (φ : A -> Prop) (v : A) (l : Lib) : Prop := φ v /\ tidy O R l.

Lemma triple_gives P O R {A} (m : M Lib A) (φ : A -> Prop) : triple P m (gives O R φ) (eq O) -> triple P m (ends (eq O) φ) (eq O).
Proof. intros Hm. eapply triple_post; [exact Hm|]. intros a l [? ?]. split; [done|by eapply tidy_lost]. Qed.

Lemma triple_draw O b R n I : triple (tidy O (b :: R)) (draw n) (gives O R (fun v => v = ztake n b)) I.
Proof. intros l [H1 H2 H3 H4 H5]. unfold draw. rewrite H4. split; [done|]. by split. Qed.

Lemma triple_random O b R n : 0 <= n < 2 ^ 31 ->
  triple (tidy O (b :: R)) (evp_random_bytes error_string n) (ends (eq O) (fun v => v = if n =? 0 then [] else ztake n b)) (eq O).
Proof.
  intros Hn. unfold evp_random_bytes. destruct (n =? 0); [by apply triple_done|]. evp_step.
  rewrite int_len_id by done. eapply triple_gives, triple_draw.
Qed.

Lemma triple_sha256 O R data :
  triple (tidy O R) (evp_sha256 error_string data) (ends (eq O) (fun v => v = sha256 data)) (eq O).
Proof. unfold evp_sha256. evp_step. by apply triple_done. Qed.

Lemma triple_hmac O R key data : short key ->
  triple (tidy O R) (evp_hmac_sha256 error_string key data) (ends (eq O) (fun v => v = hmac_sha256 key data)) (eq O).
Proof.
  intros Hk. unfold evp_hmac_sha256. evp_step. rewrite readable_id by done.
  rewrite (proj1 (hmac_fixed _ _)). by apply triple_done.
Qed.

Lemma triple_hkdf O R secret salt info n : short secret -> short salt -> short info -> 0 <= n ->
  triple (tidy O R) (evp_hkdf_sha256 error_string secret salt info n) (ends (eq O) (fun v => v = hkdf_sha256 secret salt info n)) (eq O).
Proof.
  intros H1 H2 H3 Hn. apply triple_scope. intros id _. eapply triple_bind; [by apply triple_evps|]. intros ?.
  rewrite !readable_id by done. cbv zeta. rewrite (proj1 (hkdf_fixed _ _ _ _ Hn)), Z.eqb_refl. by apply triple_done.
Qed.

Lemma triple_scrypt O R password salt n : short password -> short salt -> 0 <= n ->
  triple (tidy O R) (evp_scrypt_derive error_string password salt n) (ends (eq O) (fun v => v = scrypt_derive password salt n)) (eq O).
Proof.
  intros H1 H2 Hn. apply triple_scope. intros id _. eapply triple_bind; [by apply triple_evps|]. intros ?.
  rewrite !readable_id by done. cbv zeta. rewrite (proj1 (scrypt_fixed _ _ _ Hn)), Z.eqb_refl. by apply triple_done.
Qed.

Lemma triple_export (I : gmap Z object -> Prop) O R bs n what : I O -> len bs = n ->
  triple (tidy O R) (export error_string bs n what) (gives O R (fun v => v = bs)) I.
Proof. intros HI <-. unfold export. evp_step. rewrite Z.eqb_refl. by apply triple_ret. Qed.

Lemma fixed_drawn n b : 0 <= n -> n <= len b -> bytes_ok b -> fixed n (ztake n b).
Proof. intros H1 H2 H3. split; [by apply len_ztake|by apply bytes_ok_ztake]. Qed.

Lemma triple_raw_keypair O b R public secret_len public_len :
  let secret := ztake secret_len b in len secret = secret_len -> len (public secret) = public_len ->
  triple (tidy O (b :: R)) (generate_raw_keypair error_string public secret_len public_len)
    (ends (eq O) (fun v => v = (secret, public secret))) (eq O).
Proof.
  intros secret H1 H2. apply triple_scope. intros id _. evp_step. apply triple_scope. intros key _.
  eapply triple_bind; [apply triple_draw|]. intros drawn. apply triple_pure. intros ->.
  eapply triple_bind; [by apply triple_export|]. intros x. apply triple_pure. intros ->.
  eapply triple_bind; [by apply triple_export|]. intros x. apply triple_pure. intros ->.
  by apply triple_done.
Qed.

Lemma triple_x25519_generate O b R : kX25519KeySize <= len b -> bytes_ok b -> let secret := ztake kX25519KeySize b in
  triple (tidy O (b :: R)) (evp_x25519_generate error_string) (ends (eq O) (fun v => v = mk_X25519KeyPair secret (x25519_public secret))) (eq O).
Proof.
  intros Hb Hok secret. assert (fixed kX25519KeySize secret) as Hs by by apply fixed_drawn.
  apply (triple_mfmap _ (fun pair => mk_X25519KeyPair pair.1 pair.2) _ _ _ (fun pair => pair = (secret, x25519_public secret))); [|by intros ? ->].
  apply triple_raw_keypair; [apply Hs|apply (x25519_public_fixed _ Hs)].
Qed.

Lemma triple_ed25519_generate O b R : kEd25519PrivateKeySize <= len b -> bytes_ok b -> let secret := ztake kEd25519PrivateKeySize b in
  triple (tidy O (b :: R)) (evp_ed25519_generate error_string) (ends (eq O) (fun v => v = mk_Ed25519KeyPair secret (ed25519_public secret))) (eq O).
Proof.
  intros Hb Hok secret. assert (fixed kEd25519PrivateKeySize secret) as Hs by by apply fixed_drawn.
  apply (triple_mfmap _ (fun pair => mk_Ed25519KeyPair pair.1 pair.2) _ _ _ (fun pair => pair = (secret, ed25519_public secret))); [|by intros ? ->].
  apply triple_raw_keypair; [apply Hs|apply (ed25519_public_fixed _ Hs)].
Qed.

Lemma triple_ed25519_public O R secret : fixed kEd25519PrivateKeySize secret ->
  triple (tidy O R) (evp_ed25519_public_from_secret error_string secret) (ends (eq O) (fun v => v = ed25519_public secret)) (eq O).
Proof. intros Hs. apply triple_scope. intros id _. eapply triple_gives, triple_export; [done|]. apply (ed25519_public_fixed _ Hs). Qed.

Lemma triple_ed25519_sign O R secret message : fixed kEd25519PrivateKeySize secret ->
  triple (tidy O R) (evp_ed25519_sign error_string secret message) (ends (eq O) (fun v => v = ed25519_sign secret message)) (eq O).
Proof.
  intros Hs. eapply triple_bind; [apply triple_new|]. intros [key|]; apply triple_pure; intros Hk; [|by apply triple_fail].
  eapply triple_bind; [apply triple_new|]. intros [ctx|]; apply triple_pure; intros Hc.
  - evp_guard. evp_step. eapply triple_gives, triple_export; [done|]. apply (ed25519_sign_fixed _ _ Hs).
  - evp_guard. by apply triple_fail.
Qed.

Lemma triple_x25519_shared O R own_secret peer_public :
  (forall shared, x25519_derive own_secret peer_public = Some shared -> len shared = kX25519KeySize) ->
  (x25519_derive own_secret peer_public = None -> F) ->
  triple (tidy O R) (evp_x25519_shared error_string own_secret peer_public)
    (ends (eq O) (fun v => x25519_derive own_secret peer_public = Some v)) (eq O).
Proof.
  intros Hl Hf. eapply triple_bind; [apply triple_new|]. intros [own|]; apply triple_pure; intros Ho; [|by apply triple_fail].
  eapply triple_bind; [apply triple_new|]. intros [peer|]; apply triple_pure; intros Hp.
  2:{ evp_guard. by apply triple_fail. }
  eapply triple_bind; [apply triple_new|]. intros [ctx|]; apply triple_pure; intros Hc.
  2:{ evp_guard. by apply triple_fail. }
  evp_guard. do 3 evp_step. destruct (x25519_derive own_secret peer_public) as [shared|].
  - rewrite (Hl shared) by done. by apply triple_done.
  - by apply tidy_fail; [|apply Hf].
Qed.

Lemma loose_done (I : gmap Z object -> Prop) O R {A} (a : A) (φ : A -> Prop) :
  clean = false -> I O -> φ a -> triple (untidy O R) (mret a) (ends I φ) I.
Proof. intros Hc HI Ha. eapply triple_pre; [|by apply triple_done]. intros l. by apply untidy_loose. Qed.

Lemma triple_verify O R public_key message signature : clean = false ->
  triple (tidy O R) (evp_ed25519_verify public_key message signature)
    (ends (eq O) (fun v => v = ed25519_verify public_key message signature \/ (quiet = false /\ v = false))) (eq O).
Proof.
  intros Hc. eapply triple_bind; [apply triple_new|]. intros [key|]; apply triple_pure; intros Hk.
  2:{ eapply triple_bind; [eapply triple_clear|]. intros ?. apply triple_done; auto. }
  eapply triple_bind; [apply triple_new|]. intros [ctx|]; apply triple_pure; intros Hx.
  2:{ evp_guard. apply loose_done; auto. }
  evp_guard. eapply triple_bind; [apply triple_answered|]. intros [|]; cbn [negb].
  2:{ apply triple_pure. intros Hq. apply loose_done; auto. }
  eapply triple_bind; [apply triple_answered|]. intros [|].
  - eapply triple_bind; [apply tidy_clear|]. intros ?. apply triple_done; auto.
  - apply triple_pure. intros Hq. eapply triple_bind; [apply triple_clear|]. intros ?. apply triple_done; auto.
Qed.

Lemma triple_alter O R id (f : object -> object) x I : O !! id = Some x ->
  triple (tidy O R) (mmodify (fun l => with_objects (alter f id (lib_objects l)) l)) (fun _ => tidy (<[id := f x]> O) R) I.
Proof.
  intros Hx l [H1 H2 H3 H4 H5]. cbn. split; cbn; try done.
  - rewrite H1. apply map_eq. intros j. destruct (decide (id = j)) as [<-|]; by simplify_map_eq.
  - intros j. rewrite lookup_insert_is_Some'. intros [<-|Hj]; apply H2; [by eexists|done].
Qed.

(** The object at [id] among objects that are as [I] says. *)
Definition at_obj (I : gmap Z object -> Prop) (id : Z) (x : object) (l : Lib) : Prop :=
  exists O R, I O /\ O !! id = Some x /\ tidy O R l.

Section AtObj.
Context (I : gmap Z object -> Prop) (id : Z) (HI : forall O x, I O -> I (<[id := x]> O)).

Lemma at_tidy x {A} (m : M Lib A) Q : (forall O R, I O -> O !! id = Some x -> triple (tidy O R) m Q I) -> triple (at_obj I id x) m Q I.
Proof. intros Hm l (O & R & HO & Hx & Hl). by eapply Hm. Qed.

Lemma at_evp x what : triple (at_obj I id x) (evp error_string what) (fun _ => at_obj I id x) I.
Proof.
  apply at_tidy. intros O R HO Hx. eapply triple_post; [by apply triple_evp|]. intros ? l Hl. by exists O, R.
Qed.

Lemma at_answered x : triple (at_obj I id x) answered
  (fun ok l => if ok then at_obj I id x l else quiet = false /\ at_obj I id x (with_errors [] l)) I.
Proof.
  apply at_tidy. intros O R HO Hx. eapply triple_post; [by apply triple_answered|].
  intros [] l Hl; [by exists O, R|]. destruct Hl as [? [Hl _]]. split; [done|]. by exists O, R.
Qed.

Lemma at_alter (f : object -> object) x :
  triple (at_obj I id x) (mmodify (fun l => with_objects (alter f id (lib_objects l)) l)) (fun _ => at_obj I id (f x)) I.
Proof.
  apply at_tidy. intros O R HO Hx. eapply triple_post; [by apply triple_alter|].
  intros ? l Hl. exists (<[id := f x]> O), R. rewrite lookup_insert_eq. eauto.
Qed.

Lemma at_done x {A} (a : A) (φ : A -> Prop) : φ a -> triple (at_obj I id x) (mret a) (ends I φ) I.
Proof. intros Ha. apply at_tidy. intros O R HO _. by apply triple_done. Qed.

Lemma loose_at_clear x : triple (fun l => at_obj I id x (with_errors [] l)) clear_openssl_errors (fun _ => at_obj I id x) I.
Proof. intros l Hl. exact Hl. Qed.

Lemma at_clear x : triple (at_obj I id x) clear_openssl_errors (fun _ => at_obj I id x) I.
Proof. apply at_tidy. intros O R HO Hx. eapply triple_post; [apply tidy_clear|]. intros ? l Hl. by exists O, R. Qed.
End AtObj.

(** * A digest in parts *)

Definition holds (hs : list (option Z)) (O O' : gmap Z object) : Prop := released hs O' O.

Lemma guards_holds hs O : guards hs (holds hs O) (eq O).
Proof. intros O' Hr. by exists O. Qed.

Lemma holds_one id O O' x : holds [Some id] O O' -> holds [Some id] O (<[id := x]> O').
Proof. unfold holds. cbn. rewrite lookup_insert_eq, delete_insert_eq. intros [_ ?]. split; [by eexists|done]. Qed.

Lemma triple_updates I ctx parts : (forall O x, I O -> I (<[ctx := x]> O)) -> forall d,
  triple (at_obj I ctx (Hashing d)) (sha256_updates error_string ctx parts)
    (fun _ => at_obj I ctx (Hashing (d ++ mjoin parts))) I.
Proof.
  intros HI. induction parts as [|part parts IH]; intros d; cbn [sha256_updates mjoin list_join].
  { apply triple_ret. by rewrite app_nil_r. }
  eapply triple_bind with (Q := fun _ => at_obj I ctx (Hashing (d ++ part))).
  - unfold sha256_update. destruct (Z.eqb_spec (len part) 0) as [Hz|].
    { apply len_zero_nil in Hz as ->. apply triple_ret. by rewrite app_nil_r. }
    eapply triple_bind; [by apply at_evp|]. intros ?. exact (at_alter _ _ HI _ (Hashing d)).
  - intros ?. rewrite app_assoc. apply IH.
Qed.

(** The objects are as they were, or a digest context more. *)
Definition leaky (O O' : gmap Z object) : Prop := O = O' \/ exists id, O !! id = None /\ O' = <[id := Hashing []]> O.

Lemma triple_weaken P {A} (m : M Lib A) Q (I I' : gmap Z object -> Prop) : triple P m Q I -> (forall O, I O -> I' O) -> triple P m Q I'.
Proof.
  intros Hm HI l Hl. specialize (Hm l Hl). destruct (m l) as [[a|e] l1]; [done|].
  destruct Hm as [(O & R & HO & Hl1) He]. split; [|done]. exists O, R. auto.
Qed.

Lemma triple_hash_parts O R parts :
  triple (tidy O R) (hash_parts error_string parts) (ends (eq O) (fun v => v = sha256 (mjoin parts))) (leaky O).
Proof.
  eapply triple_bind with (Q := fun ctx => at_obj (holds [Some ctx] O) ctx (Hashing [])).
  - eapply triple_bind; [apply triple_new|]. intros [ctx|]; apply triple_pure; intros Hc.
    + eapply triple_bind; [by apply triple_evp; right; eauto|]. intros ?. apply triple_ret. intros l Hl.
      exists (<[ctx := Hashing []]> O), R. rewrite lookup_insert_eq. split; [|done].
      unfold holds. cbn. by rewrite lookup_insert_eq, delete_insert_id.
    + apply triple_fail. by left.
  - intros ctx. eapply triple_weaken with (I := eq O); [|by left]. eapply triple_guarded; [apply guards_holds|].
    eapply triple_bind; [apply triple_updates, holds_one|]. intros ?.
    eapply triple_bind; [by apply at_evp|]. intros ? l (O1 & R1 & HO & Hx & Hl).
    rewrite (td_objects _ _ _ Hl), Hx. split; [done|]. by exists O1, R1.
Qed.

(** * Authenticated encryption *)

Lemma holds_two s o O O' x : holds [Some s; Some o] O O' ->
  holds [Some s; Some o] O (<[s := x]> O') /\ holds [Some s; Some o] O (<[o := x]> O').
Proof.
  unfold holds. cbn. intros (Hs & Ho & Hd). assert (s <> o) as Hne by (intros ->; rewrite lookup_delete_eq in Ho; by destruct Ho).
  rewrite delete_insert_eq, lookup_insert_eq. split; [eauto|].
  rewrite delete_insert_ne, lookup_insert_ne, lookup_insert_eq, delete_insert_eq by done. eauto.
Qed.

Lemma holds_new O s o x : s <> o -> O !! s = None -> O !! o = None -> holds [Some s; Some o] O (<[o := x]> (<[s := x]> O)).
Proof.
  intros Hne Hs Ho. unfold holds. cbn.
  rewrite lookup_insert_ne, lookup_insert_eq, delete_insert_ne, delete_insert_id, lookup_insert_eq, delete_insert_id by done. eauto.
Qed.

Definition keyed (a : AeadAlgorithm) (key : bytes) : object := Ciphering (mk_cctx (Some (a, key)) [] [] []).

(** The two contexts of an [Aead]. *)
Definition ready (O : gmap Z object) (a : AeadAlgorithm) (key : bytes) (ae : Aead) (l : Lib) : Prop :=
  at_obj (holds [Some (ae_seal_ctx ae); Some (ae_open_ctx ae)] O) (ae_seal_ctx ae) (keyed a key) l /\
  at_obj (holds [Some (ae_seal_ctx ae); Some (ae_open_ctx ae)] O) (ae_open_ctx ae) (keyed a key) l.

Lemma triple_aead_new O R a key : triple (tidy O R) (aead_new error_string a key) (ready O a key) (eq O).
Proof.
  eapply triple_bind; [apply triple_new|]. intros [s|]; apply triple_pure; intros Hs.
  2:{ eapply triple_bind; [apply untidy_new|]. intros [o|].
      - apply triple_pure. intros Ho. evp_built. by apply triple_fail.
      - cbv beta iota. evp_built. by apply triple_fail. }
  eapply triple_bind; [apply triple_new|]. intros [o|]; apply triple_pure; intros Ho.
  2:{ evp_built. by apply triple_fail. }
  eapply triple_unless_built; [apply guards_holds|].
  assert (s <> o) as Hne by (intros ->; by rewrite lookup_insert_eq in Ho). rewrite lookup_insert_ne in Ho by done.
  pose proof (holds_new O s o new_cctx Hne Hs Ho) as H1. destruct (holds_two _ _ _ _ (keyed a key) H1) as [H2 _].
  destruct (holds_two _ _ _ _ (keyed a key) H2) as [_ H3].
  evp_step. eapply triple_bind; [apply triple_alter; by rewrite lookup_insert_ne, lookup_insert_eq|]. intros ?.
  evp_step. eapply triple_bind; [apply triple_alter; by rewrite lookup_insert_ne, lookup_insert_eq|]. intros ?.
  apply triple_ret. intros l Hl. split; eexists _, _; (split; [exact H3|]); split; [|exact Hl| |exact Hl]; cbn.
  - by rewrite lookup_insert_ne, lookup_insert_eq.
  - by rewrite lookup_insert_eq.
Qed.

Section Context_.
Context (I : gmap Z object -> Prop) (ctx : Z) (HI : forall O x, I O -> I (<[ctx := x]> O)).

Lemma at_on_ctx f c : triple (at_obj I ctx (Ciphering c)) (on_ctx ctx f) (fun _ => at_obj I ctx (Ciphering (f c))) I.
Proof. exact (at_alter I ctx HI _ (Ciphering c)). Qed.

Lemma at_maybe (b : bytes) what (f : bytes -> cctx -> cctx) c : short b -> f [] c = c ->
  triple (at_obj I ctx (Ciphering c)) (if 0 <? len b then do* evp error_string what in on_ctx ctx (f (readable b)) else mret tt)
    (fun _ => at_obj I ctx (Ciphering (f b c))) I.
Proof.
  intros Hb Hf. destruct (Z.ltb_spec 0 (len b)) as [|Hz].
  - rewrite readable_id by done. eapply triple_bind; [by apply at_evp|]. intros ?. apply at_on_ctx.
  - assert (b = []) as -> by (apply len_zero_nil; pose proof (len_nonneg b); lia). rewrite Hf. by apply triple_ret.
Qed.

Lemma at_get_ctx c : triple (at_obj I ctx (Ciphering c)) (get_ctx ctx) (fun c' l => c' = c /\ at_obj I ctx (Ciphering c) l) I.
Proof.
  intros l (O & R & HO & Hx & Hl). unfold get_ctx. rewrite (td_objects _ _ _ Hl), Hx. split; [done|]. by exists O, R.
Qed.

Lemma loose_get_ctx c :
  triple (fun l => at_obj I ctx (Ciphering c) (with_errors [] l)) (get_ctx ctx)
    (fun c' l => c' = c /\ at_obj I ctx (Ciphering c) (with_errors [] l)) I.
Proof.
  intros l (O & R & HO & Hx & Hl). unfold get_ctx. change (lib_objects l) with (lib_objects (with_errors [] l)).
  rewrite (td_objects _ _ _ Hl), Hx. split; [done|]. by exists O, R.
Qed.

Lemma add_aad_nil c : add_aad [] c = c.
Proof. destruct c. unfold add_aad. cbn. by rewrite app_nil_r. Qed.

Lemma add_data_nil c : add_data [] c = c.
Proof. destruct c. unfold add_data. cbn. by rewrite app_nil_r. Qed.

Lemma triple_seal o al a key nonce aad plaintext room : short aad -> short plaintext -> sealed_size (len plaintext) <= room ->
  triple (at_obj I ctx (keyed a key)) (evp_seal error_string (mk_Aead ctx o al) nonce aad plaintext room)
    (ends I (fun v => v = cipher_seal a key nonce aad plaintext)) I.
Proof.
  intros Ha Hp Hr. unfold evp_seal. cbn [ae_seal_ctx]. eapply triple_bind; [by apply at_evp|]. intros ?.
  eapply triple_bind; [apply at_on_ctx|]. intros ?. eapply triple_bind; [by apply at_maybe, add_aad_nil|]. intros ?.
  unfold sealed_size, kAeadTagSize in Hr. destruct (Z.ltb_spec room (len plaintext)) as [?|_]; [lia|].
  eapply triple_bind; [by apply (at_maybe plaintext _ add_data), add_data_nil|]. intros ?.
  do 2 (eapply triple_bind; [by apply at_evp|]; intros ?).
  eapply triple_bind; [apply at_get_ctx|]. intros c. apply triple_pure. intros ->. apply (triple_lift _ (a, key)).
  cbn. rewrite cipher_seal_len. unfold kAeadTagSize.
  destruct (Z.ltb_spec room (len plaintext + 16)) as [?|_]; [lia|]. by eapply at_done.
Qed.

Lemma triple_open o al a key nonce aad ciphertext room :
  short aad -> short ciphertext -> kAeadTagSize <= len ciphertext -> len ciphertext - kAeadTagSize <= room ->
  triple (at_obj I ctx (keyed a key)) (evp_open error_string (mk_Aead o ctx al) nonce aad ciphertext room)
    (ends I (fun v => v = cipher_open a key nonce aad ciphertext \/ (quiet = false /\ v = None))) I.
Proof.
  intros Ha Hc Hl Hr. unfold evp_open. cbn [ae_open_ctx]. destruct (Z.ltb_spec (len ciphertext) kAeadTagSize) as [?|_]; [lia|].
  cbv zeta. set (body := ztake (len ciphertext - kAeadTagSize) ciphertext).
  assert (len body = len ciphertext - kAeadTagSize) as Hb. { unfold body. apply len_ztake. unfold kAeadTagSize in *. lia. }
  eapply triple_bind; [by apply at_evp|]. intros ?.
  eapply triple_bind; [apply at_on_ctx|]. intros ?. eapply triple_bind; [by apply at_maybe, add_aad_nil|]. intros ?.
  set (c := add_aad aad _). eapply triple_bind with (Q := fun d l =>
    if d : bool then at_obj I ctx (Ciphering (add_data body c)) l else quiet = false /\ at_obj I ctx (Ciphering c) l).
  { destruct (Z.ltb_spec 0 (len ciphertext - kAeadTagSize)) as [|Hz].
    - eapply triple_bind; [by apply at_answered|]. intros [|]; cbn [negb].
      + destruct (Z.ltb_spec room (len ciphertext - kAeadTagSize)) as [?|_]; [lia|].
        rewrite readable_id by (unfold short, kAeadTagSize in *; lia).
        eapply triple_bind; [apply at_on_ctx|]. intros ?. by apply triple_ret.
      + apply triple_pure. intros Hq. eapply triple_bind; [apply loose_at_clear|]. intros ?. by apply triple_ret.
    - assert (body = []) as -> by (apply len_zero_nil; pose proof (len_nonneg body); lia). apply triple_ret. by rewrite add_data_nil. }
  intros [|]; cbn [negb].
  2:{ apply triple_pure. intros Hq. apply at_done. auto. }
  eapply triple_bind; [by apply at_evp|]. intros ?. eapply triple_bind; [by apply at_answered|]. intros [|].
  - eapply triple_bind; [apply at_get_ctx|]. intros c'. apply triple_pure. intros ->. apply (triple_lift _ (a, key)). cbn.
    unfold body. rewrite ztake_zdrop. destruct (cipher_open a key nonce aad ciphertext) as [p|]; [apply at_done; auto|].
    eapply triple_bind; [apply at_clear|]. intros ?. apply at_done. auto.
  - apply triple_pure. intros Hq. eapply triple_bind; [apply loose_get_ctx|]. intros c'. apply triple_pure. intros ->.
    apply (triple_lift _ (a, key)). eapply triple_bind; [apply loose_at_clear|]. intros ?. apply at_done. auto.
Qed.
End Context_.

(** An [Aead] that one call uses. *)
Lemma triple_with_aead O R a key {A} (body : Aead -> M Lib A) (φ : A -> Prop) :
  (forall ae, let I := holds [Some (ae_seal_ctx ae); Some (ae_open_ctx ae)] O in triple (ready O a key ae) (body ae) (ends I φ) I) ->
  triple (tidy O R) (with_aead error_string a key body) (ends (eq O) φ) (eq O).
Proof.
  intros Hb. eapply triple_bind; [apply triple_aead_new|]. intros ae. eapply triple_guarded; [apply guards_holds|apply Hb].
Qed.

Lemma triple_seal_standalone O b R a key aad plaintext : short aad -> short plaintext ->
  triple (tidy O (b :: R)) (evp_seal_standalone error_string a key aad plaintext)
    (ends (eq O) (fun v => seal_standalone a key aad plaintext (ztake kAeadNonceSize b) = Ok v)) (eq O).
Proof.
  intros Ha Hp. eapply triple_bind; [by apply triple_random|]. intros nonce. apply triple_pure. cbn [Z.eqb kAeadNonceSize]. intros ->.
  apply triple_lost. intros O1 R1 <-. eapply triple_bind; [apply triple_with_aead|].
  - intros [s o al] I. eapply triple_pre; [|apply (triple_seal I s)]; [by intros l [? _]| |done..|].
    + intros O1 x HO. by apply holds_two.
    + done.
  - intros v. apply triple_pure. intros ->. apply triple_ret. intros l Hl. split; [|done]. apply seal_standalone_ok.
Qed.

Lemma triple_open_standalone O R a key aad sealed : short aad -> short sealed ->
  triple (tidy O R) (evp_open_standalone error_string a key aad sealed)
    (ends (eq O) (fun v => open_standalone a key aad sealed = Ok v \/ (quiet = false /\ v = None))) (eq O).
Proof.
  intros Ha Hc. unfold evp_open_standalone, open_standalone, aead_open.
  destruct (Z.ltb_spec (len sealed) (kAeadNonceSize + kAeadTagSize)) as [|Hl]; [apply triple_done; auto|].
  assert (len (zdrop kAeadNonceSize sealed) = len sealed - kAeadNonceSize) as Hd.
  { apply len_zdrop. unfold kAeadNonceSize, kAeadTagSize in *. lia. }
  rewrite Hd. destruct (Z.ltb_spec (len sealed - kAeadNonceSize) kAeadTagSize) as [?|_]; [lia|].
  destruct (Z.ltb_spec (len sealed - kAeadNonceSize - kAeadTagSize) (len sealed - kAeadNonceSize - kAeadTagSize)) as [?|_]; [lia|].
  apply triple_with_aead. intros [s o al] I. eapply triple_post.
  - eapply triple_pre; [|apply (triple_open I o)]; [by intros l [_ ?]| |done|..].
    + intros O1 x HO. by apply holds_two.
    + unfold short in *. rewrite Hd. unfold kAeadNonceSize. lia.
    + rewrite Hd. lia.
    + rewrite Hd. lia.
  - intros v l [[->|Hq] Hl']; (split; [|done]); auto.
Qed.

(** * Every call *)

(** Spans of less than 2^31 bytes, keys of their sizes, and agreements of 32 bytes. *)
Definition call_ok (c : crypto_call) : Prop :=
  match c with
  | CallRandom n => 0 <= n < 2 ^ 31
  | CallSha256 _ | CallHashParts _ | CallX25519Generate | CallEd25519Generate | CallVerify _ _ _ => True
  | CallHmac key _ => short key
  | CallHkdf secret salt info n => short secret /\ short salt /\ short info /\ 0 <= n
  | CallScrypt password salt n => short password /\ short salt /\ 0 <= n
  | CallX25519Shared own peer => forall shared, x25519_derive own peer = Some shared -> len shared = kX25519KeySize
  | CallEd25519Public secret | CallSign secret _ => fixed kEd25519PrivateKeySize secret
  | CallSeal _ _ aad plaintext => short aad /\ short plaintext
  | CallOpen _ _ aad sealed => short aad /\ short sealed
  end.

Definition drawn_len (c : crypto_call) : Z :=
  match c with
  | CallRandom n => n
  | CallX25519Generate => kX25519KeySize
  | CallEd25519Generate => kEd25519PrivateKeySize
  | CallSeal _ _ _ _ => kAeadNonceSize
  | _ => 0
  end.

Definition is_verify (c : crypto_call) : bool := match c with CallVerify _ _ _ => true | _ => false end.
Definition is_hash_parts (c : crypto_call) : bool := match c with CallHashParts _ => true | _ => false end.

(** The answers that stand for "no". *)
Definition refused (v : crypto_value) : Prop := v = Verdict false \/ v = Opened None.

Lemma triple_run_call O b R c :
  let expected := spec_call (ztake (drawn_len c) b) c in
  call_ok c -> bytes_ok b -> drawn_len c <= len b ->
  (is_verify c = true -> clean = false) -> ((exists e, expected = Err e) -> F) ->
  triple (tidy O (b :: R)) (run_call error_string c) (ends (eq O) (fun v => expected = Ok v \/ (quiet = false /\ refused v)))
    (if is_hash_parts c then leaky O else eq O).
Proof.
  intros expected Hc Hb Hd Hv Hf. subst expected.
  destruct c; cbn [spec_call call_ok drawn_len is_verify is_hash_parts run_call] in *; unfold refused;
    (eapply triple_mfmap; [first
      [ by apply triple_random | by apply triple_sha256 | by apply triple_hash_parts | by apply triple_hmac
      | destruct Hc as (? & ? & ? & ?); by apply triple_hkdf | destruct Hc as (? & ? & ?); by apply triple_scrypt
      | by apply triple_x25519_generate | by apply triple_ed25519_generate
      | apply triple_x25519_shared; [done|]; intros E; apply Hf; unfold x25519_shared; rewrite E; eexists; reflexivity
      | by apply triple_ed25519_public | by apply triple_ed25519_sign | by apply triple_verify; auto
      | destruct Hc; by apply triple_seal_standalone | destruct Hc; by apply triple_open_standalone ]
    | cbv beta; unfold x25519_shared; intros v; try (intros ->; by left);
      try (intros E; rewrite E; by left); try (intros [E|[? ->]]; [left; by rewrite E|right]; auto) ]).
Qed.
End Rules.

Section Calls.
Context `{HA : AeadLaws} `{HS : OpensslLaws} (error_string : Z -> bytes).

End Calls.

(** * Samples *)

Definition sample_reason (code : Z) : bytes := str "reason " ++ [code].
Definition sample_lib (answers : list (option (list Z))) : Lib :=
  mk_Lib {[ 0 := Plain ]} 1 [] answers [replicate 32 3].

Example sealed_call_opens :
  let run c := (@run_call plain_cipher toy_openssl sample_reason c (sample_lib [])).1 in
  let sealed := replicate 12 3 ++ [3; 4] ++ replicate 16 0 in
  run (CallSeal Aes256Gcm (replicate 32 1) [2] [3; 4]) = Ok (Bytes sealed) /\
  run (CallOpen Aes256Gcm (replicate 32 1) [2] sealed) = Ok (Opened (Some [3; 4])).
Proof. split; vm_compute; reflexivity. Qed.

(** [Sha256]'s constructor throws with its context allocated, and [~Sha256] does not run. *)
Lemma digest_context_leaks :
  let '(r, l) := @hash_parts toy_openssl sample_reason [[1]] (sample_lib [None; Some [7]]) in
  r = Err (Error (str "cannot initialise SHA-256: " ++ sample_reason 7)) /\
  lib_objects l = {[ 0 := Plain; 1 := Hashing [] ]}.
Proof. vm_compute. split; reflexivity. Qed.

(** A verification that could not be set up says no and leaves its error behind: the next
    failure, of another function and for another reason, is reported with it. *)
Lemma verification_leaves_its_error :
  let '(r, l) := evp_ed25519_verify (H0 := toy_openssl) [1] [2] [3] (sample_lib [None; None; Some [7]; Some [9]]) in
  r = Ok false /\ lib_errors l = [7] /\
  (evp_sha256 (H0 := toy_openssl) sample_reason [4] l).1 = Err (Error (str "SHA-256 failed: " ++ sample_reason 7)).
Proof. vm_compute. repeat split; reflexivity. Qed.

