(* ===== verification/Log.v ===== *)
(** Logging, [common/src/log.cpp]: which lines are written, where, and how a connection is
    named in them. The time stamp is an argument. *)

From S2P Require Import Prelude Endian Protocol Text Crypto.

Inductive Level := LevelError | LevelWarn | LevelInfo | LevelDebug.

Definition level_rank (l : Level) : Z :=
  match l with LevelError => 0 | LevelWarn => 1 | LevelInfo => 2 | LevelDebug => 3 end.

Definition level_name (l : Level) : bytes :=
  str match l with LevelError => "error" | LevelWarn => "warn" | LevelInfo => "info" | LevelDebug => "debug" end.

Definition parse_level (name : bytes) : option Level :=
  if bool_decide (name = str "error") then Some LevelError
  else if bool_decide (name = str "warn") || bool_decide (name = str "warning") then Some LevelWarn
  else if bool_decide (name = str "info") then Some LevelInfo
  else if bool_decide (name = str "debug") then Some LevelDebug
  else None.

Inductive log_stream := Stderr | Stdout.

(** What [write] puts out at the level [g_level]: nothing, or a line on a stream. *)
Definition log_write (g_level : Level) (timestamp : bytes) (level : Level) (message : bytes) : option (log_stream * bytes) :=
  if level_rank g_level <? level_rank level then None
  else Some (if level_rank level <=? level_rank LevelWarn then Stderr else Stdout,
             timestamp ++ level_name level ++ str ": " ++ message ++ [10]).

(** [salt] is drawn once per process. *)
Definition describe_peer `{Openssl} (salt : bytes) (connection_id : Z) : bytes :=
  str "peer/" ++ to_hex (ztake 4 (hmac_sha256 salt (store_u64 connection_id))).

Lemma parse_level_name l : parse_level (level_name l) = Some l.
Proof. by destruct l. Qed.

(** A problem is written whatever was asked for short of [error], and always to standard error. *)
Lemma problems_reported g timestamp level message :
  level_rank level <= level_rank g -> level_rank level <= level_rank LevelWarn ->
  log_write g timestamp level message = Some (Stderr, timestamp ++ level_name level ++ str ": " ++ message ++ [10]).
Proof. intros Hg Hw. unfold log_write. destruct (Z.ltb_spec (level_rank g) (level_rank level)); [lia|]. by rewrite (proj2 (Z.leb_le _ _) Hw). Qed.
