(* ===== verification/Identity.v ===== *)
(** The local identity, its keystore and terminal input, [client/src/identity.cpp].

    The terminal is the script of bytes [read] gives on standard input; the echo settings
    and the prompts change nothing the program reads and are left out. *)

From S2P Require Import Prelude Endian Socket Protocol Messages Text Storage KnownPeers Config Crypto.

Definition kKeystoreVersionV1 : Z := 1.
Definition kKeystoreVersion : Z := 2.
Definition kKeystoreAad : bytes := str "drop-zone/v1 identity keystore".

Record Identity := mk_Identity { id_keys : Ed25519KeyPair; id_public_password : bytes }.

(** * The keystore *)

Section Keystore.
Context `{AeadCipher} `{Openssl} (prefers_aes : bool) (env : file_env).

Definition fingerprint (i : Identity) : bytes := fingerprint_of sha256 (ed_public_key (id_keys i)).

Definition derive_keystore_key (private_password salt : bytes) : bytes :=
  scrypt_derive private_password salt kAeadKeySize.

(** [random] is the nonce [seal_standalone] draws. *)
Definition save_identity (c : Config) (i : Identity) (private_password random : bytes) : M disk_file unit :=
  let password := id_public_password i in
  if 65535 <? len password then fail (str "the public password is too long to store")
  else
    let keystore_key := derive_keystore_key private_password (c_keystore_salt c) in
    let length := u16 (len password) in
    let plain := ztake kEd25519PrivateKeySize (ed_secret (id_keys i)) ++
      [u8 (Z.shiftr length 8); u8 (Z.land length 255)] ++
      (if negb (length =? 0) then ztake length password else []) in
    let* sealed := mlift (seal_standalone (preferred_aead prefers_aes) keystore_key kKeystoreAad plain random) in
    let file := kKeystoreVersion :: algorithm_to_u8 (preferred_aead prefers_aes) :: sealed in
    write_sealed_file env (identity_path c) file.

(** [secret] is the private key [ed25519_generate] draws. *)
Definition create_identity (c : Config) (private_password public_password secret random : bytes)
  : M disk_file Identity :=
  let identity := mk_Identity (mk_Ed25519KeyPair secret (ed25519_public secret)) public_password in
  do* save_identity c identity private_password random in
  mret identity.

(** The two layouts of the sealed bytes. *)
Definition parse_secret (version : Z) (secret : bytes) : result (bytes * bytes) :=
  if version =? kKeystoreVersionV1 then
    if negb (len secret =? kEd25519PrivateKeySize) then Err (Error (str "identity.key holds a malformed key"))
    else Ok (secret, [])
  else if len secret <? kEd25519PrivateKeySize + 2 then Err (Error (str "identity.key holds a malformed key"))
  else match secret !! Z.to_nat kEd25519PrivateKeySize, secret !! Z.to_nat (kEd25519PrivateKeySize + 1) with
       | Some high, Some low =>
           let length := u16 (Z.lor (Z.shiftl high 8) low) in
           if negb (len secret =? kEd25519PrivateKeySize + 2 + length) then
             Err (Error (str "identity.key holds a malformed key"))
           else Ok (ztake kEd25519PrivateKeySize secret, ztake length (zdrop (kEd25519PrivateKeySize + 2) secret))
       | _, _ => Err OutOfBounds
       end.

Definition unlock_identity (c : Config) (private_password : bytes) (d : disk_file) : result Identity :=
  let? file := read_file_bytes env (identity_path c) d in
  match file with
  | version :: algorithm_tag :: sealed =>
      if negb (version =? kKeystoreVersion) && negb (version =? kKeystoreVersionV1) then
        Err (Error (str "identity.key was written by a different version of drop-zone"))
      else if negb (algorithm_tag =? 1) && negb (algorithm_tag =? 2) then
        Err (Error (str "identity.key names an unknown cipher"))
      else
        let keystore_key := derive_keystore_key private_password (c_keystore_salt c) in
        let? opened := open_standalone (algorithm_of_u8 algorithm_tag) keystore_key kKeystoreAad sealed in
        match opened with
        | None => Err (UserError (str "that private password does not unlock this identity"))
        | Some secret =>
            let? parts := parse_secret version secret in
            Ok (mk_Identity (mk_Ed25519KeyPair parts.1 (ed25519_public parts.1)) parts.2)
        end
  | _ => Err (Error (str "identity.key is truncated"))
  end.

(** * Unlocking *)

(** What [save_identity] leaves on disk when it returns. *)
Definition keystore_bytes (c : Config) (i : Identity) (private_password random : bytes) : bytes :=
  let password := id_public_password i in
  let plain := ed_secret (id_keys i) ++ [u8 (Z.shiftr (len password) 8); u8 (Z.land (len password) 255)] ++ password in
  let algorithm := preferred_aead prefers_aes in
  kKeystoreVersion :: algorithm_to_u8 algorithm ::
    random ++ cipher_seal algorithm (derive_keystore_key private_password (c_keystore_salt c)) random kKeystoreAad plain.
End Keystore.

Definition identity_ok `{Openssl} (i : Identity) : Prop :=
  fixed kEd25519PrivateKeySize (ed_secret (id_keys i)) /\
  ed_public_key (id_keys i) = ed25519_public (ed_secret (id_keys i)) /\ bytes_ok (id_public_password i).

Lemma two_bytes n : 0 <= n <= 65535 ->
  u16 (Z.lor (Z.shiftl (u8 (Z.shiftr n 8)) 8) (u8 (Z.land n 255))) = n.
Proof.
  intros Hn. change 255 with (Z.ones 8). rewrite Z.land_ones, Z.shiftr_div_pow2, Z.lor_comm by lia.
  assert (0 <= n / 2 ^ 8 < 2 ^ 8) as Hh.
  { split; [apply Z.div_pos; lia|]. apply Z.div_lt_upper_bound; lia. }
  rewrite (u8_small (n / 2 ^ 8)) by done. assert (is_u8 (n mod 2 ^ 8)) as Hm by (apply Z.mod_pos_bound; lia).
  rewrite u8_small by done. rewrite lor_shiftl_add; [|done|exact Hm|lia].
  rewrite u16_small; [rewrite Z.mul_comm, Z.add_comm; symmetry; apply Z.div_mod; lia|].
  rewrite Z.mul_comm, Z.add_comm, <- Z.div_mod by lia. unfold is_u. lia.
Qed.

Section Unlock.
Context `{AeadLaws} `{Openssl}.

Lemma save_identity_writes prefers_aes env c i password random d :
  fixed kEd25519PrivateKeySize (ed_secret (id_keys i)) -> len (id_public_password i) <= 65535 ->
  save_identity prefers_aes env c i password random d =
    write_private_file env (identity_path c) (keystore_bytes prefers_aes c i password random) d.
Proof.
  intros [Hl _] Hp. unfold save_identity, mlift. destruct (Z.ltb_spec 65535 (len (id_public_password i))); [lia|].
  pose proof (len_nonneg (id_public_password i)). rewrite (ztake_len kEd25519PrivateKeySize) by lia.
  rewrite (u16_small (len _)) by (unfold is_u; lia).
  assert ((if negb (len (id_public_password i) =? 0) then ztake (len (id_public_password i)) (id_public_password i) else []) =
    id_public_password i) as ->.
  { destruct (Z.eqb_spec (len (id_public_password i)) 0) as [E%len_zero_nil|_]; cbn; [done|]. by apply ztake_len. }
  unfold mbind. by rewrite seal_standalone_ok.
Qed.

Lemma save_identity_spec prefers_aes env c i password random d r d' :
  fixed kEd25519PrivateKeySize (ed_secret (id_keys i)) ->
  save_identity prefers_aes env c i password random d = (r, d') ->
  match r with
  | Ok _ => len (id_public_password i) <= 65535 /\
            d' = mk_disk_file (Some (keystore_bytes prefers_aes c i password random)) None
  | Err e => is_dz_error e = true /\ df_file d' = df_file d
  end.
Proof.
  intros Hl. destruct (Z.ltb_spec 65535 (len (id_public_password i))) as [Hlong|].
  - unfold save_identity. rewrite (proj2 (Z.ltb_lt _ _) Hlong). by intros [= <- <-].
  - rewrite save_identity_writes by done. intros Hw%write_private_file_spec. by destruct r.
Qed.

Lemma save_identity_fine prefers_aes env c i password random d :
  fixed kEd25519PrivateKeySize (ed_secret (id_keys i)) -> len (id_public_password i) <= 65535 -> io_fine env ->
  save_identity prefers_aes env c i password random d =
    (Ok tt, mk_disk_file (Some (keystore_bytes prefers_aes c i password random)) None).
Proof. intros. rewrite save_identity_writes by done. by apply write_private_file_fine. Qed.

Lemma parse_secret_v2 secret password :
  len secret = kEd25519PrivateKeySize -> len password <= 65535 ->
  parse_secret kKeystoreVersion (secret ++ [u8 (Z.shiftr (len password) 8); u8 (Z.land (len password) 255)] ++ password) =
    Ok (secret, password).
Proof.
  intros Hl Hp. pose proof (len_nonneg password). unfold parse_secret. change (kKeystoreVersion =? kKeystoreVersionV1) with false. cbv iota.
  set (high := u8 _). set (low := u8 (Z.land _ _)). rewrite !len_app, Hl. change (len [high; low]) with 2.
  unfold kEd25519PrivateKeySize in *. destruct (Z.ltb_spec (32 + (2 + len password)) (32 + 2)); [lia|].
  assert (forall k, (secret ++ [high; low] ++ password) !! (32 + k)%nat = ([high; low] ++ password) !! k) as Hk.
  { intros k. rewrite lookup_app_r by (unfold len in Hl; lia). f_equal. unfold len in Hl. lia. }
  change (Z.to_nat 32) with (32 + 0)%nat. change (Z.to_nat (32 + 1)) with (32 + 1)%nat. rewrite !Hk.
  change (([high; low] ++ password) !! 0%nat) with (Some high). change (([high; low] ++ password) !! 1%nat) with (Some low). cbv iota.
  subst high low. rewrite two_bytes by lia. destruct (Z.eqb_spec (32 + (2 + len password)) (32 + 2 + len password)); [|lia].
  cbn [negb]. change (32 + 2) with 34. rewrite <- Hl at 1. rewrite ztake_app_len. f_equal. f_equal.
  rewrite app_assoc. rewrite (zdrop_app_len_eq 34); [by apply ztake_len|]. rewrite len_app, Hl. done.
Qed.

Lemma unlock_saved prefers_aes env c i password random :
  identity_ok i -> len (id_public_password i) <= 65535 -> len random = kAeadNonceSize -> reads_fine (fe_read env) ->
  unlock_identity env c password (mk_disk_file (Some (keystore_bytes prefers_aes c i password random)) None) = Ok i.
Proof.
  intros ((Hl & _) & Hp & _) Hn Hr Hf. unfold unlock_identity, read_file_bytes. cbn [df_file].
  rewrite read_file_loop_fine, app_nil_l by done. unfold keystore_bytes. cbv zeta iota.
  change (negb (kKeystoreVersion =? kKeystoreVersion)) with false. cbn [andb].
  assert (negb (algorithm_to_u8 (preferred_aead prefers_aes) =? 1) && negb (algorithm_to_u8 (preferred_aead prefers_aes) =? 2) = false) as ->
    by (by destruct prefers_aes).
  rewrite algorithm_of_to, open_seal_standalone, parse_secret_v2 by done. cbn. rewrite <- Hp.
  by destruct i as [[? ?] ?].
Qed.

(** What is unlocked is well formed, and nothing outside the file is read. *)
Lemma unlock_any env c password d :
  match unlock_identity env c password d with
  | Ok i => len (ed_secret (id_keys i)) = kEd25519PrivateKeySize /\
            ed_public_key (id_keys i) = ed25519_public (ed_secret (id_keys i)) /\ len (id_public_password i) <= 65535
  | Err e => is_dz_error e = true
  end.
Proof.
  unfold unlock_identity. pose proof (read_file_bytes_spec env (identity_path c) d) as Hr.
  destruct (read_file_bytes _ _ _) as [[|version [|tag sealed]]|e]; [done..| |done].
  destruct (_ && _); [done|]. destruct (_ && _); [done|].
  destruct (open_standalone_safe (algorithm_of_u8 tag) (derive_keystore_key password (c_keystore_salt c)) kKeystoreAad sealed)
    as ([secret|] & ->); [|done].
  unfold parse_secret, kEd25519PrivateKeySize. destruct (_ =? kKeystoreVersionV1).
  - destruct (Z.eqb_spec (len secret) 32); cbn [negb]; [|done]. by split_and!.
  - destruct (Z.ltb_spec (len secret) (32 + 2)); [done|].
    destruct (lookup_lt_is_Some_2 secret (Z.to_nat 32)) as [high ->]; [unfold len in *; lia|].
    destruct (lookup_lt_is_Some_2 secret (Z.to_nat (32 + 1))) as [low ->]; [unfold len in *; lia|].
    destruct (u16_range (Z.lor (high ≪ 8) low)) as [Hu0 Hu1]. set (n := u16 _) in *.
    destruct (Z.eqb_spec (len secret) (32 + 2 + n)); cbn [negb]; [|done].
    cbn. split_and!; [by rewrite len_ztake by lia|done|]. rewrite len_ztake by (rewrite len_zdrop; lia). lia.
Qed.

(** C37. Sealing an identity replaces identity.key as a whole or leaves it as it was;
    once sealed, the same private password unlocks the same key pair and public password,
    and whatever the file holds, unlocking ends in a well-formed identity or an exception. *)
Theorem keystore_roundtrip prefers_aes env env' c i password random d r d' :
  identity_ok i -> len random = kAeadNonceSize -> reads_fine (fe_read env') ->
  save_identity prefers_aes env c i password random d = (r, d') ->
  match r with
  | Ok _ => unlock_identity env' c password d' = Ok i
  | Err e => is_dz_error e = true /\ df_file d' = df_file d
  end /\
  forall other, match unlock_identity env' c other d' with
                | Ok j => len (ed_secret (id_keys j)) = kEd25519PrivateKeySize /\
                          ed_public_key (id_keys j) = ed25519_public (ed_secret (id_keys j))
                | Err e => is_dz_error e = true
                end.
Proof.
  intros Hi Hr Hf Hs%save_identity_spec; [|apply Hi]. split.
  - destruct r as [[]|e]; [|done]. destruct Hs as [Hn ->]. by apply unlock_saved.
  - intros other. pose proof (unlock_any env' c other d') as H'. destruct (unlock_identity env' c other d'); naive_solver.
Qed.
End Unlock.

(** * Terminal input *)

(** What one [read] of a byte from standard input finds. *)
Inductive in_event := InByte (c : Z) | InEof | InEintr | InFail (errno : Z).

(** The end of the script is the end of the input. *)
Fixpoint read_raw_line (input : list in_event) (into : bytes) : bytes * list in_event :=
  match input with
  | [] => (into, [])
  | InEintr :: input => read_raw_line input into
  | InFail _ :: input => (into, input)
  | InEof :: _ => (into, input)
  | InByte c :: input =>
      if c =? 10 then (into, input)
      else if c =? 13 then read_raw_line input into
      else read_raw_line input (into ++ [c])
  end.

Definition read_password : M (list in_event) bytes := fun input =>
  let '(password, input) := read_raw_line input [] in (Ok password, input).

Fixpoint read_password_attempts (attempts : nat) : M (list in_event) bytes :=
  match attempts with
  | O => fail_user (str "gave up after three mismatched password entries")
  | S attempts =>
      let* first := read_password in
      if len first =? 0 then read_password_attempts attempts
      else
        let* second := read_password in
        if (len first =? len second) && bool_decide (ztake (len first) first = ztake (len first) second) then mret first
        else read_password_attempts attempts
  end.

Definition read_password_twice : M (list in_event) bytes := read_password_attempts 3.

Definition read_line (fallback : bytes) : M (list in_event) bytes := fun input =>
  let '(line, input) := read_raw_line input [] in
  let line := reverse (drop_while (fun c => (c =? 13) || (c =? 32)) (reverse line)) in
  (Ok (if len line =? 0 then fallback else line), input).

Definition read_yes_no (fallback : bool) : M (list in_event) bool :=
  let* answer := read_line (if fallback then str "y" else str "n") in
  mret (bool_decide (answer = str "y") || bool_decide (answer = str "Y") ||
        bool_decide (answer = str "yes") || bool_decide (answer = str "YES")).

(** The keys a person types for a line. *)
Definition typed (line : bytes) : list in_event := (InByte <$> line) ++ [InByte 10].

Definition line_text (line : bytes) : Prop := Forall (fun c => c <> 10 /\ c <> 13) line.

Lemma read_raw_typed line into rest :
  line_text line -> read_raw_line (typed line ++ rest) into = (into ++ line, rest).
Proof.
  intros Hl. revert into. unfold typed. rewrite <- app_assoc. induction Hl as [|c line [H1 H2] _ IH]; intros into; cbn.
  - by rewrite app_nil_r.
  - destruct (Z.eqb_spec c 10); [done|]. destruct (Z.eqb_spec c 13); [done|]. rewrite IH. by rewrite <- app_assoc.
Qed.

(** Pairs that do not settle on a password. *)
Definition rejected_pair (p : bytes * bytes) : Prop :=
  line_text p.1 /\ line_text p.2 /\ p.1 <> [] /\ p.1 <> p.2.

Definition typed_pair (p : bytes * bytes) : list in_event := typed p.1 ++ typed p.2.

Lemma same_password (a b : bytes) :
  (len a =? len b) && bool_decide (ztake (len a) a = ztake (len a) b) = bool_decide (a = b).
Proof.
  rewrite (ztake_len (len a) a) by done. destruct (Z.eqb_spec (len a) (len b)) as [E|E]; cbn.
  - by rewrite E, ztake_len.
  - rewrite bool_decide_eq_false_2; [done|by intros ->].
Qed.

Lemma read_pair n p rest :
  line_text p.1 -> line_text p.2 -> p.1 <> [] ->
  read_password_attempts (S n) (typed_pair p ++ rest) =
    if bool_decide (p.1 = p.2) then (Ok p.1, rest) else read_password_attempts n rest.
Proof.
  intros H1 H2 Hne. cbn [read_password_attempts]. unfold typed_pair, read_password, mbind. rewrite <- app_assoc, !read_raw_typed by done.
  cbn [app]. destruct (Z.eqb_spec (len p.1) 0) as [E%len_zero_nil|_]; [done|]. rewrite read_raw_typed by done. cbn [app].
  rewrite same_password. by case_bool_decide.
Qed.

Lemma read_rejected bad k rest :
  Forall rejected_pair bad ->
  read_password_attempts (length bad + k) (mjoin (typed_pair <$> bad) ++ rest) = read_password_attempts k rest.
Proof.
  induction 1 as [|p bad (H1 & H2 & H3 & H4) _ IH]; [done|]. rewrite mjoin_fmap_cons, <- app_assoc. cbn [length plus].
  rewrite read_pair, bool_decide_eq_false_2 by done. exact IH.
Qed.

(** A password is taken when it is typed twice alike within three attempts, whatever
    mismatched pairs came before, and nothing after it is read; after three mismatches it
    is refused. *)
Theorem password_confirmed bad good rest :
  Forall rejected_pair bad -> line_text good -> good <> [] -> (length bad < 3)%nat ->
  read_password_twice (mjoin (typed_pair <$> bad) ++ typed_pair (good, good) ++ rest) = (Ok good, rest) /\
  forall worse, Forall rejected_pair worse -> length worse = 3%nat ->
    read_password_twice (mjoin (typed_pair <$> worse) ++ rest) =
      (Err (UserError (str "gave up after three mismatched password entries")), rest).
Proof.
  intros Hb Hg Hne Hl. unfold read_password_twice. split.
  - replace 3%nat with (length bad + S (2 - length bad))%nat by lia. rewrite read_rejected by done.
    rewrite read_pair by done. by rewrite bool_decide_eq_true_2.
  - intros worse Hw Hl'. replace 3%nat with (length worse + 0)%nat by lia. by rewrite read_rejected.
Qed.

(** * The theorems at work *)

Definition sample_identity : Identity := mk_Identity (mk_Ed25519KeyPair (replicate 32 9) (replicate 32 9)) (str "open sesame").

Lemma keystore_roundtrip_witness :
  let save := save_identity (H := plain_cipher) (H0 := toy_openssl) true sample_file_env sample_config sample_identity
    (str "secret") (replicate 12 3) in
  let d' := (save (mk_disk_file None None)).2 in
  unlock_identity (H := plain_cipher) (H0 := toy_openssl) sample_file_env sample_config (str "secret") d' = Ok sample_identity.
Proof.
  intros save d'. assert (identity_ok (H := toy_openssl) sample_identity) as Hi
    by (split_and!; [split; [done|by repeat constructor]|done|by repeat constructor]).
  assert (reads_fine (fe_read sample_file_env)) as Hf by (by repeat constructor).
  exact (proj1 (keystore_roundtrip (H0 := plain_cipher_laws) (H1 := toy_openssl) true sample_file_env sample_file_env sample_config
    sample_identity (str "secret") (replicate 12 3) (mk_disk_file None None) (Ok tt) d' Hi eq_refl Hf ltac:(by vm_compute))).
Defined.

Lemma password_confirmed_witness :
  read_password_twice (typed (str "aa") ++ typed (str "ab") ++ typed (str "ok") ++ typed (str "ok") ++ [InByte 7]) =
    (Ok (str "ok"), [InByte 7]).
Proof.
  refine (proj1 (password_confirmed [(str "aa", str "ab")] (str "ok") [InByte 7] _ _ _ _)).
  - repeat constructor; done.
  - repeat constructor; done.
  - done.
  - cbn. lia.
Defined.
