(* ===== verification/Progress.v ===== *)
(** The progress display of a transfer: [client/src/progress.cpp].

    [advance] is called by several threads at once, so it is a program of atomic steps, one for
    each access to an atomic, the clock or the mutex; a [Display] is the object with the threads
    in it, and a run is any interleaving of their steps with the ticking of the clock. A line is
    what [render] shows of the counter and [line_text] its text, with the numbers formatted as
    [format_bytes] and [format_rate] of [common/src/fileio.cpp] do. *)

From Stdlib Require Import Floats.SpecFloat.
From S2P Require Import Prelude Double.

(** * The object *)

Record Progress := mk_Progress {
  total_bytes_ : Z;
  enabled_ : bool;
  transferred_ : Z;
  started_ms_ : Z;
  last_render_ms_ : Z;
  render_mutex_ : bool;
  line_open_ : bool;
}.

Definition kRenderIntervalMs : Z := 100.

(** The constructor, at the time [now], and whether standard error is a terminal. *)
Definition new_Progress (total_bytes : Z) (enabled tty : bool) (now : Z) : Progress :=
  mk_Progress total_bytes (enabled && tty) 0 now 0 false false.

(** What a line shows. *)
Record shown := mk_shown { sh_percent : Z; sh_transferred : Z; sh_elapsed_ms : Z; sh_final : bool }.

Definition elapsed_ms (p : Progress) (now : Z) : Z := u64 (now - started_ms_ p).

Definition percent (p : Progress) (transferred : Z) : Z :=
  if 0 <? total_bytes_ p then
    let percent := i32 (u64 (transferred * 100) / total_bytes_ p) in
    if 100 <? percent then 100 else percent
  else 0.

Definition render (p : Progress) (now : Z) (final_line : bool) : shown * Progress :=
  (mk_shown (percent p (transferred_ p)) (transferred_ p) (elapsed_ms p now) final_line,
   mk_Progress (total_bytes_ p) (enabled_ p) (transferred_ p) (started_ms_ p) (last_render_ms_ p) (render_mutex_ p) (negb final_line)).

(** The summary, the bytes and the time, and whether an unfinished line is wiped first. *)
Definition finish (p : Progress) (now : Z) : (bool * Z * Z) * Progress :=
  ((enabled_ p && line_open_ p, transferred_ p, elapsed_ms p now),
   mk_Progress (total_bytes_ p) (enabled_ p) (transferred_ p) (started_ms_ p) (last_render_ms_ p) (render_mutex_ p) false).

(** * Texts *)

(** A quotient rounded to the nearest integer, a tie to the even one. *)
Definition round_div (n d : Z) : Z :=
  let q := n / d in
  let twice := 2 * (n mod d) in
  if (d <? twice) || ((twice =? d) && Z.odd q) then q + 1 else q.

(** A finite double that is not negative, in units of [1 / scale]. *)
Definition d_scaled (scale : Z) (d : double) : Z :=
  match d with
  | S754_finite false m e => if 0 <=? e then Z.shiftl (Zpos m) e * scale else round_div (Zpos m * scale) (Z.shiftl 1 (- e))
  | _ => 0
  end.

(** [printf] of ["%.1f"] and ["%.2f"]. *)
Definition fixed1 (d : double) : bytes := to_string (d_scaled 10 d / 10) ++ str "." ++ to_string (d_scaled 10 d mod 10).
Definition fixed2 (d : double) : bytes :=
  to_string (d_scaled 100 d / 100) ++ str "." ++ to_string (d_scaled 100 d / 10 mod 10) ++ to_string (d_scaled 100 d mod 10).

Definition kUnits : list bytes := str <$> ["B"; "KiB"; "MiB"; "GiB"; "TiB"; "PiB"]%string.

(** The [while]; the fuel is the number of units after the first. *)
Fixpoint unit_loop (fuel : nat) (value : double) (unit : nat) : double * nat :=
  match fuel with
  | O => (value, unit)
  | S fuel => if d_geb value (d_of_Z 1024) then unit_loop fuel (d_div value (d_of_Z 1024)) (S unit) else (value, unit)
  end.

Definition format_bytes (n : Z) : bytes :=
  let '(value, unit) := unit_loop 5 (d_of_Z n) 0 in
  match unit with
  | O => to_string n ++ str " B"
  | S _ => fixed1 value ++ str " " ++ default [] (kUnits !! unit)
  end.

Definition format_rate (n : Z) (seconds : double) : bytes :=
  if d_geb (d_of_Z 0) seconds then str "-" else format_bytes (d_to_u64 (d_div (d_of_Z n) seconds)) ++ str "/s".

(** [elapsed_seconds]. *)
Definition elapsed_seconds (elapsed_ms : Z) : double := d_div (d_of_Z elapsed_ms) (d_of_Z 1000).

(** ["%3d"]. *)
Definition pad3 (text : bytes) : bytes := replicate (3 - length text) 32 ++ text.

Definition line_text (label : bytes) (p : Progress) (l : shown) : bytes :=
  [13] ++ label ++ str "  " ++ pad3 (to_string (sh_percent l)) ++ str "%  " ++ format_bytes (sh_transferred l) ++ str " of " ++
  format_bytes (total_bytes_ p) ++ str "  " ++ format_rate (sh_transferred l) (elapsed_seconds (sh_elapsed_ms l)) ++ str "   " ++
  (if sh_final l then [10] else []).

Definition summary_text (label suffix : bytes) (wipe : bool) (transferred elapsed_ms : Z) : bytes :=
  (if wipe then [13] ++ replicate 78 32 ++ [13] else []) ++
  label ++ str "  " ++ format_bytes transferred ++ str " in " ++ fixed2 (elapsed_seconds elapsed_ms) ++ str "s (" ++
  format_rate transferred (elapsed_seconds elapsed_ms) ++ str ")" ++ (if (len suffix =? 0) then [] else str "  ") ++ suffix ++ [10].

Example format_sizes :
  format_bytes <$> [0; 1023; 1024; 1536; 1048575; 5000000; 2 ^ 64 - 1] =
    str <$> ["0 B"; "1023 B"; "1.0 KiB"; "1.5 KiB"; "1024.0 KiB"; "4.8 MiB"; "16384.0 PiB"]%string.
Proof. by vm_compute. Qed.

Example sample_texts :
  let p := new_Progress 1048576 true true 0 in
  line_text (str "a.txt") p (mk_shown 50 524288 2000 false) = [13] ++ str "a.txt   50%  512.0 KiB of 1.0 MiB  256.0 KiB/s   " /\
  summary_text (str "a.txt") (str "done") false 1048576 3456 = str "a.txt  1.0 MiB in 3.46s (296.3 KiB/s)  done" ++ [10].
Proof. by vm_compute. Qed.

(** * [advance] *)

(** Where a thread is. *)
Inductive at_ :=
  | Idle
  | Counting (bytes : Z)
  | ReadingClock
  | ReadingLast (now : Z)
  | Swapping (now last : Z)
  | Locking
  | Rendering
  | Unlocking.

#[export] Instance at_eq_dec : EqDecision at_.
Proof. solve_decision. Defined.

Definition with_transferred v p := mk_Progress (total_bytes_ p) (enabled_ p) v (started_ms_ p) (last_render_ms_ p) (render_mutex_ p) (line_open_ p).
Definition with_last v p := mk_Progress (total_bytes_ p) (enabled_ p) (transferred_ p) (started_ms_ p) v (render_mutex_ p) (line_open_ p).
Definition with_mutex v p := mk_Progress (total_bytes_ p) (enabled_ p) (transferred_ p) (started_ms_ p) (last_render_ms_ p) v (line_open_ p).

(** One step of a thread in [advance]: where it is next, what it draws, and the object. *)
Definition advance_step (clock : Z) (t : at_) (p : Progress) : at_ * option shown * Progress :=
  match t with
  | Idle => (Idle, None, p)
  | Counting bytes =>
      let p := with_transferred (u64 (transferred_ p + bytes)) p in
      (if enabled_ p then ReadingClock else Idle, None, p)
  | ReadingClock => (ReadingLast clock, None, p)
  | ReadingLast now =>
      let last := last_render_ms_ p in
      (if u64 (now - last) <? kRenderIntervalMs then Idle else Swapping now last, None, p)
  | Swapping now last =>
      if last_render_ms_ p =? last then (Locking, None, with_last now p) else (Idle, None, p)
  | Locking => if render_mutex_ p then (Idle, None, p) else (Rendering, None, with_mutex true p)
  | Rendering => let '(line, p) := render p clock false in (Unlocking, Some line, p)
  | Unlocking => (Idle, None, with_mutex false p)
  end.

(** * The threads *)

Record Display := mk_Display {
  d_progress : Progress;
  d_clock : Z;
  d_threads : list at_;
  d_lines : list shown;
}.

Inductive pevent := Call (thread : nat) (bytes : Z) | Step (thread : nat) | Tick (ms : Z).

Definition display_step (d : Display) (ev : pevent) : Display :=
  match ev with
  | Call i bytes =>
      match d_threads d !! i with
      | Some Idle => mk_Display (d_progress d) (d_clock d) (<[i := Counting bytes]> (d_threads d)) (d_lines d)
      | _ => d
      end
  | Step i =>
      match d_threads d !! i with
      | Some t =>
          let '(t', line, p) := advance_step (d_clock d) t (d_progress d) in
          mk_Display p (d_clock d) (<[i := t']> (d_threads d)) (d_lines d ++ match line with Some l => [l] | None => [] end)
      | None => d
      end
  | Tick ms => mk_Display (d_progress d) (d_clock d + ms) (d_threads d) (d_lines d)
  end.

Definition display_run (evs : list pevent) (d : Display) : Display := foldl display_step d evs.

Definition new_Display (p : Progress) (clock : Z) (threads : nat) : Display := mk_Display p clock (replicate threads Idle) [].

(** * What is counted and drawn *)

(** The bytes of the calls that were made: a thread makes one at a time. *)
Definition call_bytes (ev : pevent) (d : Display) : Z :=
  match ev with Call i bytes => if bool_decide (d_threads d !! i = Some Idle) then bytes else 0 | _ => 0 end.

Fixpoint called (evs : list pevent) (d : Display) : Z :=
  match evs with
  | [] => 0
  | ev :: evs => call_bytes ev d + called evs (display_step d ev)
  end.

Definition sensible (ev : pevent) : Prop := match ev with Call _ bytes => 0 <= bytes | _ => True end.

Definition uncounted (t : at_) : Z := match t with Counting bytes => bytes | _ => 0 end.
Definition holding (t : at_) : Z := match t with Rendering | Unlocking => 1 | _ => 0 end.

Lemma tally_idle f n : f Idle = 0 -> tally f (replicate n Idle) = 0.
Proof. intros Hf. induction n as [|n IH]; cbn; [done|]. lia. Qed.

(** A line that tells the truth about a counter of [n]. *)
Definition line_ok (total n : Z) (l : shown) : Prop :=
  0 <= sh_transferred l <= n /\ 0 <= sh_percent l <= 100 /\
  sh_percent l = if 0 <? total then sh_transferred l * 100 / total else 0.

Record display_ok (total n : Z) (d : Display) : Prop := {
  do_total : total_bytes_ (d_progress d) = total;
  do_counted : 0 <= transferred_ (d_progress d);
  do_sum : transferred_ (d_progress d) + tally uncounted (d_threads d) = n;
  do_calls : Forall (fun t => 0 <= uncounted t) (d_threads d);
  do_mutex : tally holding (d_threads d) = if render_mutex_ (d_progress d) then 1 else 0;
  do_lines : Forall (line_ok total (transferred_ (d_progress d))) (d_lines d);
  do_order : forall i j a b, (i < j)%nat -> d_lines d !! i = Some a -> d_lines d !! j = Some b -> sh_transferred a <= sh_transferred b;
}.

Lemma percent_ok p n :
  0 <= n <= total_bytes_ p -> total_bytes_ p * 100 < 2 ^ 64 ->
  percent p n = (if 0 <? total_bytes_ p then n * 100 / total_bytes_ p else 0) /\ 0 <= percent p n <= 100.
Proof.
  intros Hn Ht. unfold percent. destruct (Z.ltb_spec 0 (total_bytes_ p)) as [H0|H0]; [|done].
  rewrite u64_small by (unfold is_u; lia). assert (0 <= n * 100 / total_bytes_ p <= 100) as Hp.
  { split; [apply Z.div_pos; lia|]. apply Z.div_le_upper_bound; lia. }
  rewrite i32_small by lia. destruct (Z.ltb_spec 100 (n * 100 / total_bytes_ p)); lia.
Qed.

Lemma line_ok_later total n n' l : n <= n' -> line_ok total n l -> line_ok total n' l.
Proof. intros Hn ([??] & ? & ?). split_and!; (done || lia). Qed.

(** A step that leaves the lines alone. *)
Lemma display_ok_step total n d i t t' p :
  display_ok total n d -> d_threads d !! i = Some t ->
  total_bytes_ p = total -> 0 <= uncounted t' ->
  transferred_ (d_progress d) <= transferred_ p ->
  transferred_ p + uncounted t' = transferred_ (d_progress d) + uncounted t ->
  (if render_mutex_ p then 1 else 0) = (if render_mutex_ (d_progress d) then 1 else 0) - holding t + holding t' ->
  display_ok total n (mk_Display p (d_clock d) (<[i := t']> (d_threads d)) (d_lines d ++ [])).
Proof.
  intros [Ht Hc Hs Hf Hm Hl Ho] Hi Htot Hu Hle Hsum Hmut. rewrite app_nil_r. split; cbn [d_progress d_threads d_lines].
  - done.
  - lia.
  - rewrite (tally_insert _ _ _ _ _ Hi). lia.
  - by apply Forall_insert.
  - rewrite (tally_insert _ _ _ _ _ Hi). lia.
  - eapply Forall_impl; [exact Hl|]. intros l. by apply line_ok_later.
  - done.
Qed.

Lemma render_ok total n d i :
  display_ok total n d -> d_threads d !! i = Some Rendering -> transferred_ (d_progress d) <= total -> total * 100 < 2 ^ 64 ->
  let '(line, p) := render (d_progress d) (d_clock d) false in
  display_ok total n (mk_Display p (d_clock d) (<[i := Unlocking]> (d_threads d)) (d_lines d ++ [line])).
Proof.
  intros [Ht Hc Hs Hf Hm Hl Ho] Hi Hle Htot. cbn. destruct (percent_ok (d_progress d) (transferred_ (d_progress d))) as [Hp Hr]; [lia|lia|].
  split; cbn [d_progress d_threads d_lines total_bytes_ transferred_ render_mutex_].
  - done.
  - done.
  - rewrite (tally_insert _ _ _ _ _ Hi). cbn. lia.
  - by apply Forall_insert.
  - rewrite (tally_insert _ _ _ _ _ Hi). cbn. lia.
  - apply Forall_app. split; [done|]. constructor; [|constructor]. split_and!; cbn; try lia. by rewrite Hp, Ht.
  - intros j k a b Hjk Ha Hb. apply lookup_snoc_Some in Hb as [[Hk Hb]|[-> <-]].
    + apply (Ho j k a b Hjk); [|done]. by rewrite lookup_app_l in Ha by lia.
    + cbn. rewrite lookup_app_l in Ha by lia. rewrite Forall_forall in Hl. apply Hl; by eapply list_elem_of_lookup_2.
Qed.

Lemma display_step_ok total n d ev :
  display_ok total n d -> 0 <= call_bytes ev d -> n + call_bytes ev d <= total -> total * 100 < 2 ^ 64 ->
  display_ok total (n + call_bytes ev d) (display_step d ev).
Proof.
  intros Hd Hmore Hle Htot. unfold call_bytes in *. destruct ev as [i bytes|i|ms]; cbn [display_step] in *.
  - destruct (d_threads d !! i) as [t|] eqn:Hi; [|by rewrite bool_decide_eq_false_2, Z.add_0_r by done].
    destruct t; try (by rewrite bool_decide_eq_false_2, Z.add_0_r by done). rewrite bool_decide_eq_true_2 in * by done.
    destruct Hd as [Ht Hc Hs Hf Hm Hl Ho]. split; cbn [d_progress d_threads d_lines]; try done.
    + rewrite (tally_insert _ _ _ _ _ Hi). cbn. lia.
    + by apply Forall_insert.
    + rewrite (tally_insert _ _ _ _ _ Hi). cbn. lia.
  - rewrite Z.add_0_r in *. destruct (d_threads d !! i) as [t|] eqn:Hi; [|done].
    assert (0 <= uncounted t) as Hu by (eapply (Forall_lookup_1 _ _ _ _ (do_calls _ _ _ Hd)); exact Hi).
    assert (transferred_ (d_progress d) + uncounted t <= n) as Hn.
    { rewrite <- (do_sum _ _ _ Hd). apply Zplus_le_compat_l, tally_elem; [apply Hd|by eapply list_elem_of_lookup_2]. }
    pose proof (do_total _ _ _ Hd) as Ht. pose proof (do_counted _ _ _ Hd) as Hc.
    destruct t as [|bytes| |now|now last| | |]; cbn [advance_step uncounted] in *.
    + apply (display_ok_step total n d i Idle Idle); try done; cbn; lia.
    + eapply display_ok_step; [done|done|done| | | |]; cbn; rewrite ?u64_small by (unfold is_u; lia); destruct (enabled_ (d_progress d)); cbn; lia.
    + apply (display_ok_step total n d i ReadingClock); try done; cbn; lia.
    + apply (display_ok_step total n d i (ReadingLast now)); try done; destruct (_ <? kRenderIntervalMs); cbn; lia.
    + destruct (_ =? _); apply (display_ok_step total n d i (Swapping now last)); try done; cbn; lia.
    + destruct (render_mutex_ (d_progress d)) eqn:Em; apply (display_ok_step total n d i Locking); try done; cbn; rewrite ?Em; lia.
    + apply (render_ok total n d i); try done. lia.
    + apply (display_ok_step total n d i Unlocking); try done. cbn. pose proof (do_mutex _ _ _ Hd) as Hm.
      assert (1 <= tally holding (d_threads d)).
      { apply (tally_elem holding _ Unlocking); [apply Forall_true; by intros []|by eapply list_elem_of_lookup_2]. }
      destruct (render_mutex_ (d_progress d)); lia.
  - rewrite Z.add_0_r. destruct Hd. by split.
Qed.

Lemma call_bytes_nonneg ev d : sensible ev -> 0 <= call_bytes ev d.
Proof. destruct ev; cbn; try done. by destruct (bool_decide _). Qed.

Lemma called_nonneg evs : forall d, Forall sensible evs -> 0 <= called evs d.
Proof.
  induction evs as [|ev evs IH]; intros d Hev; cbn; [done|]. apply Forall_cons in Hev as [He Hev].
  pose proof (call_bytes_nonneg ev d He). specialize (IH (display_step d ev) Hev). lia.
Qed.

Lemma display_run_ok total evs : forall n d,
  display_ok total n d -> Forall sensible evs ->
  n + called evs d <= total -> total * 100 < 2 ^ 64 -> display_ok total (n + called evs d) (display_run evs d).
Proof.
  induction evs as [|ev evs IH]; intros n d Hd Hev Hle Htot; cbn [called display_run foldl] in *; [by rewrite Z.add_0_r|].
  apply Forall_cons in Hev as [He Hev]. pose proof (call_bytes_nonneg ev d He). pose proof (called_nonneg evs (display_step d ev) Hev).
  rewrite Z.add_assoc. apply IH; [|done|lia|done]. apply display_step_ok; [done|done|lia|done].
Qed.

(** C40. However the threads of a transfer interleave in [advance], no byte is counted twice or
    lost, never two of them draw at once, and every line drawn is true: a percentage from 0 to
    100 of the bytes it shows, which never go back from one line to the next. *)
Theorem progress_counts total enabled tty start threads evs :
  Forall sensible evs ->
  let d0 := new_Display (new_Progress total enabled tty start) start threads in
  let d := display_run evs d0 in
  called evs d0 <= total -> total * 100 < 2 ^ 64 ->
  (Forall (fun t => t = Idle) (d_threads d) -> transferred_ (d_progress d) = called evs d0) /\
  tally holding (d_threads d) <= 1 /\
  Forall (line_ok total (called evs d0)) (d_lines d) /\
  forall i j a b, (i < j)%nat -> d_lines d !! i = Some a -> d_lines d !! j = Some b -> sh_transferred a <= sh_transferred b.
Proof.
  intros Hev d0 d Hle Htot. assert (display_ok total 0 d0) as H0.
  { split; cbn; try done; [|by apply Forall_replicate|]; by rewrite tally_idle. }
  apply (display_run_ok total evs 0 d0) in H0; [|done..]. rewrite Z.add_0_l in H0. fold d in H0.
  assert (0 <= tally uncounted (d_threads d)) as Hu by (pose proof (do_calls _ _ _ H0) as Hf; induction Hf; cbn; lia).
  pose proof (do_sum _ _ _ H0) as Hs. split_and!.
  - intros Hidle. rewrite <- Hs. assert (tally uncounted (d_threads d) = 0) as ->; [|lia].
    clear -Hidle. induction Hidle as [|t ts -> _ IH]; cbn; [done|]. lia.
  - rewrite (do_mutex _ _ _ H0). by destruct (render_mutex_ _).
  - eapply Forall_impl; [apply (do_lines _ _ _ H0)|]. intros l. apply line_ok_later. lia.
  - apply (do_order _ _ _ H0).
Qed.

(** * The theorem at work *)

(** Two threads; both read the clock, and the second, which read it a millisecond later, draws
    before the first has looked when the last line was drawn. *)
Definition sample_turns : list pevent :=
  [Call 0 600; Call 1 400; Step 0; Step 1; Step 0; Tick 1; Step 1; Step 1; Step 1; Step 1; Step 1; Step 1;
   Step 0; Step 0; Step 0; Step 0; Step 0].

Definition sample_display : Display := new_Display (new_Progress 1000 true true 5000) 5000 2.

Lemma progress_counts_witness :
  let d := display_run sample_turns sample_display in
  transferred_ (d_progress d) = 1000 /\ Forall (line_ok 1000 1000) (d_lines d) /\ d_threads d = [Idle; Idle].
Proof.
  assert (Forall sensible sample_turns) as Hs by (repeat constructor; discriminate).
  assert (called sample_turns sample_display = 1000) as Hc by (vm_compute; reflexivity).
  destruct (progress_counts 1000 true true 5000 2 sample_turns Hs) as (H1 & _ & H3 & _).
  - change (called sample_turns sample_display <= 1000). rewrite Hc. reflexivity.
  - reflexivity.
  - change (new_Display (new_Progress 1000 true true 5000) 5000 2) with sample_display in H1, H3. rewrite Hc in H1, H3.
    split; [apply H1; vm_compute; repeat constructor|]. split; [exact H3|]. vm_compute. reflexivity.
Defined.

(** The time since the last line is the difference of two readings without a sign: the thread
    that read the clock first finds the line of the other in its future, 2^64 - 1 milliseconds
    ago, draws again one millisecond later and sets the time of the last line back. *)
Lemma late_reading_draws_again :
  let d := display_run sample_turns sample_display in
  sh_elapsed_ms <$> d_lines d = [1; 1] /\ last_render_ms_ (d_progress d) = 5000 /\ d_clock d = 5001.
Proof. by vm_compute. Qed.

(** One thread by itself waits the interval out. *)
Lemma alone_waits p bytes now :
  enabled_ p = true -> 0 <= last_render_ms_ p <= now -> now < 2 ^ 64 -> now - last_render_ms_ p < kRenderIntervalMs ->
  let d := display_run [Call 0 bytes; Step 0; Step 0; Step 0] (new_Display p now 1) in
  d_lines d = [] /\ d_threads d = [Idle].
Proof.
  intros He Hl Hn Hd. cbn. rewrite He. cbn. rewrite u64_small by (unfold is_u; lia).
  by rewrite (proj2 (Z.ltb_lt _ _) Hd).
Qed.
