(* ===== verification/Dialogue.v ===== *)
(** The question before a transfer, [confirm_with_user] of [client/src/receiver.cpp], and the
    texts of [aead_algorithm_name] in [common/src/crypto.cpp] and of [common/src/cpu.cpp],
    with the detection of the processor's features there. *)

From S2P Require Import Prelude Protocol Crypto Identity Progress.

(** * The processor *)

Record CpuFeatures := mk_CpuFeatures { cf_aes : bool; cf_carryless_multiply : bool; cf_avx2 : bool; cf_vaes : bool }.

Definition no_features : CpuFeatures := mk_CpuFeatures false false false false.

Definition bit_set (word : Z) (bit : Z) : bool := negb (Z.land word (Z.shiftl 1 bit) =? 0).

(** What a processor says of itself: the words of the two leaves of [cpuid] that are looked
    at, each if it has the leaf; the hardware capabilities of Linux; two settings of macOS. *)
Inductive cpu_report :=
  | X86 (leaf1_ecx : option Z) (leaf7 : option (Z * Z))
  | Arm64Linux (caps : Z)
  | Arm64Mac (feat_aes feat_pmull : option Z)
  | Arm64Other
  | OtherCpu.

Definition detect (r : cpu_report) : CpuFeatures :=
  match r with
  | X86 leaf1 leaf7 =>
      let '(aes, clmul) := match leaf1 with Some ecx => (bit_set ecx 25, bit_set ecx 1) | None => (false, false) end in
      let '(avx2, vaes) := match leaf7 with Some (ebx, ecx) => (bit_set ebx 5, bit_set ecx 9) | None => (false, false) end in
      mk_CpuFeatures aes clmul avx2 vaes
  | Arm64Linux caps => mk_CpuFeatures (bit_set caps 3) (bit_set caps 4) false false
  | Arm64Mac aes pmull =>
      let present o := match o with Some value => negb (value =? 0) | None => true end in
      mk_CpuFeatures (present aes) (present pmull) false false
  | Arm64Other => mk_CpuFeatures true true false false
  | OtherCpu => no_features
  end.

Definition cpu_prefers_aes (features : CpuFeatures) : bool := cf_aes features && cf_carryless_multiply features.

Definition add_feature (name : string) (present : bool) (summary : bytes) : bytes :=
  if negb present then summary else (if len summary =? 0 then summary else summary ++ str ", ") ++ str name.

Definition cpu_features_summary (features : CpuFeatures) : bytes :=
  let summary :=
    add_feature "vaes" (cf_vaes features) (add_feature "avx2" (cf_avx2 features)
      (add_feature "carryless-multiply" (cf_carryless_multiply features) (add_feature "aes" (cf_aes features) []))) in
  if len summary =? 0 then str "no accelerated cipher instructions" else summary.

Definition aead_algorithm_name (a : AeadAlgorithm) : bytes :=
  match a with Aes256Gcm => str "AES-256-GCM" | ChaCha20Poly1305 => str "ChaCha20-Poly1305" end.

(** AES-GCM is preferred only where the processor has both halves of it, on x86 from the two
    bits of the first leaf alone. *)
Lemma prefers_aes_x86 ecx leaf7 :
  preferred_aead (cpu_prefers_aes (detect (X86 (Some ecx) leaf7))) = Aes256Gcm <-> bit_set ecx 25 = true /\ bit_set ecx 1 = true.
Proof.
  unfold cpu_prefers_aes, detect, preferred_aead. destruct leaf7 as [[ebx ecx7]|]; cbn; destruct (bit_set ecx 25), (bit_set ecx 1); cbn; naive_solver.
Qed.

Example sample_processors :
  cpu_features_summary (detect (X86 (Some (2 ^ 25 + 2)) (Some (32, 0)))) = str "aes, carryless-multiply, avx2" /\
  cpu_features_summary (detect (X86 None None)) = str "no accelerated cipher instructions" /\
  preferred_aead (cpu_prefers_aes (detect (Arm64Linux 8))) = ChaCha20Poly1305.
Proof. vm_compute. repeat split; reflexivity. Qed.

(** * The question *)

Definition kShownEntries : nat := 8.

Definition entry_line (e : ManifestEntry) : bytes := str "  " ++ me_path e ++ str " (" ++ format_bytes (me_size e) ++ str ")" ++ [10].

Definition offer_text (offer : TransferOffer) (peer_username output_directory : bytes) : bytes :=
  let entries := to_entries offer in
  [10] ++ peer_username ++ str " wants to send you " ++ to_display_name offer ++ str " (" ++ format_bytes (to_total_bytes offer) ++
  (if 1 <? len entries then str " across " ++ to_string (len entries) ++ str " files" else []) ++ str ")" ++ [10] ++
  str "  into:       " ++ output_directory ++ [10] ++
  str "  encryption: " ++ (if to_encrypt_payload offer then aead_algorithm_name (to_algorithm offer) else str "none") ++ [10] ++
  mjoin (entry_line <$> take kShownEntries entries) ++
  (if Nat.ltb kShownEntries (length entries)
   then str "  ... and " ++ to_string (len entries - Z.of_nat kShownEntries) ++ str " more" ++ [10] else []).

(** The answer, and what was shown. *)
Definition confirm_with_user (offer : TransferOffer) (peer_username output_directory : bytes) (prompt : bool)
  : M (list in_event) (bool * bytes) :=
  if negb prompt then mret (true, [])
  else
    let* yes := read_yes_no false in
    mret (yes, offer_text offer peer_username output_directory ++ str "Accept? (y/n) ").

(** Nothing but a line that says yes accepts: not an empty one, not the end of the input. *)
Lemma confirm_needs_yes offer peer directory input :
  forall yes shown rest, confirm_with_user offer peer directory true input = (Ok (yes, shown), rest) ->
  yes = true -> exists answer, answer ∈ (str <$> ["y"; "Y"; "yes"; "YES"]%string) /\ read_line (str "n") input = (Ok answer, rest).
Proof.
  intros yes shown rest. unfold confirm_with_user, read_yes_no, mbind, mret. change (negb true) with false. cbv beta iota. destruct (read_line (str "n") input) as [[answer|e] rest'] eqn:E; [|done].
  intros [= <- _ <-] Hyes. exists answer. split; [|done].
  rewrite !orb_true_iff, !bool_decide_eq_true in Hyes. cbn. rewrite !elem_of_cons. tauto.
Qed.

Lemma confirm_end_refuses offer peer directory : (confirm_with_user offer peer directory true []).1 =
  Ok (false, offer_text offer peer directory ++ str "Accept? (y/n) ").
Proof. done. Qed.

Definition small_offer (display_name : bytes) (total : Z) (entries : list ManifestEntry) : TransferOffer :=
  mk_TransferOffer (str "eve") display_name entries total true Aes256Gcm 1048576 false.

(** The sender's name for what it sends is shown as it is: an offer that the receiver takes
    can have the lines of another one in it, and the question then begins with the whole of
    what that other offer would show. *)
Lemma offer_text_forged :
  let honest := small_offer (str "a.txt") 5 [mk_ManifestEntry (str "a.txt") 5 0 (replicate 32 0)] in
  let shown := offer_text honest (str "eve") (str "/home/ann") in
  let forged := small_offer (drop 23 shown) 5000000 [mk_ManifestEntry (str "b.iso") 5000000 0 (replicate 32 0)] in
  TransferOffer_decode (TransferOffer_encode forged) = Ok forged /\
  exists rest, offer_text forged (str "eve") (str "/home/ann") = shown ++ rest /\ rest <> [].
Proof.
  intros honest shown forged. split; [vm_compute; reflexivity|].
  exists (drop (length shown) (offer_text forged (str "eve") (str "/home/ann"))).
  split; vm_compute; [reflexivity|discriminate].
Qed.

Example sample_question :
  offer_text (small_offer (str "photos") 3072 (replicate 10 (mk_ManifestEntry (str "p") 1024 0 []))) (str "bob") (str "/d") =
  [10] ++ str "bob wants to send you photos (3.0 KiB across 10 files)" ++ [10] ++ str "  into:       /d" ++ [10] ++
  str "  encryption: AES-256-GCM" ++ [10] ++ mjoin (replicate 8 (str "  p (1.0 KiB)" ++ [10])) ++ str "  ... and 2 more" ++ [10].
Proof. vm_compute. reflexivity. Qed.
