(* ===== verification/Client.v ===== *)
(** The commands of [client/src/main.cpp] that stay on this machine: [setup], [whoami],
    [status], [set-server], [set-output] and [set-public-password].

    [Machine] is the files under the configuration directory, the keys typed on standard
    input and the lines printed on standard output; messages on standard error are left out.
    [client_env] is the environment, what the kernel answers to the calls on each file, and
    the random bytes drawn. *)

From S2P Require Import Prelude Socket Protocol Paths Messages Text Getopt Cli Storage KnownPeers Config Crypto Identity.

Record Machine := mk_Machine { m_disk : gmap bytes disk_file; m_input : list in_event; m_output : list bytes }.

Record client_env := mk_client_env {
  ce_drop_zone_home : option bytes;
  ce_xdg_config_home : option bytes;
  ce_home : option bytes;
  ce_getcwd : bytes + Z;
  ce_mkdir : bytes -> option Z;
  ce_config_io : file_env;
  ce_identity_io : file_env;
  ce_salt : bytes;
  ce_secret : bytes;
  ce_nonce : bytes;
  ce_prefers_aes : bool;
}.

Abbreviation cmd := (M Machine).

Definition file_at (path : bytes) (m : Machine) : disk_file := default (mk_disk_file None None) (m_disk m !! path).

(** A computation on one file. *)
Definition on_file {A} (path : bytes) (f : M disk_file A) : cmd A :=
  mzoom (file_at path) (fun d m => mk_Machine (<[path := d]> (m_disk m)) (m_input m) (m_output m)) f.

Definition with_file {A} (path : bytes) (f : disk_file -> result A) : cmd A := fun m => (f (file_at path m), m).

Definition keyboard {A} (f : M (list in_event) A) : cmd A :=
  mzoom m_input (fun i m => mk_Machine (m_disk m) i (m_output m)) f.

Definition print_line (line : bytes) : cmd unit :=
  mmodify (fun m => mk_Machine (m_disk m) (m_input m) (m_output m ++ [line])).

(** [is_regular_file]. *)
Definition regular_file (path : bytes) (m : Machine) : bool := bool_decide (is_Some (df_file (file_at path m))).

(** [printf] of ["%-20s"]. *)
Definition pad20 (text : bytes) : bytes := text ++ replicate (20 - length text) 32.

Section Commands.
Context `{AeadCipher} `{Openssl} (env : client_env).

Definition resolve_config_directory (args : CommandLine) : result bytes :=
  if negb (empty (config_directory args)) then Ok (expand_user_path (ce_home env) (config_directory args))
  else default_config_directory (ce_drop_zone_home env) (ce_xdg_config_home env) (ce_home env).

Definition load_config_of (args : CommandLine) : cmd Config :=
  let* directory := mlift (resolve_config_directory args) in
  with_file (join_path directory (str "config.toml")) (load_config (ce_home env) directory).

Definition save_config_file (c : Config) : cmd unit :=
  on_file (config_path c) (save_config (ce_config_io env) (ce_mkdir env) c).

Definition unlock (c : Config) (private_password : bytes) : cmd Identity :=
  with_file (identity_path c) (unlock_identity (ce_identity_io env) c private_password).

Definition save_identity_file (c : Config) (i : Identity) (private_password : bytes) : cmd unit :=
  on_file (identity_path c) (save_identity (ce_prefers_aes env) (ce_identity_io env) c i private_password (ce_nonce env)).

(** The [for (;;)] of [command_setup]; a line is read per turn, and the fuel runs out only
    where the input has ended without a username. *)
Fixpoint ask_username (fuel : nat) : cmd bytes :=
  match fuel with
  | O => mthrow Blocks
  | S fuel =>
      let* username := keyboard (read_line []) in
      if is_valid_username username then mret username else ask_username fuel
  end.

Definition command_setup (fuel : nat) (args : CommandLine) : cmd Z :=
  let* directory := mlift (resolve_config_directory args) in
  let* m := mget in
  let already := regular_file (join_path directory (str "config.toml")) m in
  let* replace_ := (if already then keyboard (read_yes_no false) else mret true) in
  if negb replace_ then mret 0
  else
    let* username := ask_username fuel in
    let '(host, port) :=
      if negb (empty (server_host args)) then
        (server_host args, if negb (server_port args =? 0) then server_port args else kDefaultServerPort)
      else (kDefaultServerHost, kDefaultServerPort) in
    let config := mk_Config username host port [] (c_encrypt_by_default Config_default)
      (c_verify_digests Config_default) (c_prompt_before_accepting Config_default) (ce_salt env) directory in
    let* private_password := keyboard read_password_twice in
    let* public_password := keyboard read_password_twice in
    do* save_config_file config in
    do* on_file (identity_path config)
      (create_identity (ce_prefers_aes env) (ce_identity_io env) config private_password public_password (ce_secret env) (ce_nonce env)) in
    mret 0.

Definition command_whoami (args : CommandLine) : cmd Z :=
  let* config := load_config_of args in
  let* m := mget in
  if negb (regular_file (identity_path config) m) then
    fail_user (str "no identity found in " ++ c_directory config ++ str ". Run `drop-zone setup`.")
  else
    let* password := keyboard read_password in
    let* identity := unlock config password in
    do* print_line (c_username config) in
    do* print_line (str "fingerprint " ++ fingerprint identity) in
    mret 0.

Definition yes_no (b : bool) : bytes := if b then str "yes" else str "no".

Fixpoint print_lines (lines : list bytes) : cmd unit :=
  match lines with
  | [] => mret tt
  | l :: lines => do* print_line l in print_lines lines
  end.

(** [about] is what the first lines say of the processor and the build. *)
Definition command_status (about : list bytes) (args : CommandLine) : cmd Z :=
  let* directory := mlift (resolve_config_directory args) in
  do* print_lines about in
  let* m := mget in
  if negb (regular_file (join_path directory (str "config.toml")) m) then
    do* print_lines [[]; str "No configuration in " ++ directory ++ str ". Run `drop-zone setup`."] in
    mret 0
  else
    let* config := load_config_of args in
    let output := c_default_output_directory config in
    do* print_lines [
      []; str "Configuration (" ++ config_path config ++ str ")";
      str "  username              " ++ c_username config;
      str "  server                " ++ c_server_host config ++ str ":" ++ to_string (c_server_port config);
      str "  output directory      " ++ (if empty output then str "./ (wherever you run the command)" else output);
      str "  encrypt by default    " ++ yes_no (c_encrypt_by_default config);
      str "  verify digests        " ++ yes_no (c_verify_digests config);
      str "  identity              " ++
        (if regular_file (identity_path config) m then str "present" else str "MISSING -- run setup")] in
    let known := file_at (known_peers_path config) m in
    let peers := peers_ (load (mk_KnownPeers [] (df_file known) (df_tmp known))).2 in
    do* print_lines [[]; str "Known peers (" ++ to_string (len peers) ++ str ")"] in
    do* print_lines ((fun p => str "  " ++ pad20 (kp_username p) ++ str " " ++ fingerprint_of sha256 (kp_identity_key p)) <$> peers) in
    mret 0.

Definition command_set_server (args : CommandLine) : cmd Z :=
  let* config := load_config_of args in
  let port := if negb (server_port args =? 0) then server_port args else kDefaultServerPort in
  do* save_config_file (set_server_port port (set_server_host (server_host args) config)) in
  mret 0.

Definition current_directory : result bytes :=
  match ce_getcwd env with
  | inl directory => Ok directory
  | inr e => Err (SysError (str "cannot read the current directory") e)
  end.

Definition resolve_configured_output_directory (requested : bytes) : result bytes :=
  let path := expand_user_path (ce_home env) requested in
  if empty path || bool_decide (path = str ".") || bool_decide (path = str "./") then Ok []
  else if bool_decide (head path = Some slash) then Ok path
  else (let? cwd := current_directory in Ok (join_path cwd path)).

Definition command_set_output (args : CommandLine) : cmd Z :=
  let* config := load_config_of args in
  let* directory := mlift (resolve_configured_output_directory (output_directory args)) in
  do* save_config_file (set_output_directory directory config) in
  mret 0.

Definition command_set_public_password (args : CommandLine) : cmd Z :=
  let* config := load_config_of args in
  let* private_password := keyboard read_password in
  let* identity := unlock config private_password in
  let* public_password := keyboard read_password_twice in
  do* save_identity_file config (mk_Identity (id_keys identity) public_password) private_password in
  mret 0.
End Commands.

(** * Lines typed at the prompts *)

Definition entered (line : bytes) : bytes := reverse (drop_while (fun c => (c =? 13) || (c =? 32)) (reverse line)).

Lemma read_line_typed line rest : line_text line -> read_line [] (typed line ++ rest) = (Ok (entered line), rest).
Proof.
  intros Hl. unfold read_line. rewrite read_raw_typed by done. cbn [app]. fold (entered line).
  by destruct (Z.eqb_spec (len (entered line)) 0) as [->%len_zero_nil|].
Qed.

Lemma entered_username u : valid_name u -> line_text u /\ entered u = u.
Proof.
  intros Hu. apply valid_name_chars in Hu. split.
  - eapply Forall_impl; [exact Hu|]. intros c. unfold username_char, in_range. lia.
  - unfold entered. destruct (reverse u) as [|c r] eqn:E; [by apply (f_equal reverse) in E; rewrite reverse_involutive in E|].
    rewrite drop_while_keep; [by rewrite <- E, reverse_involutive|].
    assert (c ∈ u) as Hc by (rewrite <- elem_of_reverse, E; by left). rewrite Forall_forall in Hu. specialize (Hu _ Hc).
    unfold username_char, in_range in Hu. lia.
Qed.

Lemma read_typed_pair good rest : line_text good -> good <> [] -> read_password_twice (typed_pair (good, good) ++ rest) = (Ok good, rest).
Proof. intros Hg Hne. unfold read_password_twice. rewrite read_pair by done. by rewrite bool_decide_eq_true_2. Qed.

Lemma read_password_typed p rest : line_text p -> read_password (typed p ++ rest) = (Ok p, rest).
Proof. intros Hp. unfold read_password. by rewrite read_raw_typed. Qed.

(** A line that is not a username. *)
Definition not_a_name (line : bytes) : Prop := line_text line /\ is_valid_username (entered line) = false.

Lemma ask_username_typed bad u fuel disk rest out :
  Forall not_a_name bad -> valid_name u -> (length bad < fuel)%nat ->
  ask_username fuel (mk_Machine disk (mjoin (typed <$> bad) ++ typed u ++ rest) out) = (Ok u, mk_Machine disk rest out).
Proof.
  intros Hb Hu. destruct (entered_username u Hu) as [Ht He]. revert fuel.
  induction Hb as [|l bad [Hl Hbad] _ IH]; intros [|fuel] Hf; cbn in Hf; try lia; cbn [ask_username].
  - unfold mbind, keyboard, mzoom. cbn [m_input fmap list_fmap mjoin list_join app]. rewrite read_line_typed, He by done. unfold valid_name in Hu. by rewrite Hu.
  - unfold mbind, keyboard, mzoom. cbn [m_input]. rewrite mjoin_fmap_cons, <- app_assoc, read_line_typed, Hbad by done.
    apply IH. lia.
Qed.

(** At the end of the input there is always another turn. *)
Lemma ask_username_ended fuel m : m_input m = [] -> ask_username fuel m = (Err Blocks, m).
Proof.
  intros Hm. induction fuel as [|fuel IH]; [done|]. cbn [ask_username]. unfold mbind, keyboard, mzoom. rewrite Hm. cbn.
  rewrite <- Hm. by destruct m.
Qed.

(** * Setting up, and what works afterwards *)

Lemma file_at_same path d i o disk : file_at path (mk_Machine (<[path := d]> disk) i o) = d.
Proof. unfold file_at. cbn. by rewrite lookup_insert_eq. Qed.

Lemma file_at_other path path' d i o disk i' o' :
  path <> path' -> file_at path (mk_Machine (<[path' := d]> disk) i o) = file_at path (mk_Machine disk i' o').
Proof. intros Hne. unfold file_at. cbn. by rewrite lookup_insert_ne. Qed.

Lemma config_identity_ne c : config_path c <> identity_path c.
Proof. by apply join_path_ne. Qed.

(** An environment in which nothing fails. *)
Record env_fine (env : client_env) : Prop := {
  ef_config : io_fine (ce_config_io env);
  ef_identity : io_fine (ce_identity_io env);
  ef_mkdir : forall d, ce_mkdir env d = None;
  ef_salt : fixed kKeystoreSaltSize (ce_salt env);
  ef_secret : fixed kEd25519PrivateKeySize (ce_secret env);
  ef_nonce : len (ce_nonce env) = kAeadNonceSize;
}.

(** What [setup] writes for the answers it was given. *)
Definition setup_config (env : client_env) (args : CommandLine) (directory username : bytes) : Config :=
  mk_Config username (if empty (server_host args) then kDefaultServerHost else server_host args)
    (if empty (server_host args) || (server_port args =? 0) then kDefaultServerPort else server_port args)
    [] true false true (ce_salt env) directory.

Definition setup_identity `{Openssl} (env : client_env) (public_password : bytes) : Identity :=
  mk_Identity (mk_Ed25519KeyPair (ce_secret env) (ed25519_public (ce_secret env))) public_password.

Section Setup.
Context `{AeadLaws} `{Openssl} (env : client_env) (args : CommandLine) (directory : bytes).
Context (username private_password public_password : bytes).
Hypothesis Henv : env_fine env.
Hypothesis Hdir : resolve_config_directory env args = Ok directory.
Hypothesis Hhost : 10 ∉ server_host args.
Hypothesis Hport : 0 <= server_port args <= 65535.
Hypothesis Hname : valid_name username.
Hypothesis Hprivate : line_text private_password /\ private_password <> [].
Hypothesis Hpublic : line_text public_password /\ public_password <> [] /\ bytes_ok public_password /\ len public_password <= 65535.

Abbreviation config := (setup_config env args directory username).
Abbreviation identity := (setup_identity env public_password).

(** The answers, after ["y"] where a configuration is to be replaced. *)
Definition setup_input (already : bool) (bad : list bytes) : list in_event :=
  (if already then typed (str "y") else []) ++ mjoin (typed <$> bad) ++ typed username ++
  typed_pair (private_password, private_password) ++ typed_pair (public_password, public_password).

(** The disk afterwards. *)
Definition setup_disk (disk : gmap bytes disk_file) : gmap bytes disk_file :=
  <[identity_path config := mk_disk_file (Some (keystore_bytes (ce_prefers_aes env) config identity private_password (ce_nonce env))) None]>
  (<[config_path config := mk_disk_file (Some (print_config config)) None]> disk).

Lemma setup_config_ok : config_ok (ce_home env) config.
Proof.
  split; cbn.
  - done.
  - destruct (empty (server_host args)) eqn:E; [split; [done|by apply not_in_check]|]. by apply empty_false in E.
  - destruct (empty (server_host args)); cbn; [done|]. destruct (Z.eqb_spec (server_port args) 0); [done|]. lia.
  - split; [by apply not_elem_of_nil|]. done.
  - apply Henv.
Qed.

Lemma setup_runs bad fuel disk rest out :
  Forall not_a_name bad -> (length bad < fuel)%nat ->
  let m0 := mk_Machine disk [] [] in
  command_setup env fuel args
    (mk_Machine disk (setup_input (regular_file (join_path directory (str "config.toml")) m0) bad ++ rest) out) =
  (Ok 0, mk_Machine (setup_disk disk) rest out).
Proof.
  intros Hb Hf m0. unfold command_setup. rewrite Hdir. unfold mlift, mbind at 1 2, mget.
  change (regular_file _ (mk_Machine disk _ out)) with (regular_file (join_path directory (str "config.toml")) m0).
  set (already := regular_file _ _). unfold mbind at 1.
  assert ((if already then keyboard (read_yes_no false) else mret true)
    (mk_Machine disk (setup_input already bad ++ rest) out) = (Ok true, mk_Machine disk (setup_input false bad ++ rest) out)) as ->.
  { destruct already; [|done]. unfold setup_input, keyboard, mzoom, read_yes_no, mbind. cbn [m_input].
    rewrite <- app_assoc. done. }
  cbn [negb]. unfold setup_input. cbn [app]. rewrite <- !app_assoc. unfold mbind at 1.
  rewrite ask_username_typed by done.
  assert ((if negb (empty (server_host args)) then (server_host args, if negb (server_port args =? 0) then server_port args else kDefaultServerPort)
    else (kDefaultServerHost, kDefaultServerPort)) = (c_server_host config, c_server_port config)) as ->
    by (cbn; by destruct (empty (server_host args)), (server_port args =? 0)).
  change (mk_Config _ _ _ _ _ _ _ _ _) with config.
  unfold mbind at 1, keyboard at 1, mzoom at 1. cbn [m_input]. rewrite read_typed_pair by naive_solver.
  unfold mbind at 1, keyboard at 1, mzoom at 1. cbn [m_input]. rewrite read_typed_pair by naive_solver.
  unfold mbind at 1, save_config_file, on_file, mzoom at 1. rewrite save_config_fine by apply Henv.
  unfold mbind at 1, mzoom, create_identity, mbind.
  rewrite save_identity_fine by (apply Henv || apply Hpublic). done.
Qed.

Lemma setup_loads disk i o :
  load_config_of env args (mk_Machine (setup_disk disk) i o) = (Ok config, mk_Machine (setup_disk disk) i o).
Proof.
  unfold load_config_of, mlift, mbind, with_file. rewrite Hdir. unfold setup_disk.
  change (join_path directory (str "config.toml")) with (config_path config).
  rewrite (file_at_other _ _ _ _ _ _ i o) by apply config_identity_ne. rewrite file_at_same.
  change directory with (c_directory config) at 1. rewrite config_saved; [done|apply setup_config_ok].
Qed.

Lemma setup_unlocks disk i o :
  unlock env config private_password (mk_Machine (setup_disk disk) i o) = (Ok identity, mk_Machine (setup_disk disk) i o).
Proof.
  unfold unlock, with_file, setup_disk. rewrite file_at_same, unlock_saved; [done| |apply Hpublic|apply Henv|apply Henv].
  split_and!; [apply Henv|done|apply Hpublic].
Qed.

Lemma setup_present disk i o : regular_file (identity_path config) (mk_Machine (setup_disk disk) i o) = true.
Proof. unfold regular_file, setup_disk. by rewrite file_at_same, bool_decide_eq_true_2. Qed.

(** C18. Whatever unusable names were typed first, [setup] writes a configuration and an
    identity that belong together: [whoami] with the private password then prints the
    username and the fingerprint, and unlocking gives [accept] the public password. *)
Theorem setup_usable bad fuel disk rest out :
  Forall not_a_name bad -> (length bad < fuel)%nat ->
  let m0 := mk_Machine disk [] [] in
  let m := mk_Machine disk (setup_input (regular_file (join_path directory (str "config.toml")) m0) bad ++ rest) out in
  let m' := (command_setup env fuel args m).2 in
  (command_setup env fuel args m).1 = Ok 0 /\ m_input m' = rest /\
  forall later, command_whoami env args (mk_Machine (m_disk m') (typed private_password ++ later) []) =
    (Ok 0, mk_Machine (m_disk m') later [username; str "fingerprint " ++ fingerprint identity]) /\
  unlock env config private_password m' = (Ok identity, m').
Proof.
  intros Hb Hf m0 m m'. unfold m', m. rewrite setup_runs by done. cbn [fst snd m_input m_disk]. split_and!; [done|done|].
  intros later. split; [|apply setup_unlocks]. unfold command_whoami, mbind at 1. rewrite setup_loads.
  unfold mbind at 1, mget. rewrite setup_present. cbn [negb]. unfold mbind at 1, keyboard, mzoom. cbn [m_input].
  rewrite read_password_typed by apply Hprivate. unfold mbind at 1. cbn [m_disk m_output]. by rewrite setup_unlocks.
Qed.
End Setup.

(** * Changing a setting *)

(** Every file but one is as it was. *)
Definition only_changes (path : bytes) (m m' : Machine) : Prop := forall p, p <> path -> file_at p m' = file_at p m.

(** The machine has the configuration [c]. *)
Definition configured (env : client_env) (args : CommandLine) (c : Config) (m : Machine) : Prop :=
  resolve_config_directory env args = Ok (c_directory c) /\ config_ok (ce_home env) c /\
  load_config (ce_home env) (c_directory c) (file_at (config_path c) m) = Ok c.

(** The outcome of a command that ends by saving a configuration. *)
Definition reconfigured (env : client_env) (args : CommandLine) (c : Config) (m : Machine) (o : result Z * Machine) : Prop :=
  only_changes (config_path c) m o.2 /\
  match o.1 with
  | Ok code => code = 0 /\ configured env args c o.2
  | Err e => is_dz_error e = true /\ df_file (file_at (config_path c) o.2) = df_file (file_at (config_path c) m)
  end.

Lemma on_file_spec {A} path (f : M disk_file A) m r m' :
  on_file path f m = (r, m') ->
  f (file_at path m) = (r, file_at path m') /\ only_changes path m m' /\ m_input m' = m_input m /\ m_output m' = m_output m.
Proof.
  unfold on_file, mzoom. destruct (f (file_at path m)) as [r0 d]. intros [= <- <-]. rewrite file_at_same. split_and!; try done.
  intros p Hp. destruct m as [disk i o]. by apply (file_at_other _ _ _ _ _ _ i o).
Qed.

Section Settings.
Context (env : client_env) (args : CommandLine) (c : Config).

Lemma configured_loads m : configured env args c m -> load_config_of env args m = (Ok c, m).
Proof. intros (Hd & _ & Hl). unfold load_config_of, mlift, mbind, with_file. rewrite Hd. unfold config_path in Hl. by rewrite Hl. Qed.

Lemma saved_config c' m :
  resolve_config_directory env args = Ok (c_directory c') -> config_ok (ce_home env) c' ->
  reconfigured env args c' m ((do* save_config_file env c' in mret 0) m).
Proof.
  intros Hd Hc. unfold mbind. destruct (save_config_file env c' m) as [r m'] eqn:E.
  apply on_file_spec in E as (Es & Ho & _). eapply save_config_spec in Es; [|done]. destruct r as [[]|e]; [|done].
  split; [done|]. split; [done|]. split_and!; [done|done|]. unfold mret. cbn [snd]. rewrite Es. by apply config_saved.
Qed.

Lemma set_server_spec m :
  configured env args c m -> server_host args <> [] -> 10 ∉ server_host args -> 0 <= server_port args <= 65535 ->
  reconfigured env args
    (set_server_port (if server_port args =? 0 then kDefaultServerPort else server_port args) (set_server_host (server_host args) c))
    m (command_set_server env args m).
Proof.
  intros Hc Hh Hn Hp. unfold command_set_server, mbind at 1. rewrite configured_loads by done. destruct Hc as (Hd & Hok & _).
  replace (if negb (server_port args =? 0) then server_port args else kDefaultServerPort)
    with (if server_port args =? 0 then kDefaultServerPort else server_port args) by (by destruct (_ =? 0)).
  apply saved_config; [done|]. destruct Hok. split; try done. cbn. destruct (Z.eqb_spec (server_port args) 0); [done|lia].
Qed.

(** What [resolve_configured_output_directory] gives is kept as it is. *)
Lemma output_directory_kept requested directory :
  10 ∉ requested -> (forall h, ce_home env = Some h -> 10 ∉ h) ->
  (forall cwd, ce_getcwd env = inl cwd -> head cwd = Some slash /\ 10 ∉ cwd) ->
  resolve_configured_output_directory env requested = Ok directory ->
  10 ∉ directory /\ expand_user_path (ce_home env) directory = directory.
Proof.
  intros Hr Hh Hcwd. unfold resolve_configured_output_directory.
  assert (10 ∉ expand_user_path (ce_home env) requested) as Hp.
  { unfold expand_user_path. destruct (_ || _); [done|]. destruct (ce_home env) as [h|]; [|done]. destruct (_ =? 0); [done|].
    rewrite elem_of_app. intros [Hi|Hi]; [by apply (Hh h)|]. apply Hr. by eapply zdrop_elem. }
  assert (forall d, head d = Some slash -> expand_user_path (ce_home env) d = d) as Habs.
  { intros [|x d]; [done|]. intros [= ->]. unfold expand_user_path. rewrite bool_decide_eq_false_2 by (by destruct d). by rewrite orb_true_r. }
  set (path := expand_user_path (ce_home env) requested) in *. destruct (_ || _ || _) eqn:E; [intros [= <-]; split; [by apply not_elem_of_nil|done]|].
  apply orb_false_iff in E as [[Hne%empty_false _]%orb_false_iff _].
  case_bool_decide as Hs; [intros [= <-]; split; [done|by apply Habs]|]. unfold current_directory.
  destruct (ce_getcwd env) as [cwd|e]; [|done]. destruct (Hcwd _ eq_refl) as [Hhead Hnl]. intros [= <-]. unfold join_path.
  destruct (Z.eqb_spec (len cwd) 0) as [->%len_zero_nil|_]; [done|]. destruct (Z.eqb_spec (len path) 0) as [?%len_zero_nil|_]; [done|].
  rewrite bool_decide_eq_false_2 by done. split.
  - rewrite elem_of_app. intros [Hi|]; [|done]. destruct (bool_decide _); [done|]. apply elem_of_app in Hi as [|Hi]; [done|].
    by apply list_elem_of_singleton in Hi.
  - apply Habs. destruct cwd as [|x cwd]; [done|]. by destruct (bool_decide _).
Qed.

Lemma set_output_spec m :
  configured env args c m -> 10 ∉ output_directory args -> (forall h, ce_home env = Some h -> 10 ∉ h) ->
  (forall cwd, ce_getcwd env = inl cwd -> head cwd = Some slash /\ 10 ∉ cwd) ->
  match resolve_configured_output_directory env (output_directory args) with
  | Ok directory => reconfigured env args (set_output_directory directory c) m (command_set_output env args m)
  | Err e => is_dz_error e = true /\ command_set_output env args m = (Err e, m)
  end.
Proof.
  intros Hc Ho Hh Hcwd. pose proof (output_directory_kept (output_directory args)) as Hk.
  unfold command_set_output, mbind, mlift. rewrite configured_loads by done. destruct Hc as (Hd & Hok & _).
  destruct (resolve_configured_output_directory _ _) as [directory|e] eqn:E.
  - destruct (Hk directory) as [Hn Hx]; try done. apply saved_config; [done|]. by destruct Hok; split.
  - split; [|done]. revert E. unfold resolve_configured_output_directory, current_directory.
    destruct (_ || _ || _); [done|]. case_bool_decide; [done|]. by destruct (ce_getcwd env); [|intros [= <-]].
Qed.
End Settings.

Section PublicPassword.
Context `{AeadLaws} `{Openssl} (env : client_env) (args : CommandLine) (c : Config).

(** The outcome of [set-public-password] for an identity that was unlocked. *)
Definition repassworded (i : Identity) (private_password public_password : bytes) (m : Machine) (o : result Z * Machine) : Prop :=
  only_changes (identity_path c) m o.2 /\
  match o.1 with
  | Ok code => code = 0 /\ (unlock env c private_password o.2).1 = Ok (mk_Identity (id_keys i) public_password)
  | Err e => is_dz_error e = true /\ df_file (file_at (identity_path c) o.2) = df_file (file_at (identity_path c) m)
  end.

Lemma set_public_password_spec i private_password public_password m rest :
  configured env args c m -> (unlock env c private_password m).1 = Ok i -> identity_ok i ->
  line_text private_password -> line_text public_password -> public_password <> [] -> bytes_ok public_password ->
  len (ce_nonce env) = kAeadNonceSize -> reads_fine (fe_read (ce_identity_io env)) ->
  m_input m = typed private_password ++ typed_pair (public_password, public_password) ++ rest ->
  repassworded i private_password public_password m (command_set_public_password env args m).
Proof.
  intros Hc Hu Hi Hp Hq Hne Hb Hn Hr Hin. unfold command_set_public_password, mbind at 1. rewrite (configured_loads env args c m Hc).
  unfold mbind at 1, keyboard at 1, mzoom at 1. rewrite Hin, read_password_typed by done.
  unfold mbind at 1. unfold unlock in Hu |- *. unfold with_file in *. cbn [fst] in Hu. unfold file_at at 1. cbn [m_disk].
  fold (file_at (identity_path c) m). rewrite Hu.
  unfold mbind at 1, keyboard, mzoom at 1. cbn [m_input m_disk m_output]. rewrite read_typed_pair by done.
  set (j := mk_Identity (id_keys i) public_password). unfold mbind, save_identity_file.
  destruct (on_file _ _ _) as [r m'] eqn:E. apply on_file_spec in E as (Es & Ho & _).
  apply save_identity_spec in Es; [|apply Hi]. destruct r as [[]|e]; [|done]. destruct Es as [Hl Hf].
  split; [exact Ho|]. cbn. split; [done|]. unfold unlock, with_file. cbn [fst]. rewrite Hf. apply unlock_saved; [|done..].
  destruct Hi as (? & ? & _). by split_and!.
Qed.
End PublicPassword.

(** The directories the process runs in are absolute and no name has a line end in it. *)
Definition plain_env (env : client_env) : Prop :=
  (forall h, ce_home env = Some h -> 10 ∉ h) /\
  (forall cwd, ce_getcwd env = inl cwd -> head cwd = Some slash /\ 10 ∉ cwd).

(** C28. [set-server] and [set-output] change the one setting they were given, for every later
    run, or fail and leave the configuration as it was; they touch no other file. A server
    without a port gets the default one, and a relative directory is kept as an absolute one. *)
Theorem settings_persist env args c m :
  configured env args c m -> wellformed args -> plain_env env -> 10 ∉ server_host args -> 10 ∉ output_directory args ->
  match command args with
  | CmdSetServer =>
      reconfigured env args
        (set_server_port (if server_port args =? 0 then kDefaultServerPort else server_port args) (set_server_host (server_host args) c))
        m (command_set_server env args m)
  | CmdSetOutput =>
      match resolve_configured_output_directory env (output_directory args) with
      | Ok directory => reconfigured env args (set_output_directory directory c) m (command_set_output env args m)
      | Err e => is_dz_error e = true /\ command_set_output env args m = (Err e, m)
      end
  | _ => True
  end.
Proof.
  intros Hc [(Hp & _) Hw] [Hh Hcwd] Hhost Hout. destruct (command args); try done.
  - destruct Hw as [Hne _]. by apply set_server_spec.
  - by apply set_output_spec.
Qed.

(** * The theorems at work *)

(** A cipher whose tag is the beginning of its key. *)
Definition keyed_tag (key : bytes) : bytes := ztake 16 (key ++ replicate 16 0).
Definition keyed_cipher : AeadCipher := {|
  cipher_seal a key nonce aad p := p ++ keyed_tag key;
  cipher_open a key nonce aad c :=
    if bool_decide (zdrop (len c - 16) c = keyed_tag key /\ 16 <= len c) then Some (ztake (len c - 16) c) else None;
|}.

Lemma keyed_tag_len key : len (keyed_tag key) = 16.
Proof.
  unfold keyed_tag. pose proof (len_nonneg key). rewrite len_ztake; [done|]. rewrite len_app. change (len (replicate 16 0)) with 16. lia.
Qed.

Lemma keyed_cipher_laws : @AeadLaws keyed_cipher.
Proof.
  split; unfold cipher_seal, cipher_open, keyed_cipher.
  - intros. by rewrite len_app, keyed_tag_len.
  - intros a key nonce aad c p. case_bool_decide as Hc; [|done]. intros [= <-].
    destruct Hc. rewrite len_ztake by lia. unfold kAeadTagSize. lia.
  - intros a key nonce aad p. rewrite len_app, keyed_tag_len.
    replace (len p + 16 - 16) with (len p) by lia. rewrite zdrop_app_len, ztake_app_len.
    rewrite bool_decide_eq_true_2; [done|]. pose proof (len_nonneg p). split; [done|lia].
  - intros a key nonce aad c p Hc. case_bool_decide; [|done]. intros [= <-]. by apply Forall_take.
Qed.

Definition sample_env (salt : Z) (identity_open : option Z) : client_env :=
  mk_client_env None None (Some (str "/home/ann")) (inl (str "/tmp")) (fun _ => None) sample_file_env
    (mk_file_env identity_open [] None None []) (replicate 16 salt) (replicate 32 salt) (replicate 12 3) true.

Definition setup_args : CommandLine := with_command CommandLine_default CmdSetup.

Definition first_answers : list in_event :=
  setup_input (str "ann") (str "secret") (str "open sesame") false [str "Ann !"].

(** A machine [setup] has run on. *)
Definition ready_machine : Machine :=
  (command_setup (H := keyed_cipher) (H0 := toy_openssl) (sample_env 1 None) 9 setup_args (mk_Machine ∅ first_answers [])).2.

Definition whoami_with (password : bytes) (m : Machine) : result Z :=
  (command_whoami (H := keyed_cipher) (H0 := toy_openssl) (sample_env 1 None) setup_args (mk_Machine (m_disk m) (typed password) [])).1.

(** Replacing a configuration, with no room left for the new identity. *)
Definition second_setup : result Z * Machine :=
  command_setup (H := keyed_cipher) (H0 := toy_openssl) (sample_env 2 (Some 28)) 9 setup_args
    (mk_Machine (m_disk ready_machine) (setup_input (str "ann") (str "secret") (str "open sesame") true []) []).

(** [setup] replaces the configuration, and with it the salt of the keystore, before it
    writes the new identity: when the second write fails, the old identity is still there
    and its password no longer unlocks it. *)
Theorem failed_setup_locks_out :
  whoami_with (str "secret") ready_machine = Ok 0 /\
  second_setup.1 = Err (SysError (str "cannot create '/home/ann/.config/drop-zone/identity.key.tmp'") 28) /\
  df_file (file_at (str "/home/ann/.config/drop-zone/identity.key") second_setup.2) =
    df_file (file_at (str "/home/ann/.config/drop-zone/identity.key") ready_machine) /\
  whoami_with (str "secret") second_setup.2 = Err (UserError (str "that private password does not unlock this identity")).
Proof. split_and!; vm_compute; reflexivity. Qed.

Lemma sample_env_fine : env_fine (sample_env 1 None).
Proof. split; try done; try (split; try done; by repeat constructor). Qed.

Lemma setup_usable_witness :
  (command_setup (H := keyed_cipher) (H0 := toy_openssl) (sample_env 1 None) 9 setup_args (mk_Machine ∅ (first_answers ++ [InByte 9]) [])).1 = Ok 0.
Proof.
  refine (proj1 (setup_usable (H0 := keyed_cipher_laws) (H1 := toy_openssl) (sample_env 1 None) setup_args (str "/home/ann/.config/drop-zone")
    (str "ann") (str "secret") (str "open sesame") sample_env_fine eq_refl _ _ eq_refl _ _ [str "Ann !"] 9 ∅ [InByte 9] [] _ _)).
  - by apply not_elem_of_nil.
  - done.
  - split; [apply (bool_decide_unpack _); vm_compute; exact I|done].
  - split_and!; [apply (bool_decide_unpack _); vm_compute; exact I|done|apply (bool_decide_unpack _); vm_compute; exact I|done].
  - constructor; [|constructor]. split; [apply (bool_decide_unpack _); vm_compute; exact I|by vm_compute].
  - cbn. lia.
Defined.

Definition set_output_args : CommandLine := with_output (with_inputs (with_command CommandLine_default CmdSetOutput) [str "in"]) (str "in").

Definition sample_machine : Machine :=
  mk_Machine {[ str "/home/ann/.config/drop-zone/config.toml" := mk_disk_file (Some (print_config sample_config)) None ]} [] [].

Lemma sample_configured : configured (sample_env 1 None) set_output_args sample_config sample_machine.
Proof.
  split_and!; [by vm_compute| |by vm_compute]. split; [done|split; [done|by apply not_in_check]|done|split; [by apply not_in_check|done]|].
  split; [done|]. by repeat constructor.
Qed.

Lemma settings_persist_witness :
  reconfigured (sample_env 1 None) set_output_args (set_output_directory (str "/tmp/in") sample_config) sample_machine
    (command_set_output (sample_env 1 None) set_output_args sample_machine).
Proof.
  refine (settings_persist (sample_env 1 None) set_output_args sample_config sample_machine sample_configured _ _ _ _).
  - by vm_compute.
  - split; [intros h [= <-]; by apply not_in_check|]. intros cwd [= <-]. split; [done|by apply not_in_check].
  - by apply not_elem_of_nil.
  - by apply not_in_check.
Defined.
