(* ===== verification/Handshake.v ===== *)
(** Getting introduced and agreeing keys, [client/src/rendezvous.cpp].

    [Peer] is one client: its control connection, its record of known peers and the
    readings of its clock still to come. The results of the successive [wait_readable]
    calls are an argument of the loop that makes them. *)

From S2P Require Import Prelude Endian Socket Frame Protocol Paths Messages Channel Text KnownPeers.
From S2P Require Import Config Crypto Identity.

Definition kKeepAliveIntervalMs : Z := 25000.

Definition kInfoDataKeySenderToReceiver : bytes := str "drop-zone/v1 data sender->receiver".
Definition kInfoDataKeyReceiverToSender : bytes := str "drop-zone/v1 data receiver->sender".
Definition kInfoNoncePrefixSenderToReceiver : bytes := str "drop-zone/v1 nonce sender->receiver".
Definition kInfoNoncePrefixReceiverToSender : bytes := str "drop-zone/v1 nonce receiver->sender".
Definition kInfoTransportHandshake : bytes := str "drop-zone/v1 transport handshake".
Definition kMacContextSenderProof : bytes := str "drop-zone/v1 sender proof".
Definition kMacContextReceiverProof : bytes := str "drop-zone/v1 receiver proof".
Definition kMacContextGroupSenderProof : bytes := str "drop-zone/v1 group sender proof".
Definition kMacContextGroupReceiverProof : bytes := str "drop-zone/v1 group receiver proof".
Definition kSignContextTranscript : bytes := str "drop-zone/v1 transcript signature".

(** * What the proofs cover *)

Definition append_field (out data : bytes) : bytes := out ++ store_u32 (u32 (len data)) ++ data.

Definition sender_proof_input (sender_username receiver_username sender_session_key sender_identity_key
    group_name : bytes) : bytes :=
  let input := if len group_name =? 0 then append_field [] kMacContextSenderProof
               else append_field (append_field [] kMacContextGroupSenderProof) group_name in
  let input := append_field input sender_username in
  let input := append_field input receiver_username in
  let input := append_field input sender_session_key in
  append_field input sender_identity_key.

Definition receiver_proof_input (sender_username receiver_username sender_session_key sender_identity_key
    receiver_session_key receiver_identity_key group_name : bytes) : bytes :=
  let input := if len group_name =? 0 then append_field [] kMacContextReceiverProof
               else append_field (append_field [] kMacContextGroupReceiverProof) group_name in
  let input := append_field input sender_username in
  let input := append_field input receiver_username in
  let input := append_field input sender_session_key in
  let input := append_field input sender_identity_key in
  let input := append_field input receiver_session_key in
  append_field input receiver_identity_key.

Definition transcript_input (sender_username receiver_username sender_session_key sender_identity_key
    receiver_session_key receiver_identity_key sender_proof receiver_proof : bytes) : bytes :=
  let input := append_field [] kSignContextTranscript in
  let input := append_field input sender_username in
  let input := append_field input receiver_username in
  let input := append_field input sender_session_key in
  let input := append_field input sender_identity_key in
  let input := append_field input receiver_session_key in
  let input := append_field input receiver_identity_key in
  let input := append_field input sender_proof in
  append_field input receiver_proof.

Section Keys.
Context `{Openssl}.

Definition transcript_hash (su ru ssk sik rsk rik sp rp : bytes) : bytes :=
  sha256 (transcript_input su ru ssk sik rsk rik sp rp).

Definition derive_session_keys (prefers_aes : bool) (shared transcript : bytes) (is_sender : bool) : SessionKeys :=
  let sender_to_receiver := hkdf_sha256 shared transcript kInfoDataKeySenderToReceiver kAeadKeySize in
  let receiver_to_sender := hkdf_sha256 shared transcript kInfoDataKeyReceiverToSender kAeadKeySize in
  let sender_prefix := hkdf_sha256 shared transcript kInfoNoncePrefixSenderToReceiver 4 in
  let receiver_prefix := hkdf_sha256 shared transcript kInfoNoncePrefixReceiverToSender 4 in
  let offer := hkdf_sha256 shared transcript kInfoOfferKey kAeadKeySize in
  let handshake := hkdf_sha256 shared transcript kInfoTransportHandshake kAeadKeySize in
  if is_sender then
    mk_SessionKeys sender_to_receiver receiver_to_sender sender_prefix receiver_prefix offer handshake
      (preferred_aead prefers_aes)
  else
    mk_SessionKeys receiver_to_sender sender_to_receiver receiver_prefix sender_prefix offer handshake
      (preferred_aead prefers_aes).
End Keys.

(** * The control connection *)

Record LocalSockets := mk_LocalSockets {
  ls_port : Z;
  ls_local_candidates : list Endpoint;
  ls_reflexive_udp : Endpoint;
  ls_reflexive_known : bool;
}.

(** [catch (const Error&)]. *)
Definition mcatch {S A} (m handler : M S A) : M S A := fun s =>
  match m s with
  | (Err e, s') => if is_dz_error e then handler s' else (Err e, s')
  | ok => ok
  end.

Definition say_hello (role : ClientRole) (username : bytes) (identity : Identity) (session_key : bytes)
    (sockets : LocalSockets) : M ksock ServerHello :=
  let hello := mk_ClientHello role username (ed_public_key (id_keys identity)) session_key
    (ls_port sockets) (ls_port sockets)
    (ls_local_candidates sockets ++ if ls_reflexive_known sockets then [ls_reflexive_udp sockets] else []) in
  do* write_frame ClientHelloT (ClientHello_encode hello) 0 in
  let* frame := read_expected ServerHelloT in
  let* reply := mlift (ServerHello_decode (payload frame)) in
  if negb (sh_claim_accepted reply) then
    fail_user (if len (sh_message reply) =? 0 then str "the server refused this username" else sh_message reply)
  else mret reply.

Definition keep_alive : M ksock unit := write_frame KeepAliveT [] 0.

Definition say_goodbye : M ksock unit := mcatch (write_frame ByeT [] 0) (mret tt).

Definition no_groups {A} : M ksock A := fail_user (str "this rendezvous server does not support groups").

Definition query_group (name : bytes) : M ksock GroupStatus :=
  mcatch
    (do* write_frame GroupQueryT (GroupQuery_encode (mk_GroupQuery name)) 0 in
     let* frame := read_expected GroupStatusT in
     mlift (GroupStatus_decode (payload frame)))
    no_groups.

Definition join_group `{Openssl} (name password_key : bytes) : M ksock GroupResult :=
  let join := mk_GroupJoin name (derive_group_verifier password_key name) in
  mcatch
    (do* write_frame GroupJoinT (GroupJoin_encode join) 0 in
     let* frame := read_expected GroupResultT in
     mlift (GroupResult_decode (payload frame)))
    no_groups.

Definition request_group_roster (name : bytes) : M ksock GroupRoster :=
  mcatch
    (do* write_frame GroupSendRequestT (GroupSendRequest_encode (mk_GroupSendRequest name)) 0 in
     let* frame := read_expected GroupRosterT in
     mlift (GroupRoster_decode (payload frame)))
    no_groups.

(** * Introductions *)

Record Introduction := mk_Introduction {
  in_peer_username : bytes;
  in_peer_identity_key : bytes;
  in_peer_candidates : list Endpoint;
  in_pairing_id : Z;
  in_transport_hint : TransportKind;
  in_keys : SessionKeys;
}.

Record Peer := mk_Peer {
  control : ksock;
  known : KnownPeers;
  millis : list Z;
}.

Definition on_stream {A} (m : M ksock A) : M Peer A :=
  mzoom control (fun k p => mk_Peer k (known p) (millis p)) m.
Definition on_known {A} (m : M KnownPeers A) : M Peer A :=
  mzoom known (fun k p => mk_Peer (control p) k (millis p)) m.

Definition monotonic_millis : M Peer Z := fun p =>
  match millis p with
  | [] => (Err Blocks, p)
  | t :: ts => (Ok t, mk_Peer (control p) (known p) ts)
  end.

(** Who one end is: [config.username], its identity and the session's key pair. *)
Record Party := mk_Party {
  pa_username : bytes;
  pa_identity : Identity;
  pa_session : X25519KeyPair;
}.

Definition identity_key (p : Party) : bytes := ed_public_key (id_keys (pa_identity p)).
Definition identity_secret (p : Party) : bytes := ed_secret (id_keys (pa_identity p)).
Definition session_key (p : Party) : bytes := x_public_key (pa_session p).

Section Introductions.
Context `{Openssl} (penv : peers_env) (prefers_aes : bool) (self : Party).

(** The request of [request_introduction]. *)
Definition build_request (target_username password_key : bytes) (transport_hint : TransportKind) (group_name : bytes)
  : SendRequest :=
  let proof_input := sender_proof_input (pa_username self) target_username (session_key self) (identity_key self) group_name in
  mk_SendRequest target_username (hmac_sha256 password_key proof_input) (ed25519_sign (identity_secret self) proof_input)
    transport_hint group_name.

Definition request_introduction (target_username public_password : bytes) (transport_hint : TransportKind)
    (group_name : bytes) : M Peer Introduction :=
  let password_salt := if len group_name =? 0 then target_username else group_name in
  let password_key := derive_public_password_key public_password password_salt in
  let request := build_request target_username password_key transport_hint group_name in
  do* on_stream (write_frame SendRequestT (SendRequest_encode request) 0) in
  let* frame := on_stream (read_expected MatchedT) in
  let* peer := mlift (PeerIntroduction_decode (payload frame)) in
  if negb (bool_decide (pi_username peer = target_username)) then
    fail (str "the server introduced us to '" ++ pi_username peer ++ str "' instead of '" ++ target_username ++ str "'")
  else
  let expected_input := receiver_proof_input (pa_username self) target_username (session_key self) (identity_key self)
    (pi_session_key peer) (pi_identity_key peer) group_name in
  let expected_proof := hmac_sha256 password_key expected_input in
  if negb (bool_decide (pi_proof peer = expected_proof)) then
    fail_user (str "the reply from '" ++ target_username ++ str "' did not match the public password." ++ [10] ++
      str "Either the password is wrong, or something between you altered the introduction.")
  else if negb (ed25519_verify (pi_identity_key peer) expected_input (pi_signature peer)) then
    fail_user (str "'" ++ target_username ++ str "' could not prove it holds the identity key it presented")
  else
  do* on_known (enforce_pinning penv sha256 target_username (pi_identity_key peer)) in
  let* shared := mlift (x25519_shared (x_secret (pa_session self)) (pi_session_key peer)) in
  let transcript := transcript_hash (pa_username self) target_username (session_key self) (identity_key self)
    (pi_session_key peer) (pi_identity_key peer) (sr_proof request) (pi_proof peer) in
  mret (mk_Introduction (pi_username peer) (pi_identity_key peer) (pi_candidates peer) (pi_pairing_id peer)
          (pi_transport_hint peer) (derive_session_keys prefers_aes shared transcript true)).

(** The answer of [await_introduction]. *)
Definition build_reply (peer : PeerIntroduction) (password_key : bytes) (own_transport_hint : TransportKind)
  : PeerIntroduction :=
  let reply_input := receiver_proof_input (pi_username peer) (pa_username self) (pi_session_key peer) (pi_identity_key peer)
    (session_key self) (identity_key self) (pi_group_name peer) in
  mk_PeerIntroduction (pa_username self) (identity_key self) (session_key self) []
    (hmac_sha256 password_key reply_input) (ed25519_sign (identity_secret self) reply_input) (pi_pairing_id peer)
    (match pi_transport_hint peer with NoTransport => own_transport_hint | k => k end) (pi_group_name peer).

Definition reject (reason : string) : M Peer (option Introduction) :=
  do* on_stream (write_frame RejectT (str reason) 0) in mret None.

(** The password key an introduction is checked under, [None] for a group not joined. *)
Definition password_key_for (personal_password_key : bytes) (group_password_key : option bytes) (joined_group : bytes)
    (peer : PeerIntroduction) : option bytes :=
  if negb (len (pi_group_name peer) =? 0) then
    match group_password_key with
    | Some key => if bool_decide (pi_group_name peer = joined_group) then Some key else None
    | None => None
    end
  else Some personal_password_key.

(** One [Incoming] frame of the loop; [None] goes round again. *)
Definition answer_introduction (personal_password_key : bytes) (group_password_key : option bytes) (joined_group : bytes)
    (own_transport_hint : TransportKind) (peer : PeerIntroduction) : M Peer (option Introduction) :=
  match password_key_for personal_password_key group_password_key joined_group peer with
  | None => reject "not a member of that group"
  | Some password_key =>
      let sender_input := sender_proof_input (pi_username peer) (pa_username self) (pi_session_key peer)
        (pi_identity_key peer) (pi_group_name peer) in
      if negb (bool_decide (pi_proof peer = hmac_sha256 password_key sender_input)) then reject "wrong public password"
      else if negb (ed25519_verify (pi_identity_key peer) sender_input (pi_signature peer)) then
        reject "the sender could not prove its identity"
      else
      do* on_known (enforce_pinning penv sha256 (pi_username peer) (pi_identity_key peer)) in
      let reply := build_reply peer password_key own_transport_hint in
      do* on_stream (write_frame AcceptT (PeerIntroduction_encode reply) 0) in
      let* shared := mlift (x25519_shared (x_secret (pa_session self)) (pi_session_key peer)) in
      let transcript := transcript_hash (pi_username peer) (pa_username self) (pi_session_key peer) (pi_identity_key peer)
        (session_key self) (identity_key self) (pi_proof peer) (pi_proof reply) in
      mret (Some (mk_Introduction (pi_username peer) (pi_identity_key peer) (pi_candidates peer) (pi_pairing_id peer)
                    (pi_transport_hint reply) (derive_session_keys prefers_aes shared transcript false)))
  end.

(** The loop; [waits] are the results of [wait_readable]. *)
Fixpoint await_loop (personal_password_key : bytes) (group_password_key : option bytes) (joined_group : bytes)
    (own_transport_hint : TransportKind) (deadline next_keep_alive : Z) (waits : list bool)
  : M Peer (option Introduction) :=
  let* late := (if deadline =? 0 then mret false else let* now := monotonic_millis in mret (deadline <=? now)) in
  if late then mret None
  else match waits with
       | [] => mthrow Blocks
       | false :: waits =>
           let* now := monotonic_millis in
           if next_keep_alive <=? now then
             do* on_stream keep_alive in
             let* now := monotonic_millis in
             await_loop personal_password_key group_password_key joined_group own_transport_hint deadline
               (u64 (now + kKeepAliveIntervalMs)) waits
           else
             await_loop personal_password_key group_password_key joined_group own_transport_hint deadline next_keep_alive waits
       | true :: waits =>
           let* frame := on_stream read_frame in
           let t := type (header frame) in
           if bool_decide (t = KeepAliveT) then
             await_loop personal_password_key group_password_key joined_group own_transport_hint deadline next_keep_alive waits
           else if bool_decide (t = RejectT) || bool_decide (t = RelayCloseT) then
             fail_user (str "the server closed this session: " ++
               (if len (payload frame) =? 0 then str "no reason given" else payload frame))
           else if negb (bool_decide (t = IncomingT)) then
             fail (str "the server sent an unexpected " ++ message_type_name t ++ str " frame while waiting for a sender")
           else
             let* peer := mlift (PeerIntroduction_decode (payload frame)) in
             let* done_ := answer_introduction personal_password_key group_password_key joined_group own_transport_hint peer in
             match done_ with
             | Some i => mret (Some i)
             | None =>
                 await_loop personal_password_key group_password_key joined_group own_transport_hint deadline next_keep_alive waits
             end
       end.

(** [None] is [false], the timeout. *)
Definition await_introduction (personal_password_key : bytes) (group_password_key : option bytes) (joined_group : bytes)
    (own_transport_hint : TransportKind) (timeout_ms : Z) (waits : list bool) : M Peer (option Introduction) :=
  let* deadline := (if timeout_ms =? 0 then mret 0 else let* now := monotonic_millis in mret (u64 (now + timeout_ms))) in
  let* now := monotonic_millis in
  await_loop personal_password_key group_password_key joined_group own_transport_hint deadline
    (u64 (now + kKeepAliveIntervalMs)) waits.
End Introductions.

(** * The inputs of the proofs say what they are about *)

Lemma append_field_fields fs b : append_field (mjoin (field <$> fs)) b = mjoin (field <$> fs ++ [b]).
Proof. unfold append_field. rewrite fmap_app, join_app. cbn. unfold field. by rewrite app_nil_r. Qed.

Lemma field_inj a b x y : short a -> short b -> field a ++ x = field b ++ y -> a = b /\ x = y.
Proof.
  unfold field, short. intros Ha Hb E. rewrite <- !app_assoc in E. pose proof (len_nonneg a). pose proof (len_nonneg b).
  assert (len a = len b) as Hl.
  { apply (f_equal load_u32) in E. rewrite !load_store_u32 in E by apply u32_range.
    rewrite !u32_small in E by (unfold is_u; lia). congruence. }
  rewrite Hl in E. apply app_inv_head in E. apply app_inj_1 in E; [done|]. unfold len in Hl. lia.
Qed.

Lemma fields_inj fs gs : Forall short fs -> Forall short gs -> mjoin (field <$> fs) = mjoin (field <$> gs) -> fs = gs.
Proof.
  intros Hf. revert gs. induction Hf as [|f fs Hf _ IH]; intros gs Hg E.
  - destruct Hg as [|g gs]; [done|]. rewrite mjoin_fmap_cons in E. apply (f_equal len) in E. rewrite len_app, field_len in E.
    pose proof (len_nonneg g). pose proof (len_nonneg (mjoin (field <$> gs))). change (mjoin (field <$> [])) with (@nil Z) in E.
    rewrite len_nil in E. lia.
  - destruct Hg as [|g gs Hg Hgs].
    + rewrite mjoin_fmap_cons in E. apply (f_equal len) in E. rewrite len_app, field_len in E.
      pose proof (len_nonneg f). pose proof (len_nonneg (mjoin (field <$> fs))). change (mjoin (field <$> [])) with (@nil Z) in E.
      rewrite len_nil in E. lia.
    + rewrite !mjoin_fmap_cons in E. apply field_inj in E as [-> E]; [|done|done]. f_equal. by apply IH.
Qed.

(** What a proof is about: a context, the group if there is one, the names and the keys. *)
Definition sender_fields (su ru ssk sik g : bytes) : list bytes :=
  (if len g =? 0 then [kMacContextSenderProof] else [kMacContextGroupSenderProof; g]) ++ [su; ru; ssk; sik].
Definition receiver_fields (su ru ssk sik rsk rik g : bytes) : list bytes :=
  (if len g =? 0 then [kMacContextReceiverProof] else [kMacContextGroupReceiverProof; g]) ++ [su; ru; ssk; sik; rsk; rik].

Lemma first_field b : append_field [] b = mjoin (field <$> [b]).
Proof. apply (append_field_fields [] b). Qed.

Lemma sender_input_fields su ru ssk sik g : sender_proof_input su ru ssk sik g = mjoin (field <$> sender_fields su ru ssk sik g).
Proof.
  unfold sender_proof_input, sender_fields. rewrite !first_field.
  destruct (len g =? 0); rewrite !append_field_fields, <- !app_assoc; done.
Qed.

Lemma receiver_input_fields su ru ssk sik rsk rik g :
  receiver_proof_input su ru ssk sik rsk rik g = mjoin (field <$> receiver_fields su ru ssk sik rsk rik g).
Proof.
  unfold receiver_proof_input, receiver_fields. rewrite !first_field.
  destruct (len g =? 0); rewrite !append_field_fields, <- !app_assoc; done.
Qed.

Lemma sender_fields_short su ru ssk sik g :
  short su -> short ru -> short ssk -> short sik -> short g -> Forall short (sender_fields su ru ssk sik g).
Proof. intros. unfold sender_fields. destruct (_ =? _); by repeat constructor. Qed.

Lemma receiver_fields_short su ru ssk sik rsk rik g :
  short su -> short ru -> short ssk -> short sik -> short rsk -> short rik -> short g ->
  Forall short (receiver_fields su ru ssk sik rsk rik g).
Proof. intros. unfold receiver_fields. destruct (_ =? _); by repeat constructor. Qed.

(** What a proof covers can be read back from it, in particular whose it is and over
    which keys: two senders' inputs are equal only if every name, key and group in them
    is, and so are two receivers'; no sender's input is a receiver's, and neither is the
    input of a group's verifier, which the server keeps. *)
Theorem proof_inputs_separate su ru ssk sik rsk rik g su' ru' ssk' sik' rsk' rik' g' name :
  Forall short [su; ru; ssk; sik; rsk; rik; g] -> Forall short [su'; ru'; ssk'; sik'; rsk'; rik'; g'] ->
  (sender_proof_input su ru ssk sik g = sender_proof_input su' ru' ssk' sik' g' ->
   [su; ru; ssk; sik; g] = [su'; ru'; ssk'; sik'; g']) /\
  (receiver_proof_input su ru ssk sik rsk rik g = receiver_proof_input su' ru' ssk' sik' rsk' rik' g' ->
   [su; ru; ssk; sik; rsk; rik; g] = [su'; ru'; ssk'; sik'; rsk'; rik'; g']) /\
  sender_proof_input su ru ssk sik g <> receiver_proof_input su' ru' ssk' sik' rsk' rik' g' /\
  let verifier_input := kMacContextGroupVerifier ++ str "/" ++ name in
  verifier_input <> sender_proof_input su ru ssk sik g /\ verifier_input <> receiver_proof_input su ru ssk sik rsk rik g.
Proof.
  rewrite !Forall_cons. intros (? & ? & ? & ? & ? & ? & ? & _) (? & ? & ? & ? & ? & ? & ? & _).
  rewrite !sender_input_fields, !receiver_input_fields. split_and!.
  - intros E%fields_inj; [|by apply sender_fields_short..]. unfold sender_fields in E.
    destruct (Z.eqb_spec (len g) 0) as [G%len_zero_nil|_], (Z.eqb_spec (len g') 0) as [G'%len_zero_nil|_]; cbn in E; congruence.
  - intros E%fields_inj; [|by apply receiver_fields_short..]. unfold receiver_fields in E.
    destruct (Z.eqb_spec (len g) 0) as [G%len_zero_nil|_], (Z.eqb_spec (len g') 0) as [G'%len_zero_nil|_]; cbn in E; congruence.
  - intros E%fields_inj; [|by apply sender_fields_short|by apply receiver_fields_short].
    unfold sender_fields, receiver_fields in E. by destruct (len g =? 0), (len g' =? 0).
  - intros v. split; intros E%(f_equal head); unfold sender_fields, receiver_fields in E; by destruct (len g =? 0).
Qed.

(** * Under any server

    [peer_out K Q o]: the outcome [o] left a control connection that still carries bytes,
    a record of peers satisfying [K], and a value satisfying [Q] or an exception of the
    program. *)

Definition peer_out {A} (K : KnownPeers -> Prop) (Q : A -> Peer -> Prop) (o : result A * Peer) : Prop :=
  rx_ok (rx (control o.2)) /\ K (known o.2) /\ match o.1 with Ok a => Q a o.2 | Err e => e <> OutOfBounds end.

Section PeerOut.
Context {A B : Type} (K : KnownPeers -> Prop).

Lemma peer_bind (Q : A -> Peer -> Prop) (Q' : B -> Peer -> Prop) m k p :
  peer_out K Q (m p) ->
  (forall a p', rx_ok (rx (control p')) -> K (known p') -> Q a p' -> peer_out K Q' (k a p')) ->
  peer_out K Q' (mbind m k p).
Proof.
  intros (H1 & H2 & H3) Hk. unfold mbind. destruct (m p) as [[a|e] p']; [by apply Hk|]. by split_and!.
Qed.

Lemma peer_lift (Q : A -> Peer -> Prop) r p :
  rx_ok (rx (control p)) -> K (known p) -> match r with Ok a => Q a p | Err e => e <> OutOfBounds end ->
  peer_out K Q (mlift r p).
Proof. done. Qed.

Lemma peer_stream (P : A -> Prop) (m : M ksock A) p :
  K (known p) -> any_outcome (fun s => rx_ok (rx s)) P (control p) (m (control p)) ->
  peer_out K (fun a p' => P a /\ known p' = known p) (on_stream m p).
Proof.
  intros Hk (H1 & _ & H3). unfold on_stream, mzoom. destruct (m (control p)) as [r s']. split_and!; [done..|].
  cbn in *. destruct r; naive_solver.
Qed.

Lemma peer_weaken (Q Q' : A -> Peer -> Prop) o : peer_out K Q o -> (forall a p, Q a p -> Q' a p) -> peer_out K Q' o.
Proof. intros (H1 & H2 & H3) HQ. split_and!; [done..|]. destruct o as [[]]; naive_solver. Qed.
End PeerOut.

Lemma read_frame_any s :
  rx_ok (rx s) -> any_outcome (fun s => rx_ok (rx s)) (fun f => bytes_ok (payload f)) s (read_frame s).
Proof.
  intros Hs. pose proof (channel_read_frame_any s Hs) as (H1 & H2 & H3).
  change (channel_read_frame s) with (read_frame s) in *. split_and!; [done..|]. destruct (read_frame s) as [[]]; naive_solver.
Qed.

Lemma read_expected_any t s :
  rx_ok (rx s) -> any_outcome (fun s => rx_ok (rx s)) (fun f => bytes_ok (payload f)) s (read_expected t s).
Proof.
  intros Hs. unfold read_expected. eapply any_bind; [by apply read_frame_any|]. intros f s' Hf Hs' _.
  destruct (bool_decide _); [done|]. by destruct (_ || _).
Qed.

Lemma decode_introduction_any b :
  bytes_ok b ->
  match PeerIntroduction_decode b with
  | Ok i => PeerIntroduction_ok i
  | Err e => e <> OutOfBounds
  end.
Proof.
  intros Hb. pose proof (wm_sound (A := PeerIntroduction) b Hb) as H. cbn in H.
  destruct (PeerIntroduction_decode b); [apply H|]. by intros ->.
Qed.

Section Sound.
Context `{Openssl} (penv : peers_env) (prefers_aes : bool) (self : Party).

Lemma peer_pin (K : KnownPeers -> Prop) u key p :
  rx_ok (rx (control p)) -> (forall k, K k) ->
  peer_out K (fun _ p' => kp_identity_key <$> find u (peers_ (known p')) = Some key /\ control p' = control p /\
      forall old, find u (peers_ (known p)) = Some old -> kp_identity_key old = key)
    (on_known (enforce_pinning penv sha256 u key) p).
Proof.
  intros Hrx HK. unfold on_known, mzoom. destruct (enforce_pinning _ _ _ _ _) as [r k'] eqn:E.
  apply enforce_pinning_spec in E. split_and!; [done|apply HK|]. cbn. destruct r; [naive_solver|]. by intros ->.
Qed.

Lemma x25519_shared_any a b :
  match x25519_shared a b with Ok k => x25519_derive a b = Some k | Err e => e <> OutOfBounds end.
Proof. unfold x25519_shared. by destruct (x25519_derive a b). Qed.

(** The key [u] had in a record, if any, is [key]. *)
Definition unchanged (u key : bytes) (k : KnownPeers) : Prop :=
  forall old, find u (peers_ k) = Some old -> kp_identity_key old = key.

(** What a sender knows of a receiver it was introduced to. *)
Definition authentic_receiver (target password group : bytes) (hint : TransportKind) (p p' : Peer) (i : Introduction) : Prop :=
  let password_key := derive_public_password_key password (if len group =? 0 then target else group) in
  exists peer shared,
    let input := receiver_proof_input (pa_username self) target (session_key self) (identity_key self)
      (pi_session_key peer) (pi_identity_key peer) group in
    pi_username peer = target /\
    pi_proof peer = hmac_sha256 password_key input /\
    ed25519_verify (pi_identity_key peer) input (pi_signature peer) = true /\
    unchanged target (pi_identity_key peer) (known p) /\
    kp_identity_key <$> find target (peers_ (known p')) = Some (pi_identity_key peer) /\
    x25519_derive (x_secret (pa_session self)) (pi_session_key peer) = Some shared /\
    i = mk_Introduction target (pi_identity_key peer) (pi_candidates peer) (pi_pairing_id peer) (pi_transport_hint peer)
      (derive_session_keys prefers_aes shared
        (transcript_hash (pa_username self) target (session_key self) (identity_key self) (pi_session_key peer)
           (pi_identity_key peer) (sr_proof (build_request self target password_key hint group)) (pi_proof peer)) true).

Lemma request_any target password hint group p :
  rx_ok (rx (control p)) ->
  peer_out (fun _ => True) (fun i p' => authentic_receiver target password group hint p p' i)
    (request_introduction penv prefers_aes self target password hint group p).
Proof.
  intros Hp. unfold request_introduction, authentic_receiver. set (key := derive_public_password_key _ _).
  eapply peer_bind; [apply peer_stream; [done|by apply write_frame_any]|]. intros [] p1 H1 _ [_ K1].
  eapply peer_bind; [apply peer_stream; [done|by apply read_expected_any]|]. intros f p2 H2 _ [Hf K2].
  eapply (peer_bind _ (fun i p' => p' = p2)).
  { apply peer_lift; [done..|]. pose proof (decode_introduction_any (payload f) Hf). by destruct (PeerIntroduction_decode _). }
  intros peer ? _ _ ->. case_bool_decide as Hu; cbn [negb]; [|done]. case_bool_decide as Hm; cbn [negb]; [|done].
  destruct (ed25519_verify _ _ _) eqn:Hv; cbn [negb]; [|done].
  eapply peer_bind; [by apply peer_pin|]. intros [] p3 H3 _ (Hpin & Hc & Hold).
  eapply (peer_bind _ (fun k p' => p' = p3 /\ _ = Some k)).
  { apply peer_lift; [done..|]. pose proof (x25519_shared_any (x_secret (pa_session self)) (pi_session_key peer)) as Hx.
    destruct (x25519_shared _ _); [|done]. by split. }
  intros shared ? _ _ [-> Hs]. split_and!; [done..|]. cbn. exists peer, shared. unfold unchanged. rewrite <- K1, <- K2.
  split_and!; try done. by rewrite Hu.
Qed.

(** C5. A sender gets an introduction only from a peer of the name it asked for that
    proved, over both ends' keys, that it knows the public password and holds its
    identity key, and whose identity key is the one on record, if one was; it is
    on record afterwards, and the keys come from the keys that were proved.
    Whatever the server sends, the call ends in that or in an exception. *)
Theorem sender_authenticates target password hint group p r p' :
  rx_ok (rx (control p)) ->
  request_introduction penv prefers_aes self target password hint group p = (r, p') ->
  match r with
  | Ok i => authentic_receiver target password group hint p p' i
  | Err e => e <> OutOfBounds
  end.
Proof.
  intros Hp E. pose proof (request_any target password hint group p Hp) as (_ & _ & Hr). by rewrite E in Hr.
Qed.
End Sound.

Lemma write_frame_ok t data s s' :
  write_frame t data 0 s = (Ok tt, s') -> wire s' = wire s ++ frame_bytes t 0 data.
Proof.
  intros E. destruct (Z.ltb_spec kMaxFrameLength (len data)) as [Hl|Hl].
  - unfold write_frame in E. by rewrite (proj2 (Z.ltb_lt _ _)) in E.
  - apply write_frame_wire in E as (d & l & Hf & -> & Hd); [|done]. by rewrite Hf, Hd, app_nil_r.
Qed.

Section SoundReceiver.
Context `{Openssl} (penv : peers_env) (prefers_aes : bool) (self : Party).
Context (personal : bytes) (group_key : option bytes) (joined : bytes) (own_hint : TransportKind).

(** The sender of an introduction knows the password and holds its identity key. *)
Definition proven (peer : PeerIntroduction) (key : bytes) : Prop :=
  let input := sender_proof_input (pi_username peer) (pa_username self) (pi_session_key peer) (pi_identity_key peer)
    (pi_group_name peer) in
  password_key_for personal group_key joined peer = Some key /\ pi_proof peer = hmac_sha256 key input /\
  ed25519_verify (pi_identity_key peer) input (pi_signature peer) = true.

(** What a receiver knows of a sender it answered. *)
Definition authentic_sender (k : KnownPeers) (p' : Peer) (i : Introduction) : Prop :=
  exists peer key shared before,
    let reply := build_reply self peer key own_hint in
    proven peer key /\
    unchanged (pi_username peer) (pi_identity_key peer) k /\
    kp_identity_key <$> find (pi_username peer) (peers_ (known p')) = Some (pi_identity_key peer) /\
    wire (control p') = before ++ frame_bytes AcceptT 0 (PeerIntroduction_encode reply) /\
    x25519_derive (x_secret (pa_session self)) (pi_session_key peer) = Some shared /\
    i = mk_Introduction (pi_username peer) (pi_identity_key peer) (pi_candidates peer) (pi_pairing_id peer)
      (pi_transport_hint reply)
      (derive_session_keys prefers_aes shared
        (transcript_hash (pi_username peer) (pa_username self) (pi_session_key peer) (pi_identity_key peer)
           (session_key self) (identity_key self) (pi_proof peer) (pi_proof reply)) false).

(** The record is as it was, or somebody proved the password. *)
Definition pinned_only_proven (k0 k : KnownPeers) : Prop := k = k0 \/ exists peer key, proven peer key.

Definition awaited (k0 : KnownPeers) (o : option Introduction) (p' : Peer) : Prop :=
  match o with None => known p' = k0 | Some i => authentic_sender k0 p' i end.

Lemma reject_any reason k0 p :
  rx_ok (rx (control p)) -> known p = k0 -> peer_out (pinned_only_proven k0) (awaited k0) (reject reason p).
Proof.
  intros Hp Hk. unfold reject. eapply peer_bind; [apply peer_stream; [by left|by apply write_frame_any]|].
  intros [] p1 H1 _ [_ K1]. split_and!; [done|left; cbn; congruence|]. cbn. congruence.
Qed.

Lemma answer_any peer k0 p :
  rx_ok (rx (control p)) -> known p = k0 ->
  peer_out (pinned_only_proven k0) (awaited k0)
    (answer_introduction penv prefers_aes self personal group_key joined own_hint peer p).
Proof.
  intros Hp Hk. unfold answer_introduction. destruct (password_key_for _ _ _ _) as [key|] eqn:Ek; [|by apply reject_any].
  case_bool_decide as Hm; cbn [negb]; [|by apply reject_any].
  destruct (ed25519_verify _ _ _) eqn:Hv; cbn [negb]; [|by apply reject_any].
  assert (proven peer key) as Hproven by done.
  assert (forall k, pinned_only_proven k0 k) as HK by (right; eauto).
  eapply peer_bind; [by apply peer_pin|]. intros [] p1 H1 _ (Hpin & Hc & Hold).
  set (reply := build_reply _ _ _ _).
  eapply (peer_bind _ (fun _ p' => known p' = known p1 /\
    wire (control p') = wire (control p1) ++ frame_bytes AcceptT 0 (PeerIntroduction_encode reply))).
  { unfold on_stream, mzoom. pose proof (write_frame_any AcceptT (PeerIntroduction_encode reply) (control p1) H1) as (W1 & _ & W3).
    destruct (write_frame _ _ _ _) as [[[]|e] s'] eqn:E; split_and!; try done. by apply write_frame_ok in E. }
  intros [] p2 H2 _ [K2 W2].
  eapply (peer_bind _ (fun k p' => p' = p2 /\ _ = Some k)).
  { apply peer_lift; [done..|]. pose proof (x25519_shared_any (x_secret (pa_session self)) (pi_session_key peer)) as Hx.
    destruct (x25519_shared _ _); [|done]. by split. }
  intros shared ? _ _ [-> Hs]. split_and!; [done..|]. cbn. exists peer, key, shared, (wire (control p1)).
  split_and!; try done; [|by rewrite K2]. unfold unchanged. by rewrite <- Hk.
Qed.

Lemma millis_any k0 p :
  rx_ok (rx (control p)) -> known p = k0 -> peer_out (pinned_only_proven k0) (fun _ p' => known p' = k0) (monotonic_millis p).
Proof. intros Hp Hk. unfold monotonic_millis. destruct (millis p); split_and!; try done; by left. Qed.

Lemma await_loop_any deadline keep waits k0 p :
  rx_ok (rx (control p)) -> known p = k0 ->
  peer_out (pinned_only_proven k0) (awaited k0)
    (await_loop penv prefers_aes self personal group_key joined own_hint deadline keep waits p).
Proof.
  revert keep p. induction waits as [|w waits IH]; intros keep p Hp Hk; cbn [await_loop];
    (eapply (peer_bind _ (fun _ p' => known p' = k0));
     [destruct (_ =? _); [split_and!; try done; by left|]; eapply peer_bind; [by apply millis_any|];
      intros now p1 H1 _ K1; split_and!; try done; by left|]);
    intros late p1 H1 _ K1; destruct late; try (split_and!; try done; by left).
  destruct w.
  - eapply peer_bind; [apply peer_stream; [by left|by apply read_frame_any]|]. intros f p2 H2 _ [Hf K2].
    rewrite K1 in K2. case_bool_decide as Ht1; [by apply IH|]. destruct (_ || _); [split_and!; try done; by left|].
    case_bool_decide as Ht2; cbn [negb]; [|split_and!; try done; by left].
    eapply (peer_bind _ (fun i p' => p' = p2)).
    { apply peer_lift; [done|by left|]. pose proof (decode_introduction_any (payload f) Hf). by destruct (PeerIntroduction_decode _). }
    intros peer ? _ _ ->. eapply peer_bind; [by apply answer_any|]. intros [i|] p3 H3 K3 A3; [by split_and!|by apply IH].
  - eapply peer_bind; [by apply millis_any|]. intros now p2 H2 _ K2. destruct (_ <=? _); [|by apply IH].
    eapply peer_bind; [apply peer_stream; [by left|by apply write_frame_any]|]. intros [] p3 H3 _ [_ K3].
    rewrite K2 in K3. eapply peer_bind; [by apply millis_any|]. intros now' p4 H4 _ K4. by apply IH.
Qed.

Lemma await_any timeout waits p :
  rx_ok (rx (control p)) ->
  peer_out (pinned_only_proven (known p)) (awaited (known p))
    (await_introduction penv prefers_aes self personal group_key joined own_hint timeout waits p).
Proof.
  intros Hp. unfold await_introduction. eapply (peer_bind _ (fun _ p1 => known p1 = known p)).
  { destruct (_ =? _); [split_and!; try done; by left|]. eapply peer_bind; [by apply millis_any|].
    intros now p1 H1 _ K1. split_and!; try done; by left. }
  intros deadline p1 H1 _ K1. eapply peer_bind; [by apply millis_any|]. intros now p2 H2 _ K2. by apply await_loop_any.
Qed.

End SoundReceiver.

(** * Two honest ends *)

Definition party_ok `{Openssl} (p : Party) : Prop :=
  valid_name (pa_username p) /\ identity_ok (pa_identity p) /\
  fixed kX25519KeySize (x_secret (pa_session p)) /\ session_key p = x25519_public (x_secret (pa_session p)).

(** What the server passes on of a request and of a reply: everything but the addresses
    and the pairing, which are the server's. *)
Definition introduces (s : Party) (q : SendRequest) (i : PeerIntroduction) : Prop :=
  pi_username i = pa_username s /\ pi_identity_key i = identity_key s /\ pi_session_key i = session_key s /\
  pi_proof i = sr_proof q /\ pi_signature i = sr_signature q /\ pi_transport_hint i = sr_transport_hint q /\
  pi_group_name i = sr_group_name q.
Definition passes_on (reply i : PeerIntroduction) : Prop :=
  pi_username i = pi_username reply /\ pi_identity_key i = pi_identity_key reply /\
  pi_session_key i = pi_session_key reply /\ pi_proof i = pi_proof reply /\ pi_signature i = pi_signature reply /\
  pi_transport_hint i = pi_transport_hint reply.

(** The next frame a connection delivers. *)
Definition next_frame_is (t : MessageType) (i : PeerIntroduction) (s : ksock) : Prop :=
  exists body rest, rx_stream (rx s) = frame_bytes t 0 body ++ rest /\ len body <= kMaxFrameLength /\
    PeerIntroduction_decode body = Ok i.

Definition mirrored (a b : SessionKeys) : Prop :=
  send_key a = receive_key b /\ receive_key a = send_key b /\ send_nonce_prefix a = receive_nonce_prefix b /\
  receive_nonce_prefix a = send_nonce_prefix b /\ offer_key a = offer_key b /\ handshake_key a = handshake_key b.

Lemma keys_mirror `{Openssl} aes aes' shared transcript :
  mirrored (derive_session_keys aes shared transcript true) (derive_session_keys aes' shared transcript false).
Proof. done. Qed.

Lemma on_stream_ok {A} (m : M ksock A) p a s' :
  m (control p) = (Ok a, s') -> on_stream m p = (Ok a, mk_Peer s' (known p) (millis p)).
Proof. unfold on_stream, mzoom. by intros ->. Qed.

Lemma on_known_ok {A} (m : M KnownPeers A) p a k' :
  m (known p) = (Ok a, k') -> on_known m p = (Ok a, mk_Peer (control p) k' (millis p)).
Proof. unfold on_known, mzoom. by intros ->. Qed.

Lemma party_session_fixed `{OpensslLaws} p : party_ok p -> fixed kX25519KeySize (session_key p).
Proof. intros (_ & _ & Hs & ->). by apply x25519_public_fixed. Qed.

Lemma party_identity_fixed `{OpensslLaws} p : party_ok p -> fixed kEd25519PublicKeySize (identity_key p).
Proof. intros (_ & (Hs & Hp & _) & _). unfold identity_key. rewrite Hp. by apply ed25519_public_fixed. Qed.

Lemma party_verifies `{OpensslLaws} p b :
  party_ok p -> ed25519_verify (identity_key p) b (ed25519_sign (identity_secret p) b) = true.
Proof. intros (_ & (Hs & Hp & _) & _). unfold identity_key, identity_secret. rewrite Hp. by apply ed25519_verify_sign. Qed.

Section Honest.
Context `{OpensslLaws} (penv_s penv_r : peers_env) (aes_s aes_r : bool) (s r : Party).
Context (password : bytes) (hint own_hint : TransportKind) (group : bytes).
Context (personal : bytes) (group_key : option bytes) (joined : bytes).

Definition shared_password_key : bytes :=
  derive_public_password_key password (if len group =? 0 then pa_username r else group).

Definition honest_request : SendRequest := build_request s (pa_username r) shared_password_key hint group.

Lemma request_ok : party_ok s -> party_ok r -> valid_group group -> SendRequest_ok honest_request.
Proof.
  intros (_ & (Hs & _) & _) (Hr & _) Hg. split_and!; cbn; [done|apply hmac_fixed|by apply ed25519_sign_fixed|done].
Qed.

Lemma reply_ok incoming :
  party_ok r -> valid_group group -> pi_group_name incoming = group -> is_u64 (pi_pairing_id incoming) ->
  PeerIntroduction_ok (build_reply r incoming shared_password_key own_hint).
Proof.
  intros Hr Hg Eg Hi. pose proof (party_session_fixed r Hr). pose proof (party_identity_fixed r Hr). destruct Hr as (Hr & (Hs & _) & _).
  unfold PeerIntroduction_ok. cbn. rewrite Eg. split_and!; try done; [apply hmac_fixed|by apply ed25519_sign_fixed].
Qed.

Lemma reply_size incoming :
  party_ok r -> valid_group group -> pi_group_name incoming = group -> is_u64 (pi_pairing_id incoming) ->
  len (PeerIntroduction_encode (build_reply r incoming shared_password_key own_hint)) <= 1000.
Proof.
  intros Hr Hg Eg Hi. destruct (reply_ok incoming Hr Hg Eg Hi) as (H1%valid_name_le & [H2 _] & [H3 _] & _ & [H4 _] & [H5 _] & _ & H6%valid_group_len).
  pose proof (endpoints_bytes_le (pi_candidates (build_reply r incoming shared_password_key own_hint))) as Hc.
  change (len (pi_candidates _)) with 0 in Hc. revert H1 H2 H3 H4 H5 H6 Hc. generalize (build_reply r incoming shared_password_key own_hint).
  intros reply H1 H2 H3 H4 H5 H6 Hc. unfold PeerIntroduction_encode. rewrite put_group. size_simpl.
  unfold kEd25519PublicKeySize, kX25519KeySize, kSha256Size, kEd25519SignatureSize in *.
  assert (len (if negb (len (pi_group_name reply) =? 0) then field (pi_group_name reply) else []) <= 68).
  { destruct (negb _); [rewrite field_len; lia|done]. }
  lia.
Qed.

(** The sender's half, given the frame it is sent. *)
Lemma request_completes incoming matched p k' :
  party_ok s -> party_ok r -> valid_group group ->
  introduces s honest_request incoming -> passes_on (build_reply r incoming shared_password_key own_hint) matched ->
  next_frame_is MatchedT matched (control p) -> 500 <= tx_budget (tx (control p)) ->
  enforce_pinning penv_s sha256 (pa_username r) (identity_key r) (known p) = (Ok tt, k') ->
  exists p' shared,
    request_introduction penv_s aes_s s (pa_username r) password hint group p =
      (Ok (mk_Introduction (pa_username r) (identity_key r) (pi_candidates matched) (pi_pairing_id matched)
         (pi_transport_hint matched)
         (derive_session_keys aes_s shared (transcript_hash (pa_username s) (pa_username r) (session_key s) (identity_key s)
            (session_key r) (identity_key r) (sr_proof honest_request) (pi_proof matched)) true)), p') /\
    x25519_derive (x_secret (pa_session s)) (session_key r) = Some shared /\ known p' = k' /\
    wire (control p') = wire (control p) ++ frame_bytes SendRequestT 0 (SendRequest_encode honest_request).
Proof.
  intros Hs Hr Hg (I1 & I2 & I3 & _ & _ & _ & I7) (M1 & M2 & M3 & M4 & M5 & M6) (body & rest & Hrx & Hlb & Hdec) Htx Hpin.
  pose proof (SendRequest_size _ (request_ok Hs Hr Hg)) as Hsz.
  destruct (write_frame_paid SendRequestT (SendRequest_encode honest_request) (control p)) as (k1 & E1 & R1 & W1 & _);
    [unfold kMaxFrameLength; lia|unfold kFrameHeaderSize; lia|].
  rewrite <- R1 in Hrx. destruct (read_frame_stream MatchedT 0 body rest k1 eq_refl ltac:(done) Hlb Hrx) as (k2 & E2 & _ & _ & W2).
  unfold request_introduction. fold shared_password_key. fold honest_request.
  erewrite mbind_ok by by apply on_stream_ok. erewrite mbind_ok.
  2: { apply on_stream_ok. cbn [control]. unfold read_expected. erewrite mbind_ok by exact E2. cbn [header type out_header].
    by rewrite bool_decide_eq_true_2. }
  cbn [payload known millis]. erewrite mbind_ok by (unfold mlift; by rewrite Hdec).
  cbn [build_reply pi_username pi_identity_key pi_session_key pi_proof pi_signature] in M1, M2, M3, M4, M5.
  rewrite I1, I2, I3, I7 in M4, M5. cbn [sr_group_name honest_request build_request] in M4, M5.
  rewrite M1, M2, M3, M4, M5. rewrite !bool_decide_eq_true_2 by done. cbn [negb]. rewrite party_verifies by done. cbn [negb].
  erewrite mbind_ok by by apply on_known_ok.
  destruct Hs as (_ & _ & Hs & _). destruct Hr as (_ & _ & Hr & Er). destruct (x25519_agree _ _ Hs Hr) as (shared & Esh & _).
  rewrite <- Er in Esh. unfold mlift, x25519_shared. erewrite mbind_ok by by rewrite Esh.
  eexists _, shared. split; [done|]. split_and!; [done|done|]. cbn. by rewrite W2, W1.
Qed.

(** The receiver's half: what [await_introduction] does with the first frame. *)
Lemma answer_completes incoming p k' :
  party_ok s -> party_ok r -> valid_group group ->
  introduces s honest_request incoming -> is_u64 (pi_pairing_id incoming) ->
  password_key_for personal group_key joined incoming = Some shared_password_key ->
  1100 <= tx_budget (tx (control p)) ->
  enforce_pinning penv_r sha256 (pa_username s) (identity_key s) (known p) = (Ok tt, k') ->
  let reply := build_reply r incoming shared_password_key own_hint in
  exists p' shared,
    answer_introduction penv_r aes_r r personal group_key joined own_hint incoming p =
      (Ok (Some (mk_Introduction (pa_username s) (identity_key s) (pi_candidates incoming) (pi_pairing_id incoming)
         (pi_transport_hint reply)
         (derive_session_keys aes_r shared (transcript_hash (pa_username s) (pa_username r) (session_key s) (identity_key s)
            (session_key r) (identity_key r) (sr_proof honest_request) (pi_proof reply)) false))), p') /\
    x25519_derive (x_secret (pa_session r)) (session_key s) = Some shared /\ known p' = k' /\
    wire (control p') = wire (control p) ++ frame_bytes AcceptT 0 (PeerIntroduction_encode reply).
Proof.
  intros Hs Hr Hg Hi Hid Hkey Htx Hpin reply. pose proof Hi as (I1 & I2 & I3 & I4 & I5 & _ & I7).
  pose proof (reply_size incoming Hr Hg I7 Hid) as Hsz. fold reply in Hsz.
  destruct (write_frame_paid AcceptT (PeerIntroduction_encode reply) (control p)) as (k1 & E1 & _ & W1 & _);
    [unfold kMaxFrameLength; lia|unfold kFrameHeaderSize; lia|].
  unfold answer_introduction. rewrite Hkey. fold reply. rewrite I1, I2, I3, I4, I5, I7.
  cbn [honest_request build_request sr_proof sr_signature sr_group_name].
  rewrite bool_decide_eq_true_2 by done. cbn [negb]. rewrite party_verifies by done. cbn [negb].
  erewrite mbind_ok by by apply on_known_ok. erewrite mbind_ok by (apply on_stream_ok; exact E1).
  destruct Hs as (_ & _ & Hs & Es). destruct Hr as (_ & _ & Hr & _). destruct (x25519_agree _ _ Hs Hr) as (shared & _ & Esh).
  rewrite <- Es in Esh. unfold mlift, x25519_shared. erewrite mbind_ok by by rewrite Esh.
  eexists _, shared. split; [done|]. by split_and!.
Qed.

Lemma await_completes incoming p k' waits :
  party_ok s -> party_ok r -> valid_group group ->
  introduces s honest_request incoming -> is_u64 (pi_pairing_id incoming) ->
  password_key_for personal group_key joined incoming = Some shared_password_key ->
  next_frame_is IncomingT incoming (control p) -> 1100 <= tx_budget (tx (control p)) -> millis p <> [] ->
  enforce_pinning penv_r sha256 (pa_username s) (identity_key s) (known p) = (Ok tt, k') ->
  let reply := build_reply r incoming shared_password_key own_hint in
  exists p' shared,
    await_introduction penv_r aes_r r personal group_key joined own_hint 0 (true :: waits) p =
      (Ok (Some (mk_Introduction (pa_username s) (identity_key s) (pi_candidates incoming) (pi_pairing_id incoming)
         (pi_transport_hint reply)
         (derive_session_keys aes_r shared (transcript_hash (pa_username s) (pa_username r) (session_key s) (identity_key s)
            (session_key r) (identity_key r) (sr_proof honest_request) (pi_proof reply)) false))), p') /\
    x25519_derive (x_secret (pa_session r)) (session_key s) = Some shared /\ known p' = k' /\
    wire (control p') = wire (control p) ++ frame_bytes AcceptT 0 (PeerIntroduction_encode reply).
Proof.
  intros Hs Hr Hg Hi Hid Hkey (body & rest & Hrx & Hlb & Hdec) Htx Hms Hpin reply.
  destruct (read_frame_stream IncomingT 0 body rest (control p) eq_refl ltac:(done) Hlb Hrx) as (k1 & E1 & _ & T1 & W1).
  destruct p as [k0 kn [|now ms]]; [done|]. cbn [control known millis] in *.
  destruct (answer_completes incoming (mk_Peer k1 kn ms) k' Hs Hr Hg Hi Hid Hkey ltac:(cbn; by rewrite T1) Hpin)
    as (p' & shared & E & Hsh & Hk & Hw).
  exists p', shared. unfold await_introduction. cbn [Z.eqb]. rewrite mbind_ret.
  unfold monotonic_millis at 1. unfold mbind at 1. cbn [millis control known].
  cbn [await_loop Z.eqb]. rewrite mbind_ret. cbv iota.
  erewrite mbind_ok by (apply on_stream_ok; exact E1). cbn [header type out_header payload known millis].
  rewrite !bool_decide_eq_false_2 by done. cbn [orb]. rewrite bool_decide_eq_true_2 by done. cbn [negb].
  erewrite mbind_ok by (unfold mlift; by rewrite Hdec). erewrite mbind_ok by exact E.
  split_and!; [done..|]. rewrite Hw. cbn. by rewrite W1.
Qed.

(** C4. Two honest ends that share the password complete the handshake through a server
    that passes on what each said: the receiver answers the request it gets, the sender
    accepts that answer, each records the other's identity key, and the keys they
    derive are each other's mirror image. *)
Theorem handshake_agrees incoming matched ps pr ks kr waits :
  party_ok s -> party_ok r -> valid_group group ->
  password_key_for personal group_key joined incoming = Some shared_password_key ->
  introduces s honest_request incoming -> is_u64 (pi_pairing_id incoming) ->
  passes_on (build_reply r incoming shared_password_key own_hint) matched ->
  next_frame_is MatchedT matched (control ps) -> 500 <= tx_budget (tx (control ps)) ->
  next_frame_is IncomingT incoming (control pr) -> 1100 <= tx_budget (tx (control pr)) -> millis pr <> [] ->
  enforce_pinning penv_s sha256 (pa_username r) (identity_key r) (known ps) = (Ok tt, ks) ->
  enforce_pinning penv_r sha256 (pa_username s) (identity_key s) (known pr) = (Ok tt, kr) ->
  exists i j ps' pr',
    request_introduction penv_s aes_s s (pa_username r) password hint group ps = (Ok i, ps') /\
    await_introduction penv_r aes_r r personal group_key joined own_hint 0 (true :: waits) pr = (Ok (Some j), pr') /\
    wire (control ps') = wire (control ps) ++ frame_bytes SendRequestT 0 (SendRequest_encode honest_request) /\
    wire (control pr') = wire (control pr) ++
      frame_bytes AcceptT 0 (PeerIntroduction_encode (build_reply r incoming shared_password_key own_hint)) /\
    mirrored (in_keys i) (in_keys j) /\ in_transport_hint i = in_transport_hint j /\
    (in_peer_username i, in_peer_identity_key i) = (pa_username r, identity_key r) /\
    (in_peer_username j, in_peer_identity_key j) = (pa_username s, identity_key s) /\
    known ps' = ks /\ known pr' = kr.
Proof.
  intros Hs Hr Hg Hkey Hi Hid Hm Hfs Hts Hfr Htr Hms Hps Hpr.
  destruct (request_completes incoming matched ps ks Hs Hr Hg Hi Hm Hfs Hts Hps) as (ps' & sh & E1 & Es1 & K1 & W1).
  destruct (await_completes incoming pr kr waits Hs Hr Hg Hi Hid Hkey Hfr Htr Hms Hpr) as (pr' & sh' & E2 & Es2 & K2 & W2).
  destruct Hs as (_ & _ & Hs & Ess). destruct Hr as (_ & _ & Hr & Ers). destruct (x25519_agree _ _ Hs Hr) as (k & A1 & A2).
  rewrite <- Ers, Es1 in A1. rewrite <- Ess, Es2 in A2. injection A1 as ->. injection A2 as ->.
  destruct Hm as (_ & _ & _ & Hpf & _ & Hth). rewrite <- Hpf in E2. rewrite <- Hth in E2.
  eexists _, _, ps', pr'. split; [exact E1|]. split; [exact E2|]. by split_and!.
Qed.
End Honest.

(** * The theorems at work *)

Definition ann : Party :=
  mk_Party (str "ann") (mk_Identity (mk_Ed25519KeyPair (replicate 32 1) (replicate 32 1)) []) (mk_X25519KeyPair (replicate 32 2) (replicate 32 2)).
Definition bob : Party :=
  mk_Party (str "bob") (mk_Identity (mk_Ed25519KeyPair (replicate 32 3) (replicate 32 3)) []) (mk_X25519KeyPair (replicate 32 4) (replicate 32 4)).

Definition sample_key : bytes := shared_password_key (H := toy_openssl) bob (str "open sesame") [].

Definition sample_incoming : PeerIntroduction :=
  let q := honest_request (H := toy_openssl) ann bob (str "open sesame") DirectTcp [] in
  mk_PeerIntroduction (str "ann") (replicate 32 1) (replicate 32 2) [EpV4 9 [10; 0; 0; 1]] (sr_proof q) (sr_signature q) 77 DirectTcp [].

Definition sample_matched : PeerIntroduction :=
  let reply := build_reply (H := toy_openssl) bob sample_incoming sample_key NoTransport in
  mk_PeerIntroduction (str "bob") (replicate 32 3) (replicate 32 4) [EpV4 8 [10; 0; 0; 2]] (pi_proof reply) (pi_signature reply) 77 DirectTcp [].

Definition no_peers : KnownPeers := mk_KnownPeers [] None None.

(** A client whose server sends [i] next, in two pieces. *)
Definition sample_peer (t : MessageType) (i : PeerIntroduction) : Peer :=
  let b := frame_bytes t 0 (PeerIntroduction_encode i) in
  mk_Peer (mk_ksock [RxData (take 5 b); RxEintr; RxData (drop 5 b)] (replicate 1200 (TxWrote 40)) []) no_peers [1000].

Lemma ann_ok : party_ok (H := toy_openssl) ann.
Proof. split_and!; try done; split; try done; by repeat constructor. Qed.

Lemma bob_ok : party_ok (H := toy_openssl) bob.
Proof. split_and!; try done; split; try done; by repeat constructor. Qed.

Lemma sample_frame t i :
  rx_stream (rx (control (sample_peer t i))) = frame_bytes t 0 (PeerIntroduction_encode i) ++ [] ->
  len (PeerIntroduction_encode i) <= kMaxFrameLength -> PeerIntroduction_decode (PeerIntroduction_encode i) = Ok i ->
  next_frame_is t i (control (sample_peer t i)).
Proof. intros. by exists (PeerIntroduction_encode i), []. Qed.

Lemma handshake_agrees_witness :
  exists i j ps' pr',
    request_introduction (H := toy_openssl) sample_peers_env true ann (str "bob") (str "open sesame") DirectTcp []
      (sample_peer MatchedT sample_matched) = (Ok i, ps') /\
    await_introduction (H := toy_openssl) sample_peers_env false bob sample_key None [] NoTransport 0 [true]
      (sample_peer IncomingT sample_incoming) = (Ok (Some j), pr') /\
    mirrored (in_keys i) (in_keys j).
Proof.
  destruct (handshake_agrees (H0 := toy_openssl_laws) sample_peers_env sample_peers_env true false ann bob (str "open sesame")
    DirectTcp NoTransport [] sample_key None [] sample_incoming sample_matched
    (sample_peer MatchedT sample_matched) (sample_peer IncomingT sample_incoming)
    (enforce_pinning sample_peers_env toy_digest (str "bob") (replicate 32 3) no_peers).2
    (enforce_pinning sample_peers_env toy_digest (str "ann") (replicate 32 1) no_peers).2 []
    ann_ok bob_ok (or_introl eq_refl) eq_refl)
    as (i & j & ps' & pr' & E1 & E2 & _ & _ & Hm & _).
  - by vm_compute.
  - by vm_compute.
  - by vm_compute.
  - apply sample_frame; by vm_compute.
  - by vm_compute.
  - apply sample_frame; by vm_compute.
  - by vm_compute.
  - done.
  - by vm_compute.
  - by vm_compute.
  - exists i, j, ps', pr'. split; [exact E1|]. split; [exact E2|exact Hm].
Defined.

Lemma sample_rx_ok t i : bytes_ok (frame_bytes t 0 (PeerIntroduction_encode i)) -> rx_ok (rx (control (sample_peer t i))).
Proof. intros Hb. constructor; [by apply Forall_take|]. constructor; [done|]. constructor; [by apply Forall_drop|constructor]. Qed.

(** A reply under another password is refused. *)
Lemma sender_authenticates_witness :
  exists i p', request_introduction (H := toy_openssl) sample_peers_env true ann (str "bob") (str "open sesame") DirectTcp []
      (sample_peer MatchedT sample_matched) = (Ok i, p') /\
    authentic_receiver (H := toy_openssl) true ann (str "bob") (str "open sesame") [] DirectTcp (sample_peer MatchedT sample_matched) p' i.
Proof.
  set (o := request_introduction (H := toy_openssl) sample_peers_env true ann (str "bob") (str "open sesame") DirectTcp []
      (sample_peer MatchedT sample_matched)).
  assert (exists i, o.1 = Ok i) as [i Ei] by (eexists; vm_compute; reflexivity).
  exists i, o.2. assert (o = (Ok i, o.2)) as E by (rewrite <- Ei; apply surjective_pairing). split; [exact E|].
  refine (sender_authenticates (H := toy_openssl) sample_peers_env true ann (str "bob") (str "open sesame") DirectTcp []
    (sample_peer MatchedT sample_matched) (Ok i) o.2 _ E).
  apply sample_rx_ok. apply (bool_decide_unpack _). vm_compute. exact I.
Defined.


Lemma proof_inputs_separate_witness :
  sender_proof_input (str "ab") (str "c") [1] [2] [] <> sender_proof_input (str "a") (str "bc") [1] [2] [].
Proof.
  intros E. destruct (proof_inputs_separate (str "ab") (str "c") [1] [2] [3] [4] [] (str "a") (str "bc") [1] [2] [3] [4] [] []) as [H _].
  - by repeat constructor.
  - by repeat constructor.
  - discriminate (H E).
Defined.
