(* ===== verification/ReliableUdp.v ===== *)
(** The reliable stream over UDP, [client/src/reliable_udp.cpp].

    [UdpChannel] has the fields of [ReliableUdpChannel], grouped by what changes
    together. The kernel is [udp_socket]: what the successive [recvmmsg], [sendmmsg] and
    waiting calls answer, the readings of the clock, and the datagrams it has taken. No
    call blocks: a script of [recvmmsg] that has run out is an empty queue, one of
    [sendmmsg] a queue with room. The Linux variants are the ones modelled.

    A queued datagram is a reference, as in the code: to the packet of a sequence number,
    or to a slot of the staging area. Using a reference to a packet that is gone, or a
    slot or batch entry past the end of its array, is [OutOfBounds]. *)

From S2P Require Import Prelude Double Endian Socket Protocol Crypto.

(** * Packets *)

Definition kUdpDatagramSize : Z := 1200.
Definition kUdpHeaderSize : Z := 22.
Definition kUdpMaxPayload : Z := kUdpDatagramSize - kUdpHeaderSize.
Definition kMaxReorderPackets : Z := 16384.
Definition kMaxDeliveredBacklog : Z := 8 * 1024 * 1024.
Definition kPunchIntervalMs : Z := 50.

Inductive UdpPacketType := Punch | PunchAck | Data | Ack | Fin | FinAck | OtherPacket (v : Z).

#[global] Instance UdpPacketType_eq_dec : EqDecision UdpPacketType.
Proof. solve_decision. Defined.

Definition packet_type_to_u8 (t : UdpPacketType) : Z :=
  match t with Punch => 1 | PunchAck => 2 | Data => 3 | Ack => 4 | Fin => 5 | FinAck => 6 | OtherPacket v => v end.
Definition packet_type_of_u8 (v : Z) : UdpPacketType :=
  if v =? 1 then Punch else if v =? 2 then PunchAck else if v =? 3 then Data else if v =? 4 then Ack
  else if v =? 5 then Fin else if v =? 6 then FinAck else OtherPacket v.

Definition write_header (type : UdpPacketType) (sequence ack ack_bits length : Z) : bytes :=
  [68; 81; packet_type_to_u8 type; 0] ++ store_u32 sequence ++ store_u32 ack ++ store_u64 ack_bits ++ store_u16 length.

Record ParsedHeader := mk_ParsedHeader {
  h_type : UdpPacketType;
  h_sequence : Z;
  h_ack : Z;
  h_ack_bits : Z;
  h_length : Z;
}.

(** [None] is [false]. *)
Definition parse_header (data : bytes) : result (option ParsedHeader) :=
  if len data <? kUdpHeaderSize then Ok None
  else match data with
       | m0 :: m1 :: t :: _ =>
           if negb (m0 =? 68) || negb (m1 =? 81) then Ok None
           else
             let? sequence := load_u32 (zdrop 4 data) in
             let? ack := load_u32 (zdrop 8 data) in
             let? ack_bits := load_u64 (zdrop 12 data) in
             let? length := load_u16 (zdrop 20 data) in
             if kUdpMaxPayload <? length then Ok None
             else if len data <? kUdpHeaderSize + length then Ok None
             else Ok (Some (mk_ParsedHeader (packet_type_of_u8 t) sequence ack ack_bits length))
       | _ => Err OutOfBounds
       end.

(** * The kernel *)

Inductive recv_event := RecvBatch (ds : list bytes) | RecvEintr | RecvAgain.
Inductive send_event := SendCount (n : Z) | SendEintr | SendAgain | SendRefused | SendFail (errno : Z).

Record udp_socket := mk_udp_socket {
  k_recv : list recv_event;
  k_send : list send_event;
  k_wait : list (option Z);
  k_clock : list Z;
  k_sent : list bytes;
}.

(** * The channel *)

Record UdpTuning := mk_UdpTuning {
  initial_cwnd : double;
  min_cwnd : double;
  max_cwnd : double;
  max_burst : double;
  min_rto_us : Z;
  max_rto_us : Z;
  initial_rto_us : Z;
  fast_retransmit_threshold : Z;
  max_timeouts : Z;
  batch_size : Z;
}.

Definition default_tuning : UdpTuning :=
  mk_UdpTuning (d_of_Z 32) (d_of_Z 4) (d_of_Z 2048) (d_of_Z 48) 5000 2000000 200000 3 12 64.

Record UdpStatistics := mk_UdpStatistics {
  packets_sent : Z;
  packets_received : Z;
  packets_retransmitted : Z;
  duplicates_received : Z;
  reordered_received : Z;
  timeouts : Z;
  smoothed_rtt_us : Z;
}.

Record SentPacket := mk_SentPacket {
  sp_sequence : Z;
  sp_datagram : bytes;
  sp_sent_us : Z;
  sp_transmissions : Z;
  sp_acknowledged : bool;
}.

Record SendSide := mk_SendSide {
  outgoing_ : bytes;
  outgoing_consumed_ : Z;
  unacknowledged_ : list SentPacket;
  next_sequence_ : Z;
  send_base_ : Z;
}.

Record Congestion := mk_Congestion {
  cwnd_ : double;
  ssthresh_ : double;
  cwnd_fraction_ : double;
  consecutive_timeouts_ : Z;
  srtt_us_ : Z;
  rttvar_us_ : Z;
  rto_us_ : Z;
  send_tokens_ : double;
  last_token_us_ : Z;
}.

Record ReceiveSide := mk_ReceiveSide {
  receive_next_ : Z;
  reorder_buffer_ : gmap Z bytes;
  delivered_ : bytes;
  delivered_consumed_ : Z;
  ack_pending_ : bool;
  peer_finished_ : bool;
  fin_acknowledged_ : bool;
  sent_fin_ : bool;
}.

Inductive PendingSend := PendingData (sequence : Z) | PendingControl (slot length : Z).

Record Batching := mk_Batching {
  send_batch_ : list PendingSend;
  control_staging_ : bytes;
  control_used_ : Z;
}.

(** [test_loss_] is [1 / test_loss_rate_] with its counter, when the rate is not zero. *)
Record UdpChannel := mk_UdpChannel {
  tuning_ : UdpTuning;
  stats_ : UdpStatistics;
  snd_ : SendSide;
  cc_ : Congestion;
  rcv_ : ReceiveSide;
  bat_ : Batching;
  sock_ : udp_socket;
  test_loss_ : option (Z * Z);
}.

Definition set_stats x c := mk_UdpChannel (tuning_ c) x (snd_ c) (cc_ c) (rcv_ c) (bat_ c) (sock_ c) (test_loss_ c).
Definition set_snd x c := mk_UdpChannel (tuning_ c) (stats_ c) x (cc_ c) (rcv_ c) (bat_ c) (sock_ c) (test_loss_ c).
Definition set_cc x c := mk_UdpChannel (tuning_ c) (stats_ c) (snd_ c) x (rcv_ c) (bat_ c) (sock_ c) (test_loss_ c).
Definition set_rcv x c := mk_UdpChannel (tuning_ c) (stats_ c) (snd_ c) (cc_ c) x (bat_ c) (sock_ c) (test_loss_ c).
Definition set_bat x c := mk_UdpChannel (tuning_ c) (stats_ c) (snd_ c) (cc_ c) (rcv_ c) x (sock_ c) (test_loss_ c).
Definition set_sock x c := mk_UdpChannel (tuning_ c) (stats_ c) (snd_ c) (cc_ c) (rcv_ c) (bat_ c) x (test_loss_ c).
Definition set_test_loss x c := mk_UdpChannel (tuning_ c) (stats_ c) (snd_ c) (cc_ c) (rcv_ c) (bat_ c) (sock_ c) x.

Abbreviation udp := (M UdpChannel).

Definition new_channel (tuning : UdpTuning) (s : udp_socket) : UdpChannel :=
  mk_UdpChannel tuning (mk_UdpStatistics 0 0 0 0 0 0 0)
    (mk_SendSide [] 0 [] 0 0)
    (mk_Congestion (initial_cwnd tuning) (max_cwnd tuning) (d_of_Z 0) 0 0 0 (initial_rto_us tuning) (d_of_Z 0) 0)
    (mk_ReceiveSide 0 ∅ [] 0 false false false false)
    (mk_Batching [] (replicate (Z.to_nat (kUdpHeaderSize * batch_size tuning)) 0) 0) s None.

(** Statistics. *)
Definition count_sent n c := let s := stats_ c in set_stats (mk_UdpStatistics (u64 (packets_sent s + n)) (packets_received s)
  (packets_retransmitted s) (duplicates_received s) (reordered_received s) (timeouts s) (smoothed_rtt_us s)) c.
Definition count_received c := let s := stats_ c in set_stats (mk_UdpStatistics (packets_sent s) (u64 (packets_received s + 1))
  (packets_retransmitted s) (duplicates_received s) (reordered_received s) (timeouts s) (smoothed_rtt_us s)) c.
Definition count_retransmitted c := let s := stats_ c in set_stats (mk_UdpStatistics (packets_sent s) (packets_received s)
  (u64 (packets_retransmitted s + 1)) (duplicates_received s) (reordered_received s) (timeouts s) (smoothed_rtt_us s)) c.
Definition count_duplicate c := let s := stats_ c in set_stats (mk_UdpStatistics (packets_sent s) (packets_received s)
  (packets_retransmitted s) (u64 (duplicates_received s + 1)) (reordered_received s) (timeouts s) (smoothed_rtt_us s)) c.
Definition count_reordered c := let s := stats_ c in set_stats (mk_UdpStatistics (packets_sent s) (packets_received s)
  (packets_retransmitted s) (duplicates_received s) (u64 (reordered_received s + 1)) (timeouts s) (smoothed_rtt_us s)) c.
Definition count_timeout c := let s := stats_ c in set_stats (mk_UdpStatistics (packets_sent s) (packets_received s)
  (packets_retransmitted s) (duplicates_received s) (reordered_received s) (u64 (timeouts s + 1)) (smoothed_rtt_us s)) c.
Definition note_rtt v c := let s := stats_ c in set_stats (mk_UdpStatistics (packets_sent s) (packets_received s)
  (packets_retransmitted s) (duplicates_received s) (reordered_received s) (timeouts s) v) c.

(** Clock and waits. *)
Definition monotonic_micros : udp Z := fun c =>
  let k := sock_ c in
  match k_clock k with
  | [] => (Err Blocks, c)
  | t :: ts => (Ok t, set_sock (mk_udp_socket (k_recv k) (k_send k) (k_wait k) ts (k_sent k)) c)
  end.

(** A wait of at most [timeout_us]; [ppoll] or [poll] may fail. *)
Definition wait_ (timeout_us : Z) (what : string) : udp unit := fun c =>
  let k := sock_ c in
  match k_wait k with
  | [] => (Ok tt, c)
  | w :: ws =>
      let c := set_sock (mk_udp_socket (k_recv k) (k_send k) ws (k_clock k) (k_sent k)) c in
      match w with None => (Ok tt, c) | Some e => (Err (SysError (str what) e), c) end
  end.

(** * Sending *)

(** What a queued send points at. *)
Definition datagram_of (c : UdpChannel) (p : PendingSend) : result bytes :=
  match p with
  | PendingData sequence =>
      match list_find (fun q => sp_sequence q = sequence) (unacknowledged_ (snd_ c)) with
      | Some (_, q) => Ok (sp_datagram q)
      | None => Err OutOfBounds
      end
  | PendingControl slot n => Ok (ztake n (zdrop slot (control_staging_ (bat_ c))))
  end.

Fixpoint gather (c : UdpChannel) (ps : list PendingSend) : result (list bytes) :=
  match ps with
  | [] => Ok []
  | p :: ps =>
      let? d := datagram_of c p in
      let? ds := gather c ps in
      Ok (d :: ds)
  end.

(** The kernel takes the datagrams of [ps] and leaves [evs] to come. *)
Definition kernel_takes (ps : list PendingSend) (evs : list send_event) : udp unit :=
  let* c := mget in
  let* ds := mlift (gather c ps) in
  mmodify (fun c => let k := sock_ c in
    set_sock (mk_udp_socket (k_recv k) evs (k_wait k) (k_clock k) (k_sent k ++ ds)) (count_sent (len ps) c)).

Definition set_send_events (evs : list send_event) (c : UdpChannel) : UdpChannel :=
  let k := sock_ c in set_sock (mk_udp_socket (k_recv k) evs (k_wait k) (k_clock k) (k_sent k)) c.

(** The loop of [flush_send_batch]; returns [sent]. *)
Fixpoint flush_loop (evs : list send_event) (sent stalls : Z) : udp Z :=
  let* c := mget in
  let waiting := zdrop sent (send_batch_ (bat_ c)) in
  if len waiting =? 0 then mret sent
  else if batch_size (tuning_ c) <? len waiting then mthrow OutOfBounds
  else match evs with
       | [] =>
           do* kernel_takes waiting [] in
           mret (sent + len waiting)
       | SendCount n :: evs =>
           let count := Z.max 1 (Z.min n (len waiting)) in
           do* kernel_takes (ztake count waiting) evs in
           flush_loop evs (sent + count) stalls
       | SendEintr :: evs =>
           do* mmodify (set_send_events evs) in
           flush_loop evs sent stalls
       | SendAgain :: evs =>
           do* mmodify (set_send_events evs) in
           if 2 <? stalls + 1 then mret sent
           else
             do* wait_ 1000 "poll failed" in
             flush_loop evs sent (stalls + 1)
       | SendRefused :: evs =>
           do* mmodify (set_send_events evs) in
           flush_loop evs (sent + 1) stalls
       | SendFail e :: evs =>
           do* mmodify (set_send_events evs) in
           mthrow (SysError (str "sending to the peer failed") e)
       end.

Definition flush_send_batch : udp unit :=
  let* c := mget in
  if len (send_batch_ (bat_ c)) =? 0 then mret tt
  else
    let* sent := flush_loop (k_send (sock_ c)) 0 0 in
    mmodify (fun c => let b := bat_ c in
      let rest := zdrop sent (send_batch_ b) in
      set_bat (mk_Batching rest (control_staging_ b) (if len rest =? 0 then 0 else control_used_ b)) c).

Definition queue_send (p : PendingSend) : udp unit :=
  let* c := mget in
  let dropped := match test_loss_ c with
                 | Some (every, counter) => (0 <? every) && (u64 (counter + 1) mod every =? 0)
                 | None => false
                 end in
  do* mmodify (fun c => set_test_loss (prod_map id (fun n => u64 (n + 1)) <$> test_loss_ c) c) in
  if dropped then mmodify (count_sent 1)
  else
    do* mmodify (fun c => let b := bat_ c in
      set_bat (mk_Batching (send_batch_ b ++ [p]) (control_staging_ b) (control_used_ b)) c) in
    if batch_size (tuning_ c) <=? len (send_batch_ (bat_ c)) + 1 then flush_send_batch else mret tt.

Definition transmit (datagram : bytes) : udp unit :=
  let* c := mget in
  do* (if len (control_staging_ (bat_ c)) <? control_used_ (bat_ c) + len datagram then flush_send_batch else mret tt) in
  let* c := mget in
  let b := bat_ c in
  let slot := control_used_ b in
  if len (control_staging_ b) <? slot + len datagram then mthrow OutOfBounds
  else
    do* mput (set_bat (mk_Batching (send_batch_ b)
      (ztake slot (control_staging_ b) ++ datagram ++ zdrop (slot + len datagram) (control_staging_ b))
      (slot + len datagram)) c) in
    queue_send (PendingControl slot (len datagram)).

Definition send_control (type : UdpPacketType) : udp unit :=
  let* c := mget in transmit (write_header type 0 (receive_next_ (rcv_ c)) 0 0).

(** The selective acknowledgement of what is past the gap. *)
Definition ack_bitmap (r : ReceiveSide) : Z :=
  foldr (fun e bits =>
    let offset := i32 (u32 (e.1 - receive_next_ r)) in
    if (1 <=? offset) && (offset <=? 64) then Z.lor bits (Z.shiftl 1 (offset - 1)) else bits)
    0 (map_to_list (reorder_buffer_ r)).

Definition send_ack : udp unit :=
  let* c := mget in transmit (write_header Ack 0 (receive_next_ (rcv_ c)) (ack_bitmap (rcv_ c)) 0).

(** * Congestion *)

Definition kAssumedRttUs : double := d_of_Z 1000.

Definition update_rtt (t : UdpTuning) (sample_us : Z) (g : Congestion) : Congestion :=
  let '(srtt, rttvar) :=
    if srtt_us_ g =? 0 then (sample_us, sample_us / 2)
    else
      let difference := if srtt_us_ g <? sample_us then sample_us - srtt_us_ g else srtt_us_ g - sample_us in
      (u64 (7 * srtt_us_ g + sample_us) / 8, u64 (3 * rttvar_us_ g + difference) / 4) in
  let rto := u64 (srtt + 4 * rttvar) in
  let rto := if rto <? min_rto_us t then min_rto_us t else if max_rto_us t <? rto then max_rto_us t else rto in
  mk_Congestion (cwnd_ g) (ssthresh_ g) (cwnd_fraction_ g) (consecutive_timeouts_ g) srtt rttvar rto
    (send_tokens_ g) (last_token_us_ g).

Definition on_loss (t : UdpTuning) (g : Congestion) : Congestion :=
  let ssthresh := d_max (min_cwnd t) (d_div (cwnd_ g) (d_of_Z 2)) in
  mk_Congestion ssthresh ssthresh (d_of_Z 0) (consecutive_timeouts_ g) (srtt_us_ g) (rttvar_us_ g) (rto_us_ g)
    (send_tokens_ g) (last_token_us_ g).

(** One turn of the growth loop of [process_ack]. *)
Definition grow_window (g : Congestion) : Congestion :=
  if d_ltb (cwnd_ g) (ssthresh_ g) then
    mk_Congestion (d_add (cwnd_ g) (d_of_Z 1)) (ssthresh_ g) (cwnd_fraction_ g) (consecutive_timeouts_ g) (srtt_us_ g)
      (rttvar_us_ g) (rto_us_ g) (send_tokens_ g) (last_token_us_ g)
  else
    let fraction := d_add (cwnd_fraction_ g) (d_div (d_of_Z 1) (cwnd_ g)) in
    let '(cwnd, fraction) := if d_geb fraction (d_of_Z 1) then (d_add (cwnd_ g) (d_of_Z 1), d_sub fraction (d_of_Z 1))
                             else (cwnd_ g, fraction) in
    mk_Congestion cwnd (ssthresh_ g) fraction (consecutive_timeouts_ g) (srtt_us_ g)
      (rttvar_us_ g) (rto_us_ g) (send_tokens_ g) (last_token_us_ g).

(** The growth for [n] acknowledgements, with the reset of the timeouts before and the
    ceiling after it. *)
Definition acknowledge (t : UdpTuning) (n : nat) (g : Congestion) : Congestion :=
  let g := if (n =? 0)%nat then g
           else mk_Congestion (cwnd_ g) (ssthresh_ g) (cwnd_fraction_ g) 0 (srtt_us_ g) (rttvar_us_ g) (rto_us_ g)
                  (send_tokens_ g) (last_token_us_ g) in
  let g := Nat.iter n grow_window g in
  if d_ltb (max_cwnd t) (cwnd_ g) then
    mk_Congestion (max_cwnd t) (ssthresh_ g) (cwnd_fraction_ g) (consecutive_timeouts_ g) (srtt_us_ g) (rttvar_us_ g)
      (rto_us_ g) (send_tokens_ g) (last_token_us_ g)
  else g.

Definition refill_pacing_tokens (t : UdpTuning) (now_us : Z) (g : Congestion) : Congestion :=
  if last_token_us_ g =? 0 then
    mk_Congestion (cwnd_ g) (ssthresh_ g) (cwnd_fraction_ g) (consecutive_timeouts_ g) (srtt_us_ g) (rttvar_us_ g) (rto_us_ g)
      (max_burst t) now_us
  else
    let elapsed_us := d_of_Z (u64 (now_us - last_token_us_ g)) in
    let rtt_us := if 0 <? srtt_us_ g then d_of_Z (srtt_us_ g) else kAssumedRttUs in
    let packets_per_us := d_div (cwnd_ g) rtt_us in
    let tokens := d_add (send_tokens_ g) (d_mul elapsed_us packets_per_us) in
    mk_Congestion (cwnd_ g) (ssthresh_ g) (cwnd_fraction_ g) (consecutive_timeouts_ g) (srtt_us_ g) (rttvar_us_ g) (rto_us_ g)
      (if d_ltb (max_burst t) tokens then max_burst t else tokens) now_us.

Definition time_until_token_us (g : Congestion) : Z :=
  if d_geb (send_tokens_ g) (d_of_Z 1) then 0
  else
    let rtt_us := if 0 <? srtt_us_ g then d_of_Z (srtt_us_ g) else kAssumedRttUs in
    let packets_per_us := d_div (cwnd_ g) rtt_us in
    if d_geb (d_of_Z 0) packets_per_us then 1000
    else u64 (d_to_u64 (d_div (d_sub (d_of_Z 1) (send_tokens_ g)) packets_per_us) + 1).

Definition time_until_rto_us (now_us : Z) (c : UdpChannel) : Z :=
  match unacknowledged_ (snd_ c) with
  | [] => rto_us_ (cc_ c)
  | oldest :: _ =>
      let elapsed := u64 (now_us - sp_sent_us oldest) in
      if rto_us_ (cc_ c) <=? elapsed then 0 else rto_us_ (cc_ c) - elapsed
  end.

(** Send a packet again: its time, its count and the acknowledgement in its header are
    refreshed in place. *)
Definition resent (now_us ack : Z) (p : SentPacket) : SentPacket :=
  mk_SentPacket (sp_sequence p)
    (write_header Data (sp_sequence p) ack 0 (u16 (len (sp_datagram p) - kUdpHeaderSize)) ++ zdrop kUdpHeaderSize (sp_datagram p))
    now_us (u32 (sp_transmissions p + 1)) (sp_acknowledged p).

Definition set_unacknowledged (l : list SentPacket) (s : SendSide) : SendSide :=
  mk_SendSide (outgoing_ s) (outgoing_consumed_ s) l (next_sequence_ s) (send_base_ s).

Definition resend_front (now_us : Z) : udp unit :=
  let* c := mget in
  match unacknowledged_ (snd_ c) with
  | [] => mret tt
  | p :: rest =>
      do* mput (set_snd (set_unacknowledged (resent now_us (receive_next_ (rcv_ c)) p :: rest) (snd_ c)) (count_retransmitted c)) in
      queue_send (PendingData (sp_sequence p))
  end.

Definition retransmit_timed_out (now_us : Z) : udp unit :=
  let* c := mget in
  match unacknowledged_ (snd_ c) with
  | [] => mret tt
  | oldest :: _ =>
      let g := cc_ c in
      if u64 (now_us - sp_sent_us oldest) <? rto_us_ g then mret tt
      else
        let t := tuning_ c in
        let consecutive := u32 (consecutive_timeouts_ g + 1) in
        do* mput (set_cc (mk_Congestion (cwnd_ g) (ssthresh_ g) (cwnd_fraction_ g) consecutive (srtt_us_ g) (rttvar_us_ g)
              (rto_us_ g) (send_tokens_ g) (last_token_us_ g)) (count_timeout c)) in
        if max_timeouts t <? consecutive then
          fail (str "the peer stopped responding after " ++ to_string consecutive ++ str " retransmission timeouts")
        else
          do* mmodify (set_cc (mk_Congestion (min_cwnd t) (d_max (min_cwnd t) (d_div (cwnd_ g) (d_of_Z 2))) (d_of_Z 0) consecutive
                (srtt_us_ g) (rttvar_us_ g) (Z.min (max_rto_us t) (u64 (rto_us_ g * 2))) (d_of_Z 0) (last_token_us_ g))) in
          resend_front now_us
  end.

(** The loop of [fill_window]; every turn takes at least a byte, so the bytes left bound it. *)
Fixpoint fill_loop (fuel : nat) (now_us : Z) : udp unit :=
  match fuel with
  | O => mret tt
  | S fuel =>
      let* c := mget in
      let s := snd_ c in
      let g := cc_ c in
      if len (outgoing_ s) <=? outgoing_consumed_ s then mret tt
      else if d_geb (d_of_Z (len (unacknowledged_ s))) (cwnd_ g) then mret tt
      else if d_ltb (send_tokens_ g) (d_of_Z 1) then mret tt
      else
        let g := mk_Congestion (cwnd_ g) (ssthresh_ g) (cwnd_fraction_ g) (consecutive_timeouts_ g) (srtt_us_ g)
          (rttvar_us_ g) (rto_us_ g) (d_sub (send_tokens_ g) (d_of_Z 1)) (last_token_us_ g) in
        let remaining := len (outgoing_ s) - outgoing_consumed_ s in
        let payload := Z.min remaining kUdpMaxPayload in
        let sequence := next_sequence_ s in
        let datagram := write_header Data sequence (receive_next_ (rcv_ c)) 0 (u16 payload) ++
          ztake payload (zdrop (outgoing_consumed_ s) (outgoing_ s)) in
        do* mput (set_cc g (set_snd (mk_SendSide (outgoing_ s) (outgoing_consumed_ s + payload)
              (unacknowledged_ s ++ [mk_SentPacket sequence datagram now_us 1 false])
              (u32 (sequence + 1)) (send_base_ s)) c)) in
        do* queue_send (PendingData sequence) in
        fill_loop fuel now_us
  end.

Definition fill_window : udp unit :=
  let* now_us := monotonic_micros in
  do* mmodify (fun c => set_cc (refill_pacing_tokens (tuning_ c) now_us (cc_ c)) c) in
  let* c := mget in
  fill_loop (length (outgoing_ (snd_ c))) now_us.

(** * Receiving *)

(** The packets below [ack] leave the front; the round trip is measured on those sent once. *)
Fixpoint pop_acknowledged (t : UdpTuning) (ack now_us : Z) (l : list SentPacket) (g : Congestion) (popped : nat)
  : list SentPacket * Congestion * nat :=
  match l with
  | [] => ([], g, popped)
  | front :: rest =>
      if 0 <=? i32 (u32 (sp_sequence front - ack)) then (l, g, popped)
      else
        let g := if sp_transmissions front =? 1 then update_rtt t (u64 (now_us - sp_sent_us front)) g else g in
        pop_acknowledged t ack now_us rest g (S popped)
  end.

(** The bitmap: the packets marked, how many were new and how many there are. *)
Fixpoint mark_acknowledged (ack ack_bits : Z) (l : list SentPacket) : list SentPacket * nat * Z :=
  match l with
  | [] => ([], O, 0)
  | p :: l =>
      let '(l, fresh, beyond) := mark_acknowledged ack ack_bits l in
      let offset := i32 (u32 (sp_sequence p - ack)) in
      if (offset <? 1) || (64 <? offset) then (p :: l, fresh, beyond)
      else if Z.land (Z.shiftr ack_bits (offset - 1)) 1 =? 1 then
        (mk_SentPacket (sp_sequence p) (sp_datagram p) (sp_sent_us p) (sp_transmissions p) true :: l,
         if sp_acknowledged p then fresh else S fresh, beyond + 1)
      else (p :: l, fresh, beyond)
  end.

Definition process_ack (ack ack_bits now_us : Z) : udp unit :=
  let* c := mget in
  let t := tuning_ c in
  let s := snd_ c in
  let '(l, g, popped) := pop_acknowledged t ack now_us (unacknowledged_ s) (cc_ c) O in
  let '(l, fresh, beyond) := mark_acknowledged ack ack_bits l in
  let g := acknowledge t (popped + fresh) g in
  do* mput (note_rtt (srtt_us_ g)
        (set_cc g (set_snd (mk_SendSide (outgoing_ s) (outgoing_consumed_ s) l (next_sequence_ s) ack) c))) in
  match l with
  | missing :: _ =>
      if (fast_retransmit_threshold t <=? beyond) &&
         (negb (sp_acknowledged missing) && (srtt_us_ g / 2 <? u64 (now_us - sp_sent_us missing)))
      then
        do* mmodify (set_cc (on_loss t g)) in
        resend_front now_us
      else mret tt
  | [] => mret tt
  end.

Definition upd_rcv (f : ReceiveSide -> ReceiveSide) : udp unit := mmodify (fun c => set_rcv (f (rcv_ c)) c).

Definition need_ack (r : ReceiveSide) : ReceiveSide :=
  mk_ReceiveSide (receive_next_ r) (reorder_buffer_ r) (delivered_ r) (delivered_consumed_ r) true (peer_finished_ r)
    (fin_acknowledged_ r) (sent_fin_ r).

(** What a datagram with a good header does. *)
Definition process_parsed (data : bytes) (header : ParsedHeader) : udp unit :=
  do* mmodify count_received in
  let* now_us := monotonic_micros in
  do* process_ack (h_ack header) (h_ack_bits header) now_us in
  match h_type header with
  | Data =>
      let* c := mget in
      let r := rcv_ c in
      let distance := i32 (u32 (h_sequence header - receive_next_ r)) in
      if distance <? 0 then
        do* mmodify count_duplicate in
        upd_rcv need_ack
      else if kMaxReorderPackets <=? Z.of_nat (size (reorder_buffer_ r)) then
        fail (str "the peer sent more out-of-order data than the reorder buffer allows")
      else
        do* (if 0 <? distance then mmodify count_reordered else mret tt) in
        do* (match reorder_buffer_ r !! h_sequence header with
             | Some _ => mmodify count_duplicate
             | None =>
                 upd_rcv (fun r => mk_ReceiveSide (receive_next_ r)
                   (<[h_sequence header := ztake (h_length header) (zdrop kUdpHeaderSize data)]> (reorder_buffer_ r))
                   (delivered_ r) (delivered_consumed_ r) (ack_pending_ r) (peer_finished_ r)
                   (fin_acknowledged_ r) (sent_fin_ r))
             end) in
        upd_rcv need_ack
  | Fin =>
      do* upd_rcv (fun r => mk_ReceiveSide (receive_next_ r) (reorder_buffer_ r) (delivered_ r) (delivered_consumed_ r)
            (ack_pending_ r) true (fin_acknowledged_ r) (sent_fin_ r)) in
      send_control FinAck
  | FinAck =>
      upd_rcv (fun r => mk_ReceiveSide (receive_next_ r) (reorder_buffer_ r) (delivered_ r) (delivered_consumed_ r)
        (ack_pending_ r) (peer_finished_ r) true (sent_fin_ r))
  | _ => mret tt
  end.

Definition process_packet (data : bytes) : udp unit :=
  let* parsed := mlift (parse_header data) in
  match parsed with
  | None => mret tt
  | Some header => process_parsed data header
  end.

Fixpoint process_packets (ds : list bytes) : udp unit :=
  match ds with
  | [] => mret tt
  | d :: ds => do* process_packet d in process_packets ds
  end.

Definition backlog (r : ReceiveSide) : Z := len (delivered_ r) - delivered_consumed_ r.

Definition set_recv_events (evs : list recv_event) (c : UdpChannel) : UdpChannel :=
  let k := sock_ c in set_sock (mk_udp_socket evs (k_send k) (k_wait k) (k_clock k) (k_sent k)) c.

(** The loop of [receive_batch]. A datagram longer than its slot is cut. *)
Fixpoint receive_loop (evs : list recv_event) : udp unit :=
  match evs with
  | [] => mret tt
  | ev :: evs =>
      do* mmodify (set_recv_events evs) in
      match ev with
      | RecvEintr => receive_loop evs
      | RecvAgain => mret tt
      | RecvBatch ds =>
          let* c := mget in
          let batch := batch_size (tuning_ c) in
          let taken := ztake kUdpDatagramSize <$> ztake batch ds in
          if len taken =? 0 then mret tt
          else
            do* process_packets taken in
            if len taken <? batch then mret tt
            else
              let* c := mget in
              if kMaxDeliveredBacklog <=? backlog (rcv_ c) then mret tt else receive_loop evs
      end
  end.

Definition receive_batch : udp unit := let* c := mget in receive_loop (k_recv (sock_ c)).

(** The loop of [deliver_in_order]: every turn takes an entry of the buffer. *)
Fixpoint deliver_loop (fuel : nat) (r : ReceiveSide) : ReceiveSide :=
  match fuel with
  | O => r
  | S fuel =>
      if kMaxDeliveredBacklog <=? backlog r then r
      else match reorder_buffer_ r !! receive_next_ r with
           | None => r
           | Some payload =>
               deliver_loop fuel
                 (mk_ReceiveSide (u32 (receive_next_ r + 1)) (delete (receive_next_ r) (reorder_buffer_ r))
                    (delivered_ r ++ payload) (delivered_consumed_ r) (ack_pending_ r) (peer_finished_ r)
                    (fin_acknowledged_ r) (sent_fin_ r))
           end
  end.

Definition compact (r : ReceiveSide) : ReceiveSide :=
  if (0 <? delivered_consumed_ r) && (len (delivered_ r) / 2 <=? delivered_consumed_ r) then
    mk_ReceiveSide (receive_next_ r) (reorder_buffer_ r) (zdrop (delivered_consumed_ r) (delivered_ r)) 0 (ack_pending_ r)
      (peer_finished_ r) (fin_acknowledged_ r) (sent_fin_ r)
  else r.

Definition deliver_in_order : udp unit :=
  upd_rcv (fun r => compact (deliver_loop (S (size (reorder_buffer_ r))) r)).

(** * The engine and the byte interface *)

Inductive PumpIntent := SendOnly | AwaitData | AwaitAcks.

(** Whether [pump] sleeps. *)
Definition should_wait (intent : PumpIntent) (c : UdpChannel) : bool :=
  let s := snd_ c in
  let r := rcv_ c in
  let has_more_to_send := outgoing_consumed_ s <? len (outgoing_ s) in
  let paced_out := d_ltb (send_tokens_ (cc_ c)) (d_of_Z 1) in
  let window_full := d_geb (d_of_Z (len (unacknowledged_ s))) (cwnd_ (cc_ c)) in
  match intent with
  | SendOnly => has_more_to_send && (window_full || paced_out)
  | AwaitData => (len (delivered_ r) <=? delivered_consumed_ r) && negb (peer_finished_ r)
  | AwaitAcks => has_more_to_send || negb (len (unacknowledged_ s) =? 0)
  end.

(** How long [pump] sleeps, in microseconds. *)
Definition wait_time (max_wait_ms now_us : Z) (c : UdpChannel) : Z :=
  let s := snd_ c in
  let has_more_to_send := outgoing_consumed_ s <? len (outgoing_ s) in
  let paced_out := d_ltb (send_tokens_ (cc_ c)) (d_of_Z 1) in
  let window_full := d_geb (d_of_Z (len (unacknowledged_ s))) (cwnd_ (cc_ c)) in
  let wait_us := max_wait_ms * 1000 in
  let wait_us := if negb (len (unacknowledged_ s) =? 0) then Z.min wait_us (time_until_rto_us now_us c) else wait_us in
  let wait_us := if paced_out && has_more_to_send && negb window_full then Z.min wait_us (time_until_token_us (cc_ c)) else wait_us in
  if wait_us <? 1 then 1 else wait_us.

Definition pump (intent : PumpIntent) (max_wait_ms : Z) : udp unit :=
  let* now_us := monotonic_micros in
  do* retransmit_timed_out now_us in
  do* fill_window in
  do* flush_send_batch in
  do* receive_batch in
  do* deliver_in_order in
  let* c := mget in
  do* (if ack_pending_ (rcv_ c) then
         do* send_ack in
         do* flush_send_batch in
         upd_rcv (fun r => mk_ReceiveSide (receive_next_ r) (reorder_buffer_ r) (delivered_ r) (delivered_consumed_ r) false
           (peer_finished_ r) (fin_acknowledged_ r) (sent_fin_ r))
       else mret tt) in
  let* now_us := monotonic_micros in
  let* c := mget in
  if negb (should_wait intent c) || (max_wait_ms <=? 0) then mret tt
  else wait_ (wait_time max_wait_ms now_us c) "ppoll failed".

(** Loops around [pump]: every call reads the clock, so its readings bound the calls. *)
Fixpoint write_loop (fuel : nat) : udp unit :=
  match fuel with
  | O => mthrow Blocks
  | S fuel =>
      let* c := mget in
      if outgoing_consumed_ (snd_ c) <? len (outgoing_ (snd_ c)) then
        do* pump SendOnly 50 in
        write_loop fuel
      else mret tt
  end.

Definition clock_fuel (c : UdpChannel) : nat := S (length (k_clock (sock_ c))).

Definition udp_write_bytes (data : bytes) : udp unit :=
  do* mmodify (fun c => let s := snd_ c in
        set_snd (mk_SendSide (outgoing_ s ++ data) (outgoing_consumed_ s) (unacknowledged_ s) (next_sequence_ s) (send_base_ s)) c) in
  let* c := mget in
  do* write_loop (clock_fuel c) in
  mmodify (fun c => let s := snd_ c in
    set_snd (mk_SendSide [] 0 (unacknowledged_ s) (next_sequence_ s) (send_base_ s)) c).

(** [memcpy] of [take] bytes out of the delivered ones. *)
Definition take_delivered (take : Z) (r : ReceiveSide) : ReceiveSide :=
  let consumed := delivered_consumed_ r + take in
  let '(delivered, consumed) := if consumed =? len (delivered_ r) then ([], 0) else (delivered_ r, consumed) in
  mk_ReceiveSide (receive_next_ r) (reorder_buffer_ r) delivered consumed (ack_pending_ r) (peer_finished_ r)
    (fin_acknowledged_ r) (sent_fin_ r).

(** A turn that copies is followed by the end or by one that pumps, hence twice the calls. *)
Fixpoint read_loop (fuel : nat) (n : Z) (out : bytes) : udp bytes :=
  match fuel with
  | O => mthrow Blocks
  | S fuel =>
      if n <=? len out then mret out
      else
        let* c := mget in
        let r := rcv_ c in
        if 0 <? backlog r then
          let take := Z.min (backlog r) (n - len out) in
          do* upd_rcv (take_delivered take) in
          read_loop fuel n (out ++ ztake take (zdrop (delivered_consumed_ r) (delivered_ r)))
        else if peer_finished_ r && bool_decide (reorder_buffer_ r = ∅) then mthrow PeerClosed
        else
          do* pump AwaitData 200 in
          read_loop fuel n out
  end.

Definition udp_read_exactly (n : Z) : udp bytes :=
  do* pump AwaitData 0 in
  let* c := mget in
  read_loop (2 * clock_fuel c) n [].

Fixpoint flush_all_loop (fuel : nat) : udp unit :=
  match fuel with
  | O => mthrow Blocks
  | S fuel =>
      let* c := mget in
      let s := snd_ c in
      if (outgoing_consumed_ s <? len (outgoing_ s)) || negb (len (unacknowledged_ s) =? 0) then
        do* pump AwaitAcks 200 in
        flush_all_loop fuel
      else mret tt
  end.

Definition udp_flush : udp unit :=
  let* c := mget in
  do* flush_all_loop (clock_fuel c) in
  flush_send_batch.

(** The loop of [close_gracefully]; every turn reads the clock. *)
Fixpoint close_loop (fuel : nat) (deadline : Z) : udp unit :=
  match fuel with
  | O => mthrow Blocks
  | S fuel =>
      let* c := mget in
      if fin_acknowledged_ (rcv_ c) then mret tt
      else
        let* now := monotonic_micros in
        if now / 1000 <? deadline then
          do* send_control Fin in
          do* flush_send_batch in
          do* pump AwaitAcks 100 in
          close_loop fuel deadline
        else mret tt
  end.

Definition udp_close_gracefully : udp unit := fun c =>
  let body :=
    do* udp_flush in
    do* upd_rcv (fun r => mk_ReceiveSide (receive_next_ r) (reorder_buffer_ r) (delivered_ r) (delivered_consumed_ r)
          (ack_pending_ r) (peer_finished_ r) (fin_acknowledged_ r) true) in
    let* now := monotonic_micros in
    let* c := mget in
    close_loop (clock_fuel c) (u64 (now / 1000 + 2000)) in
  match body c with
  | (Err e, c') => if is_dz_error e then (Ok tt, c') else (Err e, c')
  | ok => ok
  end.
