(* ===== verification/UdpStream.v ===== *)
(** The UDP channel carries a stream: whatever the network loses, repeats, reorders or
    delays, what one end reads is a prefix of what the other wrote, and a flush returns only
    when the other end has it all.

    [inv] relates a channel to its history, the [ghost]: the packets made of what was
    written, how many of them were given up as acknowledged, how many of the peer's were
    delivered, and what was written and read. [D] is every datagram the kernel hands the
    channel. What the invariant says about sending holds for any [D]; the parts about receiving
    and acknowledgements are for every packet list and bound the datagrams of [D] respect. *)

From S2P Require Import Prelude Double Endian Socket Protocol Crypto ReliableUdp.

(** * Headers *)

Definition known_type (t : UdpPacketType) : Prop := match t with OtherPacket _ => False | _ => True end.

Lemma write_header_len t s a b n : len (write_header t s a b n) = kUdpHeaderSize.
Proof. done. Qed.

Lemma parse_write_header t s a b payload :
  known_type t -> is_u32 s -> is_u32 a -> is_u64 b -> len payload <= kUdpMaxPayload ->
  parse_header (write_header t s a b (len payload) ++ payload) =
    Ok (Some (mk_ParsedHeader t s a b (len payload))).
Proof.
  intros Ht Hs Ha Hb Hn. pose proof (len_nonneg payload). unfold parse_header.
  rewrite len_app, write_header_len. unfold kUdpMaxPayload, kUdpDatagramSize, kUdpHeaderSize in *.
  destruct (Z.ltb_spec (22 + len payload) 22); [lia|]. set (d := write_header _ _ _ _ _ ++ payload).
  assert (d = 68 :: 81 :: packet_type_to_u8 t :: 0 :: store_u32 s ++ store_u32 a ++ store_u64 b ++ store_u16 (len payload) ++ payload) as Hd.
  { unfold d, write_header. by rewrite <- !app_assoc. }
  assert (zdrop 4 d = store_u32 s ++ store_u32 a ++ store_u64 b ++ store_u16 (len payload) ++ payload) as H4 by (by rewrite Hd).
  assert (zdrop 8 d = store_u32 a ++ store_u64 b ++ store_u16 (len payload) ++ payload) as H8 by (by rewrite Hd).
  assert (zdrop 12 d = store_u64 b ++ store_u16 (len payload) ++ payload) as H12 by (by rewrite Hd).
  assert (zdrop 20 d = store_u16 (len payload) ++ payload) as H20 by (by rewrite Hd).
  rewrite H4, H8, H12, H20, !load_store_u32, load_store_u64, load_store_u16 by (done || (unfold is_u; lia)).
  rewrite Hd. cbv iota. cbn [Z.eqb Pos.eqb negb orb].
  destruct (Z.ltb_spec (1200 - 22) (len payload)); [lia|]. destruct (Z.ltb_spec (22 + len payload) (22 + len payload)); [lia|].
  by destruct t.
Qed.

(** * What datagrams say *)

Definition data_ok (packets : list bytes) (d : bytes) : Prop :=
  forall h, parse_header d = Ok (Some h) -> h_type h = Data ->
    exists i payload, packets !! i = Some payload /\ h_sequence h = u32 (Z.of_nat i) /\
      ztake (h_length h) (zdrop kUdpHeaderSize d) = payload.

Definition ack_ok (n : nat) (d : bytes) : Prop :=
  forall h, parse_header d = Ok (Some h) -> exists m : nat, (m <= n)%nat /\ h_ack h = u32 (Z.of_nat m).

Record ghost := mk_ghost {
  g_packets : list bytes;
  g_base : nat;
  g_next : nat;
  g_written : bytes;
  g_read : bytes;
  g_limit : Z;
}.

(** How many packets [n] bytes written at once become. *)
Definition packets_for (n : Z) : Z := (n + kUdpMaxPayload - 1) / kUdpMaxPayload.

Lemma packets_for_app a b : packets_for (a + b) <= packets_for a + packets_for b.
Proof. unfold packets_for. change kUdpMaxPayload with 1178. Z.to_euclidean_division_equations. lia. Qed.

Lemma packets_for_fill n : 0 < n -> packets_for (n - Z.min n kUdpMaxPayload) + 1 = packets_for n.
Proof. unfold packets_for. change kUdpMaxPayload with 1178. Z.to_euclidean_division_equations. lia. Qed.

Lemma packets_for_pos n : 0 <= n -> 0 <= packets_for n.
Proof. unfold packets_for. change kUdpMaxPayload with 1178. Z.to_euclidean_division_equations. lia. Qed.

Definition sent_ok (g : ghost) (d : bytes) : Prop :=
  data_ok (g_packets g) d /\ ack_ok (g_next g) d /\ len d <= kUdpDatagramSize.

Definition grows (g g' : ghost) : Prop :=
  g_packets g `prefix_of` g_packets g' /\ (g_next g <= g_next g')%nat /\
  g_written g' = g_written g /\ g_read g' = g_read g /\ g_limit g' = g_limit g.

Lemma grows_refl g : grows g g.
Proof. done. Qed.

Lemma grows_trans g1 g2 g3 : grows g1 g2 -> grows g2 g3 -> grows g1 g3.
Proof. intros (P1 & N1 & W1 & R1 & L1) (P2 & N2 & W2 & R2 & L2). split_and!; [by etrans|lia|congruence..]. Qed.

Lemma sent_ok_grows g g' d : grows g g' -> sent_ok g d -> sent_ok g' d.
Proof.
  intros (HP & HN & _) (Hd & Ha & Hl). split_and!; [| |done].
  - intros h Hh Ht. destruct (Hd h Hh Ht) as (i & payload & Hi & ?). exists i, payload. split; [|done]. by eapply prefix_lookup_Some.
  - intros h Hh. destruct (Ha h Hh) as (m & ? & ?). exists m. split; [lia|done].
Qed.

(** A data packet as it is built and rebuilt. *)
Definition data_datagram (i a : nat) (payload : bytes) : bytes :=
  write_header Data (u32 (Z.of_nat i)) (u32 (Z.of_nat a)) 0 (len payload) ++ payload.

Definition packet_fits (payload : bytes) : Prop := 0 < len payload <= kUdpMaxPayload.

Lemma data_datagram_ok g i a payload :
  g_packets g !! i = Some payload -> packet_fits payload -> (a <= g_next g)%nat -> sent_ok g (data_datagram i a payload).
Proof.
  intros Hi [Hp0 Hp] Ha. unfold data_datagram.
  assert (forall h, parse_header (write_header Data (u32 (Z.of_nat i)) (u32 (Z.of_nat a)) 0 (len payload) ++ payload) = Ok (Some h) ->
    h = mk_ParsedHeader Data (u32 (Z.of_nat i)) (u32 (Z.of_nat a)) 0 (len payload)) as Hh.
  { intros h. rewrite parse_write_header by (done || apply u32_range). by intros [= <-]. }
  split_and!.
  - intros h ->%Hh _. exists i, payload. split_and!; [done|done|]. cbn [h_length].
    rewrite zdrop_app_len_eq by done. by apply ztake_len.
  - intros h ->%Hh. by exists a.
  - rewrite len_app, write_header_len. unfold kUdpMaxPayload in Hp. lia.
Qed.

Definition control_datagram (t : UdpPacketType) (a : nat) (bits : Z) : bytes :=
  write_header t 0 (u32 (Z.of_nat a)) bits 0.

Lemma control_datagram_ok g t a bits :
  known_type t -> t <> Data -> is_u64 bits -> (a <= g_next g)%nat -> sent_ok g (control_datagram t a bits).
Proof.
  intros Ht Hd Hb Ha. unfold control_datagram.
  assert (forall h, parse_header (write_header t 0 (u32 (Z.of_nat a)) bits 0) = Ok (Some h) ->
    h = mk_ParsedHeader t 0 (u32 (Z.of_nat a)) bits 0) as Hh.
  { intros h. pose proof (parse_write_header t 0 (u32 (Z.of_nat a)) bits []) as E. change (len []) with 0 in E. rewrite app_nil_r in E.
    rewrite E by (done || apply u32_range). by intros [= <-]. }
  split_and!; [|intros h ->%Hh; by exists a|done]. intros h ->%Hh. done.
Qed.

(** * The invariant *)

(** The packet of index [i] in the retransmission queue. *)
Definition queued (g : ghost) (i : nat) (p : SentPacket) : Prop :=
  exists payload (a : nat), g_packets g !! i = Some payload /\ (a <= g_next g)%nat /\
    sp_sequence p = u32 (Z.of_nat i) /\ sp_datagram p = data_datagram i a payload.

Record send_inv (g : ghost) (s : SendSide) : Prop := {
  si_written : g_written g = mjoin (g_packets g) ++ zdrop (outgoing_consumed_ s) (outgoing_ s);
  si_consumed : 0 <= outgoing_consumed_ s <= len (outgoing_ s);
  si_fits : Forall packet_fits (g_packets g);
  si_next : next_sequence_ s = u32 (len (g_packets g));
  si_count : (g_base g + length (unacknowledged_ s))%nat = length (g_packets g);
  si_limit : len (g_packets g) + packets_for (len (outgoing_ s) - outgoing_consumed_ s) <= g_limit g;
  si_queued : forall k p, unacknowledged_ s !! k = Some p -> queued g (g_base g + k) p;
}.

(** A slot of the staging area that a queued send points at. *)
Definition slot_ok (g : ghost) (b : Batching) (slot n : Z) : Prop :=
  0 <= slot /\ n = kUdpHeaderSize /\ slot + n <= control_used_ b /\
  exists t a bits, known_type t /\ t <> Data /\ is_u64 bits /\ (a <= g_next g)%nat /\
    ztake n (zdrop slot (control_staging_ b)) = control_datagram t a bits.

Record batch_inv (g : ghost) (b : Batching) : Prop := {
  bi_used : 0 <= control_used_ b <= len (control_staging_ b);
  bi_slots : forall slot n, PendingControl slot n ∈ send_batch_ b -> slot_ok g b slot n;
}.

(** What the receive side is, when the peer's packets are [q]. *)
Record stream_inv (q : list bytes) (g : ghost) (r : ReceiveSide) : Prop := {
  st_next : (g_next g <= length q)%nat;
  st_bytes : g_read g ++ zdrop (delivered_consumed_ r) (delivered_ r) = mjoin (take (g_next g) q);
  st_buffer : forall s d, reorder_buffer_ r !! s = Some d ->
    exists i, s = u32 (Z.of_nat i) /\ q !! i = Some d /\ (g_next g <= i)%nat;
}.

Section Invariant.
Context (D : list bytes).

Record inv (g : ghost) (c : UdpChannel) : Prop := {
  iv_send : send_inv g (snd_ c);
  iv_batch : batch_inv g (bat_ c);
  iv_sent : Forall (sent_ok g) (k_sent (sock_ c));
  iv_next : receive_next_ (rcv_ c) = u32 (Z.of_nat (g_next g));
  iv_delivered : 0 <= delivered_consumed_ (rcv_ c) <= len (delivered_ (rcv_ c));
  iv_stream : forall q, Forall (data_ok q) D -> len q < 2 ^ 31 -> stream_inv q g (rcv_ c);
  iv_base : forall m, Forall (ack_ok m) D -> Z.of_nat m < 2 ^ 31 -> len (g_packets g) < 2 ^ 31 -> (g_base g <= m)%nat;
  iv_script : forall ds, RecvBatch ds ∈ k_recv (sock_ c) -> forall d, d ∈ ds -> ztake kUdpDatagramSize d ∈ D;
}.

(** The invariant looks at the buffers only. *)
Lemma inv_same g c c' :
  snd_ c' = snd_ c -> rcv_ c' = rcv_ c -> bat_ c' = bat_ c -> k_recv (sock_ c') = k_recv (sock_ c) ->
  k_sent (sock_ c') = k_sent (sock_ c) -> inv g c -> inv g c'.
Proof. intros E1 E2 E3 E4 E5 []. by split; rewrite ?E1, ?E2, ?E3, ?E4, ?E5. Qed.

(** From [c], [m] keeps the invariant unless it runs into undefined behaviour. *)
Definition stays_at {A} (m : udp A) (c : UdpChannel) : Prop :=
  forall g, inv g c -> (m c).1 = Err OutOfBounds \/ exists g', inv g' (m c).2 /\ grows g g'.
Definition stays {A} (m : udp A) : Prop := forall c, stays_at m c.

Section Triples.
Context {A B : Type}.

Lemma stays_bind_at (m : udp A) (k : A -> udp B) c : stays_at m c -> (forall a, stays (k a)) -> stays_at (mbind m k) c.
Proof.
  intros Hm Hk g Hg. unfold mbind. destruct (Hm g Hg) as [E|(g1 & H1 & G1)].
  - destruct (m c) as [[a|e] c1]; [done|]. cbn in E. injection E as ->. by left.
  - destruct (m c) as [[a|e] c1]; [|right; by exists g1]. destruct (Hk a c1 g1 H1) as [E|(g2 & H2 & G2)]; [by left|].
    right. exists g2. split; [done|]. by eapply grows_trans.
Qed.

Lemma stays_bind (m : udp A) (k : A -> udp B) : stays m -> (forall a, stays (k a)) -> stays (mbind m k).
Proof. intros Hm Hk c. by apply stays_bind_at. Qed.

Lemma stays_get_at (k : UdpChannel -> udp B) c : stays_at (k c) c -> stays_at (mbind mget k) c.
Proof. done. Qed.

Lemma stays_get (k : UdpChannel -> udp B) : (forall c, stays (k c)) -> stays (mbind mget k).
Proof. intros Hk c. apply Hk. Qed.

Lemma stays_ret (a : A) : stays (mret a).
Proof. intros c g Hg. right. by exists g. Qed.

Lemma stays_throw (e : exn) : stays (mthrow (A := A) e).
Proof. intros c g Hg. right. by exists g. Qed.

Lemma stays_lift (r : result A) : stays (mlift r).
Proof. intros c g Hg. right. by exists g. Qed.

Lemma stays_if (b : bool) (m1 m2 : udp A) : stays m1 -> stays m2 -> stays (if b then m1 else m2).
Proof. by destruct b. Qed.

(** A change of state that is in keeping with some growth, and what follows it. *)
Lemma stays_put_at (c c1 : UdpChannel) (m : udp A) :
  (forall g, inv g c -> exists g', inv g' c1 /\ grows g g') -> stays_at m c1 -> stays_at (do* mput c1 in m) c.
Proof.
  intros Hp Hm g Hg. destruct (Hp g Hg) as (g1 & H1 & G1). cbn. destruct (Hm g1 H1) as [E|(g2 & H2 & G2)]; [by left|].
  right. exists g2. split; [done|]. by eapply grows_trans.
Qed.

Lemma stays_modify f : (forall c g, inv g c -> exists g', inv g' (f c) /\ grows g g') -> stays (mmodify f).
Proof. intros Hf c g Hg. right. cbn. by apply Hf. Qed.

(** A call that leaves the buffers alone. *)
Lemma stays_aside (m : udp A) :
  (forall c, let c' := (m c).2 in snd_ c' = snd_ c /\ rcv_ c' = rcv_ c /\ bat_ c' = bat_ c /\
     k_recv (sock_ c') = k_recv (sock_ c) /\ k_sent (sock_ c') = k_sent (sock_ c)) -> stays m.
Proof.
  intros Hm c g Hg. right. exists g. split; [|done]. destruct (Hm c) as (? & ? & ? & ? & ?). by eapply inv_same.
Qed.
End Triples.

Lemma stays_clock : stays monotonic_micros.
Proof. apply stays_aside. intros c. unfold monotonic_micros. by destruct (k_clock (sock_ c)). Qed.

Lemma stays_wait t what : stays (wait_ t what).
Proof. apply stays_aside. intros c. unfold wait_. by destruct (k_wait (sock_ c)) as [|[] ?]. Qed.

Lemma stays_aside_modify f :
  (forall c, snd_ (f c) = snd_ c /\ rcv_ (f c) = rcv_ c /\ bat_ (f c) = bat_ c /\
     k_recv (sock_ (f c)) = k_recv (sock_ c) /\ k_sent (sock_ (f c)) = k_sent (sock_ c)) -> stays (mmodify f).
Proof. intros Hf. apply stays_aside. intros c. apply Hf. Qed.

(** * Sending *)

Lemma queued_sent_ok g i p : Forall packet_fits (g_packets g) -> queued g i p -> sent_ok g (sp_datagram p).
Proof.
  intros Hf (payload & a & Hi & Ha & _ & ->). apply data_datagram_ok; [done| |done]. by eapply Forall_lookup_1.
Qed.

Lemma datagram_ok g c p d :
  inv g c -> p ∈ send_batch_ (bat_ c) -> datagram_of c p = Ok d -> sent_ok g d.
Proof.
  intros Hg Hp. destruct p as [s|slot n]; cbn.
  - destruct (list_find _ _) as [[k q]|] eqn:E; [|done]. intros [= <-]. apply list_find_Some in E as (Hk & _).
    eapply queued_sent_ok; [apply Hg|by eapply si_queued; [apply Hg|]].
  - intros [= <-]. destruct (bi_slots _ _ (iv_batch _ _ Hg) slot n Hp) as (_ & _ & _ & t & a & bits & ? & ? & ? & ? & ->).
    by apply control_datagram_ok.
Qed.

Lemma gather_ok g c ps ds :
  inv g c -> (forall p, p ∈ ps -> p ∈ send_batch_ (bat_ c)) -> gather c ps = Ok ds -> Forall (sent_ok g) ds.
Proof.
  intros Hg. revert ds. induction ps as [|p ps IH]; intros ds Hin; cbn; [by intros [= <-]|].
  destruct (datagram_of c p) as [d|] eqn:E; [|done]. destruct (gather c ps) as [ds'|] eqn:E'; [|done]. intros [= <-].
  constructor.
  - eapply datagram_ok; [done| |done]. apply Hin. left.
  - apply IH; [|done]. intros q Hq. apply Hin. by right.
Qed.

Lemma stays_kernel_takes ps evs c :
  (forall p, p ∈ ps -> p ∈ send_batch_ (bat_ c)) -> stays_at (kernel_takes ps evs) c.
Proof.
  intros Hps g Hg. unfold kernel_takes, mget, mlift, mbind, mmodify. destruct (gather c ps) as [ds|e] eqn:E.
  - right. exists g. split; [|done]. cbn. pose proof (gather_ok g c ps ds Hg Hps E) as Hds.
    destruct Hg. split; try done. cbn. apply Forall_app. by split.
  - cbn. right. by exists g.
Qed.

Lemma stays_flush_loop evs sent stalls : stays (flush_loop evs sent stalls).
Proof.
  revert sent stalls. induction evs as [|ev evs IH]; intros sent stalls c; apply stays_get_at; cbv zeta;
    (destruct (_ =? 0); [apply stays_ret|]); (destruct (_ <? _); [apply stays_throw|]).
  - apply stays_bind_at; [|intros; apply stays_ret]. apply stays_kernel_takes. intros p. apply zdrop_elem.
  - destruct ev as [n| | | |e].
    + apply stays_bind_at; [|intros; apply IH]. apply stays_kernel_takes. intros p Hp.
      by eapply zdrop_elem, ztake_elem.
    + apply stays_bind; [by apply stays_aside_modify|]. intros _. apply IH.
    + apply stays_bind; [by apply stays_aside_modify|]. intros _. apply stays_if; [apply stays_ret|].
      apply stays_bind; [apply stays_wait|]. intros _. apply IH.
    + apply stays_bind; [by apply stays_aside_modify|]. intros _. apply IH.
    + apply stays_bind; [by apply stays_aside_modify|]. intros _. apply stays_throw.
Qed.

(** The same for one history. *)
Definition ok_from {A} (g : ghost) (m : udp A) (c : UdpChannel) : Prop :=
  (m c).1 = Err OutOfBounds \/ exists g', inv g' (m c).2 /\ grows g g'.

Lemma ok_bind {A B} g (m : udp A) (k : A -> udp B) c :
  ok_from g m c -> (forall a c1 g1, m c = (Ok a, c1) -> inv g1 c1 -> grows g g1 -> ok_from g1 (k a) c1) -> ok_from g (mbind m k) c.
Proof.
  intros Hm Hk. unfold ok_from, mbind in *. destruct (m c) as [[a|e] c1] eqn:E.
  - destruct Hm as [|(g1 & H1 & G1)]; [done|]. destruct (Hk a c1 g1 eq_refl H1 G1) as [E'|(g2 & H2 & G2)]; [by left|].
    right. exists g2. split; [done|]. by eapply grows_trans.
  - destruct Hm as [[= ->]|(g1 & H1 & G1)]; [by left|]. right. by exists g1.
Qed.

Lemma ok_modify {A} g g1 f (m : udp A) c :
  inv g1 (f c) -> grows g g1 -> (inv g1 (f c) -> ok_from g1 m (f c)) -> ok_from g (do* mmodify f in m) c.
Proof.
  intros H1 G1 Hm. destruct (Hm H1) as [E|(g2 & H2 & G2)]; [by left|]. right. exists g2. split; [done|]. by eapply grows_trans.
Qed.

Lemma ok_put {A} g g1 c1 (m : udp A) c :
  inv g1 c1 -> grows g g1 -> (inv g1 c1 -> ok_from g1 m c1) -> ok_from g (do* mput c1 in m) c.
Proof. apply (ok_modify g g1 (fun _ => c1)). Qed.

Lemma ok_get {A} g (k : UdpChannel -> udp A) c : ok_from g (k c) c -> ok_from g (mbind mget k) c.
Proof. done. Qed.

Lemma stays_intro {A} (m : udp A) : (forall g c, inv g c -> ok_from g m c) -> stays m.
Proof. intros Hm c g Hg. by apply Hm. Qed.

Lemma stays_ok {A} g (m : udp A) c : stays m -> inv g c -> ok_from g m c.
Proof. intros Hm Hg. by apply Hm. Qed.

Lemma ok_ret {A} g (a : A) c : inv g c -> ok_from g (mret a) c.
Proof. by apply stays_ok, stays_ret. Qed.

Lemma ok_throw {A} g (e : exn) c : inv g c -> ok_from g (mthrow (A := A) e) c.
Proof. by apply stays_ok, stays_throw. Qed.

Lemma stays_flush : stays flush_send_batch.
Proof.
  apply stays_intro. intros g c Hg. apply ok_get.
  destruct (_ =? 0); [by apply ok_ret|]. eapply ok_bind; [by apply stays_ok; [apply stays_flush_loop|]|].
  intros sent c1 g1 _ H1 _. apply (stays_ok g1); [|done]. apply stays_modify. clear. intros c g Hg. exists g. split; [|done].
  destruct Hg as [H1 [Hu Hs] H3 H4 H5 H6 H7 H8]. split; try done. cbn. split; cbn.
  - destruct (_ =? 0); lia.
  - intros slot n Hin. assert ((len (zdrop sent (send_batch_ (bat_ c))) =? 0) = false) as ->.
    { apply Z.eqb_neq. intros E%len_zero_nil. rewrite E in Hin. by apply elem_of_nil in Hin. }
    apply zdrop_elem in Hin. exact (Hs slot n Hin).
Qed.

Lemma inv_push p g c :
  inv g c -> (forall slot n, p = PendingControl slot n -> slot_ok g (bat_ c) slot n) ->
  inv g (set_bat (mk_Batching (send_batch_ (bat_ c) ++ [p]) (control_staging_ (bat_ c)) (control_used_ (bat_ c))) c).
Proof.
  intros [H1 [Hu Hs] H3 H4 H5 H6 H7 H8] Hp. split; try done. split; [done|]. cbn.
  intros slot n [Hin|Hin]%elem_of_app; [exact (Hs slot n Hin)|]. apply list_elem_of_singleton in Hin. exact (Hp slot n (eq_sym Hin)).
Qed.

Lemma ok_queue p g c :
  inv g c -> (forall slot n, p = PendingControl slot n -> slot_ok g (bat_ c) slot n) -> ok_from g (queue_send p) c.
Proof.
  intros Hg Hp. apply ok_get. cbv zeta.
  eapply (ok_modify g g); [by eapply inv_same, Hg|done|]. intros Hg1. destruct (match test_loss_ c with Some _ => _ | None => _ end).
  - by apply stays_ok; [apply stays_aside_modify|].
  - eapply (ok_modify g g); [by apply (inv_push p g (set_test_loss _ c))|done|]. intros Hg2.
    destruct (_ <=? _); [|by apply ok_ret]. by apply stays_ok; [apply stays_flush|].
Qed.

(** Control packets. *)
Definition is_control (g : ghost) (d : bytes) : Prop :=
  exists t a bits, known_type t /\ t <> Data /\ is_u64 bits /\ (a <= g_next g)%nat /\ d = control_datagram t a bits.

Lemma is_control_grows g g' d : grows g g' -> is_control g d -> is_control g' d.
Proof. intros (_ & HN & _) (t & a & bits & ? & ? & ? & ? & ?). exists t, a, bits. split_and!; try done. lia. Qed.

(** Writing a slot after the used ones. *)
Lemma inv_stage g c d :
  inv g c -> is_control g d -> control_used_ (bat_ c) + len d <= len (control_staging_ (bat_ c)) ->
  let b := bat_ c in
  let b' := mk_Batching (send_batch_ b)
    (ztake (control_used_ b) (control_staging_ b) ++ d ++ zdrop (control_used_ b + len d) (control_staging_ b))
    (control_used_ b + len d) in
  inv g (set_bat b' c) /\ slot_ok g b' (control_used_ b) (len d).
Proof.
  intros [H1 [Hu Hs] H3 H4 H5 H6 H7 H8] Hd Hroom b b'. pose proof (len_nonneg d) as Hn.
  destruct Hd as (t & a & bits & ? & ? & ? & ? & Hdc). assert (len d = kUdpHeaderSize) as Hd by (by rewrite Hdc). fold b in Hu, Hs, Hroom.
  assert (len (ztake (control_used_ b) (control_staging_ b)) = control_used_ b) as Ht by (apply len_ztake; lia). split.
  - split; try done. split; cbn [b' set_bat bat_ control_used_ control_staging_ send_batch_]; [rewrite !len_app, len_zdrop by lia; lia|].
    intros slot n Hin. destruct (Hs slot n Hin) as (Hs0 & -> & Hs1 & t' & a' & bits' & ? & ? & ? & ? & Hc).
    split_and!; [done|done|cbn [b' control_used_]; lia|]. exists t', a', bits'. split_and!; try done.
    cbn [b' control_staging_]. rewrite <- Hc.
    rewrite zdrop_app_le by lia. rewrite ztake_app_le by (rewrite len_zdrop by lia; lia).
    unfold ztake, zdrop. rewrite skipn_firstn_comm, take_take. f_equal. lia.
  - split_and!; cbn [b' control_used_ control_staging_]; [lia|done|lia|]. exists t, a, bits. split_and!; try done.
    rewrite <- Hdc, (zdrop_app_len_eq (control_used_ b)) by done. by apply ztake_app_len_eq.
Qed.

Lemma ok_transmit g c d : inv g c -> is_control g d -> ok_from g (transmit d) c.
Proof.
  intros Hg Hd. apply ok_get. eapply ok_bind.
  { destruct (_ <? _); [apply stays_ok; [apply stays_flush|done]|by apply ok_ret]. }
  intros [] c1 g1 _ H1 G1. apply ok_get. cbv zeta.
  destruct (Z.ltb_spec (len (control_staging_ (bat_ c1))) (control_used_ (bat_ c1) + len d)); [by apply ok_throw|].
  destruct (inv_stage g1 c1 d H1 (is_control_grows _ _ _ G1 Hd) ltac:(lia)) as [H2 Hslot].
  eapply (ok_put g1 g1); [exact H2|done|]. intros _. apply ok_queue; [exact H2|]. by intros slot n [= <- <-].
Qed.

Lemma stays_send_control t : known_type t -> t <> Data -> stays (send_control t).
Proof.
  intros Ht Hd. apply stays_intro. intros g c Hg. apply ok_get. apply ok_transmit; [done|].
  exists t, (g_next g), 0. rewrite (iv_next _ _ Hg). by split_and!.
Qed.

Lemma bitmap_u64 r : is_u64 (ack_bitmap r).
Proof.
  unfold ack_bitmap. induction (map_to_list (reorder_buffer_ r)) as [|e l IH]; cbn [foldr]; [done|].
  destruct (Z.leb_spec 1 (i32 (u32 (e.1 - receive_next_ r)))); [|done].
  destruct (Z.leb_spec (i32 (u32 (e.1 - receive_next_ r))) 64); [|done]. cbn [andb].
  apply lor_range; [lia|done|]. unfold is_u. rewrite Z.shiftl_1_l. split; [apply Z.pow_nonneg; lia|].
  apply Z.pow_lt_mono_r; lia.
Qed.

Lemma stays_send_ack : stays send_ack.
Proof.
  apply stays_intro. intros g c Hg. apply ok_get. apply ok_transmit; [done|].
  exists Ack, (g_next g), (ack_bitmap (rcv_ c)). rewrite (iv_next _ _ Hg). split_and!; try done. apply bitmap_u64.
Qed.

(** Retransmission. *)
Lemma queued_resent g i p now :
  Forall packet_fits (g_packets g) -> queued g i p -> queued g i (resent now (u32 (Z.of_nat (g_next g))) p).
Proof.
  intros Hf (payload & a & Hi & Ha & Hs & Hd). pose proof (Forall_lookup_1 _ _ _ _ Hf Hi) as [Hp0 Hp].
  exists payload, (g_next g). split_and!; try done. cbn. rewrite Hd, Hs. unfold data_datagram.
  rewrite len_app, write_header_len, (zdrop_app_len_eq kUdpHeaderSize) by done.
  replace (kUdpHeaderSize + len payload - kUdpHeaderSize) with (len payload) by lia. rewrite u16_small; [done|].
  unfold is_u, kUdpMaxPayload, kUdpDatagramSize, kUdpHeaderSize in *. lia.
Qed.

Lemma stays_resend now : stays (resend_front now).
Proof.
  apply stays_intro. intros g c Hg. apply ok_get. destruct (unacknowledged_ (snd_ c)) as [|p rest] eqn:E; [by apply ok_ret|].
  eapply (ok_put g g); [|done|intros H1; by apply ok_queue]. destruct Hg as [[] H2 H3 H4 H5 H6 H7 H8]. split; try done. split; try done.
  - cbn. rewrite E in *. done.
  - intros k q. cbn. rewrite E in *. destruct k as [|k]; cbn.
    + intros [= <-]. rewrite H4. apply queued_resent; [done|]. exact (si_queued0 O p eq_refl).
    + apply (si_queued0 (S k)).
Qed.

Lemma stays_retransmit now : stays (retransmit_timed_out now).
Proof.
  apply stays_intro. intros g c Hg. apply ok_get. destruct (unacknowledged_ (snd_ c)) as [|p rest]; [by apply ok_ret|]. cbv zeta.
  destruct (_ <? _); [by apply ok_ret|]. eapply (ok_put g g); [by eapply inv_same, Hg|done|]. intros H1.
  destruct (_ <? _); [by apply ok_throw|]. eapply (ok_modify g g); [by eapply inv_same, H1|done|]. intros H2.
  by apply stays_ok; [apply stays_resend|].
Qed.

(** * New packets *)

Lemma queued_grows g g' i p : grows g g' -> queued g i p -> queued g' i p.
Proof.
  intros (HP & HN & _) (payload & a & Hi & Ha & ?). exists payload, a. split; [by eapply prefix_lookup_Some|]. split; [lia|done].
Qed.

Lemma u32_succ z : u32 (u32 z + 1) = u32 (z + 1).
Proof. unfold u32. by rewrite Zplus_mod_idemp_l. Qed.

(** The history with one more packet. *)
Definition add_packet (payload : bytes) (g : ghost) : ghost :=
  mk_ghost (g_packets g ++ [payload]) (g_base g) (g_next g) (g_written g) (g_read g) (g_limit g).

Lemma add_packet_grows payload g : grows g (add_packet payload g).
Proof. split_and!; try done. by exists [payload]. Qed.

Lemma mjoin_snoc {A} (ls : list (list A)) l : mjoin (ls ++ [l]) = mjoin ls ++ l.
Proof. rewrite join_app. cbn. by rewrite app_nil_r. Qed.

(** The packet [fill_window] builds. *)
Definition next_payload (s : SendSide) : bytes :=
  ztake (Z.min (len (outgoing_ s) - outgoing_consumed_ s) kUdpMaxPayload) (zdrop (outgoing_consumed_ s) (outgoing_ s)).

Lemma next_payload_len s :
  0 <= outgoing_consumed_ s < len (outgoing_ s) ->
  len (next_payload s) = Z.min (len (outgoing_ s) - outgoing_consumed_ s) kUdpMaxPayload /\ packet_fits (next_payload s).
Proof.
  intros Hc. unfold packet_fits, next_payload, kUdpMaxPayload, kUdpDatagramSize, kUdpHeaderSize.
  rewrite len_ztake by (rewrite len_zdrop; lia). split; [done|lia].
Qed.

Lemma inv_fill g c now :
  inv g c ->
  let s := snd_ c in
  outgoing_consumed_ s < len (outgoing_ s) ->
  let payload := Z.min (len (outgoing_ s) - outgoing_consumed_ s) kUdpMaxPayload in
  let datagram := write_header Data (next_sequence_ s) (receive_next_ (rcv_ c)) 0 (u16 payload) ++
    ztake payload (zdrop (outgoing_consumed_ s) (outgoing_ s)) in
  inv (add_packet (next_payload s) g)
    (set_snd (mk_SendSide (outgoing_ s) (outgoing_consumed_ s + payload)
       (unacknowledged_ s ++ [mk_SentPacket (next_sequence_ s) datagram now 1 false])
       (u32 (next_sequence_ s + 1)) (send_base_ s)) c).
Proof.
  intros [Hs [Hu Hb] H3 H4 H5 H6 H7 H8] s Hlt payload datagram. pose proof Hs as [S1 S2 S3 S4 S5 SL S6]. fold s in S1, S2, S3, S4, S5, SL, S6.
  destruct (next_payload_len s ltac:(lia)) as [Hl Hf]. pose proof (add_packet_grows (next_payload s) g) as Hgr.
  split; try done.
  - split; cbn [snd_ set_snd outgoing_ outgoing_consumed_ unacknowledged_ next_sequence_ add_packet g_packets g_base g_written].
    + rewrite S1, mjoin_snoc, <- app_assoc. f_equal. unfold next_payload. fold payload.
      rewrite <- (ztake_zdrop payload (zdrop (outgoing_consumed_ s) (outgoing_ s))) at 1. f_equal.
      apply zdrop_zdrop; unfold payload, kUdpMaxPayload, kUdpDatagramSize, kUdpHeaderSize; lia.
    + unfold payload, kUdpMaxPayload, kUdpDatagramSize, kUdpHeaderSize. lia.
    + apply Forall_app. by split; [|constructor].
    + by rewrite S4, u32_succ, len_app.
    + rewrite !length_app. cbn. lia.
    + cbn [g_limit add_packet]. pose proof (packets_for_fill (len (outgoing_ s) - outgoing_consumed_ s) ltac:(lia)) as Hpf. fold payload in Hpf.
      rewrite len_app. change (len [next_payload s]) with 1.
      replace (len (outgoing_ s) - (outgoing_consumed_ s + payload)) with (len (outgoing_ s) - outgoing_consumed_ s - payload) by lia. lia.
    + intros k p [Hk|[Hk Hp]]%lookup_app_Some; [by eapply queued_grows, S6|].
      destruct (k - length (unacknowledged_ s))%nat as [|j] eqn:Ek; [|done]. injection Hp as <-.
      assert (g_base g + k = length (g_packets g))%nat as -> by lia. exists (next_payload s), (g_next g). split_and!.
      * cbn. by rewrite lookup_app_r, Nat.sub_diag.
      * done.
      * by rewrite S4.
      * cbn [sp_datagram]. unfold datagram, data_datagram. rewrite S4, H4.
        change (ztake payload (zdrop (outgoing_consumed_ s) (outgoing_ s))) with (next_payload s).
        assert (payload = len (next_payload s)) as -> by (symmetry; exact Hl). rewrite u16_small; [done|]. destruct Hf. unfold is_u, kUdpMaxPayload, kUdpDatagramSize, kUdpHeaderSize in *. lia.
  - eapply Forall_impl; [exact H3|]. intros d. by apply sent_ok_grows.
  - intros q Hq Hql. by destruct (H6 q Hq Hql).
  - intros m Hm Hml. cbn. rewrite len_app. intros Hpl. apply (H7 m Hm Hml). pose proof (len_nonneg [next_payload s]). lia.
Qed.

Lemma stays_fill_loop fuel now : stays (fill_loop fuel now).
Proof.
  induction fuel as [|fuel IH]; [apply stays_ret|]. apply stays_intro. intros g c Hg. apply ok_get. cbv zeta.
  destruct (Z.leb_spec (len (outgoing_ (snd_ c))) (outgoing_consumed_ (snd_ c))); [by apply ok_ret|].
  destruct (d_geb _ _); [by apply ok_ret|]. destruct (d_ltb _ _); [by apply ok_ret|].
  pose proof (inv_fill g c now Hg ltac:(done)) as H1. cbv zeta in H1.
  eapply ok_put; [by eapply inv_same, H1|apply add_packet_grows|]. intros H2.
  eapply ok_bind; [by apply ok_queue|]. intros [] c1 g1 _ H3 _. by apply stays_ok.
Qed.

Lemma stays_fill : stays fill_window.
Proof.
  apply stays_bind; [apply stays_clock|]. intros now. apply stays_bind; [by apply stays_aside_modify|]. intros _.
  apply stays_get. intros c. apply stays_fill_loop.
Qed.

(** * Acknowledgements *)

Lemma i32_diff (a b : nat) :
  Z.of_nat a < 2 ^ 31 -> Z.of_nat b < 2 ^ 31 -> i32 (u32 (u32 (Z.of_nat a) - u32 (Z.of_nat b))) = Z.of_nat a - Z.of_nat b.
Proof.
  intros Ha Hb. rewrite !(u32_small (Z.of_nat _)) by (unfold is_u; lia). unfold i32, u32. rewrite Z.mod_mod by lia.
  destruct (Z.ltb_spec ((Z.of_nat a - Z.of_nat b) mod 2 ^ 32) (2 ^ 31)) as [Hl|Hl].
  - destruct (Z.lt_ge_cases (Z.of_nat a - Z.of_nat b) 0); [|by apply Z.mod_small; lia]. exfalso.
    rewrite <- (Z.mod_unique (Z.of_nat a - Z.of_nat b) (2 ^ 32) (-1) (Z.of_nat a - Z.of_nat b + 2 ^ 32)) in Hl by lia. lia.
  - destruct (Z.lt_ge_cases (Z.of_nat a - Z.of_nat b) 0); [|rewrite Z.mod_small in Hl by lia; lia].
    rewrite <- (Z.mod_unique (Z.of_nat a - Z.of_nat b) (2 ^ 32) (-1) (Z.of_nat a - Z.of_nat b + 2 ^ 32)) by lia. lia.
Qed.

Lemma u32_inj (a b : nat) : Z.of_nat a < 2 ^ 31 -> Z.of_nat b < 2 ^ 31 -> u32 (Z.of_nat a) = u32 (Z.of_nat b) -> a = b.
Proof. intros Ha Hb. rewrite !u32_small by (unfold is_u; lia). lia. Qed.

Lemma pop_spec t ack now l g n l' g' n' :
  pop_acknowledged t ack now l g n = (l', g', n') ->
  exists k, n' = (n + k)%nat /\ (k <= length l)%nat /\ l' = drop k l /\
    forall j p, (j < k)%nat -> l !! j = Some p -> i32 (u32 (sp_sequence p - ack)) < 0.
Proof.
  revert g n. induction l as [|p l IH]; intros g n; cbn.
  - intros [= <- <- <-]. exists O. split_and!; [lia|lia|done|lia].
  - destruct (Z.leb_spec 0 (i32 (u32 (sp_sequence p - ack)))).
    + intros [= <- <- <-]. exists O. split_and!; [lia|lia|done|lia].
    + intros (k & -> & Hk & -> & Hpop)%IH. exists (S k). split_and!; [lia|lia|done|].
      intros [|j] q Hj; cbn; [by intros [= <-]|]. apply Hpop. lia.
Qed.

(** The bitmap changes neither the order nor the contents. *)
Lemma mark_spec ack bits l :
  Forall2 (fun p q => sp_sequence q = sp_sequence p /\ sp_datagram q = sp_datagram p) l (mark_acknowledged ack bits l).1.1.
Proof.
  induction l as [|p l IH]; cbn; [constructor|]. destruct (mark_acknowledged ack bits l) as [[l' fresh] beyond].
  destruct (_ || _); [by constructor|]. destruct (_ =? _); by constructor.
Qed.

(** The acknowledgement number of a datagram of [D]. *)
Definition acks_of (ack : Z) : Prop :=
  forall m, Forall (ack_ok m) D -> exists m' : nat, (m' <= m)%nat /\ ack = u32 (Z.of_nat m').

Definition drop_packets (k : nat) (g : ghost) : ghost :=
  mk_ghost (g_packets g) (g_base g + k) (g_next g) (g_written g) (g_read g) (g_limit g).

Lemma inv_pop g c ack k l base :
  inv g c -> acks_of ack -> (k <= length (unacknowledged_ (snd_ c)))%nat ->
  (forall j p, (j < k)%nat -> unacknowledged_ (snd_ c) !! j = Some p -> i32 (u32 (sp_sequence p - ack)) < 0) ->
  Forall2 (fun p q => sp_sequence q = sp_sequence p /\ sp_datagram q = sp_datagram p) (drop k (unacknowledged_ (snd_ c))) l ->
  inv (drop_packets k g) (set_snd (mk_SendSide (outgoing_ (snd_ c)) (outgoing_consumed_ (snd_ c)) l (next_sequence_ (snd_ c)) base) c).
Proof.
  intros [[S1 S2 S3 S4 S5 SL S6] [Hu Hb] H3 H4 H5 H6 H7 H8] Ha Hk Hpop Hl. split; try done.
  - split; try done.
    + cbn. pose proof (Forall2_length _ _ _ Hl) as Hll. rewrite length_drop in Hll. lia.
    + cbn. intros j q Hq. destruct (Forall2_lookup_r _ _ _ _ _ Hl Hq) as (p & Hp & Es & Ed). rewrite lookup_drop in Hp.
      destruct (S6 _ _ Hp) as (payload & a & ? & ? & ? & ?). exists payload, a.
      replace (g_base g + k + j)%nat with (g_base g + (k + j))%nat by lia. cbn. rewrite Es, Ed. by split_and!.
  - intros q Hq Hql. by destruct (H6 q Hq Hql).
  - cbn. intros m Hm Hml Hpl. destruct k as [|k]; [specialize (H7 m Hm Hml Hpl); lia|].
    destruct (lookup_lt_is_Some_2 (unacknowledged_ (snd_ c)) k) as [p Hp]; [lia|].
    destruct (S6 _ _ Hp) as (payload & a & Hi & _ & Hs & _). apply lookup_lt_Some in Hi. destruct (Ha m Hm) as (m' & Hm' & ->).
    pose proof (Hpop k p ltac:(lia) Hp) as Hneg. rewrite Hs in Hneg. unfold len in Hpl. rewrite i32_diff in Hneg by lia. lia.
Qed.

Lemma stays_process_ack ack bits now : acks_of ack -> stays (process_ack ack bits now).
Proof.
  intros Ha. apply stays_intro. intros g c Hg. apply ok_get. cbv zeta.
  destruct (pop_acknowledged _ _ _ _ _ _) as [[l g'] popped] eqn:Ep. apply pop_spec in Ep as (k & -> & Hk & -> & Hpop).
  pose proof (mark_spec ack bits (drop k (unacknowledged_ (snd_ c)))) as Hm.
  destruct (mark_acknowledged _ _ _) as [[l fresh] beyond].
  pose proof (inv_pop g c ack k l ack Hg Ha Hk Hpop Hm) as H1.
  eapply ok_put; [by eapply inv_same, H1|done|]. intros H2. destruct l as [|missing l]; [by apply ok_ret|].
  destruct (_ && _); [|by apply ok_ret]. eapply ok_modify; [by eapply inv_same, H2|done|]. intros H3.
  by apply stays_ok; [apply stays_resend|].
Qed.

(** * Receiving *)

(** Changes of the receive side that leave its buffers. *)
Lemma stays_flags f :
  (forall r, receive_next_ (f r) = receive_next_ r /\ reorder_buffer_ (f r) = reorder_buffer_ r /\
     delivered_ (f r) = delivered_ r /\ delivered_consumed_ (f r) = delivered_consumed_ r) -> stays (upd_rcv f).
Proof.
  intros Hf. apply stays_modify. intros c g [H1 H2 H3 H4 H5 H6 H7 H8]. exists g. split; [|done].
  destruct (Hf (rcv_ c)) as (E1 & E2 & E3 & E4). split; try done; cbn; rewrite ?E1, ?E3, ?E4; try done.
  intros q Hq Hql. destruct (H6 q Hq Hql). split; rewrite ?E2, ?E3, ?E4; done.
Qed.

Definition insert_payload (s : Z) (payload : bytes) (r : ReceiveSide) : ReceiveSide :=
  mk_ReceiveSide (receive_next_ r) (<[s := payload]> (reorder_buffer_ r)) (delivered_ r) (delivered_consumed_ r)
    (ack_pending_ r) (peer_finished_ r) (fin_acknowledged_ r) (sent_fin_ r).

Lemma inv_insert g c d h :
  inv g c -> d ∈ D -> parse_header d = Ok (Some h) -> h_type h = Data ->
  0 <= i32 (u32 (h_sequence h - receive_next_ (rcv_ c))) ->
  inv g (set_rcv (insert_payload (h_sequence h) (ztake (h_length h) (zdrop kUdpHeaderSize d)) (rcv_ c)) c).
Proof.
  intros [H1 H2 H3 H4 H5 H6 H7 H8] Hd Hh Ht Hdist. split; try done. cbn. intros q Hq Hql. destruct (H6 q Hq Hql) as [N1 N2 N3]. split; [done..|].
  cbn. intros s payload Hs. apply lookup_insert_Some in Hs as [[<- <-]|[_ Hs]]; [|by apply N3].
  rewrite Forall_forall in Hq. destruct (Hq d Hd h Hh Ht) as (i & pl & Hi & Hseq & Hpl). exists i. split; [done|].
  rewrite Hpl. split; [done|]. apply lookup_lt_Some in Hi as Hlt. unfold len in Hql.
  rewrite Hseq, H4, i32_diff in Hdist by lia. lia.
Qed.

Lemma process_parsed_ok d h : d ∈ D -> parse_header d = Ok (Some h) -> stays (process_parsed d h).
Proof.
  intros Hd Hh.
  apply stays_bind; [by apply stays_aside_modify|]. intros _. apply stays_bind; [apply stays_clock|]. intros now.
  apply stays_bind. { apply stays_process_ack. intros m Hm. rewrite Forall_forall in Hm. by apply (Hm d Hd). } intros _.
  destruct (h_type h) eqn:Ht; try apply stays_ret.
  - apply stays_intro. intros g c Hg. apply ok_get. cbv zeta.
    destruct (Z.ltb_spec (i32 (u32 (h_sequence h - receive_next_ (rcv_ c)))) 0).
    { apply stays_ok; [|done]. apply stays_bind; [by apply stays_aside_modify|]. intros _. by apply stays_flags. }
    destruct (_ <=? _); [by apply ok_throw|].
    eapply ok_bind.
    { destruct (_ <? _); [by apply stays_ok; [apply stays_aside_modify|]|by apply ok_ret]. }
    intros [] c1 g1 E1 H1 _. assert (rcv_ c1 = rcv_ c) as Er by (destruct (_ <? _); by injection E1 as <-).
    eapply ok_bind.
    { destruct (_ !! _); [by apply stays_ok; [apply stays_aside_modify|]|]. right. exists g1. split; [|done].
      eapply inv_insert; try done. by rewrite Er. }
    intros [] c2 g2 _ H2 _. by apply stays_ok; [apply stays_flags|].
  - apply stays_bind; [by apply stays_flags|]. intros _. by apply stays_send_control.
  - by apply stays_flags.
Qed.

Lemma process_packet_ok d : d ∈ D -> stays (process_packet d).
Proof.
  intros Hd c. unfold process_packet, mlift, stays_at, mbind.
  destruct (parse_header d) as [[h|]|e] eqn:Hh; [by apply process_parsed_ok|apply stays_ret|intros g Hg; right; by exists g].
Qed.

Lemma stays_process_packets ds : (forall d, d ∈ ds -> d ∈ D) -> stays (process_packets ds).
Proof.
  induction ds as [|d ds IH]; intros Hds; [apply stays_ret|]. apply stays_bind; [apply process_packet_ok, Hds; left|].
  intros _. apply IH. intros d' Hd'. apply Hds. by right.
Qed.

Lemma stays_receive_loop evs c :
  (forall ds, RecvBatch ds ∈ evs -> forall d, d ∈ ds -> ztake kUdpDatagramSize d ∈ D) -> stays_at (receive_loop evs) c.
Proof.
  revert c. induction evs as [|ev evs IH]; intros c Hin; [apply stays_ret|].
  assert (forall ds, RecvBatch ds ∈ evs -> forall d, d ∈ ds -> ztake kUdpDatagramSize d ∈ D) as Hin'.
  { intros ds Hds. apply Hin. by right. }
  cbn [receive_loop]. apply stays_bind_at.
  { intros g Hg. right. exists g. split; [|done]. destruct Hg. by split. }
  intros _. clear c. destruct ev as [ds| |]; [|intros c; by apply IH|apply stays_ret].
  apply stays_get. intros c. cbv zeta. set (taken := ztake kUdpDatagramSize <$> ztake _ ds). apply stays_if; [apply stays_ret|].
  apply stays_bind.
  - apply stays_process_packets. intros d (d' & -> & Hd')%list_elem_of_fmap. apply (Hin ds); [by left|]. by eapply ztake_elem.
  - intros _. apply stays_if; [apply stays_ret|]. apply stays_get. intros c'. apply stays_if; [apply stays_ret|].
    intros c''. by apply IH.
Qed.

Lemma stays_receive : stays receive_batch.
Proof.
  apply stays_intro. intros g c Hg. apply ok_get. apply stays_receive_loop; [|done]. apply (iv_script _ _ Hg).
Qed.

(** * Delivery *)

Definition deliver_one (g : ghost) : ghost := mk_ghost (g_packets g) (g_base g) (S (g_next g)) (g_written g) (g_read g) (g_limit g).

Lemma deliver_one_grows g : grows g (deliver_one g).
Proof. split_and!; try done. cbn. lia. Qed.

(** The history changes in what was delivered only: what was sent stays good. *)
Lemma inv_deliver g g' c r :
  inv g c -> grows g g' -> g_packets g' = g_packets g -> g_base g' = g_base g ->
  receive_next_ r = u32 (Z.of_nat (g_next g')) -> 0 <= delivered_consumed_ r <= len (delivered_ r) ->
  (forall q, Forall (data_ok q) D -> len q < 2 ^ 31 -> stream_inv q g (rcv_ c) -> stream_inv q g' r) ->
  inv g' (set_rcv r c).
Proof.
  intros [[S1 S2 S3 S4 S5 SL S6] [Hu Hb] H3 H4 H5 H6 H7 H8] Hgr Hp Hbs Hn Hd Hst. pose proof Hgr as (_ & HN & HW & _ & HL). split; try done.
  - split; rewrite ?Hp, ?Hbs, ?HW, ?HL; try done. intros k p Hk. eapply queued_grows; [done|]. by apply S6.
  - split; [done|]. intros slot n Hin. destruct (Hb slot n Hin) as (? & ? & ? & t & a & bits & ? & ? & ? & ? & ?).
    split_and!; try done. exists t, a, bits. split_and!; try done. lia.
  - eapply Forall_impl; [exact H3|]. intros d. by apply sent_ok_grows.
  - intros q Hq Hql. apply Hst; [done..|]. by apply H6.
  - intros m Hm Hml Hpl. rewrite Hp in Hpl. rewrite Hbs. by apply H7.
Qed.

Lemma deliver_step g c payload r' :
  inv g c -> reorder_buffer_ (rcv_ c) !! receive_next_ (rcv_ c) = Some payload ->
  receive_next_ r' = u32 (receive_next_ (rcv_ c) + 1) ->
  reorder_buffer_ r' = delete (receive_next_ (rcv_ c)) (reorder_buffer_ (rcv_ c)) ->
  delivered_ r' = delivered_ (rcv_ c) ++ payload -> delivered_consumed_ r' = delivered_consumed_ (rcv_ c) ->
  inv (deliver_one g) (set_rcv r' c).
Proof.
  intros Hg Hl E1 E2 E3 E4. pose proof (iv_next _ _ Hg) as Hn. pose proof (iv_delivered _ _ Hg) as Hc.
  eapply inv_deliver; [done|apply deliver_one_grows|done|done| | |].
  - rewrite E1, Hn, u32_succ. cbn. f_equal. lia.
  - rewrite E3, E4, len_app. pose proof (len_nonneg payload). lia.
  - intros q Hq Hql [N1 N2 N3]. unfold len in Hql. destruct (N3 _ _ Hl) as (i & Hi & Hqi & Hle).
    apply lookup_lt_Some in Hqi as Hlt. rewrite Hn in Hi. apply u32_inj in Hi; [|lia|lia]. subst i. split.
    + cbn. lia.
    + cbn. rewrite E3, E4, zdrop_app_le by done. rewrite app_assoc, N2. by rewrite (take_S_r _ _ _ Hqi), mjoin_snoc.
    + intros s d. rewrite E2. intros [Hne Hs]%lookup_delete_Some. destruct (N3 s d Hs) as (j & -> & Hj & Hjle).
      exists j. split_and!; [done|done|]. cbn. destruct (decide (j = g_next g)) as [->|]; [|lia]. by rewrite Hn in Hne.
Qed.

Lemma deliver_loop_ok fuel g c :
  inv g c -> exists g', inv g' (set_rcv (deliver_loop fuel (rcv_ c)) c) /\ grows g g'.
Proof.
  revert g c. induction fuel as [|fuel IH]; intros g c Hg; cbn.
  - exists g. split; [|done]. by eapply inv_same, Hg.
  - destruct (_ <=? _); [exists g; split; [by eapply inv_same, Hg|done]|].
    destruct (_ !! _) as [payload|] eqn:E; [|exists g; split; [by eapply inv_same, Hg|done]].
    set (r' := mk_ReceiveSide _ _ _ _ _ _ _ _). assert (inv (deliver_one g) (set_rcv r' c)) as H1 by (by eapply deliver_step).
    destruct (IH _ _ H1) as (g' & H2 & G2). exists g'. split; [exact H2|]. eapply grows_trans; [apply deliver_one_grows|done].
Qed.

Lemma stays_deliver : stays deliver_in_order.
Proof.
  apply stays_modify. intros c g Hg. destruct (deliver_loop_ok (S (size (reorder_buffer_ (rcv_ c)))) g c Hg) as (g' & H1 & G1).
  exists g'. split; [|done]. set (r := deliver_loop _ _) in *. unfold compact. destruct (_ && _) eqn:E; [|exact H1].
  change (inv g' (set_rcv (mk_ReceiveSide (receive_next_ r) (reorder_buffer_ r) (zdrop (delivered_consumed_ r) (delivered_ r)) 0
    (ack_pending_ r) (peer_finished_ r) (fin_acknowledged_ r) (sent_fin_ r)) (set_rcv r c))).
  eapply inv_deliver; [exact H1|done|done|done| | |].
  - apply (iv_next _ _ H1).
  - cbn [delivered_ delivered_consumed_]. pose proof (len_nonneg (zdrop (delivered_consumed_ r) (delivered_ r))). lia.
  - intros q _ _ [N1 N2 N3]. by split.
Qed.

Lemma stays_pump intent wait : stays (pump intent wait).
Proof.
  unfold pump. repeat (apply stays_bind; [first [apply stays_clock|apply stays_retransmit|apply stays_fill|apply stays_flush|apply stays_receive|apply stays_deliver]|intros ?]).
  apply stays_get. intros c. apply stays_bind.
  { apply stays_if; [|apply stays_ret]. apply stays_bind; [apply stays_send_ack|]. intros _.
    apply stays_bind; [apply stays_flush|]. intros _. by apply stays_flags. }
  intros _. apply stays_bind; [apply stays_clock|]. intros now. apply stays_get. intros c'.
  apply stays_if; [apply stays_ret|apply stays_wait].
Qed.

(** * The byte interface *)

Lemma stays_write_loop fuel : stays (write_loop fuel).
Proof.
  induction fuel as [|fuel IH]; [apply stays_throw|]. apply stays_get. intros c. apply stays_if; [|apply stays_ret].
  apply stays_bind; [apply stays_pump|done].
Qed.

Lemma write_loop_done fuel c c' :
  write_loop fuel c = (Ok tt, c') -> len (outgoing_ (snd_ c')) <= outgoing_consumed_ (snd_ c').
Proof.
  revert c. induction fuel as [|fuel IH]; intros c; [done|]. cbn [write_loop]. unfold mbind at 1, mget.
  destruct (Z.ltb_spec (outgoing_consumed_ (snd_ c)) (len (outgoing_ (snd_ c)))).
  - unfold mbind. destruct (pump _ _ c) as [[[]|e] c1]; [apply IH|done].
  - intros [= <-]. lia.
Qed.

Definition set_written (w : bytes) (n : Z) (g : ghost) : ghost := mk_ghost (g_packets g) (g_base g) (g_next g) w (g_read g) n.

Lemma inv_outgoing g c out consumed n :
  inv g c -> 0 <= consumed <= len out -> len (g_packets g) + packets_for (len out - consumed) <= n ->
  let s := snd_ c in
  inv (set_written (mjoin (g_packets g) ++ zdrop consumed out) n g)
    (set_snd (mk_SendSide out consumed (unacknowledged_ s) (next_sequence_ s) (send_base_ s)) c).
Proof.
  intros [[S1 S2 S3 S4 S5 SL S6] [Hu Hb] H3 H4 H5 H6 H7 H8] Hc Hn s. split; try done. intros q Hq Hql. by destruct (H6 q Hq Hql).
Qed.

(** What was written and read after a call. *)
Definition after (g g' : ghost) (w x : bytes) : Prop :=
  g_written g' = g_written g ++ w /\ g_read g' = g_read g ++ x /\ g_limit g' <= g_limit g + packets_for (len w).

Lemma grows_after g g1 g' w x : grows g g1 -> after g1 g' w x -> after g g' w x.
Proof. intros (_ & _ & W & R & L) (W' & R' & L'). unfold after. by rewrite <- W, <- R, <- L. Qed.

Lemma after_refl g : after g g [] [].
Proof. unfold after. rewrite !app_nil_r. change (packets_for (len [])) with 0. split_and!; [done..|lia]. Qed.

Lemma grows_after_nil g g' : grows g g' -> after g g' [] [].
Proof. intros G. eapply grows_after; [done|apply after_refl]. Qed.

Lemma write_ok g c data r c' :
  inv g c -> udp_write_bytes data c = (r, c') -> r <> Err OutOfBounds -> exists g', inv g' c' /\ after g g' data [].
Proof.
  intros Hg. unfold udp_write_bytes, mmodify, mget. unfold mbind at 1 2. cbv beta iota.
  pose proof (iv_send _ _ Hg) as [S1 S2 _ _ _ SL _]. set (c1 := set_snd _ c). pose proof (len_nonneg data).
  assert (exists g1, inv g1 c1 /\ after g g1 data []) as (g1 & H1 & A1).
  { eexists. split.
    - apply (inv_outgoing g c (outgoing_ (snd_ c) ++ data) (outgoing_consumed_ (snd_ c)) (g_limit g + packets_for (len data)) Hg); rewrite len_app; [lia|].
      pose proof (packets_for_app (len (outgoing_ (snd_ c)) - outgoing_consumed_ (snd_ c)) (len data)).
      replace (len (outgoing_ (snd_ c)) + len data - outgoing_consumed_ (snd_ c)) with (len (outgoing_ (snd_ c)) - outgoing_consumed_ (snd_ c) + len data) by lia. lia.
    - split_and!; cbn [set_written g_written g_read g_limit]; [|by rewrite app_nil_r|lia]. by rewrite zdrop_app_le, app_assoc, <- S1 by done. }
  unfold mbind. destruct (stays_write_loop (clock_fuel c1) c1 g1 H1) as [E|(g2 & H2 & G2)];
    destruct (write_loop _ c1) as [[[]|e] c2] eqn:Ew; cbn [fst snd] in *.
  - done.
  - injection E as ->. by intros [= <- <-].
  - apply write_loop_done in Ew. intros [= <- <-] _. pose proof (iv_send _ _ H2) as [T1 T2 _ _ _ TL _].
    exists (set_written (mjoin (g_packets g2) ++ []) (g_limit g2) g2). split.
    + apply (inv_outgoing g2 c2 [] 0 (g_limit g2) H2); [done|]. change (packets_for (len [] - 0)) with 0.
      pose proof (packets_for_pos (len (outgoing_ (snd_ c2)) - outgoing_consumed_ (snd_ c2)) ltac:(lia)). lia.
    + rewrite (zdrop_len (outgoing_consumed_ (snd_ c2))) in T1 by lia. rewrite <- T1. destruct G2 as (_ & _ & W & R & L). unfold after. cbn [set_written g_written g_read g_limit]. by rewrite W, R, L.
  - intros [= <- <-] _. exists g2. split; [done|]. destruct G2 as (_ & _ & W & R & L). unfold after. by rewrite W, R, L.
Qed.

Definition set_read (x : bytes) (g : ghost) : ghost :=
  mk_ghost (g_packets g) (g_base g) (g_next g) (g_written g) (g_read g ++ x) (g_limit g).

Lemma inv_read g c take :
  inv g c -> 0 <= take <= backlog (rcv_ c) ->
  inv (set_read (ztake take (zdrop (delivered_consumed_ (rcv_ c)) (delivered_ (rcv_ c)))) g)
    (set_rcv (take_delivered take (rcv_ c)) c).
Proof.
  intros [[S1 S2 S3 S4 S5 SL S6] [Hu Hb] H3 H4 H5 H6 H7 H8] Ht. unfold backlog in Ht. set (r := rcv_ c) in *.
  assert (zdrop (delivered_consumed_ (take_delivered take r)) (delivered_ (take_delivered take r)) =
    zdrop take (zdrop (delivered_consumed_ r) (delivered_ r)) /\
    0 <= delivered_consumed_ (take_delivered take r) <= len (delivered_ (take_delivered take r))) as [E1 E2].
  { unfold take_delivered. rewrite zdrop_zdrop by lia. destruct (Z.eqb_spec (delivered_consumed_ r + take) (len (delivered_ r))) as [E|E];
      cbn [delivered_ delivered_consumed_]; [|split; [done|lia]]. rewrite (zdrop_len (delivered_consumed_ r + take)) by lia. done. }
  assert (receive_next_ (take_delivered take r) = receive_next_ r /\ reorder_buffer_ (take_delivered take r) = reorder_buffer_ r) as [E3 E4].
  { unfold take_delivered. by destruct (_ =? _). }
  split; try done.
  - by cbn; rewrite E3.
  - intros q Hq Hql. destruct (H6 q Hq Hql) as [N1 N2 N3]. split; cbn [g_read set_read rcv_ set_rcv]; [done|..].
    + by rewrite E1, <- app_assoc, ztake_zdrop.
    + by rewrite E4.
Qed.

Lemma read_loop_ok fuel n out g c r c' :
  inv g c -> read_loop fuel n out c = (r, c') -> r <> Err OutOfBounds ->
  exists g' x, inv g' c' /\ after g g' [] x /\ forall b, r = Ok b -> b = out ++ x.
Proof.
  revert out g c. induction fuel as [|fuel IH]; intros out g c Hg; cbn [read_loop].
  - intros [= <- <-] _. exists g, []. split_and!; [done|apply after_refl|done].
  - destruct (Z.leb_spec n (len out)).
    { intros [= <- <-] _. exists g, []. split_and!; [done|apply after_refl|]. intros b [= <-]. by rewrite app_nil_r. }
    unfold mbind at 1, mget. destruct (Z.ltb_spec 0 (backlog (rcv_ c))).
    + unfold upd_rcv, mmodify, mbind at 1. set (take := Z.min _ _). intros E Hr.
      destruct (IH _ _ _ (inv_read g c take Hg ltac:(unfold take; lia)) E Hr) as (g' & x & H1 & (W1 & R1 & L1) & Hb).
      eexists g', _. split; [exact H1|]. split; [split_and!; [exact W1| |exact L1]|].
      * cbn in R1. rewrite <- app_assoc in R1. exact R1.
      * intros b ->%Hb. by rewrite app_assoc.
    + destruct (_ && _).
      { intros [= <- <-] _. exists g, []. split_and!; [done|apply after_refl|done]. }
      unfold mbind. destruct (stays_pump AwaitData 200 c g Hg) as [E|(g1 & H1 & G1)];
        destruct (pump _ _ c) as [[[]|e] c1]; cbn [fst snd] in *.
      * done.
      * injection E as ->. by intros [= <- <-].
      * intros E Hr. destruct (IH _ _ _ H1 E Hr) as (g' & x & H2 & A2 & Hb). exists g', x.
        split_and!; [done|by eapply grows_after|done].
      * intros [= <- <-] _. exists g1, []. split_and!; [done|by apply grows_after_nil|done].
Qed.

Lemma read_ok g c n r c' :
  inv g c -> udp_read_exactly n c = (r, c') -> r <> Err OutOfBounds ->
  exists g' x, inv g' c' /\ after g g' [] x /\ forall b, r = Ok b -> b = x.
Proof.
  intros Hg. unfold udp_read_exactly, mbind at 1. destruct (stays_pump AwaitData 0 c g Hg) as [E|(g1 & H1 & G1)];
    destruct (pump _ _ c) as [[[]|e] c1]; cbn [fst snd] in *.
  - done.
  - injection E as ->. by intros [= <- <-].
  - unfold mbind, mget. intros E Hr. destruct (read_loop_ok _ _ _ _ _ _ _ H1 E Hr) as (g' & x & H2 & A2 & Hb).
    exists g', x. split_and!; [done|by eapply grows_after|done].
  - intros [= <- <-] _. exists g1, []. split_and!; [done|by apply grows_after_nil|done].
Qed.

Lemma stays_flush_all_loop fuel : stays (flush_all_loop fuel).
Proof.
  induction fuel as [|fuel IH]; [apply stays_throw|]. apply stays_get. intros c. apply stays_if; [|apply stays_ret].
  apply stays_bind; [apply stays_pump|done].
Qed.

Lemma stays_udp_flush : stays udp_flush.
Proof. apply stays_get. intros c. apply stays_bind; [apply stays_flush_all_loop|]. intros _. apply stays_flush. Qed.

Lemma stays_close_loop fuel deadline : stays (close_loop fuel deadline).
Proof.
  induction fuel as [|fuel IH]; [apply stays_throw|]. apply stays_get. intros c. apply stays_if; [apply stays_ret|].
  apply stays_bind; [apply stays_clock|]. intros now. apply stays_if; [|apply stays_ret].
  apply stays_bind; [by apply stays_send_control|]. intros _. apply stays_bind; [apply stays_flush|]. intros _.
  apply stays_bind; [apply stays_pump|done].
Qed.

Lemma stays_catch (m : udp unit) :
  stays m -> stays (fun c => match m c with
                             | (Err e, c') => if is_dz_error e then (Ok tt, c') else (Err e, c')
                             | ok => ok
                             end).
Proof.
  intros Hm c g Hg. destruct (Hm c g Hg) as [E|(g' & H & G)]; destruct (m c) as [[[]|e] c']; cbn [fst snd] in *.
  - done.
  - injection E as ->. by left.
  - right. by exists g'.
  - right. exists g'. by destruct (is_dz_error e).
Qed.

Lemma stays_close : stays udp_close_gracefully.
Proof.
  apply stays_catch. apply stays_bind; [apply stays_udp_flush|]. intros _. apply stays_bind; [by apply stays_flags|]. intros _.
  apply stays_bind; [apply stays_clock|]. intros now. apply stays_get. intros c. apply stays_close_loop.
Qed.

Lemma stays_after {A} (m : udp A) g c r c' :
  stays m -> inv g c -> m c = (r, c') -> r <> Err OutOfBounds -> exists g', inv g' c' /\ after g g' [] [].
Proof.
  intros Hm Hg E Hr. destruct (Hm c g Hg) as [E'|(g' & H & G)]; rewrite E in *; [done|].
  exists g'. split; [done|]. by apply grows_after_nil.
Qed.

Lemma inv_new tuning k :
  0 <= batch_size tuning -> k_sent k = [] ->
  (forall ds, RecvBatch ds ∈ k_recv k -> forall d, d ∈ ds -> ztake kUdpDatagramSize d ∈ D) ->
  inv (mk_ghost [] 0 0 [] [] 0) (new_channel tuning k).
Proof.
  intros Hb Hs Hr. split; try done.
  - split; cbn [new_channel bat_ control_used_ control_staging_ send_batch_]; [|intros slot n []%elem_of_nil].
    pose proof (len_nonneg (replicate (Z.to_nat (kUdpHeaderSize * batch_size tuning)) 0)). lia.
  - cbn. rewrite Hs. constructor.
  - intros q _ _. split; [cbn; lia|done|]. intros s d. cbn. by rewrite lookup_empty.
  - intros m _ _ _. cbn. lia.
Qed.
End Invariant.

(** * Flushing *)

(** The batch is sent without touching the packets. *)
Definition same_snd {A} (m : udp A) : Prop := forall c, snd_ (m c).2 = snd_ c.

Lemma same_snd_bind {A B} (m : udp A) (k : A -> udp B) : same_snd m -> (forall a, same_snd (k a)) -> same_snd (mbind m k).
Proof.
  intros Hm Hk c. specialize (Hm c). unfold mbind. destruct (m c) as [[a|e] c']; [|done]. cbn in Hm. by rewrite (Hk a c').
Qed.

Lemma same_snd_if {A} (b : bool) (m1 m2 : udp A) : same_snd m1 -> same_snd m2 -> same_snd (if b then m1 else m2).
Proof. by destruct b. Qed.

Lemma same_snd_wait t what : same_snd (wait_ t what).
Proof. intros c. unfold wait_. by destruct (k_wait (sock_ c)) as [|[] ?]. Qed.

Lemma same_snd_takes ps evs : same_snd (kernel_takes ps evs).
Proof. intros c. unfold kernel_takes, mget, mlift, mbind, mmodify. by destruct (gather c ps). Qed.

Lemma same_snd_flush_loop evs sent stalls : same_snd (flush_loop evs sent stalls).
Proof.
  revert sent stalls. induction evs as [|ev evs IH]; intros sent stalls; (apply same_snd_bind; [done|]); intros c; cbv zeta;
    (apply same_snd_if; [done|]); (apply same_snd_if; [done|]).
  - apply same_snd_bind; [apply same_snd_takes|done].
  - destruct ev; (apply same_snd_bind; [first [apply same_snd_takes|done]|]); intros ?; try apply IH; [|done].
    apply same_snd_if; [done|]. apply same_snd_bind; [apply same_snd_wait|]. intros _. apply IH.
Qed.

Lemma same_snd_flush : same_snd flush_send_batch.
Proof.
  apply same_snd_bind; [done|]. intros c. apply same_snd_if; [done|]. apply same_snd_bind; [apply same_snd_flush_loop|done].
Qed.

(** Nothing waits to be sent or acknowledged. *)
Definition all_acknowledged (s : SendSide) : Prop := len (outgoing_ s) <= outgoing_consumed_ s /\ unacknowledged_ s = [].

Lemma flush_all_loop_done fuel c c' : flush_all_loop fuel c = (Ok tt, c') -> all_acknowledged (snd_ c').
Proof.
  revert c. induction fuel as [|fuel IH]; intros c; [done|]. cbn [flush_all_loop]. unfold mbind at 1, mget. cbv zeta.
  destruct (_ || _) eqn:E.
  - unfold mbind. destruct (pump _ _ c) as [[[]|e] c1]; [apply IH|done].
  - intros [= <-]. apply orb_false_elim in E as [E1%Z.ltb_ge E2%negb_false_iff%Z.eqb_eq]. split; [done|]. by apply len_zero_nil.
Qed.

Lemma udp_flush_done c c' : udp_flush c = (Ok tt, c') -> all_acknowledged (snd_ c').
Proof.
  unfold udp_flush. unfold mbind at 1, mget. unfold mbind. destruct (flush_all_loop _ c) as [[[]|e] c1] eqn:E; [|done].
  apply flush_all_loop_done in E. intros E'. pose proof (same_snd_flush c1) as Hs. rewrite E' in Hs. cbn in Hs. by rewrite Hs.
Qed.

(** * Sessions *)

Inductive udp_op := OpWrite (data : bytes) | OpRead (n : Z) | OpFlush | OpClose.

Definition run_op (op : udp_op) : udp bytes :=
  match op with
  | OpWrite data => do* udp_write_bytes data in mret []
  | OpRead n => udp_read_exactly n
  | OpFlush => do* udp_flush in mret []
  | OpClose => do* udp_close_gracefully in mret []
  end.

(** The calls of one end, up to the first that throws: what was read and how it ended. *)
Fixpoint run_ops (ops : list udp_op) (c : UdpChannel) : bytes * result unit * UdpChannel :=
  match ops with
  | [] => ([], Ok tt, c)
  | op :: ops =>
      match run_op op c with
      | (Ok b, c') => let '(out, r, c'') := run_ops ops c' in (b ++ out, r, c'')
      | (Err e, c') => ([], Err e, c')
      end
  end.

Definition op_data (op : udp_op) : bytes := match op with OpWrite data => data | _ => [] end.
Definition writes (ops : list udp_op) : bytes := mjoin (op_data <$> ops).

Fixpoint packet_count (ops : list udp_op) : Z :=
  match ops with
  | [] => 0
  | op :: ops => packets_for (len (op_data op)) + packet_count ops
  end.

Lemma packet_count_pos ops : 0 <= packet_count ops.
Proof. induction ops as [|op ops IH]; cbn; [done|]. pose proof (packets_for_pos (len (op_data op)) (len_nonneg _)). lia. Qed.

(** Every datagram the kernel will hand over. *)
Definition arrivals (k : udp_socket) : list bytes := mjoin ((fun ev => match ev with RecvBatch ds => ds | _ => [] end) <$> k_recv k).

Definition unread (c : UdpChannel) : bytes := zdrop (delivered_consumed_ (rcv_ c)) (delivered_ (rcv_ c)).

Lemma run_op_ok D op g c r c' :
  inv D g c -> run_op op c = (r, c') -> r <> Err OutOfBounds ->
  exists g' x, inv D g' c' /\ after g g' (op_data op) x /\ forall b, r = Ok b -> b = x.
Proof.
  assert (forall (m : udp unit) w, (forall r c', m c = (r, c') -> r <> Err OutOfBounds -> exists g', inv D g' c' /\ after g g' w []) ->
    forall r c', (do* m in mret []) c = (r, c') -> r <> Err OutOfBounds ->
    exists g' x, inv D g' c' /\ after g g' w x /\ forall b : bytes, r = Ok b -> b = x) as Hunit.
  { intros m w Hm r0 c0. unfold mbind. destruct (m c) as [[[]|e] c1] eqn:E; intros [= <- <-] Hr.
    - destruct (Hm _ _ eq_refl ltac:(done)) as (g' & ? & ?). exists g', []. split_and!; [done..|]. by intros b [= <-].
    - destruct (Hm _ _ eq_refl ltac:(congruence)) as (g' & ? & ?). exists g', []. by split_and!. }
  intros Hg. destruct op as [data|n| |]; [apply Hunit|by apply read_ok|apply Hunit|apply Hunit]; intros r0 c0.
  - by apply write_ok.
  - by apply stays_after; [apply stays_udp_flush|].
  - by apply stays_after; [apply stays_close|].
Qed.

Lemma run_ok D ops : forall g c out r c',
  inv D g c -> run_ops ops c = (out, r, c') -> r <> Err OutOfBounds ->
  exists g' w x, inv D g' c' /\ g_written g' = g_written g ++ w /\ w `prefix_of` writes ops /\ (r = Ok tt -> w = writes ops) /\
    g_read g' = g_read g ++ out ++ x /\ (r = Ok tt -> x = []) /\ g_limit g' <= g_limit g + packet_count ops.
Proof.
  induction ops as [|op ops IH]; intros g c out r c' Hg; cbn [run_ops packet_count].
  - intros [= <- <- <-] _. exists g, [], []. rewrite !app_nil_r. split_and!; try done. lia.
  - destruct (run_op op c) as [[b|e] c1] eqn:E.
    + destruct (run_op_ok D op g c _ _ Hg E ltac:(done)) as (g1 & x & H1 & (W1 & R1 & L1) & Hb). specialize (Hb b eq_refl). subst x.
      destruct (run_ops ops c1) as [[out1 r1] c2] eqn:E1. intros [= <- <- <-] Hr.
      destruct (IH g1 c1 _ _ _ H1 E1 Hr) as (g2 & w & x & H2 & W2 & P2 & F2 & R2 & X2 & L2).
      exists g2, (op_data op ++ w), x. rewrite W2, W1, R2, R1, <- !app_assoc. split_and!; try done; [|by intros ->%F2|lia].
      by apply prefix_app.
    + intros [= <- <- <-] Hr. destruct (run_op_ok D op g c _ _ Hg E ltac:(congruence)) as (g1 & x & H1 & (W1 & R1 & L1) & _).
      exists g1, (op_data op), x. rewrite W1, R1. split_and!; try done; [by exists (writes ops)|]. pose proof (packet_count_pos ops). lia.
Qed.

Lemma run_flushed ops c out c' : run_ops ops c = (out, Ok tt, c') -> last ops = Some OpFlush -> all_acknowledged (snd_ c').
Proof.
  revert c out. induction ops as [|op ops IH]; intros c out; [done|]. cbn [run_ops].
  destruct (run_op op c) as [[b|e] c1] eqn:E; [|done]. destruct (run_ops ops c1) as [[out1 r1] c2] eqn:E1. intros [= <- -> ->] Hl.
  destruct ops as [|op' ops].
  - injection Hl as ->. injection E1 as <- <-. cbn in E. unfold mbind in E. destruct (udp_flush c) as [[[]|e] c2] eqn:Ef; [|done].
    injection E as <- <-. by eapply udp_flush_done.
  - by eapply IH.
Qed.

Lemma arrivals_script k ds :
  RecvBatch ds ∈ k_recv k -> forall d, d ∈ ds -> ztake kUdpDatagramSize d ∈ (ztake kUdpDatagramSize <$> arrivals k).
Proof.
  intros Hk d Hd. apply list_elem_of_fmap_2, list_elem_of_join. exists ds. split; [done|].
  apply list_elem_of_fmap. by exists (RecvBatch ds).
Qed.

(** Datagrams the peer sent arrive uncut. *)
Lemma arrivals_sent k g sent :
  (forall d, d ∈ arrivals k -> d ∈ sent) -> Forall (sent_ok g) sent -> Forall (sent_ok g) (ztake kUdpDatagramSize <$> arrivals k).
Proof.
  intros Hin Hs. apply Forall_fmap, Forall_forall. intros d Hd%Hin. rewrite Forall_forall in Hs. pose proof (Hs d Hd) as Hok.
  cbn. by rewrite ztake_len by apply Hok.
Qed.

Section Session.
Context (tA tB : UdpTuning) (kA kB : udp_socket) (opsA opsB : list udp_op).
Context (outA outB : bytes) (rA rB : result unit) (cA cB : UdpChannel).

(** Each end makes its calls on a fresh channel, and the network invents no datagram. *)
Record session : Prop := {
  se_sizes : 0 <= batch_size tA /\ 0 <= batch_size tB;
  se_fresh : k_sent kA = [] /\ k_sent kB = [];
  se_runA : run_ops opsA (new_channel tA kA) = (outA, rA, cA);
  se_runB : run_ops opsB (new_channel tB kB) = (outB, rB, cB);
  se_defined : rA <> Err OutOfBounds /\ rB <> Err OutOfBounds;
  se_network : (forall d, d ∈ arrivals kB -> d ∈ k_sent (sock_ cA)) /\ (forall d, d ∈ arrivals kA -> d ∈ k_sent (sock_ cB));
}.

(** C15. The UDP channel is a reliable stream over an unreliable network. Two ends make any
    calls; the network hands each end datagrams the other sent, in any order, any number of
    times or never, and the kernel accepts, refuses and delays as it likes. Then what one end
    has read is a prefix of what the other wrote, byte for byte; and if the writer's last call
    was a flush that returned, then the reader has every byte, read or ready to be read. The
    sequence numbers limit this to [2^31] packets, and undefined behaviour is excluded. *)
Theorem udp_stream :
  session -> packet_count opsA < 2 ^ 31 ->
  outB `prefix_of` writes opsA /\
  (rA = Ok tt -> rB = Ok tt -> last opsA = Some OpFlush -> outB ++ unread cB = writes opsA).
Proof.
  intros [[Hb1 Hb2] [Hf1 Hf2] RA RB [DA DB] [NB NA]] Hcount.
  destruct (run_ok _ _ _ _ _ _ _ (inv_new _ tA kA Hb1 Hf1 (arrivals_script kA)) RA DA) as (gA & wA & xA & IA & WA & PA & FA & _ & _ & LA).
  destruct (run_ok _ _ _ _ _ _ _ (inv_new _ tB kB Hb2 Hf2 (arrivals_script kB)) RB DB) as (gB & wB & xB & IB & _ & _ & _ & XB & FB & _).
  cbn in WA, XB, LA. pose proof (iv_send _ _ _ IA) as [S1 S2 _ _ S5 SL _].
  assert (len (g_packets gA) < 2 ^ 31) as Hlen.
  { pose proof (packets_for_pos (len (outgoing_ (snd_ cA)) - outgoing_consumed_ (snd_ cA)) ltac:(lia)). lia. }
  pose proof (arrivals_sent kB gA _ NB (iv_sent _ _ _ IA)) as Harr.
  destruct (iv_stream _ _ _ IB (g_packets gA)) as [N1 N2 _]; [|done|].
  { eapply Forall_impl; [exact Harr|]. by intros d []. }
  rewrite XB in N2. split.
  - etrans; [by exists (xB ++ unread cB); rewrite app_assoc; symmetry|]. etrans; [|exact PA]. rewrite <- WA, S1.
    rewrite <- (take_drop (g_next gB) (g_packets gA)) at 2. rewrite join_app, <- app_assoc. apply prefix_app_r. done.
  - intros EA EB Hlast. rewrite EA in RA. apply run_flushed in RA as [Hc Hu]; [|done]. rewrite <- (FA EA), <- WA, S1.
    rewrite (FB EB), app_nil_r in N2. rewrite (zdrop_len (outgoing_consumed_ _)), app_nil_r by lia. unfold unread. rewrite N2. f_equal.
    apply take_ge. rewrite Hu in S5. cbn in S5. unfold len in Hlen.
    pose proof (arrivals_sent kA gB _ NA (iv_sent _ _ _ IB)) as Hback.
    pose proof (iv_base _ _ _ IA (g_next gB) ltac:(eapply Forall_impl; [exact Hback|]; by intros d (_ & ? & _)) ltac:(lia) ltac:(done)). lia.
Qed.
End Session.

(** * Examples *)

Definition example_tuning (batch : Z) : UdpTuning :=
  mk_UdpTuning (d_of_Z 32) (d_of_Z 4) (d_of_Z 2048) (d_of_Z 48) 5000 2000000 200000 3 12 batch.

Definition clock_from (t : nat) : list Z := Z.of_nat <$> seq t 600.

(** A writes three bytes in two packets and flushes; B gets them reordered and one twice. *)
Definition stream_ops : list udp_op := [OpWrite [7; 8]; OpWrite [9]; OpFlush].
Definition stream_kA : udp_socket :=
  mk_udp_socket [RecvAgain; RecvEintr; RecvAgain; RecvBatch (replicate 2 (control_datagram Ack 2 0))]
    [SendAgain; SendCount 1] [] (clock_from 1000) [].
Definition stream_kB : udp_socket :=
  mk_udp_socket [RecvBatch [data_datagram 1 0 [9]; data_datagram 0 0 [7; 8]; data_datagram 0 0 [7; 8]]] [] [] (clock_from 5000) [].

Lemma udp_stream_witness :
  let runA := run_ops stream_ops (new_channel (example_tuning 4) stream_kA) in
  let runB := run_ops [OpRead 2] (new_channel (example_tuning 4) stream_kB) in
  session (example_tuning 4) (example_tuning 4) stream_kA stream_kB stream_ops [OpRead 2] [] [7; 8] (Ok tt) (Ok tt) runA.2 runB.2 /\
  [7; 8] ++ unread runB.2 = writes stream_ops.
Proof.
  intros runA runB.
  assert (session (example_tuning 4) (example_tuning 4) stream_kA stream_kB stream_ops [OpRead 2] [] [7; 8] (Ok tt) (Ok tt) runA.2 runB.2) as Hs.
  { split; [split; done|split; done|vm_compute; reflexivity|vm_compute; reflexivity|split; done|].
    split; apply Forall_forall, (bool_decide_unpack _); vm_compute; exact I. }
  split; [exact Hs|]. by apply (udp_stream _ _ _ _ _ _ _ _ _ _ _ _ Hs).
Defined.

(** One byte a packet: [n] writes, and the packets they become. *)
Definition byte_writes (n : nat) : list udp_op := (fun i => OpWrite [Z.of_nat i]) <$> seq 0 n.
Definition byte_packets (n : nat) : list bytes := (fun i => data_datagram i 0 [Z.of_nat i]) <$> seq 0 n.

(** The first of four packets is late: B reports the three others, then all of them; both
    reports reach A together. *)
Definition late_kA : udp_socket :=
  mk_udp_socket (replicate 4 RecvAgain ++ [RecvBatch [control_datagram Ack 0 7; control_datagram Ack 4 0]]) [] [] (clock_from 1000) [].
Definition late_kB : udp_socket :=
  mk_udp_socket [RecvBatch (drop 1 (byte_packets 4)); RecvBatch (take 1 (byte_packets 4))] [] [] (clock_from 5000) [].

(** A fast retransmission can leave a dangling reference: when the report of a gap and
    the acknowledgement that closes it are read by one [recvmmsg], the packet queued for
    retransmission is released before the batch is sent, and the flush reads freed memory.
    Every datagram here was sent by the other end, and the tuning is the default one. *)
Theorem retransmit_dangles :
  let A := run_ops (byte_writes 4 ++ [OpFlush]) (new_channel default_tuning late_kA) in
  let B := run_ops [OpRead 4] (new_channel default_tuning late_kB) in
  (forall d, d ∈ arrivals late_kB -> d ∈ k_sent (sock_ A.2)) /\ (forall d, d ∈ arrivals late_kA -> d ∈ k_sent (sock_ B.2)) /\
  A.1 = ([], Err OutOfBounds) /\ B.1 = ([0; 1; 2; 3], Ok tt).
Proof.
  intros A B. split_and!; [apply Forall_forall, (bool_decide_unpack _); vm_compute; exact I..|vm_compute; reflexivity|vm_compute; reflexivity].
Qed.

(** A receiver whose socket has no room: every packet it gets adds an acknowledgement. *)
Definition stalled_k : udp_socket :=
  mk_udp_socket ((fun d => RecvBatch [d]) <$> byte_packets 65) (replicate 600 SendAgain) [] (clock_from 1000) [].

(** Acknowledgements that cannot be sent overrun the staging area: with the socket
    refusing to send, each packet received stages one more acknowledgement, and the one after
    the last slot is written past the end of [control_staging_]. *)
Theorem stalled_acks_overrun :
  let run n := run_ops [OpRead n] (new_channel default_tuning stalled_k) in
  (run 64).1 = (Z.of_nat <$> seq 0 64, Ok tt) /\ k_sent (sock_ (run 64).2) = [] /\ (run 65).1 = ([], Err OutOfBounds).
Proof. intros run. split_and!; vm_compute; reflexivity. Qed.
