(* ===== verification/Transport.v ===== *)
(** Finding a path to the peer: [client/src/transport.cpp] with [try_direct_tcp] of
    [transport_tcp.cpp], [punch_udp_path] of [reliable_udp.cpp] and [open_server_relay] of
    [transport_relay.cpp].

    [net] is what the kernel and the network answer to the calls to come, and the datagrams
    sent. Each connection attempt and each accepted connection brings the socket it is. Log
    output and socket options have no effect on it. *)

From S2P Require Import Prelude Double Endian Socket Frame Protocol Paths Messages Channel Crypto Handshake ReliableUdp UdpStream.

(** * The network *)

(** [poll] of one socket: whether it has an event in time, or an errno. *)
Inductive wait_event := Ready (b : bool) | WaitErrno (errno : Z).

(** [socket] and [connect]: no socket, connected at once, or an errno. *)
Inductive connect_event := NoSocket | ConnectNow (s : ksock) | ConnectErrno (errno : Z) (s : ksock).

(** [poll]: whether each entry has an event. *)
Inductive poll_event := PollEvents (revents : list bool) | PollErrno (errno : Z).

Inductive accept_event := AcceptFail | Accepted (s : ksock) (addr : Endpoint) (alen : Z).

Inductive datagram_event := Datagram (data : bytes) (addr : Endpoint) (alen : Z) | DatagramErrno (errno : Z).

Record net := mk_net {
  n_clock : list Z;
  n_waits : list wait_event;
  n_connects : list connect_event;
  n_polls : list poll_event;
  n_errors : list (option Z);
  n_accepts : list accept_event;
  n_datagrams : list datagram_event;
  n_sends : list bool;
  n_sent : list (Endpoint * bytes);
  n_control : option ksock;
}.

Definition EINTR : Z := 4.
Definition EINPROGRESS : Z := 115.
Definition EALREADY : Z := 114.

(** A call whose answer is the next of its script. *)
Definition answer {A} (script : net -> list A) (rest : list A -> net -> net) : M net A := fun n =>
  match script n with
  | [] => (Err Blocks, n)
  | x :: xs => (Ok x, rest xs n)
  end.

Definition now_millis : M net Z :=
  answer n_clock (fun l n => mk_net l (n_waits n) (n_connects n) (n_polls n) (n_errors n) (n_accepts n) (n_datagrams n) (n_sends n) (n_sent n) (n_control n)).

Definition set_waits (l : list wait_event) (n : net) : net :=
  mk_net (n_clock n) l (n_connects n) (n_polls n) (n_errors n) (n_accepts n) (n_datagrams n) (n_sends n) (n_sent n) (n_control n).

(** The loop of [wait_for]: a signal resumes it with the time left, which the answer of the
    next [poll] takes into account. *)
Fixpoint wait_loop (evs : list wait_event) (deadline timeout_ms : Z) : M net bool :=
  match evs with
  | [] => mthrow Blocks
  | ev :: evs =>
      do* mmodify (set_waits evs) in
      match ev with
      | Ready b => mret b
      | WaitErrno e =>
          if negb (e =? EINTR) then mthrow (SysError (str "poll failed") e)
          else
            let* now := now_millis in
            if deadline <=? now then mret false else wait_loop evs deadline (deadline - now)
      end
  end.

Definition wait_readable (timeout_ms : Z) : M net bool :=
  let* now := now_millis in
  let* n := mget in
  wait_loop (n_waits n) (u64 (now + timeout_ms)) timeout_ms.

(** The kernel takes a datagram unless told otherwise. *)
Definition sendto (target : Endpoint) (data : bytes) : M net bool := fun n =>
  let '(taken, sends) := match n_sends n with [] => (true, []) | b :: l => (b, l) end in
  (Ok taken, mk_net (n_clock n) (n_waits n) (n_connects n) (n_polls n) (n_errors n) (n_accepts n) (n_datagrams n) sends
     (if taken then n_sent n ++ [(target, data)] else n_sent n) (n_control n)).

Definition set_datagrams (l : list datagram_event) (n : net) : net :=
  mk_net (n_clock n) (n_waits n) (n_connects n) (n_polls n) (n_errors n) (n_accepts n) l (n_sends n) (n_sent n) (n_control n).

(** * Local sockets *)

Definition kPortAttempts : nat := 32.

(** How the calls that bind a socket end: whether there is an IPv6 socket, the errno when
    there is no IPv4 one either, and the port the kernel picks. *)
Record bind_answer := mk_bind_answer {
  ba_v6 : bool;
  ba_v4 : option Z;
  ba_bound : bool;
  ba_listening : bool;
  ba_port : Z;
}.

(** A bound socket, by its family and port. *)
Definition bind_listener (port : Z) (a : bind_answer) : result (option (Z * Z)) :=
  match (if ba_v6 a then Ok AF_INET6
         else match ba_v4 a with
              | Some e => Err (SysError (str "cannot create a listening socket") e)
              | None => Ok AF_INET
              end) with
  | Err e => Err e
  | Ok f => if negb (ba_bound a) then Ok None
            else if negb (ba_listening a) then Ok None
            else Ok (Some (f, if port =? 0 then ba_port a else port))
  end.

Definition bind_udp (port : Z) (a : bind_answer) : result (option (Z * Z)) :=
  match (if ba_v6 a then Ok AF_INET6
         else match ba_v4 a with
              | Some e => Err (SysError (str "cannot create a UDP socket") e)
              | None => Ok AF_INET
              end) with
  | Err e => Err e
  | Ok f => if negb (ba_bound a) then Ok None else Ok (Some (f, if port =? 0 then ba_port a else port))
  end.

(** The [for] loop: the port and the family of the UDP socket. *)
Fixpoint find_port (attempts : nat) (answers : list bind_answer) : result (option (Z * Z)) :=
  match attempts, answers with
  | O, _ => Ok None
  | S attempts, a :: answers =>
      let? listener := bind_listener 0 a in
      match listener with
      | None => find_port attempts answers
      | Some (_, port) =>
          match answers with
          | [] => Err Blocks
          | b :: answers =>
              let? udp := bind_udp port b in
              match udp with
              | None => find_port attempts answers
              | Some (f, _) => Ok (Some (port, f))
              end
          end
      end
  | S _, [] => Err Blocks
  end.

(** The interfaces are [local_interface_addresses]; the second result is the family of the
    UDP socket. *)
Definition open_local_sockets (interfaces : list Endpoint) (answers : list bind_answer) : result (LocalSockets * Z) :=
  let? found := find_port kPortAttempts answers in
  match found with
  | None =>
      Err (Error (str "could not find a port available for both TCP and UDP after " ++ to_string (Z.of_nat kPortAttempts) ++
                  str " attempts"))
  | Some (port, f) => Ok (mk_LocalSockets port (set_port port <$> interfaces) Endpoint_default false, f)
  end.

(** One try of [discover_reflexive_address]. *)
Definition probe_server (target : Endpoint) : M net (option Endpoint) :=
  let* written := sendto target kReflexiveProbeMagic in
  if negb written then mret None
  else
    let* ready := wait_readable 400 in
    if negb ready then mret None
    else
      let* d := answer n_datagrams set_datagrams in
      match d with
      | DatagramErrno _ => mret None
      | Datagram data _ _ =>
          let reply := ztake kMaxReflexiveReplySize data in
          if len reply <=? 0 then mret None else mret (decode_reflexive_reply reply)
      end.

Fixpoint probe_loop (tries : nat) (target : Endpoint) : M net (option Endpoint) :=
  match tries with
  | O => mret None
  | S tries =>
      let* observed := probe_server target in
      match observed with
      | Some e => mret (Some e)
      | None => probe_loop tries target
      end
  end.

Definition discover_reflexive_address (sockets : LocalSockets) (udp_family : Z) (server_endpoint : Endpoint) : M net LocalSockets :=
  match adapt_endpoint_for_socket server_endpoint udp_family with
  | None => mret sockets
  | Some target =>
      let* observed := probe_loop 3 target in
      mret (match observed with
            | Some e => mk_LocalSockets (ls_port sockets) (ls_local_candidates sockets) e true
            | None => sockets
            end)
  end.

(** * Direct TCP *)

Definition kDialledTag : bytes := str "drop-zone/v1 tcp handshake dialled".
Definition kAcceptedTag : bytes := str "drop-zone/v1 tcp handshake accepted".

Record TransportRequest := mk_TransportRequest {
  tr_is_sender : bool;
  tr_peer_candidates : list Endpoint;
  tr_handshake_key : bytes;
  tr_forced : TransportKind;
  tr_tcp_budget_ms : Z;
  tr_udp_budget_ms : Z;
  tr_pairing_id : Z;
}.

Record PendingConnect := mk_PendingConnect { pc_fd : ksock; pc_target : Endpoint }.

Definition start_connect : M net (option ksock) :=
  let* ev := answer n_connects (fun l n => mk_net (n_clock n) (n_waits n) l (n_polls n) (n_errors n) (n_accepts n) (n_datagrams n) (n_sends n) (n_sent n) (n_control n)) in
  mret (match ev with
        | NoSocket => None
        | ConnectNow s => Some s
        | ConnectErrno e s => if (e =? EINPROGRESS) || (e =? EINTR) then Some s else None
        end).

Fixpoint start_connects (candidates : list Endpoint) : M net (list PendingConnect) :=
  match candidates with
  | [] => mret []
  | candidate :: candidates =>
      let* fd := start_connect in
      let* attempts := start_connects candidates in
      mret (match fd with Some s => mk_PendingConnect s candidate :: attempts | None => attempts end)
  end.

(** [getsockopt] of [SO_ERROR]; [None] is its own failure. *)
Definition connect_status : M net Z :=
  let* error := answer n_errors (fun l n => mk_net (n_clock n) (n_waits n) (n_connects n) (n_polls n) l (n_accepts n) (n_datagrams n) (n_sends n) (n_sent n) (n_control n)) in
  mret (match error with
        | None => -1
        | Some e => if e =? 0 then 1 else if (e =? EINPROGRESS) || (e =? EALREADY) then 0 else -1
        end).

Definition poll (timeout_ms : Z) : M net poll_event :=
  answer n_polls (fun l n => mk_net (n_clock n) (n_waits n) (n_connects n) l (n_errors n) (n_accepts n) (n_datagrams n) (n_sends n) (n_sent n) (n_control n)).

Definition slice_until (deadline now : Z) : Z :=
  let remaining := if now <? deadline then deadline - now else 0 in
  if 200 <? remaining then 200 else remaining.

Section Paths.
Context `{Openssl}.

Definition compute_proof (key tag : bytes) : bytes := hmac_sha256 key tag.

Definition own_proof (key : bytes) (dialled : bool) : bytes := compute_proof key (if dialled then kDialledTag else kAcceptedTag).
Definition expected_proof (key : bytes) (dialled : bool) : bytes := compute_proof key (if dialled then kAcceptedTag else kDialledTag).

Definition authenticate (key : bytes) (dialled : bool) : M ksock bool :=
  mcatch
    (do* write_all (own_proof key dialled) in
     let* received := read_exact kSha256Size in
     mret (bool_decide (received = expected_proof key dialled)))
    (mret false).

(** The inner loop over the attempts with an event: a path, or the attempts still pending. *)
Fixpoint check_attempts (key : bytes) (revents : list bool) (attempts : list PendingConnect)
  : M net (ksock * Endpoint + list PendingConnect) :=
  match attempts with
  | [] => mret (inr [])
  | a :: attempts =>
      let keep (m : M net (ksock * Endpoint + list PendingConnect)) :=
        let* r := m in mret (match r with inl path => inl path | inr l => inr (a :: l) end) in
      if negb (default false (head revents)) then keep (check_attempts key (tail revents) attempts)
      else
        let* status := connect_status in
        let next := if negb (status =? 0) then check_attempts key (tail revents) attempts
                    else keep (check_attempts key (tail revents) attempts) in
        if status =? 1 then
          let '(ok, fd) := authenticate key true (pc_fd a) in
          let* ok := mlift ok in
          if ok then mret (inl (fd, pc_target a)) else next
        else next
  end.

(** Every turn reads the clock. *)
Fixpoint dial_loop (fuel : nat) (key : bytes) (deadline : Z) (attempts : list PendingConnect) : M net (option (ksock * Endpoint)) :=
  match fuel with
  | O => mthrow Blocks
  | S fuel =>
      if len attempts =? 0 then mret None
      else
        let* t := now_millis in
        if negb (t <? deadline) then mret None
        else
          let* now := now_millis in
          let* ready := poll (slice_until deadline now) in
          match ready with
          | PollErrno e =>
              if e =? EINTR then dial_loop fuel key deadline attempts
              else mthrow (SysError (str "poll failed while dialling the peer") e)
          | PollEvents revents =>
              let* r := check_attempts key revents attempts in
              match r with
              | inl path => mret (Some path)
              | inr attempts => dial_loop fuel key deadline attempts
              end
          end
  end.

Definition clock_turns (n : net) : nat := S (length (n_clock n)).

Definition connect_to_peer (request : TransportRequest) : M net (option (ksock * Endpoint)) :=
  let* attempts := start_connects (tr_peer_candidates request) in
  let* now := now_millis in
  let* n := mget in
  dial_loop (clock_turns n) (tr_handshake_key request) (u64 (now + tr_tcp_budget_ms request)) attempts.

Fixpoint accept_loop (fuel : nat) (key : bytes) (deadline : Z) : M net (option (ksock * Endpoint)) :=
  match fuel with
  | O => mthrow Blocks
  | S fuel =>
      let* t := now_millis in
      if negb (t <? deadline) then mret None
      else
        let* now := now_millis in
        let* ready := wait_readable (slice_until deadline now) in
        if negb ready then accept_loop fuel key deadline
        else
          let* ev := answer n_accepts (fun l n => mk_net (n_clock n) (n_waits n) (n_connects n) (n_polls n) (n_errors n) l (n_datagrams n) (n_sends n) (n_sent n) (n_control n)) in
          match ev with
          | AcceptFail => accept_loop fuel key deadline
          | Accepted s addr alen =>
              let* peer := mlift (from_sockaddr addr alen) in
              let '(ok, accepted) := authenticate key false s in
              let* ok := mlift ok in
              if ok then mret (Some (accepted, peer)) else accept_loop fuel key deadline
          end
  end.

Definition wait_for_peer (request : TransportRequest) : M net (option (ksock * Endpoint)) :=
  let* now := now_millis in
  let* n := mget in
  accept_loop (clock_turns n) (tr_handshake_key request) (u64 (now + tr_tcp_budget_ms request)).

Definition try_direct_tcp (request : TransportRequest) : M net (option (ksock * Endpoint)) :=
  if tr_is_sender request then connect_to_peer request else wait_for_peer request.

(** * Hole punching *)

Definition kPunchSenderTag : bytes := str "drop-zone/v1 udp punch sender".
Definition kPunchReceiverTag : bytes := str "drop-zone/v1 udp punch receiver".

Definition punch_proof (key : bytes) (is_sender : bool) : bytes :=
  hmac_sha256 key (if is_sender then kPunchSenderTag else kPunchReceiverTag).

Definition punch_datagram (t : UdpPacketType) (proof : bytes) : bytes := write_header t 0 0 0 kSha256Size ++ proof.

(** What one datagram means: [Some true] is a [PunchAck] of the peer, [Some false] a probe. *)
Definition punch_kind (expected : bytes) (datagram : bytes) : result (option bool) :=
  let? parsed := parse_header datagram in
  match parsed with
  | None => Ok None
  | Some header =>
      if negb (bool_decide (h_type header = Punch)) && negb (bool_decide (h_type header = PunchAck)) then Ok None
      else if negb (h_length header =? kSha256Size) then Ok None
      else if negb (bool_decide (ztake kSha256Size (zdrop kUdpHeaderSize datagram) = expected)) then Ok None
      else Ok (Some (bool_decide (h_type header = PunchAck)))
  end.

(** The draining loop: the confirmed address, or the last one a probe came from. *)
Fixpoint punch_drain (evs : list datagram_event) (own expected : bytes) (seen : option Endpoint) : M net (Endpoint + option Endpoint) :=
  match evs with
  | [] => mret (inr seen)
  | ev :: evs =>
      do* mmodify (set_datagrams evs) in
      match ev with
      | DatagramErrno e => if e =? EINTR then punch_drain evs own expected seen else mret (inr seen)
      | Datagram data addr alen =>
          let* kind := mlift (punch_kind expected (ztake kUdpDatagramSize data)) in
          match kind with
          | None => punch_drain evs own expected seen
          | Some ack =>
              let* from := mlift (from_sockaddr addr alen) in
              if ack then mret (inl from)
              else
                do* sendto from (punch_datagram PunchAck own) in
                punch_drain evs own expected (Some from)
          end
      end
  end.

(** One round of probes. *)
Fixpoint probe_candidates (candidates : list Endpoint) (probe : bytes) : M net unit :=
  match candidates with
  | [] => mret tt
  | c :: candidates => do* sendto c probe in probe_candidates candidates probe
  end.

Fixpoint punch_loop (fuel : nat) (candidates : list Endpoint) (own expected : bytes) (deadline next_probe : Z)
    (seen : option Endpoint) : M net (option Endpoint) :=
  match fuel with
  | O => mthrow Blocks
  | S fuel =>
      let* t := now_millis in
      if negb (t <? deadline) then mret None
      else
        let* now := now_millis in
        do* (if next_probe <=? now then
               do* probe_candidates candidates (punch_datagram Punch own) in
               match seen with
               | Some peer => do* sendto peer (punch_datagram PunchAck own) in mret tt
               | None => mret tt
               end
             else mret tt) in
        let next_probe := if next_probe <=? now then u64 (now + kPunchIntervalMs) else next_probe in
        let* ready := wait_readable kPunchIntervalMs in
        if negb ready then punch_loop fuel candidates own expected deadline next_probe seen
        else
          let* n := mget in
          let* r := punch_drain (n_datagrams n) own expected seen in
          match r with
          | inl from => mret (Some from)
          | inr seen => punch_loop fuel candidates own expected deadline next_probe seen
          end
  end.

(** [family] is that of the socket. *)
Definition punch_udp_path (family : Z) (raw_candidates : list Endpoint) (key : bytes) (is_sender : bool) (budget_ms : Z)
  : M net (option Endpoint) :=
  let candidates := omap (fun c => adapt_endpoint_for_socket c family) raw_candidates in
  let* now := now_millis in
  let* n := mget in
  punch_loop (clock_turns n) candidates (punch_proof key is_sender) (punch_proof key (negb is_sender))
    (u64 (now + budget_ms)) 0 None.

(** The channel is on the punched socket, whose future is [k]. *)
Definition try_hole_punch_udp (family : Z) (k : udp_socket) (request : TransportRequest) : M net (option (UdpChannel * Endpoint)) :=
  let* peer := punch_udp_path family (tr_peer_candidates request) (tr_handshake_key request) (tr_is_sender request)
    (tr_udp_budget_ms request) in
  mret (match peer with Some e => Some (new_channel default_tuning k, e) | None => None end).

(** * The relay *)

Definition on_relay {A} (m : M ksock A) : M net A := fun n =>
  match n_control n with
  | None => (Err (Error (str "cannot relay without a control connection")), n)
  | Some s =>
      let '(r, s') := m s in
      (r, mk_net (n_clock n) (n_waits n) (n_connects n) (n_polls n) (n_errors n) (n_accepts n) (n_datagrams n) (n_sends n) (n_sent n) (Some s'))
  end.

Fixpoint relay_loop (fuel : nat) (deadline : Z) : M net RelayChannel :=
  match fuel with
  | O => mthrow Blocks
  | S fuel =>
      let* t := now_millis in
      if negb (t <? deadline) then fail (str "the relay did not open within 30 seconds")
      else
        let* ready := wait_readable 1000 in
        if negb ready then relay_loop fuel deadline
        else
          let* frame := on_relay read_frame in
          match type (header frame) with
          | RelayOpenT => on_relay (fun s => (Ok (mk_RelayChannel s [] 0 false), s))
          | RejectT =>
              fail_user (str "the server would not relay: " ++
                         (if len (payload frame) =? 0 then str "no reason given" else payload frame))
          | RelayCloseT => fail_user (str "the other peer gave up before the relay opened")
          | _ => relay_loop fuel deadline
          end
  end.

Definition open_server_relay (request : TransportRequest) : M net RelayChannel :=
  do* on_relay (write_frame RelayOpenT (put_u64 (tr_pairing_id request) []) 0) in
  let* now := now_millis in
  let* n := mget in
  relay_loop (clock_turns n) (u64 (now + 30000)).

(** * The ladder *)

Inductive ChannelPtr :=
  | OverTcp (s : ksock) (peer : Endpoint)
  | OverUdp (c : UdpChannel) (peer : Endpoint)
  | OverRelay (c : RelayChannel).

Definition allows (forced tier : TransportKind) : bool := bool_decide (forced = NoTransport) || bool_decide (forced = tier).

Definition establish_channel (family : Z) (k : udp_socket) (request : TransportRequest) : M net ChannelPtr :=
  let forced := tr_forced request in
  let relay := if allows forced ServerRelay then let* c := open_server_relay request in mret (OverRelay c)
               else fail_user (str "no transport was available") in
  let udp := if allows forced HolePunchUdp then
               let* channel := try_hole_punch_udp family k request in
               match channel with
               | Some (c, peer) => mret (OverUdp c peer)
               | None => if bool_decide (forced = HolePunchUdp)
                         then fail_user (str "no UDP path could be opened and --force-transport=udp was given")
                         else relay
               end
             else relay in
  if allows forced DirectTcp then
    let* channel := try_direct_tcp request in
    match channel with
    | Some (s, peer) => mret (OverTcp s peer)
    | None => if bool_decide (forced = DirectTcp)
              then fail_user (str "no direct TCP connection could be made and --force-transport=tcp was given")
              else udp
    end
  else udp.
End Paths.

(** * Whatever the network does *)

(** What is still to come was to come before. *)
Definition later (n n' : net) : Prop :=
  (forall e, e ∈ n_connects n' -> e ∈ n_connects n) /\ (forall e, e ∈ n_accepts n' -> e ∈ n_accepts n) /\
  (forall e, e ∈ n_datagrams n' -> e ∈ n_datagrams n) /\ n_control n' = n_control n.

#[global] Instance later_preorder : PreOrder later.
Proof. split; [done|]. intros a b c (A1 & A2 & A3 & A4) (B1 & B2 & B3 & B4). split_and!; [auto..|congruence]. Qed.

(** The outcome of a call made after [n0]: a value with [Q], or an exception of the program. *)
Definition net_out {A} (n0 : net) (Q : A -> Prop) (o : result A * net) : Prop :=
  match o.1 with Ok a => later n0 o.2 /\ Q a | Err e => e <> OutOfBounds end.

Section NetOut.
Context {A B : Type} (n0 : net).

Lemma net_bind (Q : A -> Prop) (Q' : B -> Prop) m k n :
  net_out n0 Q (m n) -> (forall a n', later n0 n' -> Q a -> net_out n0 Q' (k a n')) -> net_out n0 Q' (mbind m k n).
Proof. intros Hm Hk. unfold mbind, net_out in *. destruct (m n) as [[a|e] n']; [|done]. destruct Hm. by apply Hk. Qed.

Lemma net_ret (Q : A -> Prop) a n : later n0 n -> Q a -> net_out n0 Q (mret a n).
Proof. done. Qed.

Lemma net_weaken (Q Q' : A -> Prop) o : net_out n0 Q o -> (forall a, Q a -> Q' a) -> net_out n0 Q' o.
Proof. intros Ho HQ. destruct o as [[a|e] n']; [|done]. destruct Ho. split; [done|by apply HQ]. Qed.

Lemma net_answer (script : net -> list A) rest n :
  later n0 n -> (forall x xs, script n = x :: xs -> later n (rest xs n)) -> net_out n0 (fun x => x ∈ script n) (answer script rest n).
Proof.
  intros Hn Hr. unfold answer. destruct (script n) as [|x xs] eqn:E; [done|]. split; [|by left]. etrans; [done|]. by eapply Hr.
Qed.
End NetOut.

(** Scripts lose their first answer. *)
Ltac later_tail := intros ? ? E; unfold later; cbn; rewrite ?E; split_and!; try done; intros; by right.

Lemma net_now n0 n : later n0 n -> net_out n0 (fun _ => True) (now_millis n).
Proof. intros Hn. eapply net_weaken; [apply net_answer; [done|later_tail]|done]. Qed.

Lemma net_wait_loop n0 deadline evs : forall ms n, later n0 n -> net_out n0 (fun _ => True) (wait_loop evs deadline ms n).
Proof.
  induction evs as [|ev evs IH]; intros ms n Hn; [done|]. cbn [wait_loop]. unfold mbind at 1, mmodify.
  assert (later n0 (set_waits evs n)) as H1 by (by etrans). destruct ev as [b|e]; [by apply net_ret|]. destruct (negb _); [done|].
  eapply net_bind; [by apply net_now|]. intros now n2 H2 _. destruct (_ <=? _); [by apply net_ret|by apply IH].
Qed.

Lemma net_wait n0 ms n : later n0 n -> net_out n0 (fun _ => True) (wait_readable ms n).
Proof.
  intros Hn. eapply net_bind; [by apply net_now|]. intros now n1 H1 _. eapply net_bind; [by apply (net_ret n0 (fun _ => True))|].
  intros n' n2 H2 _. by apply net_wait_loop.
Qed.

Lemma net_poll n0 ms n : later n0 n -> net_out n0 (fun _ => True) (poll ms n).
Proof. intros Hn. eapply net_weaken; [apply net_answer; [done|later_tail]|done]. Qed.

Lemma net_status n0 n : later n0 n -> net_out n0 (fun _ => True) (connect_status n).
Proof. intros Hn. eapply net_bind; [apply net_answer; [done|later_tail]|]. done. Qed.

Lemma net_sendto n0 t d n : later n0 n -> net_out n0 (fun _ => True) (sendto t d n).
Proof. intros Hn. unfold sendto. destruct (n_sends n); (split; [by etrans|done]). Qed.

(** ** Direct TCP *)

Section Safe.
Context `{Openssl}.

(** [s0] became [s] by proving the key both ways. *)
Definition tcp_proven (key : bytes) (dialled : bool) (s0 s : ksock) : Prop :=
  wire s = wire s0 ++ own_proof key dialled /\ rx_stream (rx s0) = expected_proof key dialled ++ rx_stream (rx s).

Lemma authenticate_spec key dialled s :
  match authenticate key dialled s with
  | (Ok b, s') => b = true -> tcp_proven key dialled s s'
  | (Err e, _) => e <> OutOfBounds
  end.
Proof.
  unfold authenticate, mcatch, mbind. unfold write_all.
  pose proof (write_all_loop_error (tx s) (own_proof key dialled) (wire s)) as Hne.
  destruct (write_all_loop _ _ _) as [[[]|e] [tx' wire']] eqn:Ew; [|destruct (is_dz_error e); [done|]; cbn in Hne; congruence].
  apply write_all_loop_spec in Ew as (d & l & Hd & Hw & Hl). rewrite (Hl eq_refl), app_nil_r in Hd. subst d wire'.
  unfold read_exact. cbn [rx tx wire]. pose proof (read_exact_loop_error (rx s) kSha256Size []) as Hre.
  destruct (read_exact_loop _ _ _) as [[b|e] rx'] eqn:Er; [|specialize (Hre _ _ eq_refl)].
  - apply read_exact_loop_spec in Er as (bs & -> & _ & Hs); [|done]. cbn. intros ->%bool_decide_eq_true_1. by split.
  - by destruct (is_dz_error e).
Qed.

Definition offered_socket (ev : connect_event) : option ksock :=
  match ev with NoSocket => None | ConnectNow s | ConnectErrno _ s => Some s end.

(** An attempt that was started. *)
Definition started (n0 : net) (candidates : list Endpoint) (a : PendingConnect) : Prop :=
  pc_target a ∈ candidates /\ exists ev, ev ∈ n_connects n0 /\ offered_socket ev = Some (pc_fd a).

Definition dialled_path (n0 : net) (candidates : list Endpoint) (key : bytes) (path : ksock * Endpoint) : Prop :=
  exists a, started n0 candidates a /\ path.2 = pc_target a /\ tcp_proven key true (pc_fd a) path.1.

Definition accepted_path (n0 : net) (key : bytes) (path : ksock * Endpoint) : Prop :=
  exists s addr alen, Accepted s addr alen ∈ n_accepts n0 /\ from_sockaddr addr alen = Ok path.2 /\ tcp_proven key false s path.1.

Lemma net_start_connect n0 n :
  later n0 n -> net_out n0 (fun r => forall s, r = Some s -> exists ev, ev ∈ n_connects n0 /\ offered_socket ev = Some s) (start_connect n).
Proof.
  intros Hn. eapply net_bind; [apply net_answer; [done|later_tail]|]. intros ev n' Hn' Hev%Hn. apply net_ret; [done|].
  intros s Hs. exists ev. split; [done|]. destruct ev as [|s'|e s']; [done|done|]. cbn in Hs |- *. by destruct (_ || _).
Qed.

Lemma net_start_connects n0 candidates : forall n,
  later n0 n -> net_out n0 (Forall (started n0 candidates)) (start_connects candidates n).
Proof.
  induction candidates as [|c cs IH]; intros n Hn; [by apply net_ret|]. cbn [start_connects].
  eapply net_bind; [by apply net_start_connect|]. intros fd n1 H1 Hfd. eapply net_bind; [by apply IH|]. intros l n2 H2 Hl.
  apply net_ret; [done|]. assert (Forall (started n0 (c :: cs)) l) as Hl'.
  { eapply Forall_impl; [exact Hl|]. intros a [? ?]. split; [by right|done]. }
  destruct fd as [s|]; [|done]. constructor; [|done]. split; [by left|]. by apply Hfd.
Qed.

Definition checked (n0 : net) (cs : list Endpoint) (key : bytes) (r : ksock * Endpoint + list PendingConnect) : Prop :=
  match r with inl path => dialled_path n0 cs key path | inr l => Forall (started n0 cs) l end.

Lemma net_check n0 cs key attempts : forall revents n,
  later n0 n -> Forall (started n0 cs) attempts -> net_out n0 (checked n0 cs key) (check_attempts key revents attempts n).
Proof.
  induction attempts as [|a l IH]; intros revents n Hn Hl; [by apply net_ret|]. apply Forall_cons in Hl as [Ha Hl]. cbn [check_attempts].
  assert (forall n', later n0 n' -> net_out n0 (checked n0 cs key)
    ((let* r := check_attempts key (tail revents) l in mret (match r with inl path => inl path | inr l => inr (a :: l) end)) n')) as Hkeep.
  { intros n' Hn'. eapply net_bind; [by apply IH|]. intros [path|l'] n2 H2 Hr; apply net_ret; [done..|]. by constructor. }
  destruct (negb _); [by apply Hkeep|]. eapply net_bind; [by apply net_status|]. intros status n1 H1 _.
  assert (net_out n0 (checked n0 cs key) ((if negb (status =? 0) then check_attempts key (tail revents) l else
    let* r := check_attempts key (tail revents) l in mret (match r with inl path => inl path | inr l => inr (a :: l) end)) n1)) as Hnext.
  { destruct (negb _); [by apply IH|by apply Hkeep]. }
  cbv zeta. destruct (status =? 1); [|exact Hnext]. pose proof (authenticate_spec key true (pc_fd a)) as Hau.
  destruct (authenticate _ _ _) as [[[]|e] fd]; [|exact Hnext|exact Hau]. apply net_ret; [done|]. exists a. by split_and!; [..|apply Hau].
Qed.

Lemma net_dial_loop n0 cs key deadline fuel : forall attempts n,
  later n0 n -> Forall (started n0 cs) attempts ->
  net_out n0 (fun r => forall path, r = Some path -> dialled_path n0 cs key path) (dial_loop fuel key deadline attempts n).
Proof.
  induction fuel as [|fuel IH]; intros attempts n Hn Hl; [done|]. cbn [dial_loop]. destruct (_ =? _); [by apply net_ret|].
  eapply net_bind; [by apply net_now|]. intros t n1 H1 _. destruct (negb _); [by apply net_ret|].
  eapply net_bind; [by apply net_now|]. intros now n2 H2 _. eapply net_bind; [by apply net_poll|]. intros [revents|e] n3 H3 _.
  - eapply net_bind; [by apply net_check|]. intros [path|l] n4 H4 Hr; [|by apply IH]. apply net_ret; [done|]. by intros ? [= <-].
  - destruct (_ =? _); [by apply IH|done].
Qed.

Lemma net_accept_loop n0 key deadline fuel : forall n,
  later n0 n -> net_out n0 (fun r => forall path, r = Some path -> accepted_path n0 key path) (accept_loop fuel key deadline n).
Proof.
  induction fuel as [|fuel IH]; intros n Hn; [done|]. cbn [accept_loop].
  eapply net_bind; [by apply net_now|]. intros t n1 H1 _. destruct (negb _); [by apply net_ret|].
  eapply net_bind; [by apply net_now|]. intros now n2 H2 _. eapply net_bind; [by apply net_wait|]. intros ready n3 H3 _.
  destruct (negb _); [by apply IH|]. eapply net_bind; [apply net_answer; [done|later_tail]|]. intros ev n4 H4 Hev%H3.
  destruct ev as [|s addr alen]; [by apply IH|]. unfold mlift, mbind at 1. destruct (from_sockaddr addr alen) as [peer|e] eqn:Ef.
  - pose proof (authenticate_spec key false s) as Hau. destruct (authenticate _ _ _) as [[[]|e] fd]; [|by apply IH|exact Hau].
    apply net_ret; [done|]. intros path [= <-]. exists s, addr, alen. by split_and!; [..|apply Hau].
  - unfold from_sockaddr in Ef. cbn. intros ->. destruct (_ <? _); [done|]. destruct addr; [done| |done]. by destruct (IN6_IS_ADDR_V4MAPPED _).
Qed.

(** A TCP path: the connection is one that was dialled to a candidate or one that came in. *)
Definition tcp_path (n0 : net) (request : TransportRequest) (path : ksock * Endpoint) : Prop :=
  if tr_is_sender request then dialled_path n0 (tr_peer_candidates request) (tr_handshake_key request) path
  else accepted_path n0 (tr_handshake_key request) path.

Lemma net_tcp n0 request n :
  later n0 n -> net_out n0 (fun r => forall path, r = Some path -> tcp_path n0 request path) (try_direct_tcp request n).
Proof.
  intros Hn. unfold try_direct_tcp, tcp_path. destruct (tr_is_sender request).
  - eapply net_bind; [by apply net_start_connects|]. intros l n1 H1 Hl. eapply net_bind; [by apply net_now|]. intros now n2 H2 _.
    eapply net_bind; [by apply (net_ret n0 (fun _ => True))|]. intros n' n3 H3 _. by apply net_dial_loop.
  - eapply net_bind; [by apply net_now|]. intros now n1 H1 _. eapply net_bind; [by apply (net_ret n0 (fun _ => True))|].
    intros n' n2 H2 _. by apply net_accept_loop.
Qed.

(** ** Hole punching *)

Lemma load_ok {A} (load : bytes -> result Z) (P : Z -> Prop) k n (d : bytes) (f : Z -> result A) e :
  (forall b, k <= len b -> exists v, load b = Ok v /\ P v) -> 0 <= n -> 0 <= k -> n + k <= len d -> (forall v, f v <> Err e) ->
  (let? v := load (zdrop n d) in f v) <> Err e.
Proof. intros Hl Hn Hk Hd Hf. destruct (Hl (zdrop n d)) as (v & -> & _); [rewrite len_zdrop by lia; lia|]. apply Hf. Qed.

Lemma parse_header_total d e : parse_header d <> Err e.
Proof.
  unfold parse_header, kUdpHeaderSize. destruct (Z.ltb_spec (len d) 22); [done|].
  destruct d as [|m0 [|m1 [|t d]]]; [done..|]. set (w := m0 :: m1 :: t :: d) in *. destruct (_ || _); [done|].
  eapply (load_ok _ _ 4); [apply load_u32_total|lia|lia|lia|]. intros sequence. eapply (load_ok _ _ 4); [apply load_u32_total|lia|lia|lia|]. intros ack.
  eapply (load_ok _ _ 8); [apply load_u64_total|lia|lia|lia|]. intros bits. eapply (load_ok _ _ 2); [apply load_u16_total|lia|lia|lia|]. intros n.
  destruct (_ <? _); [done|]. by destruct (_ <? _).
Qed.

(** A datagram that confirms the path: a [PunchAck] with the peer's proof. *)
Definition confirms (expected datagram : bytes) : Prop :=
  exists h, parse_header datagram = Ok (Some h) /\ h_type h = PunchAck /\ h_length h = kSha256Size /\
    ztake kSha256Size (zdrop kUdpHeaderSize datagram) = expected.

Lemma punch_kind_spec expected d :
  match punch_kind expected d with Ok k => k = Some true -> confirms expected d | Err _ => False end.
Proof.
  unfold punch_kind. destruct (parse_header d) as [[h|]|e] eqn:E; [|done|by apply parse_header_total in E].
  destruct (_ && _); [done|]. destruct (Z.eqb_spec (h_length h) kSha256Size); [|done]. cbn [negb].
  destruct (bool_decide (_ = expected)) eqn:Ep; [|done]. cbn [negb]. apply bool_decide_eq_true_1 in Ep.
  intros [= Ht%bool_decide_eq_true_1]. by exists h.
Qed.

Definition punched_path (n0 : net) (expected : bytes) (peer : Endpoint) : Prop :=
  exists data addr alen, Datagram data addr alen ∈ n_datagrams n0 /\ from_sockaddr addr alen = Ok peer /\
    confirms expected (ztake kUdpDatagramSize data).

Lemma net_drain n0 own expected evs : forall seen n,
  later n0 n -> n_datagrams n = evs ->
  net_out n0 (fun r => forall peer, r = inl peer -> punched_path n0 expected peer) (punch_drain evs own expected seen n).
Proof.
  induction evs as [|ev evs IH]; intros seen n Hn Hevs; [by apply net_ret|]. cbn [punch_drain]. unfold mbind at 1, mmodify.
  assert (later n0 (set_datagrams evs n)) as Hn1.
  { etrans; [exact Hn|]. unfold later, set_datagrams. cbn. rewrite Hevs. split_and!; try done. intros e. by right. }
  assert (ev ∈ n_datagrams n0) as Hev by (apply Hn; rewrite Hevs; left).
  destruct ev as [data addr alen|e]; [|destruct (_ =? _); [by apply IH|by apply net_ret]].
  unfold mlift, mbind at 1. pose proof (punch_kind_spec expected (ztake kUdpDatagramSize data)) as Hk.
  destruct (punch_kind _ _) as [[ack|]|e]; [|by apply IH|done]. unfold mbind at 1.
  pose proof (from_sockaddr_error addr alen) as Hfe.
  destruct (from_sockaddr addr alen) as [from|e] eqn:Ef; [|cbn; congruence]. destruct ack.
  - apply net_ret; [done|]. intros peer [= <-]. exists data, addr, alen. by split_and!; [..|apply Hk].
  - unfold mbind, sendto. destruct (n_sends _); cbn iota beta; (apply IH; [etrans; [exact Hn1|done]|done]).
Qed.

Lemma net_probes n0 cs probe : forall n, later n0 n -> net_out n0 (fun _ => True) (probe_candidates cs probe n).
Proof.
  induction cs as [|c cs IH]; intros n Hn; [by apply net_ret|]. cbn [probe_candidates].
  eapply net_bind; [by apply net_sendto|]. intros _ n1 H1 _. by apply IH.
Qed.

Lemma net_punch_loop n0 cs own expected deadline fuel : forall next seen n,
  later n0 n ->
  net_out n0 (fun r => forall peer, r = Some peer -> punched_path n0 expected peer)
    (punch_loop fuel cs own expected deadline next seen n).
Proof.
  induction fuel as [|fuel IH]; intros next seen n Hn; [done|]. cbn [punch_loop].
  eapply net_bind; [by apply net_now|]. intros t n1 H1 _. destruct (negb _); [by apply net_ret|].
  eapply net_bind; [by apply net_now|]. intros now n2 H2 _. eapply (net_bind n0 (fun _ => True)).
  { destruct (_ <=? _); [|by apply net_ret]. eapply net_bind; [by apply net_probes|]. intros _ n3 H3 _.
    destruct seen; [|by apply net_ret]. eapply net_bind; [by apply net_sendto|]. done. }
  intros _ n3 H3 _. cbv zeta. eapply net_bind; [by apply net_wait|]. intros ready n4 H4 _. destruct (negb _); [by apply IH|].
  unfold mbind at 1, mget. eapply net_bind; [by apply net_drain|]. intros [from|seen'] n5 H5 Hr; [|by apply IH].
  apply net_ret; [done|]. intros peer [= <-]. by apply Hr.
Qed.

Definition udp_path (n0 : net) (request : TransportRequest) (peer : Endpoint) : Prop :=
  punched_path n0 (punch_proof (tr_handshake_key request) (negb (tr_is_sender request))) peer.

Lemma net_udp n0 family k request n :
  later n0 n ->
  net_out n0 (fun r => forall c peer, r = Some (c, peer) -> c = new_channel default_tuning k /\ udp_path n0 request peer)
    (try_hole_punch_udp family k request n).
Proof.
  intros Hn. eapply net_bind.
  - eapply net_bind; [by apply net_now|]. intros now n1 H1 _. eapply net_bind; [by apply (net_ret n0 (fun _ => True))|].
    intros n' n2 H2 _. by apply net_punch_loop.
  - intros [e|] n1 H1 Hr; apply net_ret; try done. intros c peer [= <- <-]. split; [done|]. by apply Hr.
Qed.

(** ** The relay *)

(** The server was asked once to open the relay, and said so last. *)
Definition relay_path (n0 : net) (request : TransportRequest) (c : RelayChannel) : Prop :=
  exists s0 s1 frame, n_control n0 = Some s0 /\
    wire (control_ c) = wire s0 ++ frame_bytes RelayOpenT 0 (store_u64 (tr_pairing_id request)) /\
    read_frame s1 = (Ok frame, control_ c) /\ type (header frame) = RelayOpenT /\ c = mk_RelayChannel (control_ c) [] 0 false.

Lemma read_frame_wire s : wire (read_frame s).2 = wire s.
Proof.
  unfold read_frame, mbind, mlift, mret, read_exact. destruct (read_exact_loop _ _ _) as [[b|e] r]; [|done].
  destruct (decode_frame_header b) as [h|e]; [|done]. destruct (_ <? _); [|done]. by destruct (read_exact_loop _ _ _) as [[b'|e] r'].
Qed.

(** The control connection when [W] has been written to it. *)
Definition asked (W : bytes) (n : net) : Prop := exists s, n_control n = Some s /\ rx_ok (rx s) /\ wire s = W.

Lemma asked_later W n n' : asked W n -> later n n' -> asked W n'.
Proof. intros (s & Hs & ?) (_ & _ & _ & E). exists s. by rewrite E. Qed.

(** An outcome of the relay: a channel with [Q], or an exception of the program. *)
Definition relay_out {A} (Q : A -> Prop) (r : result A) : Prop := match r with Ok a => Q a | Err e => e <> OutOfBounds end.

Lemma relay_bind {A B} n (Q : A -> Prop) (Q' : B -> Prop) (m : M net A) k :
  net_out n Q (m n) -> (forall a n', later n n' -> Q a -> relay_out Q' (k a n').1) -> relay_out Q' (mbind m k n).1.
Proof. intros Hm Hk. unfold mbind, net_out in *. destruct (m n) as [[a|e] n']; [|done]. destruct Hm. by apply Hk. Qed.

Definition opened (W : bytes) (c : RelayChannel) : Prop :=
  exists s1 frame, wire (control_ c) = W /\ read_frame s1 = (Ok frame, control_ c) /\ type (header frame) = RelayOpenT /\
    c = mk_RelayChannel (control_ c) [] 0 false.

Lemma relay_loop_ok W deadline fuel : forall n, asked W n -> relay_out (opened W) (relay_loop fuel deadline n).1.
Proof.
  induction fuel as [|fuel IH]; intros n Hn; [done|]. cbn [relay_loop]. eapply relay_bind; [by apply net_now|]. intros t n1 H1 _.
  destruct (negb _); [done|]. eapply relay_bind; [by apply net_wait|]. intros ready n2 H2 _.
  assert (asked W n2) as Ha by (eapply asked_later; [by eapply asked_later|done]). destruct (negb _); [by apply IH|].
  destruct Ha as (s & Hc & Hrx & Hw). unfold mbind, on_relay at 1. rewrite Hc. pose proof (read_frame_any s Hrx) as (Hrx' & _ & Hr).
  pose proof (read_frame_wire s) as Hw'. destruct (read_frame s) as [[frame|e] s'] eqn:Er; cbn [fst snd] in *; [|done].
  set (n3 := mk_net _ _ _ _ _ _ _ _ _ _). assert (asked W n3) as H3 by (exists s'; split_and!; [done..|congruence]).
  destruct (type (header frame)) eqn:Et; try (by apply IH); try done. unfold on_relay, n3. cbn [n_control fst].
  exists s, frame. split_and!; [cbn; congruence|done..].
Qed.

Lemma open_relay_ok n0 request n :
  (forall s, n_control n0 = Some s -> rx_ok (rx s)) -> later n0 n ->
  relay_out (relay_path n0 request) (open_server_relay request n).1.
Proof.
  intros Hrx (_ & _ & _ & Hc). unfold open_server_relay, mbind at 1, on_relay. rewrite Hc.
  destruct (n_control n0) as [s|] eqn:Es; [|done]. pose proof (write_frame_any RelayOpenT (put_u64 (tr_pairing_id request) []) s (Hrx s eq_refl)) as (Hrx' & _ & Hr).
  destruct (write_frame _ _ _ s) as [[[]|e] s'] eqn:Ew; [|done]. apply write_frame_ok in Ew. cbn [fst snd] in *.
  set (n1 := mk_net _ _ _ _ _ _ _ _ _ _). assert (asked (wire s') n1) as H1 by (by exists s').
  eapply relay_bind; [by apply net_now|]. intros now n2 H2 _. unfold mbind, mget.
  pose proof (relay_loop_ok (wire s') (u64 (now + 30000)) (clock_turns n2) n2 (asked_later _ _ _ H1 H2)) as Hl.
  destruct (relay_loop _ _ n2) as [[c|e] n3]; [|done]. destruct Hl as (s1 & frame & Hw & ? & ? & ?). exists s, s1, frame. rewrite Hw. by split_and!.
Qed.

(** A path whose other end proved the session's key, on a tier that was asked for. *)
Definition proven_path (k : udp_socket) (request : TransportRequest) (n : net) (channel : ChannelPtr) : Prop :=
  match channel with
  | OverTcp s peer => allows (tr_forced request) DirectTcp = true /\ tcp_path n request (s, peer)
  | OverUdp c peer => allows (tr_forced request) HolePunchUdp = true /\ c = new_channel default_tuning k /\ udp_path n request peer
  | OverRelay c => allows (tr_forced request) ServerRelay = true /\ relay_path n request c
  end.

Lemma establish_any family k request n :
  (forall s, n_control n = Some s -> rx_ok (rx s)) -> relay_out (proven_path k request n) (establish_channel family k request n).1.
Proof.
  intros Hrx.
  unfold establish_channel. set (relay := if allows _ ServerRelay then _ else _). set (udp := if allows _ HolePunchUdp then _ else _).
  assert (forall n1, later n n1 -> relay_out (proven_path k request n) (relay n1).1) as Hrelay.
  { intros n1 H1. subst relay. destruct (allows _ ServerRelay) eqn:Ea; [|done]. pose proof (open_relay_ok n request n1 Hrx H1) as Ho.
    unfold mbind. destruct (open_server_relay request n1) as [[c|e] n2]; [by split|exact Ho]. }
  assert (forall n1, later n n1 -> relay_out (proven_path k request n) (udp n1).1) as Hudp.
  { intros n1 H1. subst udp. destruct (allows _ HolePunchUdp) eqn:Ea; [|by apply Hrelay]. pose proof (net_udp n family k request n1 H1) as Ho.
    unfold mbind, net_out in *. destruct (try_hole_punch_udp _ _ _ n1) as [[[[c peer]|]|e] n2]; [| |done].
    - destruct Ho as [_ Ho]. split; [done|]. by apply Ho.
    - destruct Ho. destruct (bool_decide _); [done|by apply Hrelay]. }
  clearbody relay udp. destruct (allows _ DirectTcp) eqn:Ea; [|by apply Hudp]. pose proof (net_tcp n request n ltac:(done)) as Ho.
  unfold mbind, net_out in *. destruct (try_direct_tcp _ n) as [[[[s peer]|]|e] n2]; [| |done].
  - destruct Ho as [_ Ho]. split; [done|]. by apply Ho.
  - destruct Ho as [Hn _]. destruct (bool_decide _); [done|by apply Hudp].
Qed.

End Safe.

(** * Honest ends *)

Section Agree.
Context `{OpensslLaws}.

(** The first 32 bytes of the peer decide. *)
Lemma authenticate_total key dialled s b rest :
  kSha256Size <= tx_budget (tx s) -> rx_stream (rx s) = b ++ rest -> len b = kSha256Size ->
  exists s', authenticate key dialled s = (Ok (bool_decide (b = expected_proof key dialled)), s') /\
    wire s' = wire s ++ own_proof key dialled /\ rx_stream (rx s') = rest.
Proof.
  intros Ht Hr Hb. assert (len (own_proof key dialled) = kSha256Size) as Hl by apply (hmac_fixed (OpensslLaws := H0)).
  destruct (write_all_loop_paid (tx s) (own_proof key dialled) (wire s)) as (E1 & E2 & _); [lia|].
  unfold authenticate, mcatch, mbind, write_all. destruct (write_all_loop _ _ _) as [r [tx' wire']]. cbn in E1, E2. subst r wire'.
  destruct (read_exact_stream b rest (mk_ksock (rx s) tx' (wire s ++ own_proof key dialled)) Hr) as (s' & E & Hs & _ & Hw).
  rewrite Hb in E. rewrite E. exists s'. by split_and!.
Qed.

(** The two ends of a connection accept each other when they share the key: each sends
    32 bytes and takes 32, and both go on with the streams as they were after those. The
    proofs are tied to the roles: an end that is sent its own proof back refuses, as long as
    the two tags have different codes under the key. *)
Theorem tcp_ends_agree key sD sA restD restA :
  kSha256Size <= tx_budget (tx sD) -> kSha256Size <= tx_budget (tx sA) ->
  rx_stream (rx sD) = own_proof key false ++ restD -> rx_stream (rx sA) = own_proof key true ++ restA ->
  (exists sD' sA', authenticate key true sD = (Ok true, sD') /\ authenticate key false sA = (Ok true, sA') /\
     wire sD' = wire sD ++ own_proof key true /\ rx_stream (rx sD') = restD /\
     wire sA' = wire sA ++ own_proof key false /\ rx_stream (rx sA') = restA) /\
  (hmac_sha256 key kDialledTag <> hmac_sha256 key kAcceptedTag -> forall dialled s rest,
     kSha256Size <= tx_budget (tx s) -> rx_stream (rx s) = own_proof key dialled ++ rest ->
     (authenticate key dialled s).1 = Ok false).
Proof.
  intros TD TA RD RA. assert (forall d, len (own_proof key d) = kSha256Size) as Hl by (intros d; apply (hmac_fixed (OpensslLaws := H0))).
  split.
  - destruct (authenticate_total key true sD _ _ TD RD (Hl _)) as (sD' & ED & WD & SD).
    destruct (authenticate_total key false sA _ _ TA RA (Hl _)) as (sA' & EA & WA & SA).
    exists sD', sA'. rewrite ED, EA. by split_and!; [rewrite bool_decide_eq_true_2..| | | |].
  - intros Hne dialled s rest Ht Hr. destruct (authenticate_total key dialled s _ _ Ht Hr (Hl _)) as (s' & -> & _).
    cbn. rewrite bool_decide_eq_false_2; [done|]. unfold own_proof, expected_proof, compute_proof. destruct dialled; congruence.
Qed.
End Agree.

(** * Examples *)

Definition sample_handshake_key : bytes := replicate 32 5.
Definition addr_a : Endpoint := EpV4 4000 [192; 168; 0; 1].
Definition addr_b : Endpoint := EpV4 5000 [192; 168; 0; 2].
Definition sample_request (is_sender : bool) : TransportRequest :=
  mk_TransportRequest is_sender (if is_sender then [addr_a; addr_b] else [addr_a]) sample_handshake_key NoTransport 1500 4000 7.

Definition proof_of (dialled : bool) : bytes := own_proof (H := toy_openssl) sample_handshake_key dialled.
Definition roomy (incoming : bytes) : ksock := mk_ksock [RxData incoming] (replicate 40 (TxWrote 40)) [].

(** The first candidate refuses, the second is the peer. *)
Definition dialling : net :=
  mk_net [0; 1; 2; 3; 4] [] [ConnectErrno EINPROGRESS (roomy []); ConnectErrno EINPROGRESS (roomy (proof_of false ++ [9]))]
    [PollEvents [true; false]; PollEvents [true]] [Some 111; Some 0] [] [] [] [] None.


Lemma tcp_ends_agree_witness :
  (exists sD' sA', authenticate (H := toy_openssl) sample_handshake_key true (roomy (proof_of false ++ [9])) = (Ok true, sD') /\
     authenticate (H := toy_openssl) sample_handshake_key false (roomy (proof_of true)) = (Ok true, sA') /\
     rx_stream (rx sD') = [9] /\ rx_stream (rx sA') = []) /\
  (authenticate (H := toy_openssl) sample_handshake_key true (roomy (proof_of true))).1 = Ok false.
Proof.
  destruct (tcp_ends_agree (H0 := toy_openssl_laws) sample_handshake_key (roomy (proof_of false ++ [9])) (roomy (proof_of true)) [9] [])
    as [(sD' & sA' & ED & EA & _ & SD & _ & SA) Hreflect]; [done|done|reflexivity|reflexivity|].
  split.
  - exists sD', sA'. split_and!; [exact ED|exact EA|exact SD|exact SA].
  - apply (Hreflect ltac:(vm_compute; discriminate) true (roomy (proof_of true)) []); [done|reflexivity].
Defined.

(** Two honest ends punching: A is the sender. B hears A's probe and answers; every probe B
    sends before that is lost. *)
Definition punching (is_sender : bool) (n : net) : result (option Endpoint) * net :=
  punch_udp_path (H := toy_openssl) AF_INET [if is_sender then addr_b else addr_a] sample_handshake_key is_sender 100 n.

Definition punch_packet (t : UdpPacketType) (is_sender : bool) : bytes :=
  punch_datagram t (punch_proof (H := toy_openssl) sample_handshake_key is_sender).

Definition punch_net (clock : list Z) (waits : list bool) (ds : list bytes) (from : Endpoint) : net :=
  mk_net clock (Ready <$> waits) [] [] [] [] ((fun d => Datagram d from 16) <$> ds) [] [] None.

Definition punch_net_a : net := punch_net [0; 1; 1; 1] [true] [punch_packet PunchAck false] addr_b.
Definition punch_net_b : net := punch_net [0; 1; 1; 1; 51; 51; 51; 100] [true; false] [punch_packet Punch true] addr_a.

(** Punching can commit one end only: the sender gets the answer to its probe and returns
    the path, while the receiver, whose probes did not get through, waits for an answer that
    the sender no longer gives and gives the tier up. Every datagram either end got was sent
    to it by the other, and everything the sender sent arrived. *)
Theorem punch_one_sided :
  let A := punching true punch_net_a in
  let B := punching false punch_net_b in
  A.1 = Ok (Some addr_b) /\ B.1 = Ok None /\
  n_datagrams punch_net_b = (fun p => Datagram p.2 addr_a 16) <$> n_sent A.2 /\
  (forall d from alen, Datagram d from alen ∈ n_datagrams punch_net_a -> from = addr_b /\ (addr_a, d) ∈ n_sent B.2).
Proof.
  intros A B. split_and!; [vm_compute; reflexivity..|]. intros d from alen [= -> -> _]%list_elem_of_singleton. split; [done|].
  apply (bool_decide_unpack _). vm_compute. exact I.
Qed.
