(* ===== verification/Platform.v ===== *)
(** What depends on the system: [local_interface_addresses] and [wait_readable_micros] of
    [common/src/socket.cpp], and what systems other than Linux have instead: in
    [common/src/fileio.cpp] [sendfile_all] of macOS and the one that reads and writes, with
    [pread_all], and in [client/src/reliable_udp.cpp] [receive_batch].

    A call answers with the next entry of its script. [data] is what the file holds from the
    offset on, and [out] what the peer has been sent. *)

From S2P Require Import Prelude Socket Address Channel ReliableUdp Transport.

(** * Interfaces *)

Definition IFF_UP : Z := 1.

(** [struct ifaddrs]: an address that may be missing, and the flags. *)
Record ifaddrs := mk_ifaddrs { ifa_addr : option Endpoint; ifa_flags : Z }.

Section Interfaces.
Context `{Inet} (include_loopback : bool).

(** An address that is not to be left out, once. *)
Definition add_address (endpoint : Endpoint) (addresses : list Endpoint) : list Endpoint :=
  if is_unspecified endpoint then addresses
  else if is_loopback endpoint && negb include_loopback then addresses
  else
    let duplicate := existsb (fun existing => bool_decide (ip_string existing = ip_string endpoint)) addresses in
    if duplicate then addresses else addresses ++ [endpoint].

(** A turn of the loop. *)
Definition interface_turn (it : ifaddrs) (addresses : list Endpoint) : result (list Endpoint) :=
  match ifa_addr it with
  | None => Ok addresses
  | Some addr =>
      if Z.land (ifa_flags it) IFF_UP =? 0 then Ok addresses
      else
        match addr with
        | EpV4 _ _ => let? endpoint := from_sockaddr addr sizeof_sockaddr_in in Ok (add_address endpoint addresses)
        | EpV6 _ _ _ _ => let? endpoint := from_sockaddr addr sizeof_sockaddr_in6 in Ok (add_address endpoint addresses)
        | EpOther _ => Ok addresses
        end
  end.

Fixpoint interface_loop (its : list ifaddrs) (addresses : list Endpoint) : result (list Endpoint) :=
  match its with
  | [] => Ok addresses
  | it :: its => let? addresses := interface_turn it addresses in interface_loop its addresses
  end.

(** The list, or the [errno] of [getifaddrs]. *)
Definition local_interface_addresses (answer : Z + list ifaddrs) : result (list Endpoint) :=
  match answer with
  | inl e => Err (SysError (str "getifaddrs failed") e)
  | inr its => interface_loop its []
  end.

(** The address an interface offers, if it offers one. *)
Definition offered (it : ifaddrs) : option Endpoint :=
  match ifa_addr it with
  | Some (EpV4 p a) => Some (EpV4 p a)
  | Some (EpV6 p f a s) => Some (if IN6_IS_ADDR_V4MAPPED a then EpV4 p (zdrop 12 a) else EpV6 p f a s)
  | _ => None
  end ≫= fun e =>
  if negb (Z.land (ifa_flags it) IFF_UP =? 0) && negb (is_unspecified e) && (include_loopback || negb (is_loopback e)) then Some e else None.

(** Not the text of an earlier one. *)
Definition fresh_text (e : Endpoint) (earlier : list Endpoint) : bool := bool_decide (ip_string e ∉ ip_string <$> earlier).

Lemma interface_turn_offered it addresses :
  interface_turn it addresses = Ok match offered it with
    | Some e => if fresh_text e addresses then addresses ++ [e] else addresses
    | None => addresses
    end.
Proof.
  assert (forall e, existsb (fun existing => bool_decide (ip_string existing = ip_string e)) addresses = negb (fresh_text e addresses)) as Hd.
  { intros e. unfold fresh_text. rewrite <- bool_decide_not. apply eq_true_iff_eq. rewrite existsb_exists, bool_decide_eq_true. split.
    - intros (x & Hx%list_elem_of_In & Ht%bool_decide_eq_true) Hn. apply Hn. rewrite <- Ht. by apply list_elem_of_fmap_2.
    - intros Hn. apply dec_stable in Hn. apply list_elem_of_fmap in Hn as (x & Ht & Hx). exists x. split; [by apply list_elem_of_In|].
      by apply bool_decide_eq_true. }
  assert (forall e, add_address e addresses = match (if negb (is_unspecified e) && (include_loopback || negb (is_loopback e)) then Some e else None) with
    | Some e => if fresh_text e addresses then addresses ++ [e] else addresses | None => addresses end) as Ha.
  { intros e. unfold add_address. rewrite Hd. destruct (is_unspecified e), (is_loopback e), include_loopback; cbn; try done;
      by destruct (fresh_text e addresses). }
  unfold interface_turn, offered. destruct (ifa_addr it) as [[p a|p f a s|]|]; [| |by destruct (_ =? 0)|done].
  - destruct (_ =? 0); [done|]. exact (f_equal Ok (Ha _)).
  - unfold from_sockaddr. destruct (_ =? 0); [done|]. destruct (IN6_IS_ADDR_V4MAPPED a); exact (f_equal Ok (Ha _)).
Qed.

Lemma interface_loop_spec its : forall addresses, NoDup (ip_string <$> addresses) ->
  exists r, interface_loop its addresses = Ok r /\ NoDup (ip_string <$> r) /\
  (forall e, e ∈ r -> e ∈ addresses \/ Some e ∈ offered <$> its) /\
  (forall t, t ∈ ip_string <$> addresses -> t ∈ ip_string <$> r) /\
  (forall e, Some e ∈ offered <$> its -> ip_string e ∈ ip_string <$> r).
Proof.
  induction its as [|it its IH]; intros addresses Hn.
  { exists addresses. split_and!; try done; [by left|]. by intros e ?%not_elem_of_nil. }
  cbn [interface_loop fmap list_fmap]. rewrite interface_turn_offered. cbn. destruct (offered it) as [e|] eqn:Eo.
  2:{ destruct (IH addresses Hn) as (r & -> & H1 & H2 & H3 & H4). exists r. split_and!; try done.
      - intros e He. destruct (H2 e He); [by left|right]. by constructor.
      - intros e [?|?]%elem_of_cons; [done|by apply H4]. }
  unfold fresh_text. case_bool_decide as Hf.
  - destruct (IH (addresses ++ [e])) as (r & -> & H1 & H2 & H3 & H4).
    { rewrite fmap_app, NoDup_app. split_and!; [done| |apply NoDup_singleton]. by intros t Ht ->%list_elem_of_singleton. }
    exists r. split_and!; try done.
    + intros g Hg. destruct (H2 g Hg) as [[?| ->%list_elem_of_singleton]%elem_of_app|?]; [by left|right|right]; by constructor.
    + intros t Ht. apply H3. rewrite fmap_app. apply elem_of_app. by left.
    + intros g [[= ->]|?]%elem_of_cons; [|by apply H4]. apply H3. rewrite fmap_app. apply elem_of_app. right. by constructor.
  - destruct (IH addresses Hn) as (r & -> & H1 & H2 & H3 & H4). exists r. split_and!; try done.
    + intros g Hg. destruct (H2 g Hg); [by left|right]. by constructor.
    + intros g [[= ->]|?]%elem_of_cons; [|by apply H4]. apply H3. exact Hf.
Qed.

(** One address of each text that an interface which is up offers, and no other. *)
Lemma interface_addresses_spec its :
  exists addresses, local_interface_addresses (inr its) = Ok addresses /\
  NoDup (ip_string <$> addresses) /\
  (forall e, e ∈ addresses -> Some e ∈ offered <$> its) /\
  (forall e, Some e ∈ offered <$> its -> ip_string e ∈ ip_string <$> addresses).
Proof.
  destruct (interface_loop_spec its [] NoDup_nil_2) as (r & Hr & H1 & H2 & _ & H4). exists r. split_and!; try done.
  intros e He. by destruct (H2 e He) as [?%not_elem_of_nil|].
Qed.

Lemma offered_usable it e : offered it = Some e -> is_unspecified e = false /\ (is_loopback e = true -> include_loopback = true).
Proof.
  unfold offered. intros (a & _ & Ha)%bind_Some. destruct (negb (Z.land _ _ =? 0)); [|done].
  destruct (is_unspecified a) eqn:Eu, include_loopback, (is_loopback a) eqn:El; cbn in Ha; try done; injection Ha as <-; by rewrite ?El.
Qed.
End Interfaces.

(** * Waiting *)

Section Waiting.
Context (linux : bool).

(** The Linux loop, which starts again with the same limit after a signal. *)
Fixpoint ppoll_loop (evs : list wait_event) : M net bool :=
  match evs with
  | [] => mthrow Blocks
  | ev :: evs =>
      do* mmodify (set_waits evs) in
      match ev with
      | Ready b => mret b
      | WaitErrno e => if negb (e =? EINTR) then mthrow (SysError (str "ppoll failed") e) else ppoll_loop evs
      end
  end.

(** The limit that is given to [poll], at least a millisecond. *)
Definition micros_to_millis (timeout_us : Z) : Z :=
  let timeout_ms := i32 (u32 (u64 (timeout_us + 999) / 1000)) in
  if timeout_ms <? 1 then 1 else timeout_ms.

Definition wait_readable_micros (timeout_us : Z) : M net bool :=
  if linux then let* n := mget in ppoll_loop (n_waits n)
  else wait_readable (micros_to_millis timeout_us).
End Waiting.

(** It never waits for less than was asked for, nor for two milliseconds more. *)
Lemma micros_rounded_up timeout_us :
  0 <= timeout_us <= 10 ^ 12 -> timeout_us <= micros_to_millis timeout_us * 1000 < timeout_us + 2000 /\ 1 <= micros_to_millis timeout_us.
Proof.
  intros Hb. unfold micros_to_millis. assert (is_u64 (timeout_us + 999)) as Hu by (unfold is_u; lia). rewrite (u64_small _ Hu).
  pose proof (Z.div_mod (timeout_us + 999) 1000 ltac:(done)) as Hd. pose proof (Z.mod_pos_bound (timeout_us + 999) 1000 ltac:(done)).
  rewrite u32_small, i32_small by (unfold is_u; lia). destruct (Z.ltb_spec ((timeout_us + 999) / 1000) 1); lia.
Qed.

(** * Sending a file *)

(** [pread]: bytes that were read, up to what there is. *)
Inductive pread_event := PreadGot (n : Z) | PreadEintr | PreadFail (errno : Z).

Fixpoint pread_loop (evs : list pread_event) (data : bytes) (remaining : Z) (got : bytes) : result bytes * list pread_event :=
  if remaining <=? 0 then (Ok got, evs)
  else match evs with
       | [] => (Err Blocks, [])
       | PreadEintr :: evs => pread_loop evs data remaining got
       | PreadFail e :: evs => (Err (SysError (str "cannot read from the input file") e), evs)
       | PreadGot n :: evs =>
           let count := moved n (Z.min remaining (len data)) in
           if count =? 0 then (Err (Error (str "the input file ended sooner than its size claimed")), evs)
           else pread_loop evs (zdrop count data) (remaining - count) (got ++ ztake count data)
       end.

(** [pread_all] of [n] bytes of what is left of the file. *)
Definition pread_all (evs : list pread_event) (data : bytes) (n : Z) : result bytes * list pread_event := pread_loop evs data n [].

(** The size of the buffer of the portable loop. *)
Definition kBounce : Z := 2 ^ 20.

(** [sendfile_all] without [sendfile]; the fuel is the number of buffers. *)
Fixpoint bounce_loop (fuel : nat) (reads : list pread_event) (data : bytes) (remaining : Z) : M ksock unit :=
  match fuel with
  | O => mret tt
  | S fuel =>
      if remaining <=? 0 then mret tt
      else
        let batch := if remaining <? kBounce then remaining else kBounce in
        let '(r, reads) := pread_all reads data batch in
        let* buffer := mlift r in
        do* write_all buffer in
        bounce_loop fuel reads (zdrop batch data) (remaining - batch)
  end.

Definition bounce_all (reads : list pread_event) (data : bytes) (n : Z) : M ksock unit :=
  bounce_loop (Z.to_nat (n / kBounce) + 1) reads data n.

(** [sendfile] of macOS: how many bytes went, and whether it failed, with the answer of
    [wait_writable] for [EAGAIN]. *)
Inductive mac_event := MacSent (n : Z) | MacErr (n errno : Z) (writable : bool).

Definition MAC_EAGAIN : Z := 35.

Fixpoint mac_sendfile_loop (evs : list mac_event) (data : bytes) (remaining : Z) (out : bytes) : result unit * (list mac_event * bytes) :=
  if remaining <=? 0 then (Ok tt, (evs, out))
  else match evs with
       | [] => (Err Blocks, ([], out))
       | ev :: evs =>
           let batch := moved (match ev with MacSent n | MacErr n _ _ => n end) (Z.min remaining (len data)) in
           let data' := zdrop batch data in
           let out' := out ++ ztake batch data in
           match ev with
           | MacSent _ => mac_sendfile_loop evs data' (remaining - batch) out'
           | MacErr _ e writable =>
               if e =? EINTR then mac_sendfile_loop evs data' (remaining - batch) out'
               else if e =? MAC_EAGAIN then
                 if (0 <? remaining - batch) && negb writable then (Err (Error (str "sendfile timed out")), (evs, out'))
                 else mac_sendfile_loop evs data' (remaining - batch) out'
               else (Err (SysError (str "sendfile failed") e), (evs, out'))
           end
       end.

(** A loop that is asked for [n] bytes sends the beginning of [data], and all of the [n] when
    it returns. *)
Definition sends (data : bytes) (n : Z) (out : bytes) (r : result unit) (out' : bytes) : Prop :=
  exists k, 0 <= k <= Z.min (Z.max n 0) (len data) /\ out' = out ++ ztake k data /\ (r = Ok tt -> k = Z.max n 0).

Lemma sends_nothing data n out r : (r = Ok tt -> n <= 0) -> sends data n out r out.
Proof. intros Hr. exists 0. rewrite ztake_0, app_nil_r. pose proof (len_nonneg data). split_and!; [lia..|done|]. intros Hok%Hr. lia. Qed.

Lemma sends_more data n out k r out' : 0 <= k <= Z.min n (len data) ->
  sends (zdrop k data) (n - k) (out ++ ztake k data) r out' -> sends data n out r out'.
Proof.
  intros Hk (j & Hj & -> & Hr). rewrite len_zdrop in Hj by lia. exists (k + j). split_and!; [lia..| |intros Hok%Hr; lia].
  rewrite <- app_assoc. f_equal. unfold ztake, zdrop. rewrite take_take_drop. f_equal. lia.
Qed.

(** The loop of Linux. *)
Lemma sendfile_sends evs : forall data n out,
  sends data n out (sendfile_loop evs data n out).1 (sendfile_loop evs data n out).2.2.
Proof.
  induction evs as [|ev evs IH]; intros data n out; cbn [sendfile_loop]; destruct (Z.leb_spec n 0) as [Hn|Hn];
    [by apply sends_nothing..|by apply sends_nothing|].
  destruct ev as [m| |[]|e]; cbn [fst snd]; try (by apply sends_nothing); try apply IH.
  set (batch := if n <? 0x7ffff000 then n else 0x7ffff000). cbv zeta. set (k := moved m _).
  pose proof (len_nonneg data). assert (0 <= k <= Z.min n (len data)) as Hk.
  { assert (0 <= k <= Z.min batch (len data)) as Hk by (apply moved_range; unfold batch; destruct (Z.ltb_spec n 0x7ffff000); lia).
    unfold batch in Hk. destruct (Z.ltb_spec n 0x7ffff000); lia. }
  destruct (k =? 0); [by apply sends_nothing|]. eapply sends_more; [exact Hk|]. apply IH.
Qed.

Lemma mac_sendfile_sends evs : forall data n out,
  sends data n out (mac_sendfile_loop evs data n out).1 (mac_sendfile_loop evs data n out).2.2.
Proof.
  induction evs as [|ev evs IH]; intros data n out; cbn [mac_sendfile_loop]; destruct (Z.leb_spec n 0) as [Hn|Hn];
    [by apply sends_nothing..|by apply sends_nothing|].
  cbv zeta. set (k := moved _ _). pose proof (len_nonneg data).
  assert (0 <= k <= Z.min n (len data)) as Hk by (apply moved_range; lia).
  assert (forall e, e <> Ok tt -> sends data n out e (out ++ ztake k data)) as Hstop.
  { intros e He. eapply sends_more; [exact Hk|]. by apply sends_nothing. }
  destruct ev as [m|m e writable]; [eapply sends_more; [exact Hk|apply IH]|].
  destruct (e =? EINTR); [eapply sends_more; [exact Hk|apply IH]|]. destruct (e =? MAC_EAGAIN); [|by apply Hstop].
  destruct (_ && _); [by apply Hstop|eapply sends_more; [exact Hk|apply IH]].
Qed.

Lemma pread_loop_ok evs : forall data n got r evs', pread_loop evs data n got = (Ok r, evs') -> 0 <= n ->
  n <= len data /\ r = got ++ ztake n data.
Proof.
  induction evs as [|ev evs IH]; intros data n got r evs'; cbn [pread_loop]; destruct (Z.leb_spec n 0) as [Hn|Hn]; try done.
  1,2: intros [= <- _] ?; assert (n = 0) as -> by lia; rewrite ztake_0, app_nil_r; pose proof (len_nonneg data); done.
  destruct ev as [m| |e]; [|by apply IH|done]. set (k := moved m _). pose proof (len_nonneg data).
  assert (0 <= k <= Z.min n (len data)) as Hk by (apply moved_range; lia).
  cbv zeta. destruct (k =? 0); [done|]. intros E _. apply IH in E as [Hl ->]; [|lia]. rewrite len_zdrop in Hl by lia.
  split; [lia|]. rewrite <- app_assoc. f_equal. unfold ztake, zdrop. rewrite take_take_drop. f_equal. lia.
Qed.

Lemma bounce_sends fuel : forall reads data n s, n <= kBounce * (Z.of_nat fuel) ->
  sends data n (wire s) (bounce_loop fuel reads data n s).1 (wire (bounce_loop fuel reads data n s).2).
Proof.
  induction fuel as [|fuel IH]; intros reads data n s Hf; cbn [bounce_loop]; [apply sends_nothing; cbn; lia|].
  destruct (Z.leb_spec n 0) as [Hn|Hn]; [by apply sends_nothing|]. set (batch := if n <? kBounce then n else kBounce).
  assert (0 <= batch <= n /\ n - batch <= kBounce * Z.of_nat fuel) as [Hb Hf'].
  { unfold batch, kBounce in *. destruct (Z.ltb_spec n (2 ^ 20)); lia. }
  destruct (pread_all reads data batch) as [[b|e] reads'] eqn:Er; [|by apply sends_nothing].
  apply pread_loop_ok in Er as [Hl ->]; [|lia]. cbn [app]. unfold mbind at 1 2, mlift. cbn [fst snd]. unfold mbind.
  unfold write_all. destruct (write_all_loop (tx s) (ztake batch data) (wire s)) as [r [tx' wire']] eqn:Ew. 
  destruct (write_all_loop_spec _ _ _ _ _ _ Ew) as (sent & rest & Es & -> & Hrest). 
  assert (len sent + len rest = batch) as Hlen by (rewrite <- len_app, <- Es; apply len_ztake; lia).
  assert (sent = ztake (len sent) data) as Hsent.
  { rewrite <- (ztake_zdrop batch data), Es, <- app_assoc. by rewrite ztake_app_len. }
  pose proof (len_nonneg sent). pose proof (len_nonneg rest).
  destruct r as [[]|e].
  - rewrite (Hrest eq_refl) in *. rewrite len_nil in Hlen. assert (len sent = batch) as Hsb by lia. rewrite Hsb in Hsent. rewrite Hsent.
    eapply (sends_more _ _ _ batch); [lia|].
    exact (IH reads' (zdrop batch data) (n - batch) (mk_ksock (rx s) tx' (wire s ++ ztake batch data)) Hf').
  - rewrite Hsent. eapply (sends_more _ _ _ (len sent)); [lia|]. by apply sends_nothing.
Qed.

(** Whichever system sends a file. *)
Lemma bounce_all_sends reads data n s :
  sends data n (wire s) (bounce_all reads data n s).1 (wire (bounce_all reads data n s).2).
Proof.
  apply bounce_sends. pose proof (Z.div_mod n kBounce ltac:(done)). pose proof (Z.mod_pos_bound n kBounce ltac:(done)).
  rewrite Nat2Z.inj_add. unfold kBounce in *. destruct (Z.le_gt_cases 0 (n / 2 ^ 20)); [rewrite Z2Nat.id by done; lia|].
  rewrite Z2Nat.nonpos by lia. lia.
Qed.

(** A file that has become shorter: Linux notices, the loop of macOS goes round for as long as
    the kernel answers. *)
Lemma truncated_file n out answers :
  0 < n ->
  (sendfile_loop [TxWrote 4096] [] n out).1 = Err PeerClosed /\
  mac_sendfile_loop (replicate answers (MacSent 0)) [] n out = (Err Blocks, ([], out)).
Proof.
  intros Hn. split.
  - cbn [sendfile_loop]. destruct (Z.leb_spec n 0); [lia|]. cbv zeta.
    assert (moved 4096 (Z.min (if n <? 0x7ffff000 then n else 0x7ffff000) (len (@nil Z))) = 0) as ->; [|done].
    unfold moved. change (len (@nil Z)) with 0. destruct (Z.ltb_spec n 0x7ffff000); lia.
  - induction answers as [|m IH]; cbn [replicate mac_sendfile_loop]; destruct (Z.leb_spec n 0); try lia; [done|].
    assert (moved 0 (Z.min n (len (@nil Z))) = 0) as -> by (unfold moved; change (len (@nil Z)) with 0; lia).
    rewrite Z.sub_0_r. cbn [zdrop ztake]. rewrite app_nil_r. exact IH.
Qed.

(** * Receiving datagrams one by one *)

(** What [recv] answers; [RecvdNone] is every error but [EINTR]. *)
Inductive recvd_event := Recvd (datagram : bytes) | RecvdEintr | RecvdNone.

(** The inner loop: [slots] is the storage with the length last noted of each, and an
    interrupted call goes on to the next slot. *)
Fixpoint fill_slots (room : nat) (received : nat) (evs : list recvd_event) (slots : list bytes)
  : nat * list recvd_event * list bytes :=
  match room, evs with
  | O, _ => (received, evs, slots)
  | _, [] => (received, [], slots)
  | S room, RecvdEintr :: evs => fill_slots room (S received) evs slots
  | S room, RecvdNone :: evs => (received, evs, slots)
  | S room, Recvd d :: evs =>
      if len d =? 0 then (received, evs, slots)
      else fill_slots room (S received) evs (<[received := ztake kUdpDatagramSize d]> slots)
  end.

(** [receive_batch] without [recvmmsg]; every turn takes an event, and the fuel is one more. *)
Fixpoint portable_receive_loop (fuel : nat) (evs : list recvd_event) (slots : list bytes) : udp (list recvd_event * list bytes) :=
  match fuel with
  | O => mret (evs, slots)
  | S fuel =>
      let* c := mget in
      let batch := Z.to_nat (batch_size (tuning_ c)) in
      let '(received, evs, slots) := fill_slots batch 0 evs slots in
      do* process_packets (take received slots) in
      if Nat.ltb received batch then mret (evs, slots)
      else
        let* c := mget in
        if kMaxDeliveredBacklog <=? backlog (rcv_ c) then mret (evs, slots) else portable_receive_loop fuel evs slots
  end.

Definition portable_receive_batch (evs : list recvd_event) (slots : list bytes) : udp (list recvd_event * list bytes) :=
  portable_receive_loop (S (length evs)) evs slots.

Lemma fill_slots_datagrams ds : forall room received slots,
  Forall (fun d => d <> []) ds -> (length ds < room)%nat -> (received + length ds <= length slots)%nat ->
  exists slots', fill_slots room received (Recvd <$> ds) slots = ((received + length ds)%nat, [], slots') /\
    take (received + length ds) slots' = take received slots ++ (ztake kUdpDatagramSize <$> ds).
Proof.
  induction ds as [|d ds IH]; intros room received slots Hd Hr Hs; destruct room as [|room]; cbn [length] in *; try lia; cbn [fmap list_fmap fill_slots].
  - exists slots. rewrite Nat.add_0_r, app_nil_r. done.
  - apply Forall_cons in Hd as [Hne Hd]. destruct (Z.eqb_spec (len d) 0) as [Hz|_]; [by apply len_zero_nil in Hz|].
    destruct (IH room (S received) (<[received := ztake kUdpDatagramSize d]> slots)) as (slots' & E & Ht); [done|lia|rewrite length_insert; lia|].
    exists slots'. replace (received + S (length ds))%nat with (S received + length ds)%nat by lia. split; [exact E|]. rewrite Ht.
    rewrite (take_S_r _ _ (ztake kUdpDatagramSize d)) by (apply list_lookup_insert_eq; lia).
    rewrite take_insert_ge by lia. by rewrite <- app_assoc.
Qed.

(** Without signals it does what the Linux loop does with the same datagrams. *)
Lemma portable_receive_batch_same ds slots c :
  Forall (fun d => d <> []) ds -> ds <> [] -> len ds < batch_size (tuning_ c) -> batch_size (tuning_ c) <= len slots ->
  exists slots', portable_receive_batch (Recvd <$> ds) slots c =
    (do* process_packets (ztake kUdpDatagramSize <$> ds) in mret ([], slots')) c.
Proof.
  intros Hd Hne Hl Hs. unfold len in *.
  destruct (fill_slots_datagrams ds (Z.to_nat (batch_size (tuning_ c))) 0 slots) as (slots' & E & Ht); [done|lia|lia|].
  exists slots'. unfold portable_receive_batch. cbn [portable_receive_loop]. unfold mbind at 1, mget. rewrite E. cbn [Nat.add] in *. rewrite Ht.
  cbn [take app]. by destruct (Nat.ltb_spec (length ds) (Z.to_nat (batch_size (tuning_ c)))); [|lia].
Qed.

(** A signal while the socket is read: what the slot held from an earlier turn is processed as
    a datagram that has just arrived. *)
Lemma interrupted_recv_repeats old slots c :
  1 < batch_size (tuning_ c) ->
  portable_receive_batch [RecvdEintr; RecvdNone] (old :: slots) c = (do* process_packet old in mret ([], old :: slots)) c.
Proof.
  intros Hb. unfold portable_receive_batch. cbn [length portable_receive_loop]. unfold mbind at 1, mget.
  destruct (Z.to_nat (batch_size (tuning_ c))) as [|[|n]] eqn:En; [lia..|]. cbn [fill_slots take process_packets].
  unfold mbind. destruct (process_packet old c) as [[[]|e] c']; done.
Qed.
