(* ===== verification/Manifest.v ===== *)
(** What a transfer sends: the walk of the sender's files and the manifest made of it,
    [client/src/manifest.cpp].

    The sender's file system is the kernel's answers to [lstat] and [readdir] and the
    contents of its files, [source_fs]. [walk_directory] recurses into directories as
    deep as there are any; its fuel is a bound on that depth. *)

From S2P Require Import Prelude Frame Protocol Paths Messages.

Inductive file_kind := KReg | KDir | KLnk | KOther.

#[global] Instance file_kind_eq_dec : EqDecision file_kind.
Proof. solve_decision. Defined.

Record stat := mk_stat { st_kind : file_kind; st_size : Z; st_mode : Z }.

Record source_fs := mk_source_fs {
  fs_lstat : bytes -> option stat;
  fs_readdir : bytes -> option (list bytes);
  fs_content : bytes -> option bytes;
  fs_home : option bytes;
}.

Record LocalFile := mk_LocalFile {
  lf_source_path : bytes;
  lf_relative_path : bytes;
  lf_size : Z;
  lf_mode : Z;
}.

Record Manifest := mk_Manifest {
  m_files : list LocalFile;
  m_total_bytes : Z;
  m_display_name : bytes;
}.

(** ENOENT. *)
Definition ENOENT : Z := 2.

(** [std::string]'s order: bytes, shorter first. *)
Fixpoint str_le (a b : bytes) : bool :=
  match a, b with
  | [], _ => true
  | _ :: _, [] => false
  | x :: a, y :: b => if x <? y then true else if y <? x then false else str_le a b
  end.

Fixpoint insert_name (n : bytes) (ns : list bytes) : list bytes :=
  match ns with
  | [] => [n]
  | m :: ns => if str_le n m then n :: m :: ns else m :: insert_name n ns
  end.

(** [std::sort]. *)
Definition sort_names (ns : list bytes) : list bytes := foldr insert_name [] ns.

Definition local_file (path relative : bytes) (info : stat) : LocalFile :=
  mk_LocalFile path relative (u64 (st_size info)) (Z.land (u32 (st_mode info)) 511).

(** The loop over the sorted names; [walk] is the recursive call. *)
Fixpoint walk_names (fs : source_fs) (walk : bytes -> bytes -> result (list LocalFile))
    (directory prefix : bytes) (names : list bytes) : result (list LocalFile) :=
  match names with
  | [] => Ok []
  | name :: names =>
      let path := join_path directory name in
      let relative := if len prefix =? 0 then name else prefix ++ [slash] ++ name in
      match fs_lstat fs path with
      | None => Err (SysError (str "cannot stat '" ++ path ++ str "'") ENOENT)
      | Some info =>
          let? here :=
            (match st_kind info with
             | KDir => walk path relative
             | KReg => Ok [local_file path relative info]
             | KLnk | KOther => Ok []
             end) in
          let? rest := walk_names fs walk directory prefix names in
          Ok (here ++ rest)
      end
  end.

Fixpoint walk_directory (fuel : nat) (fs : source_fs) (directory prefix : bytes)
  : result (list LocalFile) :=
  match fuel with
  | O => Err Blocks
  | S fuel =>
      match fs_readdir fs directory with
      | None => Err (SysError (str "cannot read directory '" ++ directory ++ str "'") ENOENT)
      | Some entries =>
          let names := sort_names (filter (fun n => n <> str "." /\ n <> str "..") entries) in
          walk_names fs (walk_directory fuel fs) directory prefix names
      end
  end.

Fixpoint collect_inputs (fuel : nat) (fs : source_fs) (inputs : list bytes) : result (list LocalFile) :=
  match inputs with
  | [] => Ok []
  | input :: inputs =>
      let path := expand_user_path (fs_home fs) input in
      match fs_lstat fs path with
      | None => Err (UserError (str "cannot send '" ++ input ++ str "': no such file or directory"))
      | Some info =>
          let? here :=
            (match st_kind info with
             | KDir => walk_directory fuel fs path (base_name path)
             | KReg => Ok [local_file path (base_name path) info]
             | _ => Err (UserError (str "cannot send '" ++ input ++
                           str "': only regular files and directories are sent"))
             end) in
          let? rest := collect_inputs fuel fs inputs in
          Ok (here ++ rest)
      end
  end.

(** The check of every relative path, and the sum. *)
Fixpoint check_files (files : list LocalFile) (total : Z) : result Z :=
  match files with
  | [] => Ok total
  | f :: files =>
      if negb (is_safe_relative_path (lf_relative_path f)) then
        Err (Error (str "refusing to send '" ++ lf_source_path f ++
                    str "' under the unsafe relative path '" ++ lf_relative_path f ++ str "'"))
      else check_files files (u64 (total + lf_size f))
  end.

Definition build_manifest (fuel : nat) (fs : source_fs) (inputs : list bytes) : result Manifest :=
  let? files := collect_inputs fuel fs inputs in
  if len files =? 0 then Err (UserError (str "nothing to send: no regular files were found"))
  else if kMaxManifestEntries <? len files then
    Err (UserError (str "that is " ++ to_string (len files) ++ str " files, more than the " ++
           to_string kMaxManifestEntries ++ str " drop-zone will send in one transfer"))
  else
    let? total := check_files files 0 in
    let display :=
      match inputs with
      | [input] => base_name (expand_user_path (fs_home fs) input)
      | _ => to_string (len inputs) ++ str " items"
      end in
    Ok (mk_Manifest files total display).

Definition to_wire_entries (m : Manifest) : list ManifestEntry :=
  (fun f => mk_ManifestEntry (lf_relative_path f) (lf_size f) (lf_mode f) (replicate 32 0)) <$> m_files m.

(** [compute_digests]; [sha256] is OpenSSL's. *)
Fixpoint compute_digests (sha256 : bytes -> bytes) (fs : source_fs) (files : list LocalFile)
    (entries : list ManifestEntry) : result (list ManifestEntry) :=
  match files, entries with
  | f :: files, e :: entries =>
      match fs_content fs (lf_source_path f) with
      | None => Err (SysError (str "cannot open '" ++ lf_source_path f ++ str "'") ENOENT)
      | Some content =>
          let? rest := compute_digests sha256 fs files entries in
          Ok (mk_ManifestEntry (me_path e) (me_size e) (me_mode e) (sha256 content) :: rest)
      end
  | [], _ => Ok entries
  | _ :: _, [] => Err OutOfBounds
  end.

(** * What a manifest holds *)

(** A file the manifest may name: regular when it was looked at, under the size and the
    permission bits it had then. *)
Definition listed (fs : source_fs) (f : LocalFile) : Prop :=
  exists info, fs_lstat fs (lf_source_path f) = Some info /\ st_kind info = KReg /\
    lf_size f = u64 (st_size info) /\ lf_mode f = Z.land (u32 (st_mode info)) 511.

Lemma local_file_listed fs path rel info :
  fs_lstat fs path = Some info -> st_kind info = KReg -> listed fs (local_file path rel info).
Proof. intros. by exists info. Qed.

Lemma walk_names_listed fs walk directory prefix names out :
  (forall d p l, walk d p = Ok l -> Forall (listed fs) l) ->
  walk_names fs walk directory prefix names = Ok out -> Forall (listed fs) out.
Proof.
  intros Hw. revert out. induction names as [|n ns IH]; intros out; cbn; [intros [= <-]; constructor|].
  destruct (fs_lstat fs _) as [info|] eqn:E; [|done].
  destruct (match st_kind info with KReg => _ | KDir => _ | _ => _ end) as [here|e] eqn:Eh; [|done].
  destruct (walk_names _ _ _ _ ns) as [rest|e]; [|done]. intros [= <-].
  apply Forall_app. split; [|by apply IH].
  destruct (st_kind info) eqn:Ek; try injection Eh as <-; try constructor; [|constructor|by eapply Hw].
  by apply local_file_listed.
Qed.

Lemma walk_directory_listed fuel fs directory prefix out :
  walk_directory fuel fs directory prefix = Ok out -> Forall (listed fs) out.
Proof.
  revert directory prefix out. induction fuel as [|fuel IH]; intros directory prefix out; cbn; [done|].
  destruct (fs_readdir fs directory); [|done]. by apply walk_names_listed.
Qed.

Lemma collect_inputs_listed fuel fs inputs out :
  collect_inputs fuel fs inputs = Ok out -> Forall (listed fs) out.
Proof.
  revert out. induction inputs as [|i ins IH]; intros out; cbn; [intros [= <-]; constructor|].
  destruct (fs_lstat fs _) as [info|] eqn:E; [|done].
  destruct (match st_kind info with KReg => _ | KDir => _ | _ => _ end) as [here|e] eqn:Eh; [|done].
  destruct (collect_inputs _ _ ins) as [rest|e]; [|done]. intros [= <-].
  apply Forall_app. split; [|by apply IH]. destruct (st_kind info) eqn:Ek; try done.
  - injection Eh as <-. constructor; [|constructor]. by apply local_file_listed.
  - by eapply walk_directory_listed.
Qed.

Lemma check_files_ok files total t :
  check_files files total = Ok t ->
  Forall (fun f => is_safe_relative_path (lf_relative_path f) = true) files /\
  t = foldl (fun s f => u64 (s + lf_size f)) total files.
Proof.
  revert total. induction files as [|f fs IH]; intros total; cbn; [intros [= <-]; split; [constructor|done]|].
  destruct (is_safe_relative_path _) eqn:E; cbn; [|done]. intros [Hf ->]%IH. split; [by constructor|done].
Qed.

Lemma build_manifest_inv fuel fs inputs m :
  build_manifest fuel fs inputs = Ok m ->
  Forall (listed fs) (m_files m) /\ 1 <= len (m_files m) <= kMaxManifestEntries /\
  Forall (fun f => is_safe_relative_path (lf_relative_path f) = true) (m_files m) /\
  m_total_bytes m = foldl (fun s f => u64 (s + lf_size f)) 0 (m_files m).
Proof.
  unfold build_manifest. destruct (collect_inputs _ _ _) as [files|e] eqn:E; [|done].
  apply collect_inputs_listed in E. destruct (Z.eqb_spec (len files) 0); [done|].
  destruct (Z.ltb_spec kMaxManifestEntries (len files)); [done|].
  destruct (check_files files 0) as [t|e] eqn:Ec; [|done]. apply check_files_ok in Ec as [Hs ->].
  intros [= <-]. cbn. pose proof (len_nonneg files). split_and!; [done|lia|lia|done|done].
Qed.

(** The entries of an offer made from a manifest, with or without digests. *)
Definition offer_entries (sha256 : bytes -> bytes) (fs : source_fs) (m : Manifest) (digests : bool)
  : result (list ManifestEntry) :=
  if digests then compute_digests sha256 fs (m_files m) (to_wire_entries m) else Ok (to_wire_entries m).

Definition same_entry (f : LocalFile) (e : ManifestEntry) : Prop :=
  me_path e = lf_relative_path f /\ me_size e = lf_size f /\ me_mode e = lf_mode f.

Lemma compute_digests_same sha256 fs files entries out :
  compute_digests sha256 fs files entries = Ok out -> Forall2 same_entry files entries ->
  Forall2 same_entry files out.
Proof.
  intros H Hs. revert out H. induction Hs as [|f e files entries Hfe Hs IH]; intros out; cbn.
  - intros [= <-]. constructor.
  - destruct (fs_content _ _); [|done]. destruct (compute_digests _ _ _ _) as [rest|]; [|done].
    intros [= <-]. constructor; [by destruct Hfe as (? & ? & ?)|]. by apply IH.
Qed.

(** The digests are those of the contents. *)
Lemma digests_of sha256 fs files entries out contents :
  compute_digests sha256 fs files entries = Ok out -> Forall2 same_entry files entries ->
  Forall2 (fun f c => fs_content fs (lf_source_path f) = Some c) files contents ->
  Forall2 (fun e c => sha256 c = me_digest e) out contents.
Proof.
  intros H Hs Hc. revert entries out H Hs. induction Hc as [|f c files contents Hfc Hc IH]; intros entries out E Hs.
  - inversion Hs; subst. cbn in E. injection E as <-. constructor.
  - inversion Hs as [|? e ? es Hfe Hs']; subst. cbn in E. rewrite Hfc in E.
    destruct (compute_digests _ _ _ _) as [rest|] eqn:Er; [|done]. injection E as <-.
    constructor; [done|]. by eapply IH.
Qed.

Lemma compute_digests_fixed sha256 fs files entries out :
  (forall b, fixed kSha256Size (sha256 b)) -> Forall (fun e => fixed kSha256Size (me_digest e)) entries ->
  compute_digests sha256 fs files entries = Ok out -> Forall (fun e => fixed kSha256Size (me_digest e)) out.
Proof.
  intros Hsha. revert entries out. induction files as [|f files IH]; intros entries out He; cbn.
  - by intros [= <-].
  - destruct entries as [|e entries]; [done|]. destruct (fs_content _ _); [|done].
    destruct (compute_digests _ _ _ _) as [rest|] eqn:E; [|done]. intros [= <-].
    apply Forall_cons in He as [_ He]. constructor; [apply Hsha|by eapply IH].
Qed.

Lemma wire_entries_same m : Forall2 same_entry (m_files m) (to_wire_entries m).
Proof. unfold to_wire_entries. induction (m_files m) as [|f fs IH]; constructor; [done|exact IH]. Qed.

Lemma offer_entries_same sha256 fs m digests out :
  offer_entries sha256 fs m digests = Ok out -> Forall2 same_entry (m_files m) out.
Proof.
  unfold offer_entries. destruct digests; [|intros [= <-]; apply wire_entries_same].
  intros H. eapply compute_digests_same; [done|]. apply wire_entries_same.
Qed.

Lemma offer_entries_fixed sha256 fs m digests out :
  (forall b, fixed kSha256Size (sha256 b)) -> offer_entries sha256 fs m digests = Ok out ->
  Forall (fun e => fixed kSha256Size (me_digest e)) out.
Proof.
  intros Hsha. assert (Forall (fun e => fixed kSha256Size (me_digest e)) (to_wire_entries m)) as H0.
  { unfold to_wire_entries. apply Forall_fmap, Forall_true. intros f. cbn. split; [done|].
    repeat constructor; lia. }
  unfold offer_entries. destruct digests; [by apply compute_digests_fixed|by intros [= <-]].
Qed.

Lemma sum_sizes_same files entries t :
  Forall2 same_entry files entries ->
  foldl (fun s e => u64 (s + me_size e)) t entries = foldl (fun s f => u64 (s + lf_size f)) t files.
Proof.
  intros H. revert t. induction H as [|f e files entries (_ & Hs & _) _ IH]; intros t; [done|].
  cbn. by rewrite IH, Hs.
Qed.

Lemma listed_entry_ok fs f e :
  listed fs f -> is_safe_relative_path (lf_relative_path f) = true -> bytes_ok (lf_relative_path f) ->
  same_entry f e -> fixed kSha256Size (me_digest e) -> ManifestEntry_ok e /\ ManifestEntry_view e = e.
Proof.
  intros (info & _ & _ & Hsz & Hm) Hs Hb (Hp & He & Hmo) Hd. unfold ManifestEntry_ok.
  rewrite Hp, He, Hmo, Hsz, Hm. pose proof (u32_range (st_mode info)) as [Hu _].
  destruct (land_511_u32 (u32 (st_mode info)) Hu) as [H1 H2]. split_and!; auto with dz.
  unfold ManifestEntry_view. rewrite Hmo, Hm, H2, <- Hm, <- Hmo. by destruct e.
Qed.

Lemma offer_accepted fuel fs inputs m sha256 digests entries username encrypt algorithm chunk_size :
  (forall b, fixed kSha256Size (sha256 b)) ->
  build_manifest fuel fs inputs = Ok m ->
  offer_entries sha256 fs m digests = Ok entries ->
  Forall (fun f => bytes_ok (lf_relative_path f)) (m_files m) -> short_bytes (m_display_name m) ->
  valid_name username -> 1 <= chunk_size <= max_chunk_size ->
  let offer := mk_TransferOffer username (m_display_name m) entries (m_total_bytes m) encrypt
                 algorithm chunk_size digests in
  TransferOffer_decode (TransferOffer_encode offer) = Ok offer.
Proof.
  intros Hsha (Hl & Hn & Hs & Ht)%build_manifest_inv He Hb Hd Hu Hc.
  pose proof (offer_entries_same _ _ _ _ _ He) as Hsame.
  pose proof (offer_entries_fixed _ _ _ _ _ Hsha He) as Hfix.
  assert (Forall (fun e => ManifestEntry_ok e /\ ManifestEntry_view e = e) entries) as Hok.
  { clear -Hl Hs Hb Hsame Hfix. induction Hsame as [|f e files entries Hfe Hsame IH]; [constructor|].
    apply Forall_cons in Hl as [? ?], Hs as [? ?], Hb as [? ?], Hfix as [? ?].
    constructor; [|by apply IH]. by eapply listed_entry_ok. }
  cbv zeta. set (offer := mk_TransferOffer _ _ _ _ _ _ _ _).
  assert (TransferOffer_ok offer) as Ho.
  { unfold TransferOffer_ok, offer. cbn. split_and!; try done; try apply Hc.
    - eapply (Forall_impl _ _ _ Hok). naive_solver.
    - unfold len in *. apply Forall2_length in Hsame. rewrite <- Hsame. lia.
    - unfold sum_sizes. rewrite (sum_sizes_same _ _ _ Hsame). done. }
  pose proof (wm_roundtrip offer Ho) as Hr. etransitivity; [exact Hr|]. f_equal.
  unfold wm_view, TransferOffer_wire, TransferOffer_view, offer. cbn. f_equal.
  clear -Hok. induction Hok as [|e es [_ He] Hok IH]; cbn; [done|]. by rewrite He, IH.
Qed.

(** C25. An offer made from a manifest is one the other side accepts, as it was made:
    every manifest [build_manifest] returns names only regular files (a symbolic link
    is never followed) under safe paths, and an offer with its entries, digests or
    not, is decoded by the receiver to the same offer. *)
Theorem manifest_accepted fuel fs inputs m sha256 digests entries username encrypt algorithm chunk_size :
  (forall b, fixed kSha256Size (sha256 b)) ->
  build_manifest fuel fs inputs = Ok m ->
  offer_entries sha256 fs m digests = Ok entries ->
  Forall (fun f => bytes_ok (lf_relative_path f)) (m_files m) -> short_bytes (m_display_name m) ->
  valid_name username -> 1 <= chunk_size <= max_chunk_size ->
  Forall (listed fs) (m_files m) /\ Forall2 same_entry (m_files m) entries /\
  let offer := mk_TransferOffer username (m_display_name m) entries (m_total_bytes m) encrypt
                 algorithm chunk_size digests in
  TransferOffer_decode (TransferOffer_encode offer) = Ok offer.
Proof.
  intros Hsha Hm He Hb Hd Hu Hc. split_and!; [|by eapply offer_entries_same|by eapply offer_accepted].
  by apply build_manifest_inv in Hm as (? & _).
Qed.

(** * The walk *)

Lemma str_le_total a b : str_le a b = false -> str_le b a = true.
Proof.
  revert b. induction a as [|x a IH]; intros [|y b]; cbn; try done.
  destruct (Z.ltb_spec x y); [done|]. destruct (Z.ltb_spec y x); [done|]. apply IH.
Qed.

Lemma str_le_trans a b c : str_le a b = true -> str_le b c = true -> str_le a c = true.
Proof.
  revert b c. induction a as [|x a IH]; intros [|y b] [|z c]; cbn; try done.
  destruct (Z.ltb_spec x y), (Z.ltb_spec y z); try (destruct (Z.ltb_spec x z); [done|lia]).
  - destruct (Z.ltb_spec z y); [done|]. destruct (Z.ltb_spec x z); [done|lia].
  - destruct (Z.ltb_spec y x); [done|]. destruct (Z.ltb_spec x z); [done|lia].
  - destruct (Z.ltb_spec y x); [done|]. destruct (Z.ltb_spec z y); [done|].
    destruct (Z.ltb_spec x z); [done|]. destruct (Z.ltb_spec z x); [lia|]. apply IH.
Qed.

Lemma str_le_antisym a b : str_le a b = true -> str_le b a = true -> a = b.
Proof.
  revert b. induction a as [|x a IH]; intros [|y b]; cbn; try done.
  destruct (Z.ltb_spec x y), (Z.ltb_spec y x); try done; try lia. intros. f_equal; [lia|by apply IH].
Qed.

Lemma insert_name_comm a b l : insert_name a (insert_name b l) = insert_name b (insert_name a l).
Proof.
  destruct (decide (a = b)) as [->|Hne]; [done|].
  assert (str_le a b = true -> str_le b a = false) as Hab.
  { intros H. destruct (str_le b a) eqn:E; [|done]. by apply str_le_antisym in H. }
  induction l as [|m l IH]; cbn.
  - destruct (str_le a b) eqn:E1; [by rewrite Hab|]. by rewrite (str_le_total _ _ E1).
  - destruct (str_le a m) eqn:Ea, (str_le b m) eqn:Eb; cbn; rewrite ?Ea, ?Eb; try done.
    + destruct (str_le a b) eqn:E1; [by rewrite Hab|]. by rewrite (str_le_total _ _ E1).
    + destruct (str_le b a) eqn:E1; [|done]. by rewrite (str_le_trans _ _ _ E1 Ea) in Eb.
    + destruct (str_le a b) eqn:E1; [|done]. by rewrite (str_le_trans _ _ _ E1 Eb) in Ea.
    + by rewrite IH.
Qed.

Lemma sort_names_perm ns ms : ns ≡ₚ ms -> sort_names ns = sort_names ms.
Proof.
  unfold sort_names. induction 1 as [|x l l' _ IH|x y l|l1 l2 l3 _ IH1 _ IH2]; cbn.
  - done.
  - by rewrite IH.
  - apply insert_name_comm.
  - by rewrite IH1.
Qed.

(** Directories no deeper than [d] levels below this one. *)
Fixpoint depth_below (fs : source_fs) (d : nat) (directory : bytes) : Prop :=
  match d with
  | O => False
  | S d => forall names name info, fs_readdir fs directory = Some names -> name ∈ names ->
      fs_lstat fs (join_path directory name) = Some info -> st_kind info = KDir ->
      depth_below fs d (join_path directory name)
  end.

Lemma insert_name_perm n l : insert_name n l ≡ₚ n :: l.
Proof.
  induction l as [|m l IH]; cbn; [done|]. destruct (str_le n m); [done|]. rewrite IH. apply Permutation_swap.
Qed.

Lemma sort_names_is_perm l : sort_names l ≡ₚ l.
Proof. induction l as [|n l IH]; cbn; [done|]. by rewrite insert_name_perm, IH. Qed.

(** Two answers of the kernel that differ only in the order of [readdir]. *)
Definition same_tree (fs1 fs2 : source_fs) : Prop :=
  (forall p, fs_lstat fs1 p = fs_lstat fs2 p) /\ fs_home fs1 = fs_home fs2 /\
  (forall d, option_Forall2 Permutation (fs_readdir fs1 d) (fs_readdir fs2 d)).

Lemma walk_names_same fs1 fs2 walk1 walk2 directory prefix names :
  (forall p, fs_lstat fs1 p = fs_lstat fs2 p) -> (forall d p, walk1 d p = walk2 d p) ->
  walk_names fs1 walk1 directory prefix names = walk_names fs2 walk2 directory prefix names.
Proof.
  intros Hl Hw. induction names as [|n ns IH]; cbn; [done|]. rewrite Hl, IH.
  destruct (fs_lstat fs2 _) as [info|]; [|done]. by rewrite Hw.
Qed.

Lemma walk_directory_same fuel fs1 fs2 directory prefix :
  same_tree fs1 fs2 -> walk_directory fuel fs1 directory prefix = walk_directory fuel fs2 directory prefix.
Proof.
  intros (Hl & Hh & Hr). revert directory prefix. induction fuel as [|fuel IH]; intros directory prefix; [done|].
  cbn. destruct (Hr directory) as [l1 l2 Hp|]; [|done]. erewrite sort_names_perm by (rewrite Hp; reflexivity).
  by apply walk_names_same.
Qed.

Lemma collect_inputs_same fuel fs1 fs2 inputs :
  same_tree fs1 fs2 -> collect_inputs fuel fs1 inputs = collect_inputs fuel fs2 inputs.
Proof.
  intros Ht. pose proof Ht as (Hl & Hh & _). induction inputs as [|i ins IH]; cbn; [done|].
  assert (expand_user_path (fs_home fs1) i = expand_user_path (fs_home fs2) i) as -> by (unfold expand_user_path; by rewrite Hh).
  rewrite Hl, IH. destruct (fs_lstat fs2 _) as [info|]; [|done]. by rewrite (walk_directory_same fuel fs1 fs2).
Qed.

Lemma walk_names_ends fs walk directory prefix names :
  (forall name info p, name ∈ names -> fs_lstat fs (join_path directory name) = Some info ->
     st_kind info = KDir -> walk (join_path directory name) p <> Err Blocks) ->
  walk_names fs walk directory prefix names <> Err Blocks.
Proof.
  induction names as [|n ns IH]; intros Hw; cbn; [done|].
  destruct (fs_lstat fs (join_path directory n)) as [info|] eqn:E; [|done].
  assert (walk_names fs walk directory prefix ns <> Err Blocks) as Hns.
  { apply IH. intros name info' p Hin. apply Hw. by apply list_elem_of_further. }
  set (rel := if _ =? _ then _ else _). specialize (Hw n info rel (list_elem_of_here _ _) E).
  destruct (st_kind info); cbn; [|destruct (walk _ _); [|naive_solver]|..];
    destruct (walk_names _ _ _ _ ns); naive_solver.
Qed.

Lemma walk_directory_ends fs fuel d directory prefix :
  depth_below fs d directory -> (d <= fuel)%nat -> walk_directory fuel fs directory prefix <> Err Blocks.
Proof.
  revert fuel directory prefix. induction d as [|d IH]; intros fuel directory prefix Hd Hf; [done|].
  destruct fuel as [|fuel]; [lia|]. cbn. destruct (fs_readdir fs directory) as [names|] eqn:E; [|done].
  apply walk_names_ends. intros name info p Hin Hl Hk. rewrite sort_names_is_perm in Hin.
  apply list_elem_of_filter in Hin as [_ Hin]. apply IH; [|lia]. by eapply Hd.
Qed.

Lemma collect_inputs_ends fs fuel d inputs :
  (forall i info, i ∈ inputs -> fs_lstat fs (expand_user_path (fs_home fs) i) = Some info -> st_kind info = KDir ->
     depth_below fs d (expand_user_path (fs_home fs) i)) -> (d <= fuel)%nat ->
  collect_inputs fuel fs inputs <> Err Blocks.
Proof.
  intros Hd Hf. induction inputs as [|i ins IH]; cbn; [done|].
  destruct (fs_lstat fs (expand_user_path (fs_home fs) i)) as [info|] eqn:E; [|done].
  assert (collect_inputs fuel fs ins <> Err Blocks) as Hns.
  { apply IH. intros j info' Hj. apply Hd. by apply list_elem_of_further. }
  specialize (Hd i info (list_elem_of_here _ _) E). destruct (st_kind info); try done.
  - destruct (collect_inputs _ _ ins); naive_solver.
  - pose proof (walk_directory_ends fs fuel d _ (base_name (expand_user_path (fs_home fs) i)) (Hd eq_refl) Hf).
    destruct (walk_directory _ _ _ _); [|naive_solver]. destruct (collect_inputs _ _ ins); naive_solver.
Qed.


(** Nothing keeps two inputs of one name apart: sending [a/x] and [b/x] makes a
    manifest with two files that the receiver writes to the same path, so one of them
    replaces the other there. *)
Theorem inputs_of_one_name_collide fs1 dir :
  fs_home fs1 = None ->
  fs_lstat fs1 (str "a/x") = Some (mk_stat KReg 3 33188) ->
  fs_lstat fs1 (str "b/x") = Some (mk_stat KReg 5 33188) ->
  exists f g total name, build_manifest 1 fs1 [str "a/x"; str "b/x"] = Ok (mk_Manifest [f; g] total name) /\
    lf_source_path f <> lf_source_path g /\
    resolve_output_paths (to_wire_entries (mk_Manifest [f; g] total name)) dir =
      Ok [join_path dir (str "x"); join_path dir (str "x")].
Proof.
  intros Hh Ha Hb. eexists _, _, _, _. split; [|split].
  - unfold build_manifest. cbn [collect_inputs].
    assert (forall s, expand_user_path (fs_home fs1) s = s) as Hx.
    { intros s. unfold expand_user_path. rewrite Hh. by destruct (_ || _). }
    rewrite !Hx, Ha, Hb. cbn [st_kind]. reflexivity.
  - done.
  - reflexivity.
Qed.

(** * The theorems at work *)

(** A directory [d] with the files [x] and [y], and a link that is left alone. *)
Definition sample_lstat (p : bytes) : option stat :=
  if bool_decide (p = str "d") then Some (mk_stat KDir 0 16877)
  else if bool_decide (p = str "d/x") then Some (mk_stat KReg 3 33188)
  else if bool_decide (p = str "d/y") then Some (mk_stat KReg 0 33188)
  else if bool_decide (p = str "d/z") then Some (mk_stat KLnk 1 41471)
  else if bool_decide (p = str "a/x") then Some (mk_stat KReg 3 33188)
  else if bool_decide (p = str "b/x") then Some (mk_stat KReg 5 33188)
  else None.
Definition sample_names : list bytes := [str "z"; str "y"; str "x"].
Definition sample_fs (names : list bytes) : source_fs :=
  mk_source_fs sample_lstat (fun p => if bool_decide (p = str "d") then Some names else None)
    (fun p => if bool_decide (p = str "d/x") then Some [1; 2; 3] else if bool_decide (p = str "d/y") then Some [] else None)
    None.
Definition sample_manifest : Manifest :=
  mk_Manifest [mk_LocalFile (str "d/x") (str "d/x") 3 420; mk_LocalFile (str "d/y") (str "d/y") 0 420] 3 (str "d").
Definition sample_sha256 (b : bytes) : bytes := replicate 32 (len b mod 256).

Lemma sample_manifest_built : build_manifest 3 (sample_fs sample_names) [str "d"] = Ok sample_manifest.
Proof. vm_compute. reflexivity. Qed.

Lemma sample_sha256_fixed b : fixed kSha256Size (sample_sha256 b).
Proof.
  split; [done|]. apply Forall_replicate. pose proof (Z.mod_pos_bound (len b) 256). unfold is_u. lia.
Qed.

Lemma manifest_accepted_witness :
  let entries := to_wire_entries sample_manifest in
  let offer := mk_TransferOffer (str "bob") (str "d") entries 3 true Aes256Gcm 65536 false in
  TransferOffer_decode (TransferOffer_encode offer) = Ok offer.
Proof.
  intros entries offer.
  refine (proj2 (proj2 (manifest_accepted 3 (sample_fs sample_names) [str "d"] sample_manifest sample_sha256 false entries
    (str "bob") true Aes256Gcm 65536 sample_sha256_fixed sample_manifest_built _ _ _ _ _))).
  - vm_compute. reflexivity.
  - repeat constructor; by vm_compute.
  - split; [done|]. repeat constructor; by vm_compute.
  - by vm_compute.
  - by vm_compute.
Defined.


Lemma inputs_of_one_name_collide_witness :
  exists f g total name,
    build_manifest 1 (sample_fs sample_names) [str "a/x"; str "b/x"] = Ok (mk_Manifest [f; g] total name) /\
    lf_source_path f <> lf_source_path g /\
    resolve_output_paths (to_wire_entries (mk_Manifest [f; g] total name)) (str "out") =
      Ok [join_path (str "out") (str "x"); join_path (str "out") (str "x")].
Proof.
  apply (inputs_of_one_name_collide (sample_fs sample_names) (str "out")); [reflexivity|vm_compute; reflexivity..].
Defined.
