(* ===== verification/AeadPool.v ===== *)
(** The worker pool of [common/src/aead_pool.cpp].

    Jobs are values of a type [J]; what a job does is the client's. Every call runs
    under the pool's mutex and is one function: [None] is a call whose wait condition
    does not hold yet. A worker's turn is two calls, [pool_take] when it picks a job up
    and [pool_finish] when the job has returned or thrown; between the two the job is in
    [active_]. *)

From S2P Require Import Prelude.

Section Pool.
Context {J : Type}.

Record AeadPool := mk_AeadPool {
  queue_ : list J;
  active_ : list J;
  first_error_ : option exn;
  stopping_ : bool;
  queue_depth_ : Z;
  worker_count : Z;
}.

Definition new_pool (workers queue_depth : Z) : AeadPool :=
  mk_AeadPool [] [] None false (if queue_depth =? 0 then 1 else queue_depth)
    (if workers =? 0 then 1 else workers).

Definition active_jobs_ (p : AeadPool) : Z := len (active_ p).

Definition submit (job : J) (p : AeadPool) : option (result unit * AeadPool) :=
  if (len (queue_ p) <? queue_depth_ p) || stopping_ p || bool_decide (is_Some (first_error_ p)) then
    match first_error_ p with
    | Some e => Some (Err e, p)
    | None =>
        if stopping_ p then Some (Ok tt, p)
        else Some (Ok tt, mk_AeadPool (queue_ p ++ [job]) (active_ p) (first_error_ p) (stopping_ p)
                            (queue_depth_ p) (worker_count p))
    end
  else None.

Definition drain (p : AeadPool) : option (result unit * AeadPool) :=
  if (bool_decide (queue_ p = []) && (active_jobs_ p =? 0)) || stopping_ p then
    match first_error_ p with
    | Some e => Some (Err e, mk_AeadPool (queue_ p) (active_ p) None (stopping_ p)
                               (queue_depth_ p) (worker_count p))
    | None => Some (Ok tt, p)
    end
  else None.

(** A worker that is not in a job takes the oldest one. *)
Definition pool_take (p : AeadPool) : option AeadPool :=
  if active_jobs_ p <? worker_count p then
    match queue_ p with
    | [] => None
    | j :: q => Some (mk_AeadPool q (active_ p ++ [j]) (first_error_ p) (stopping_ p)
                        (queue_depth_ p) (worker_count p))
    end
  else None.

(** The job a worker holds at place [i] ends, with the exception it threw. *)
Definition pool_finish (i : nat) (err : option exn) (p : AeadPool) : AeadPool :=
  mk_AeadPool (queue_ p) (delete i (active_ p))
    (match first_error_ p with None => err | Some e => Some e end)
    (stopping_ p) (queue_depth_ p) (worker_count p).

(** [shutdown]: the workers finish what is queued and end. *)
Definition shutdown (p : AeadPool) : AeadPool :=
  mk_AeadPool (queue_ p) (active_ p) (first_error_ p) true (queue_depth_ p) (worker_count p).

Definition pool_bounds (p : AeadPool) : Prop :=
  len (queue_ p) <= queue_depth_ p /\ active_jobs_ p <= worker_count p /\
  0 < queue_depth_ p /\ 0 < worker_count p.

Lemma new_pool_bounds workers depth : 0 <= workers -> 0 <= depth -> pool_bounds (new_pool workers depth).
Proof.
  intros. unfold pool_bounds, active_jobs_, new_pool. cbn.
  destruct (Z.eqb_spec depth 0), (Z.eqb_spec workers 0); unfold len; cbn; lia.
Qed.

Lemma submit_bounds job p r p' : pool_bounds p -> submit job p = Some (r, p') -> pool_bounds p'.
Proof.
  intros Hp. unfold submit. destruct (first_error_ p) as [e|] eqn:E.
  - rewrite bool_decide_eq_true_2 by eauto. rewrite orb_true_r. by intros [= _ <-].
  - rewrite bool_decide_eq_false_2, orb_false_r by (by intros [? ?]).
    destruct (Z.ltb_spec (len (queue_ p)) (queue_depth_ p)), (stopping_ p); cbn; try done;
      intros [= _ <-]; try done. unfold pool_bounds, active_jobs_ in *. cbn. rewrite len_app.
    unfold len at 2. cbn. lia.
Qed.

Lemma take_bounds p p' : pool_bounds p -> pool_take p = Some p' -> pool_bounds p'.
Proof.
  intros Hp. unfold pool_take. destruct (Z.ltb_spec (active_jobs_ p) (worker_count p)); [|done].
  destruct (queue_ p) as [|j q] eqn:E; [done|]. intros [= <-].
  unfold pool_bounds, active_jobs_ in *. cbn. rewrite E, len_cons in Hp. rewrite len_app.
  unfold len at 3. cbn. lia.
Qed.

Lemma finish_bounds i e p : pool_bounds p -> pool_bounds (pool_finish i e p).
Proof.
  unfold pool_bounds, active_jobs_. cbn. intros (? & Ha & ? & ?). split_and!; try done.
  pose proof (submseteq_length _ _ (submseteq_delete (active_ p) i)). unfold len in *. lia.
Qed.
End Pool.
Arguments AeadPool : clear implicits.
