(* ===== verification/Sender.v ===== *)
(** The sending half of the data plane, [client/src/sender.cpp].

    The plaintext path is one loop. The encrypted path is four kinds of thread around a
    worker pool and an ordered emitter: [enc_step] is one turn of one of them, from one
    wait to the next, and [send_encrypted] runs any schedule of turns first and then the
    turns that are left, so that a theorem about every schedule is a theorem about every
    interleaving. A job is one turn: the bytes it seals are its own until it publishes
    them. *)

From S2P Require Import Prelude Endian Frame Protocol Messages Pipeline Channel Crypto Manifest.
From S2P Require Import AeadPool.

(** * The plan *)

Record ChunkPlan := mk_ChunkPlan { cp_file_index : Z; cp_offset : Z; cp_length : Z }.

#[global] Instance ChunkPlan_eq_dec : EqDecision ChunkPlan.
Proof. solve_decision. Defined.

Fixpoint plan_loop (fuel : nat) (i size chunk_size offset : Z) : list ChunkPlan :=
  match fuel with
  | O => []
  | S fuel =>
      if offset <? size then
        mk_ChunkPlan (u32 i) offset (u32 (Z.min chunk_size (size - offset))) ::
        plan_loop fuel i size chunk_size (u64 (offset + chunk_size))
      else []
  end.

(** The chunks of one file: a turn of the loop for each started [chunk_size]. *)
Definition plan_file (i size chunk_size : Z) : list ChunkPlan :=
  plan_loop (Z.to_nat (size / chunk_size + 1)) i size chunk_size 0.

Fixpoint plan_files (i : Z) (files : list LocalFile) (chunk_size : Z) : list ChunkPlan :=
  match files with
  | [] => []
  | f :: files => plan_file i (lf_size f) chunk_size ++ plan_files (i + 1) files chunk_size
  end.

Definition plan_chunks (m : Manifest) (chunk_size : Z) : list ChunkPlan :=
  plan_files 0 (m_files m) chunk_size.

(** The bytes of a file a chunk stands for. *)
Definition slice (content : bytes) (c : ChunkPlan) : bytes :=
  ztake (cp_length c) (zdrop (cp_offset c) content).

Section PlanLoop.
Context (i size chunk_size : Z).
Hypothesis Hchunk : 1 <= chunk_size < 2 ^ 32.
Hypothesis Hsize : 0 <= size /\ size + chunk_size < 2 ^ 64.

Lemma plan_loop_step fuel offset :
  0 <= offset < size ->
  plan_loop (S fuel) i size chunk_size offset =
    mk_ChunkPlan (u32 i) offset (Z.min chunk_size (size - offset)) ::
    plan_loop fuel i size chunk_size (offset + chunk_size).
Proof.
  intros Ho. cbn [plan_loop]. destruct (Z.ltb_spec offset size); [|lia].
  rewrite (u32_small (Z.min _ _)), u64_small by (unfold is_u; lia). done.
Qed.

(** The loop from [offset] on covers the file from [offset] on, in order. *)
Lemma plan_loop_covers fuel offset content :
  len content = size -> 0 <= offset -> size - offset <= Z.of_nat fuel * chunk_size ->
  mjoin (slice content <$> plan_loop fuel i size chunk_size offset) = zdrop offset content /\
  Forall (fun c => cp_file_index c = u32 i /\ offset <= cp_offset c /\ 1 <= cp_length c <= chunk_size /\
    cp_offset c + cp_length c <= size) (plan_loop fuel i size chunk_size offset).
Proof.
  intros Hl. revert offset. induction fuel as [|fuel IH]; intros offset Ho Hf.
  - cbn. split; [|constructor]. symmetry. apply zdrop_len. lia.
  - destruct (Z.lt_ge_cases offset size) as [Hlt|Hge].
    + rewrite plan_loop_step by lia. destruct (IH (offset + chunk_size)) as [IH1 IH2]; [lia|lia|].
      split.
      * rewrite mjoin_fmap_cons, IH1. unfold slice. cbn.
        trans (ztake chunk_size (zdrop offset content) ++ zdrop chunk_size (zdrop offset content));
          [|apply ztake_zdrop]. rewrite zdrop_zdrop by lia. f_equal.
        destruct (Z.min_spec chunk_size (size - offset)) as [[_ ->]|[? ->]]; [done|].
        rewrite !ztake_len; rewrite ?len_zdrop; lia || done.
      * constructor; [cbn; lia|]. eapply (Forall_impl _ _ _ IH2). cbn. intros c Hc. lia.
    + cbn [plan_loop]. destruct (Z.ltb_spec offset size); [lia|]. cbn. split; [|constructor].
      symmetry. apply zdrop_len. lia.
Qed.

Lemma plan_fuel : size - 0 <= Z.of_nat (Z.to_nat (size / chunk_size + 1)) * chunk_size.
Proof.
  pose proof (Z.div_mod size chunk_size ltac:(lia)). pose proof (Z.mod_pos_bound size chunk_size ltac:(lia)).
  pose proof (Z.div_pos size chunk_size ltac:(lia) ltac:(lia)). rewrite Z2Nat.id by lia. nia.
Qed.

Lemma plan_file_covers content :
  len content = size ->
  mjoin (slice content <$> plan_file i size chunk_size) = content /\
  Forall (fun c => cp_file_index c = u32 i /\ 0 <= cp_offset c /\ 1 <= cp_length c <= chunk_size /\
    cp_offset c + cp_length c <= size) (plan_file i size chunk_size).
Proof.
  intros Hl. apply plan_loop_covers; [done|lia|]. apply plan_fuel.
Qed.

(** Every byte is in a chunk. *)
Lemma plan_loop_position fuel offset j :
  0 <= offset -> size - offset <= Z.of_nat fuel * chunk_size -> offset <= j < size ->
  exists c, c ∈ plan_loop fuel i size chunk_size offset /\ cp_offset c <= j < cp_offset c + cp_length c.
Proof.
  revert offset. induction fuel as [|fuel IH]; intros offset Ho Hf Hj; [lia|].
  rewrite plan_loop_step by lia. destruct (Z.lt_ge_cases j (offset + chunk_size)) as [Hlt|Hge].
  - eexists. split; [apply list_elem_of_here|]. cbn. lia.
  - destruct (IH (offset + chunk_size)) as (c & Hin & Hc); [lia|lia|lia|].
    exists c. split; [by apply list_elem_of_further|done].
Qed.

End PlanLoop.

(** A manifest's files with their contents. *)
Definition contents_match (chunk_size : Z) (files : list LocalFile) (contents : list bytes) : Prop :=
  Forall2 (fun f c => lf_size f = len c /\ len c + chunk_size < 2 ^ 64) files contents.

Lemma plan_files_index k files chunk_size contents :
  1 <= chunk_size < 2 ^ 32 -> 0 <= k -> k + len files < 2 ^ 32 -> contents_match chunk_size files contents ->
  Forall (fun ch => k <= cp_file_index ch /\ exists c, contents !! Z.to_nat (cp_file_index ch - k) = Some c /\
    1 <= cp_length ch <= chunk_size /\ 0 <= cp_offset ch /\ cp_offset ch + cp_length ch <= len c)
    (plan_files k files chunk_size).
Proof.
  intros Hc Hk Hn Hm. revert k Hk Hn. induction Hm as [|f c files contents [Hs Hb] Hm IH]; intros k Hk Hn;
    cbn; [constructor|]. rewrite len_cons in Hn. pose proof (len_nonneg files). pose proof (len_nonneg c).
  apply Forall_app. split.
  - destruct (plan_file_covers k (lf_size f) chunk_size Hc ltac:(lia) c ltac:(done)) as [_ Hf].
    eapply (Forall_impl _ _ _ Hf). cbn. intros ch (Hi & ? & ? & ?). rewrite u32_small in Hi by (unfold is_u; lia).
    split; [lia|]. exists c. rewrite Hi, Z.sub_diag. split_and!; [done|lia..].
  - specialize (IH (k + 1) ltac:(lia) ltac:(lia)). eapply (Forall_impl _ _ _ IH). cbn.
    intros ch (Hi & c' & Hl & ?). split; [lia|]. exists c'. split; [|done].
    replace (Z.to_nat (cp_file_index ch - k)) with (S (Z.to_nat (cp_file_index ch - (k + 1)))) by lia. done.
Qed.

Lemma filter_none {A} (P : A -> Prop) `{forall x, Decision (P x)} l : Forall (fun x => ~ P x) l -> filter P l = [].
Proof. induction 1; [done|]. by rewrite filter_cons_False. Qed.

Lemma filter_all {A} (P : A -> Prop) `{forall x, Decision (P x)} l : Forall P l -> filter P l = l.
Proof. induction 1; [done|]. rewrite filter_cons_True by done. by f_equal. Qed.

(** The chunks of file [i] of the plan are those of [plan_file]. *)
Lemma plan_files_filter k files chunk_size contents i f :
  1 <= chunk_size < 2 ^ 32 -> 0 <= k -> k + len files < 2 ^ 32 -> contents_match chunk_size files contents ->
  files !! i = Some f ->
  filter (fun ch => cp_file_index ch = k + Z.of_nat i) (plan_files k files chunk_size) =
    plan_file (k + Z.of_nat i) (lf_size f) chunk_size.
Proof.
  intros Hc Hk Hn Hm. revert k i Hk Hn. induction Hm as [|f' c files contents [Hs Hb] Hm IH]; intros k i Hk Hn Hf;
    [done|]. rewrite len_cons in Hn. pose proof (len_nonneg files). pose proof (len_nonneg c).
  cbn [plan_files]. rewrite filter_app.
  destruct (plan_file_covers k (lf_size f') chunk_size Hc ltac:(lia) c ltac:(done)) as [_ Hpf].
  destruct i as [|i].
  - injection Hf as ->. rewrite (filter_all _ (plan_file k (lf_size f) chunk_size)), filter_none, app_nil_r.
    + by rewrite Z.add_0_r.
    + pose proof (plan_files_index (k + 1) files chunk_size contents Hc ltac:(lia) ltac:(lia) Hm) as Hx.
      eapply (Forall_impl _ _ _ Hx). cbn. lia.
    + eapply (Forall_impl _ _ _ Hpf). cbn. intros ch (Hi & _). rewrite Hi, u32_small; unfold is_u; lia.
  - rewrite (filter_none _ (plan_file k (lf_size f') chunk_size)), app_nil_l.
    + replace (k + Z.of_nat (S i)) with (k + 1 + Z.of_nat i) by lia. apply IH; [lia|lia|done].
    + eapply (Forall_impl _ _ _ Hpf). cbn. intros ch (Hi & _). rewrite Hi, u32_small; unfold is_u; lia.
Qed.

(** C24. The plan cuts every file into chunks that, in order, are the file: nothing is
    missing and nothing is sent twice. No chunk is empty, longer than the chunk size or
    past the end of its file, and an empty file has none. *)
Theorem plan_exact m chunk_size contents :
  1 <= chunk_size < 2 ^ 32 -> len (m_files m) < 2 ^ 32 -> contents_match chunk_size (m_files m) contents ->
  (forall i c, contents !! i = Some c ->
     mjoin (slice c <$> filter (fun ch => cp_file_index ch = Z.of_nat i) (plan_chunks m chunk_size)) = c) /\
  Forall (fun ch => exists c, contents !! Z.to_nat (cp_file_index ch) = Some c /\
    1 <= cp_length ch <= chunk_size /\ 0 <= cp_offset ch /\ cp_offset ch + cp_length ch <= len c)
    (plan_chunks m chunk_size).
Proof.
  intros Hc Hn Hm. unfold plan_chunks. split.
  - intros i c Hi. destruct (Forall2_lookup_r _ _ _ _ _ Hm Hi) as (f & Hf & Hs & Hb).
    pose proof (plan_files_filter 0 (m_files m) chunk_size contents i f Hc ltac:(lia) ltac:(lia) Hm Hf) as E.
    rewrite Z.add_0_l in E. rewrite E. pose proof (len_nonneg c).
    by apply (plan_file_covers (Z.of_nat i) (lf_size f) chunk_size Hc ltac:(lia) c).
  - pose proof (plan_files_index 0 (m_files m) chunk_size contents Hc ltac:(lia) ltac:(lia) Hm) as Hx.
    eapply (Forall_impl _ _ _ Hx). cbn. intros ch (_ & Hch). by rewrite Z.sub_0_r in Hch.
Qed.

(** * The offer *)

Record SendOptions := mk_SendOptions {
  so_encrypt : bool;
  so_compute_digests : bool;
  so_chunk_size : Z;
  so_workers : Z;
}.

(** What the code calls outside itself: the ciphers (a class), the digest, the
    randomness drawn for the offer, and the number of cores. *)
Record sender_env := mk_sender_env {
  env_sha256 : bytes -> bytes;
  env_random : bytes;
  env_cores : Z;
}.

Section Sender.
Context {C : Type} `{Channel C} `{AeadCipher}.
Context (env : sender_env) (fs : source_fs) (m : Manifest) (keys : SessionKeys).

Definition send_offer (own_username : bytes) (o : SendOptions) : M C unit :=
  let* entries := mlift (offer_entries (env_sha256 env) fs m (so_compute_digests o)) in
  let offer := mk_TransferOffer own_username (m_display_name m) entries (m_total_bytes m)
                 (so_encrypt o) (sk_algorithm keys) (so_chunk_size o) (so_compute_digests o) in
  let* sealed := mlift (seal_standalone (sk_algorithm keys) (offer_key keys) kInfoOfferKey
                          (TransferOffer_encode offer) (env_random env)) in
  channel_write_frame OfferT sealed (algorithm_to_u8 (sk_algorithm keys)).

Definition await_decision : M C TransferDecision :=
  let* f := channel_read_expected DecisionT in
  mlift (TransferDecision_decode (payload f)).

(** * The plaintext path *)

(** A file opened for sending: its contents. *)
Definition open_source (i : Z) : result bytes :=
  match m_files m !! Z.to_nat i with
  | None => Err OutOfBounds
  | Some f =>
      match fs_content fs (lf_source_path f) with
      | None => Err (SysError (str "cannot open '" ++ lf_source_path f ++ str "'") ENOENT)
      | Some content => Ok content
      end
  end.

Definition chunk_header_of (ch : ChunkPlan) (counter : Z) : ChunkHeader :=
  mk_ChunkHeader (cp_file_index ch) (cp_length ch) (cp_offset ch) counter.

(** One chunk, from the open file's [content]. *)
Definition send_plain_chunk (ch : ChunkPlan) (counter : Z) (content : bytes) : M C unit := fun c =>
  let chunk_header := encode_chunk_header (chunk_header_of ch counter) in
  if ch_can_splice c then
    let frame := mk_header kProtocolVersion ChunkT 1 (u32 (kChunkHeaderSize + cp_length ch)) in
    (do* ch_write_pair (encode_frame_header frame) chunk_header in
     ch_sendfile (slice content ch) (cp_length ch)) c
  else if len content <? cp_offset ch + cp_length ch then (Err OutOfBounds, c)
  else channel_write_frame ChunkT (chunk_header ++ slice content ch) 1 c.

(** [current_file] and [content] are the file that is open; the result is what
    [progress] has counted. *)
Fixpoint plaintext_loop (plan : list ChunkPlan) (counter current_file : Z) (content : bytes)
    (progress : Z) : M C Z :=
  match plan with
  | [] => mret progress
  | ch :: plan =>
      let* content :=
        (if cp_file_index ch =? current_file then mret content
         else mlift (open_source (cp_file_index ch))) in
      do* send_plain_chunk ch counter content in
      plaintext_loop plan (u64 (counter + 1)) (cp_file_index ch) content (u64 (progress + cp_length ch))
  end.

Definition send_plaintext (plan : list ChunkPlan) : M C Z :=
  plaintext_loop plan 0 0xffffffff [] 0.

(** * The encrypted path *)

Context (plan : list ChunkPlan) (mappings : list bytes) (chunk_size : Z).

(** What a worker seals for chunk [index], into a buffer of the pool's size. *)
Definition seal_job (index : Z) : result bytes :=
  match plan !! Z.to_nat index with
  | None => Err OutOfBounds
  | Some ch =>
      match mappings !! Z.to_nat (cp_file_index ch) with
      | None => Err OutOfBounds
      | Some content =>
          if len content <? cp_offset ch + cp_length ch then Err OutOfBounds
          else
            let header := encode_chunk_header (chunk_header_of ch index) in
            let nonce := build_nonce (send_nonce_prefix keys) index in
            let? sealed := aead_seal (sk_algorithm keys) (send_key keys) nonce header
                             (slice content ch) (sealed_size chunk_size) in
            Ok (header ++ sealed)
      end
  end.

Inductive thread := Running | Finished | Failed (e : exn).

Record enc := mk_enc {
  e_channel : C;
  e_pool : AeadPool Z;
  e_emitter : OrderedEmitter;
  e_buffers : BufferPool;
  e_next : Z;
  e_main : thread;
  e_writer : thread;
  e_progress : Z;
}.

Definition total : Z := len plan.

(** The main thread: the next [submit], or [drain] and [set_total]. *)
Definition main_step (s : enc) : option enc :=
  match e_main s with
  | Running =>
      if e_next s <? total then
        match submit (e_next s) (e_pool s) with
        | None => None
        | Some (Ok _, p) =>
            Some (mk_enc (e_channel s) p (e_emitter s) (e_buffers s) (e_next s + 1) Running
                    (e_writer s) (e_progress s))
        | Some (Err e, p) =>
            Some (mk_enc (e_channel s) p (abort e (e_emitter s)) (e_buffers s) (e_next s) (Failed e)
                    (e_writer s) (e_progress s))
        end
      else
        match drain (e_pool s) with
        | None => None
        | Some (Ok _, p) =>
            Some (mk_enc (e_channel s) p (set_total total (e_emitter s)) (e_buffers s) (e_next s) Finished
                    (e_writer s) (e_progress s))
        | Some (Err e, p) =>
            Some (mk_enc (e_channel s) p (abort e (e_emitter s)) (e_buffers s) (e_next s) (Failed e)
                    (e_writer s) (e_progress s))
        end
  | _ => None
  end.

Definition take_step (s : enc) : option enc :=
  match pool_take (e_pool s) with
  | None => None
  | Some p => Some (mk_enc (e_channel s) p (e_emitter s) (e_buffers s) (e_next s) (e_main s)
                      (e_writer s) (e_progress s))
  end.

(** The job a worker holds at place [i]: a buffer, the sealing, the [publish]. *)
Definition work_step (i : nat) (s : enc) : option enc :=
  match active_ (e_pool s) !! i with
  | None => None
  | Some index =>
      let '(_, buffers) := acquire (e_buffers s) in
      match seal_job index with
      | Err e =>
          Some (mk_enc (e_channel s) (pool_finish i (Some e) (e_pool s)) (e_emitter s) buffers (e_next s)
                  (e_main s) (e_writer s) (e_progress s))
      | Ok out =>
          match publish index out (e_emitter s) with
          | None => None
          | Some (_, emitter) =>
              Some (mk_enc (e_channel s) (pool_finish i None (e_pool s)) emitter buffers (e_next s)
                      (e_main s) (e_writer s) (e_progress s))
          end
      end
  end.

(** The writer: [consume], then a frame or the last flush. The vector it gives back
    came from the pool, so it has the pool's capacity. *)
Definition writer_fails (e : exn) (c : C) (em : OrderedEmitter) (s : enc) : enc :=
  mk_enc c (e_pool s) (abort e em) (e_buffers s) (e_next s) (e_main s) (Failed e) (e_progress s).

Definition writer_step (s : enc) : option enc :=
  match e_writer s with
  | Running =>
      match consume (e_emitter s) with
      | None => None
      | Some (Err e, em) => Some (writer_fails e (e_channel s) em s)
      | Some (Ok None, em) =>
          match ch_flush (e_channel s) with
          | (Ok _, c) => Some (mk_enc c (e_pool s) em (e_buffers s) (e_next s) (e_main s) Finished
                                 (e_progress s))
          | (Err e, c) => Some (writer_fails e c em s)
          end
      | Some (Ok (Some chunk), em) =>
          match channel_write_frame ChunkT chunk 0 (e_channel s) with
          | (Ok _, c) =>
              Some (mk_enc c (e_pool s) em (release (mk_vec chunk (buffer_size_ (e_buffers s))) (e_buffers s)) (e_next s)
                      (e_main s) Running
                      (u64 (e_progress s + (len chunk - kChunkHeaderSize - kAeadTagSize))))
          | (Err e, c) => Some (writer_fails e c em s)
          end
      end
  | _ => None
  end.

Inductive turn := TMain | TTake | TWork (i : nat) | TWriter.

Definition enc_step (t : turn) (s : enc) : option enc :=
  match t with
  | TMain => main_step s
  | TTake => take_step s
  | TWork i => work_step i s
  | TWriter => writer_step s
  end.

(** A schedule: turns that cannot be taken when they come up are skipped. *)
Definition run_schedule (sched : list turn) (s : enc) : enc :=
  foldl (fun s t => default s (enc_step t s)) s sched.

(** Every turn there is. *)
Definition turns (s : enc) : list turn :=
  TWriter :: (TWork <$> seq 0 (length (active_ (e_pool s)))) ++ [TTake; TMain].

Fixpoint first_turn (ts : list turn) (s : enc) : option enc :=
  match ts with
  | [] => None
  | t :: ts => match enc_step t s with Some s' => Some s' | None => first_turn ts s end
  end.

Fixpoint run_rest (fuel : nat) (s : enc) : enc :=
  match fuel with
  | O => s
  | S fuel => match first_turn (turns s) s with Some s' => run_rest fuel s' | None => s end
  end.

(** The end of [send_encrypted]: both threads joined. *)
Definition enc_result (s : enc) : result Z :=
  match e_main s with
  | Failed e => Err e
  | Running => Err Blocks
  | Finished =>
      match e_writer s with
      | Failed e => Err e
      | Running => Err Blocks
      | Finished => Ok (e_progress s)
      end
  end.

Definition enc_start (worker_count : Z) (c : C) : enc :=
  let workers := if worker_count =? 0 then env_cores env else worker_count in
  let queue_depth := workers * 2 in
  let slots := queue_depth + workers + 4 in
  mk_enc c (new_pool workers queue_depth) (new_emitter slots)
    (mk_BufferPool (kChunkHeaderSize + sealed_size chunk_size) []) 0 Running Running 0.

Definition run_encrypted (sched : list turn) (worker_count : Z) : M C Z := fun c =>
  let s := run_rest (5 * length plan + 2) (run_schedule sched (enc_start worker_count c)) in
  (enc_result s, e_channel s).
End Sender.
Arguments enc : clear implicits.

(** The mapping of every file, and the check of its size. *)
Fixpoint map_files (fs : source_fs) (files : list LocalFile) : result (list bytes) :=
  match files with
  | [] => Ok []
  | f :: files =>
      match fs_content fs (lf_source_path f) with
      | None => Err (SysError (str "cannot open '" ++ lf_source_path f ++ str "'") ENOENT)
      | Some content =>
          if negb (len content =? lf_size f) then
            Err (UserError (str "'" ++ lf_source_path f ++ str "' changed size while being sent"))
          else let? rest := map_files fs files in Ok (content :: rest)
      end
  end.

Definition send_encrypted {C} `{Channel C} `{AeadCipher} (env : sender_env) (fs : source_fs) (m : Manifest)
    (keys : SessionKeys) (plan : list ChunkPlan) (chunk_size worker_count : Z) (sched : list turn) : M C Z :=
  let* mappings := mlift (map_files fs (m_files m)) in
  run_encrypted env keys plan mappings chunk_size sched worker_count.

Record SendResult := mk_SendResult { bytes_sent : Z; sr_output_directory : bytes }.

Definition send_transfer {C} `{Channel C} `{AeadCipher} (env : sender_env) (fs : source_fs) (m : Manifest)
    (keys : SessionKeys) (own_username : bytes) (o : SendOptions) (sched : list turn) : M C SendResult := fun c =>
  if negb (so_encrypt o) && bool_decide (ch_kind c = ServerRelay) then
    fail_user (str "this transfer has to go through the rendezvous server, so it cannot be " ++
               str "sent unencrypted. Remove --no-encrypt and try again.") c
  else
    (do* send_offer env fs m keys own_username o in
     let* decision := await_decision in
     if negb (td_accepted decision) then
       fail_user (if len (td_reason decision) =? 0 then str "the other side declined the transfer"
                  else str "the other side declined: " ++ td_reason decision)
     else
       let plan := plan_chunks m (so_chunk_size o) in
       let* sent :=
         (if so_encrypt o then send_encrypted env fs m keys plan (so_chunk_size o) (so_workers o) sched
          else send_plaintext fs m plan) in
       do* channel_write_empty TransferEndT in
       do* ch_flush in
       do* channel_read_expected TransferAckT in
       mret (mk_SendResult sent (td_output_directory decision))) c.

(** * The encrypted path, under every schedule *)

Section Encrypted.
Context {C : Type} `{ChannelSpec C} `{AeadLaws}.
Context (env : sender_env) (keys : SessionKeys).
Context (plan : list ChunkPlan) (mappings : list bytes) (chunk_size : Z) (c0 : C).

Abbreviation n := (total plan).
Abbreviation job := (seal_job keys plan mappings chunk_size).

Definition sealed_chunk (i : Z) : bytes := match job i with Ok b => b | Err _ => [] end.

(** A plan that fits the files. *)
Definition plan_fits : Prop :=
  Forall (fun ch => exists c, mappings !! Z.to_nat (cp_file_index ch) = Some c /\
    1 <= cp_length ch <= chunk_size /\ 0 <= cp_offset ch /\ cp_offset ch + cp_length ch <= len c) plan.

(** What the writer puts on the channel for the chunks it has taken. *)
Definition chunk_frames (taken : list bytes) : bytes := mjoin (frame_bytes ChunkT 0 <$> taken).

Definition payload_sum (taken : list bytes) : Z :=
  foldl (fun s b => u64 (s + (len b - kChunkHeaderSize - kAeadTagSize))) 0 taken.

Hypothesis Hfits : plan_fits.
Hypothesis Hchunk : chunk_size <= max_chunk_size.
Hypothesis Htotal : n + 2 ^ 40 < 2 ^ 64.
Hypothesis Hroom : ch_room c0 (len (chunk_frames (sealed_chunk <$> seqZ 0 n))).

Lemma seal_job_ok i :
  0 <= i < n -> exists ch content,
    plan !! Z.to_nat i = Some ch /\ mappings !! Z.to_nat (cp_file_index ch) = Some content /\
    1 <= cp_length ch <= chunk_size /\ len (slice content ch) = cp_length ch /\
    job i = Ok (sealed_chunk i) /\
    sealed_chunk i = encode_chunk_header (chunk_header_of ch i) ++
      cipher_seal (sk_algorithm keys) (send_key keys) (build_nonce (send_nonce_prefix keys) i)
        (encode_chunk_header (chunk_header_of ch i)) (slice content ch).
Proof.
  intros Hi. unfold total, len in Hi. destruct (lookup_lt_is_Some_2 plan (Z.to_nat i)) as [ch Hch]; [lia|].
  destruct (proj1 (Forall_lookup _ _) Hfits _ _ Hch) as (content & Hc & Hl & Ho & Hb).
  assert (len (slice content ch) = cp_length ch) as Hs.
  { unfold slice. rewrite len_ztake; [done|]. rewrite len_zdrop; lia. }
  assert (job i = Ok (encode_chunk_header (chunk_header_of ch i) ++
      cipher_seal (sk_algorithm keys) (send_key keys) (build_nonce (send_nonce_prefix keys) i)
        (encode_chunk_header (chunk_header_of ch i)) (slice content ch))) as E.
  { unfold seal_job. rewrite Hch, Hc. destruct (Z.ltb_spec (len content) (cp_offset ch + cp_length ch)); [lia|].
    rewrite aead_seal_ok; [done|]. unfold sealed_size. lia. }
  exists ch, content. unfold sealed_chunk at 2. rewrite E. split_and!; try done; try lia.
  unfold sealed_chunk. by rewrite E.
Qed.

Lemma sealed_chunk_len i : 0 <= i < n -> 41 <= len (sealed_chunk i) <= kMaxFrameLength.
Proof.
  intros Hi. destruct (seal_job_ok i Hi) as (ch & content & _ & _ & Hl & Hs & _ & ->).
  rewrite len_app, encode_chunk_header_len, cipher_seal_len, Hs.
  unfold max_chunk_size, kChunkHeaderSize, kAeadTagSize, kMaxFrameLength in *. lia.
Qed.

Record enc_ok (P : gset Z) (taken : list bytes) (s : enc C) : Prop := {
  eo_pipe : pipeline_ok n sealed_chunk (mk_pipeline (e_emitter s) P taken);
  eo_pool : pool_bounds (e_pool s) /\ first_error_ (e_pool s) = None /\ stopping_ (e_pool s) = false;
  eo_next : len (queue_ (e_pool s)) <= e_next s <= n;
  eo_queue : queue_ (e_pool s) = seqZ (e_next s - len (queue_ (e_pool s))) (len (queue_ (e_pool s)));
  eo_nodup : NoDup (active_ (e_pool s));
  eo_active : forall i, i ∈ active_ (e_pool s) -> 0 <= i < e_next s - len (queue_ (e_pool s)) /\ i ∉ P;
  eo_published : forall i, i ∈ P -> i < e_next s - len (queue_ (e_pool s));
  eo_covered : forall i, 0 <= i < e_next s - len (queue_ (e_pool s)) -> i ∈ P \/ i ∈ active_ (e_pool s);
  eo_main : (e_main s = Running /\ total_known_ (e_emitter s) = false) \/
            (e_main s = Finished /\ total_known_ (e_emitter s) = true /\ e_next s = n);
  eo_writer : e_writer s = Running \/ (e_writer s = Finished /\ len taken = n /\ e_main s = Finished);
  eo_channel : wrote (chunk_frames taken) c0 (e_channel s) /\ same_transport c0 (e_channel s);
  eo_progress : e_progress s = payload_sum taken;
}.

Definition measure (taken : list bytes) (s : enc C) : Z :=
  4 * (n - e_next s) + 3 * len (queue_ (e_pool s)) + 2 * len (active_ (e_pool s)) + (n - len taken) +
  (match e_main s with Running => 1 | _ => 0 end) + (match e_writer s with Running => 1 | _ => 0 end).

(** One turn: the invariant, and the measure goes down. *)
Definition good_turn (taken : list bytes) (s : enc C) (o : option (enc C)) : Prop :=
  forall s', o = Some s' -> exists P' taken', enc_ok P' taken' s' /\ measure taken' s' < measure taken s.

Lemma take_good P taken s : enc_ok P taken s -> good_turn taken s (take_step s).
Proof.
  intros Hs s' E. unfold take_step in E. destruct (pool_take (e_pool s)) as [p|] eqn:Ep; [|done].
  injection E as <-. pose proof (eo_pool _ _ _ Hs) as (Hb & He & Hst). pose proof (take_bounds _ _ Hb Ep) as Hb'.
  unfold pool_take in Ep. destruct (_ <? _); [|done]. destruct (queue_ (e_pool s)) as [|j q] eqn:Eq; [done|].
  injection Ep as <-. pose proof (eo_next _ _ _ Hs) as Hn. pose proof (eo_queue _ _ _ Hs) as Hq.
  pose proof (eo_active _ _ _ Hs) as Ha. pose proof (eo_published _ _ _ Hs) as Hpub.
  pose proof (eo_covered _ _ _ Hs) as Hcov. rewrite Eq, len_cons in *. pose proof (len_nonneg q).
  rewrite seqZ_cons in Hq by lia. injection Hq as Hj Hq.
  assert (j ∉ P) as HjP by (intros Hin%Hpub; lia).
  exists P, taken. split.
  - split; cbn [e_pool e_emitter e_next e_main e_writer e_channel e_progress queue_ active_ first_error_ stopping_];
      try apply Hs; try done.
    + lia.
    + rewrite Hq at 1. f_equal; lia.
    + apply NoDup_app. split_and!; [apply Hs| |apply NoDup_singleton].
      intros x Hx Hj'%list_elem_of_singleton. subst x. apply Ha in Hx. lia.
    + intros i [Hi|Hi%list_elem_of_singleton]%elem_of_app; [apply Ha in Hi as [? ?]; split; [lia|done]|].
      subst i. split; [lia|done].
    + intros i Hi. apply Hpub in Hi. lia.
    + intros i Hi. destruct (decide (i = j)) as [->|Hne].
      * right. apply elem_of_app. right. by apply list_elem_of_singleton.
      * destruct (Hcov i ltac:(lia)); [by left|]. right. apply elem_of_app. by left.
  - unfold measure. cbn. rewrite Eq, len_cons, len_app. change (len [j]) with 1. lia.
Qed.

Lemma submit_good P taken s :
  enc_ok P taken s -> e_main s = Running -> e_next s < n -> good_turn taken s (main_step plan s).
Proof.
  intros Hs Hrun Hlt s' E. unfold main_step in E. rewrite Hrun in E.
  destruct (Z.ltb_spec (e_next s) n); [|lia]. destruct (submit _ _) as [[r p]|] eqn:Ep; [|done].
  pose proof (eo_pool _ _ _ Hs) as (Hb & He & Hst). pose proof (submit_bounds _ _ _ _ Hb Ep) as Hb'.
  unfold submit in Ep. rewrite He, Hst, bool_decide_eq_false_2, !orb_false_r in Ep by (by intros [? ?]).
  destruct (_ <? _); [|done]. injection Ep as <- <-. injection E as <-.
  pose proof (eo_next _ _ _ Hs) as Hn. pose proof (len_nonneg (queue_ (e_pool s))).
  assert (len (queue_ (e_pool s) ++ [e_next s]) = len (queue_ (e_pool s)) + 1) as Hlen by (by rewrite len_app).
  exists P, taken. split.
  - split; cbn [e_pool e_emitter e_next e_main e_writer e_channel e_progress queue_ active_ first_error_ stopping_];
      rewrite ?Hlen; try apply Hs; try done.
    + lia.
    + replace (e_next s + 1 - (len (queue_ (e_pool s)) + 1)) with (e_next s - len (queue_ (e_pool s))) by lia.
      rewrite seqZ_app by lia. rewrite <- (eo_queue _ _ _ Hs). f_equal.
      replace (_ - _ + _) with (e_next s) by lia. done.
    + intros i Hi. apply (eo_active _ _ _ Hs) in Hi as [? ?]. split; [lia|done].
    + intros i Hi. apply (eo_published _ _ _ Hs) in Hi. lia.
    + intros i Hi. apply (eo_covered _ _ _ Hs). lia.
    + destruct (eo_main _ _ _ Hs) as [[_ ?]|(Hf & _)]; [by left|]. by rewrite Hrun in Hf.
    + destruct (eo_writer _ _ _ Hs) as [?|(_ & _ & Hf)]; [by left|]. by rewrite Hrun in Hf.
  - unfold measure. cbn. rewrite Hlen, Hrun. lia.
Qed.

(** Everything has been published when the pool is idle at the end of the plan. *)
Lemma idle_all_published P taken s :
  enc_ok P taken s -> e_next s = n -> queue_ (e_pool s) = [] -> active_ (e_pool s) = [] ->
  forall i, 0 <= i < n -> i ∈ P.
Proof.
  intros Hs Hn Hq Ha i Hi. destruct (eo_covered _ _ _ Hs i) as [?|Hx]; [|done|].
  - rewrite Hq, Hn. change (len (@nil Z)) with 0. lia.
  - rewrite Ha in Hx. by apply elem_of_nil in Hx.
Qed.

Lemma drain_good P taken s :
  enc_ok P taken s -> e_main s = Running -> n <= e_next s -> good_turn taken s (main_step plan s).
Proof.
  intros Hs Hrun Hge s' E. unfold main_step in E. rewrite Hrun in E.
  destruct (Z.ltb_spec (e_next s) n); [lia|]. destruct (drain _) as [[r p]|] eqn:Ep; [|done].
  pose proof (eo_pool _ _ _ Hs) as (Hb & He & Hst). unfold drain in Ep. rewrite He, Hst, orb_false_r in Ep.
  destruct (bool_decide _ && _) eqn:Eidle; [|done]. injection Ep as <- <-. injection E as <-.
  apply andb_true_iff in Eidle as [Eq%bool_decide_eq_true Ea%Z.eqb_eq]. apply len_zero_nil in Ea.
  pose proof (eo_next _ _ _ Hs) as Hn. assert (e_next s = n) as Hnn by lia.
  pose proof (idle_all_published P taken s Hs Hnn Eq Ea) as Hall.
  exists P, taken. split.
  - split; cbn [e_pool e_emitter e_next e_main e_writer e_channel e_progress]; try apply Hs.
    + eapply pipeline_step_ok; [apply Hs|]. by constructor.
    + right. done.
    + destruct (eo_writer _ _ _ Hs) as [?|(_ & _ & Hf)]; [by left|]. by rewrite Hrun in Hf.
  - unfold measure. cbn. rewrite Hrun. lia.
Qed.

Lemma main_good P taken s : enc_ok P taken s -> good_turn taken s (main_step plan s).
Proof.
  intros Hs. destruct (e_main s) eqn:Em; [|unfold good_turn, main_step; by rewrite Em..].
  destruct (Z.lt_ge_cases (e_next s) n); [by eapply submit_good|by eapply drain_good].
Qed.

Lemma work_good P taken s i :
  enc_ok P taken s -> good_turn taken s (work_step keys plan mappings chunk_size i s).
Proof.
  intros Hs s' E. unfold work_step in E. destruct (active_ (e_pool s) !! i) as [j|] eqn:Ej; [|done].
  destruct (acquire (e_buffers s)) as [v buffers]. pose proof (list_elem_of_lookup_2 _ _ _ Ej) as Hin.
  pose proof (eo_active _ _ _ Hs j Hin) as [Hj HjP]. pose proof (eo_next _ _ _ Hs) as Hn.
  pose proof (len_nonneg (queue_ (e_pool s))).
  destruct (seal_job_ok j ltac:(lia)) as (ch & content & _ & _ & _ & _ & Ejob & _). rewrite Ejob in E.
  destruct (publish j (sealed_chunk j) (e_emitter s)) as [[b em]|] eqn:Epub; [|done].
  assert (b = true) as ->.
  { pose proof (po_error _ _ _ (eo_pipe _ _ _ Hs)) as He. cbn in He. unfold publish in Epub.
    rewrite He in Epub. destruct (_ || _); [|done]. by injection Epub as <- _. }
  injection E as <-. pose proof (delete_Permutation _ _ _ Ej) as Hperm.
  pose proof (eo_nodup _ _ _ Hs) as Hnd. rewrite Hperm in Hnd. apply NoDup_cons in Hnd as [Hjd Hnd].
  pose proof (eo_pool _ _ _ Hs) as (Hb & He & Hst).
  assert (total_known_ em = total_known_ (e_emitter s)) as Htk.
  { unfold publish in Epub. destruct (error_ (e_emitter s)); destruct (_ || _); try done; by injection Epub as <-. }
  exists ({[j]} ∪ P), taken. split.
  - split; cbn [e_pool e_emitter e_next e_main e_writer e_channel e_progress pool_finish queue_ active_ first_error_ stopping_];
      rewrite ?Htk; try apply Hs; try done.
    + eapply pipeline_step_ok; [apply Hs|]. constructor; [lia|done|done].
    + split_and!; [by apply finish_bounds|by rewrite He|done].
    + intros k Hk. assert (k ∈ active_ (e_pool s)) as Hk' by (rewrite Hperm; by apply list_elem_of_further).
      apply (eo_active _ _ _ Hs) in Hk' as [? ?]. split; [done|]. set_solver.
    + intros k [->%elem_of_singleton|Hk]%elem_of_union; [lia|]. by apply (eo_published _ _ _ Hs).
    + intros k Hk. destruct (eo_covered _ _ _ Hs k Hk) as [?|Hx]; [set_solver|].
      rewrite Hperm in Hx. apply elem_of_cons in Hx as [->|?]; [set_solver|by right].
  - unfold measure. cbn. apply Permutation_length in Hperm. cbn in Hperm. unfold len in *. lia.
Qed.

Lemma chunk_frames_app a b : chunk_frames (a ++ b) = chunk_frames a ++ chunk_frames b.
Proof. unfold chunk_frames. by rewrite fmap_app, join_app. Qed.

Lemma payload_sum_snoc a b :
  payload_sum (a ++ [b]) = u64 (payload_sum a + (len b - kChunkHeaderSize - kAeadTagSize)).
Proof. unfold payload_sum. by rewrite foldl_app. Qed.

(** The channel still has room for the next frame. *)
Lemma room_for_next P taken s :
  enc_ok P taken s -> len taken < n ->
  ch_room (e_channel s) (kFrameHeaderSize + len (sealed_chunk (len taken))).
Proof.
  intros Hs Hlt. destruct (eo_channel _ _ _ Hs) as [(_ & _ & Hr) _].
  pose proof (po_taken _ _ _ (eo_pipe _ _ _ Hs)) as Ht. cbn in Ht. pose proof (len_nonneg taken).
  eapply ch_room_le.
  - apply (Hr (len (chunk_frames (sealed_chunk <$> seqZ (len taken) (n - len taken))))); [apply len_nonneg|].
    rewrite <- len_app, Ht at 1. rewrite <- chunk_frames_app, <- fmap_app.
    replace (seqZ 0 (len taken) ++ seqZ (len taken) (n - len taken)) with (seqZ 0 n); [exact Hroom|].
    replace (seqZ (len taken) (n - len taken)) with (seqZ (0 + len taken) (n - len taken)) by done.
    rewrite <- seqZ_app by lia. f_equal. lia.
  - rewrite seqZ_cons by lia. rewrite fmap_cons. unfold chunk_frames. rewrite mjoin_fmap_cons, len_app.
    unfold frame_bytes at 1. rewrite len_app, encode_frame_header_len.
    pose proof (len_nonneg (mjoin (frame_bytes ChunkT 0 <$> (sealed_chunk <$> seqZ (Z.succ (len taken)) (Z.pred (n - len taken)))))).
    lia.
Qed.

Lemma emit_good P taken s b em :
  enc_ok P taken s -> e_writer s = Running -> consume (e_emitter s) = Some (Ok (Some b), em) ->
  good_turn taken s (writer_step s).
Proof.
  intros Hs Hrun Ec s' E. unfold writer_step in E. rewrite Hrun, Ec in E.
  pose proof (eo_pipe _ _ _ Hs) as Hp.
  destruct (consume_inv _ _ _ P taken _ _ Hp Ec) as (Hin & -> & Hem).
  pose proof (po_range _ _ _ Hp _ Hin) as [Hr _]. cbn in Hr.
  destruct (channel_write_frame_total ChunkT (sealed_chunk (len taken)) 0 (e_channel s)) as (c' & Ew & Hw & Hk).
  { apply sealed_chunk_len. lia. }
  { apply (room_for_next P); [done|lia]. }
  rewrite Ew in E. injection E as <-. set (b := sealed_chunk (len taken)) in *.
  assert (len (taken ++ [b]) = len taken + 1) as Hlen by (by rewrite len_app).
  destruct (eo_channel _ _ _ Hs) as [Hw0 Hk0].
  exists P, (taken ++ [b]). split.
  - split; cbn [e_pool e_emitter e_next e_main e_writer e_channel e_progress]; try apply Hs.
    + eapply consume_keeps_ok; [exact Hp|done].
    + subst em. apply Hs.
    + by left.
    + rewrite chunk_frames_app. unfold chunk_frames at 2. cbn [fmap list_fmap mjoin list_join]. rewrite app_nil_r.
      split; [by eapply wrote_trans|by eapply same_transport_trans].
    + rewrite payload_sum_snoc. by rewrite (eo_progress _ _ _ Hs).
  - unfold measure. cbn. rewrite Hlen, Hrun. lia.
Qed.

Lemma writer_good P taken s : enc_ok P taken s -> good_turn taken s (writer_step s).
Proof.
  intros Hs. destruct (e_writer s) eqn:Ew; [|unfold good_turn, writer_step; by rewrite Ew..].
  destruct (consume (e_emitter s)) as [[[[b|]|e] em]|] eqn:Ec.
  - by eapply emit_good.
  - intros s' E. unfold writer_step in E. rewrite Ew, Ec in E.
    destruct (ch_flush_total (e_channel s)) as (c' & Ef & Hw & Hk). rewrite Ef in E. injection E as <-.
    pose proof (eo_pipe _ _ _ Hs) as Hp.
    assert (em = e_emitter s /\ len taken = n /\ total_known_ (e_emitter s) = true) as (-> & Hl & Htk).
    { destruct (po_slots _ _ _ Hp (len taken)) as (b & Hsl & _); [cbn; pose proof (po_cap _ _ _ Hp); cbn in *; lia|].
      cbn in Hsl. unfold consume in Ec. pose proof (po_next _ _ _ Hp) as Hnx. pose proof (po_error _ _ _ Hp) as He.
      cbn in Hnx, He. rewrite Hnx, Hsl, He in Ec. destruct (_ || _); [|done].
      destruct (total_known_ (e_emitter s)) eqn:Etk; [|done]. pose proof (po_total _ _ _ Hp Etk) as Ht. cbn in Ht.
      rewrite Ht in Ec. cbn in Ec. pose proof (po_le _ _ _ Hp). cbn in *.
      destruct (Z.leb_spec n (len taken)); [|done]. injection Ec as <-. split_and!; [done|lia|done]. }
    destruct (eo_channel _ _ _ Hs) as [Hw0 Hk0]. exists P, taken. split.
    + split; cbn [e_pool e_emitter e_next e_main e_writer e_channel e_progress]; try apply Hs.
      * right. split_and!; [done|done|]. destruct (eo_main _ _ _ Hs) as [[_ ?]|[? _]]; congruence.
      * split; [|by eapply same_transport_trans]. rewrite <- (app_nil_r (chunk_frames taken)).
        by eapply wrote_trans.
    + unfold measure. cbn. rewrite Ew. lia.
  - intros s' E. exfalso. pose proof (po_error _ _ _ (eo_pipe _ _ _ Hs)) as He. cbn in He.
    pose proof (eo_pipe _ _ _ Hs) as Hp. pose proof (po_next _ _ _ Hp) as Hnx. cbn in Hnx.
    destruct (po_slots _ _ _ Hp (len taken)) as (b & Hsl & _); [cbn; pose proof (po_cap _ _ _ Hp); cbn in *; lia|].
    cbn in Hsl. unfold consume in Ec. rewrite Hnx, Hsl, He in Ec. destruct (_ || _); [|done].
    by destruct (total_known_ _ && _).
  - unfold good_turn, writer_step. by rewrite Ew, Ec.
Qed.

Lemma step_good P taken s t :
  enc_ok P taken s -> good_turn taken s (enc_step keys plan mappings chunk_size t s).
Proof.
  intros Hs. destruct t; cbn; [by eapply main_good|by eapply take_good|by eapply work_good|by eapply writer_good].
Qed.

Lemma first_turn_none ts s :
  first_turn keys plan mappings chunk_size ts s = None ->
  forall t, t ∈ ts -> enc_step keys plan mappings chunk_size t s = None.
Proof.
  induction ts as [|t ts IH]; cbn; intros E t' Ht; [by apply elem_of_nil in Ht|].
  destruct (enc_step _ _ _ _ t s) eqn:Et; [done|]. apply elem_of_cons in Ht as [->|?]; auto.
Qed.

Lemma first_turn_some ts s s' :
  first_turn keys plan mappings chunk_size ts s = Some s' ->
  exists t, enc_step keys plan mappings chunk_size t s = Some s'.
Proof.
  induction ts as [|t ts IH]; cbn; [done|]. destruct (enc_step _ _ _ _ t s) eqn:Et; [|auto].
  intros [= <-]. eauto.
Qed.

Lemma writer_ready s r :
  e_writer s = Running -> consume (e_emitter s) = Some r -> writer_step s <> None.
Proof.
  intros Hw Ec. unfold writer_step. rewrite Hw, Ec. destruct r as [[[b|]|e] em]; [| |done].
  - by destruct (channel_write_frame _ _ _ _) as [[]].
  - by destruct (ch_flush _) as [[]].
Qed.

(** While a chunk is missing, somebody can move. *)
Lemma missing_moves P taken s :
  enc_ok P taken s -> e_writer s = Running -> len taken < n ->
  exists t, t ∈ turns s /\ enc_step keys plan mappings chunk_size t s <> None.
Proof.
  intros Hs Hrun Hlt. pose proof (eo_pipe _ _ _ Hs) as Hp. pose proof (eo_pool _ _ _ Hs) as (Hb & He & Hst).
  pose proof (len_nonneg taken). unfold turns.
  destruct (pipeline_progress n sealed_chunk _ Hp Hlt) as [(b & e' & Ec)|(HkP & e' & Epub)]; cbn in *.
  { exists TWriter. split; [apply list_elem_of_here|]. by eapply writer_ready. }
  pose proof (eo_next _ _ _ Hs) as Hn. set (q := len (queue_ (e_pool s))) in *.
  assert (active_ (e_pool s) = [] \/ len taken ∈ active_ (e_pool s) \/ len taken < e_next s - q) as Hact.
  { destruct (Z.lt_ge_cases (len taken) (e_next s - q)); [by right; right|]. left.
    destruct (active_ (e_pool s)) as [|j a] eqn:Ea; [done|]. exfalso.
    destruct (eo_active _ _ _ Hs j) as [Hj HjP]; [rewrite Ea; apply list_elem_of_here|].
    apply HjP. apply (po_published _ _ _ Hp). cbn. fold q in Hj. lia. }
  assert (len taken ∈ active_ (e_pool s) -> exists t, t ∈ turns s /\ enc_step keys plan mappings chunk_size t s <> None)
    as Hwork.
  { intros Hin. apply list_elem_of_lookup in Hin as [i Hi]. exists (TWork i). split.
    - unfold turns. apply list_elem_of_further, elem_of_app. left. apply list_elem_of_fmap. exists i. split; [done|].
      apply elem_of_seq. apply lookup_lt_Some in Hi. lia.
    - cbn. unfold work_step. rewrite Hi. destruct (acquire _).
      destruct (seal_job_ok (len taken) ltac:(lia)) as (? & ? & _ & _ & _ & _ & -> & _). by rewrite Epub. }
  destruct Hact as [Ha|[Ha|Ha]]; [|by apply Hwork|].
  - destruct (queue_ (e_pool s)) as [|j qs] eqn:Eq.
    + change q with 0 in *. destruct (Z.lt_ge_cases (len taken) (e_next s)) as [Hx|Hx].
      { destruct (eo_covered _ _ _ Hs (len taken)) as [?|Hin]; [rewrite Eq; change (len (@nil Z)) with 0; lia|done|].
        by apply Hwork in Hin. }
      exists TMain. split; [unfold turns; apply list_elem_of_further, elem_of_app; right; set_solver|].
      cbn. unfold main_step. destruct (eo_main _ _ _ Hs) as [[-> _]|(_ & _ & ?)]; [|lia].
      destruct (Z.ltb_spec (e_next s) n); [|lia]. unfold submit. rewrite Eq, He, Hst. destruct Hb as (_ & _ & Hd & _).
      change (len (@nil Z)) with 0. by destruct (Z.ltb_spec 0 (queue_depth_ (e_pool s))); [|lia].
    + exists TTake. split; [unfold turns; apply list_elem_of_further, elem_of_app; right; set_solver|].
      cbn. unfold take_step, pool_take, active_jobs_. rewrite Eq, Ha. destruct Hb as (_ & _ & _ & Hw).
      change (len (@nil Z)) with 0. by destruct (Z.ltb_spec 0 (worker_count (e_pool s))); [|lia].
  - destruct (eo_covered _ _ _ Hs (len taken)) as [?|Hin]; [fold q; lia|done|]. by apply Hwork in Hin.
Qed.

(** At the end of the plan the main thread, then the writer, can finish. *)
Lemma complete_moves P taken s :
  enc_ok P taken s -> e_writer s = Running -> len taken = n ->
  exists t, t ∈ turns s /\ enc_step keys plan mappings chunk_size t s <> None.
Proof.
  intros Hs Hrun Heq. pose proof (eo_pipe _ _ _ Hs) as Hp. pose proof (eo_pool _ _ _ Hs) as (Hb & He & Hst).
  pose proof (eo_next _ _ _ Hs) as Hn. pose proof (len_nonneg (queue_ (e_pool s))).
  assert (forall i, 0 <= i < n -> i ∈ P) as Hall.
  { intros i Hi. apply (po_published _ _ _ Hp). cbn. lia. }
  assert (active_ (e_pool s) = []) as Ha.
  { destruct (active_ (e_pool s)) as [|j a] eqn:Ea; [done|]. exfalso.
    destruct (eo_active _ _ _ Hs j) as [Hj HjP]; [rewrite Ea; apply list_elem_of_here|]. apply HjP, Hall. lia. }
  assert (e_next s = n /\ len (queue_ (e_pool s)) = 0) as [Hnx Hq].
  { destruct (Z.lt_ge_cases (e_next s - len (queue_ (e_pool s))) n) as [Hlt|]; [|lia].
    pose proof (eo_published _ _ _ Hs _ (Hall (e_next s - len (queue_ (e_pool s))) ltac:(lia))). lia. }
  apply len_zero_nil in Hq. destruct (eo_main _ _ _ Hs) as [[Hm _]|(Hm & Htk & _)].
  - exists TMain. split; [unfold turns; apply list_elem_of_further, elem_of_app; right; set_solver|].
    cbn. unfold main_step. rewrite Hm. destruct (Z.ltb_spec (e_next s) n); [lia|]. unfold drain, active_jobs_.
    rewrite Hq, Ha, He. done.
  - exists TWriter. split; [unfold turns; apply list_elem_of_here|]. cbn. 
    destruct (consume (e_emitter s)) as [r|] eqn:Ec; [by eapply writer_ready|]. exfalso.
    destruct (po_slots _ _ _ Hp (len taken)) as (b & Hsl & _); [cbn; pose proof (po_cap _ _ _ Hp); cbn in *; lia|].
    cbn in Hsl. unfold consume in Ec. pose proof (po_next _ _ _ Hp) as Hne. cbn in Hne.
    pose proof (po_total _ _ _ Hp Htk) as Ht. cbn in Ht. rewrite Hne, Hsl, Htk, Ht in Ec. cbn [andb] in Ec.
    destruct (Z.leb_spec n (len taken)); [|lia]. rewrite orb_true_r in Ec. by destruct (error_ (e_emitter s)).
Qed.

Lemma stuck_is_done P taken s :
  enc_ok P taken s -> first_turn keys plan mappings chunk_size (turns s) s = None ->
  e_main s = Finished /\ e_writer s = Finished /\ len taken = n.
Proof.
  intros Hs Hnone. destruct (eo_writer _ _ _ Hs) as [Hrun|(Hw & Hl & Hm)]; [|done]. exfalso.
  pose proof (po_le _ _ _ (eo_pipe _ _ _ Hs)) as Hle. cbn in Hle.
  assert (exists t, t ∈ turns s /\ enc_step keys plan mappings chunk_size t s <> None) as (t & Hin & Ht).
  { destruct (Z.lt_ge_cases (len taken) n); [by eapply missing_moves|by eapply complete_moves; [done..|lia]]. }
  by apply Ht, (first_turn_none _ _ Hnone).
Qed.

Lemma run_rest_done fuel P taken s :
  enc_ok P taken s -> measure taken s <= Z.of_nat fuel ->
  exists P' taken', enc_ok P' taken' (run_rest keys plan mappings chunk_size fuel s) /\
    e_main (run_rest keys plan mappings chunk_size fuel s) = Finished /\
    e_writer (run_rest keys plan mappings chunk_size fuel s) = Finished /\ len taken' = n.
Proof.
  revert P taken s. induction fuel as [|fuel IH]; intros P taken s Hs Hm; cbn [run_rest].
  - exists P, taken. split; [done|]. apply (stuck_is_done P); [done|].
    destruct (first_turn _ _ _ _ _ s) as [s'|] eqn:E; [|done]. exfalso.
    apply first_turn_some in E as [t Et]. destruct (step_good P taken s t Hs s' Et) as (P' & taken' & Hs' & Hlt).
    assert (0 <= measure taken' s'); [|lia]. unfold measure. pose proof (eo_next _ _ _ Hs').
    pose proof (po_le _ _ _ (eo_pipe _ _ _ Hs')) as Hle. cbn in Hle.
    pose proof (len_nonneg (queue_ (e_pool s'))). pose proof (len_nonneg (active_ (e_pool s'))).
    destruct (e_main s'), (e_writer s'); lia.
  - destruct (first_turn _ _ _ _ (turns s) s) as [s'|] eqn:E.
    + apply first_turn_some in E as [t Et]. destruct (step_good P taken s t Hs s' Et) as (P' & taken' & Hs' & Hlt).
      apply (IH P' taken'); [done|lia].
    + exists P, taken. split; [done|]. by apply (stuck_is_done P).
Qed.

Lemma run_schedule_ok sched P taken s :
  enc_ok P taken s -> exists P' taken', enc_ok P' taken' (run_schedule keys plan mappings chunk_size sched s) /\
    measure taken' (run_schedule keys plan mappings chunk_size sched s) <= measure taken s.
Proof.
  revert P taken s. induction sched as [|t sched IH]; intros P taken s Hs; [exists P, taken; split; [done|cbn; lia]|].
  unfold run_schedule. cbn. destruct (enc_step keys plan mappings chunk_size t s) as [s'|] eqn:Et; cbn.
  - destruct (step_good P taken s t Hs s' Et) as (P' & taken' & Hs' & Hlt).
    destruct (IH P' taken' s' Hs') as (P2 & taken2 & Hok2 & Hm2). exists P2, taken2. split; [done|].
    unfold run_schedule in Hm2. lia.
  - by apply IH with P.
Qed.

Lemma enc_start_ok worker_count :
  0 <= worker_count < 2 ^ 32 -> 0 <= env_cores env < 2 ^ 32 -> enc_ok ∅ [] (enc_start env chunk_size worker_count c0).
Proof.
  intros Hw Hc. unfold enc_start. set (w := if _ =? _ then _ else _).
  assert (0 <= w < 2 ^ 32) as Hw' by (unfold w; destruct (_ =? _); lia).
  pose proof (len_nonneg plan).
  split; cbn [e_pool e_emitter e_next e_main e_writer e_channel e_progress new_pool queue_ active_ first_error_ stopping_];
    change (len (@nil Z)) with 0.
  - apply new_emitter_ok; unfold total in *; lia.
  - split_and!; try done; apply (new_pool_bounds w (w * 2)); lia.
  - unfold total. lia.
  - done.
  - constructor.
  - intros i Hi. by apply elem_of_nil in Hi.
  - set_solver.
  - lia.
  - by left.
  - by left.
  - split; [apply wrote_nil|apply same_transport_refl].
  - done.
Qed.

(** Every schedule of the threads ends, with every chunk on the channel in order. *)
Lemma run_encrypted_total sched worker_count :
  0 <= worker_count < 2 ^ 32 -> 0 <= env_cores env < 2 ^ 32 ->
  exists c', run_encrypted env keys plan mappings chunk_size sched worker_count c0 =
      (Ok (payload_sum (sealed_chunk <$> seqZ 0 n)), c') /\
    wrote (chunk_frames (sealed_chunk <$> seqZ 0 n)) c0 c' /\ same_transport c0 c'.
Proof.
  intros Hw Hc. unfold run_encrypted. pose proof (enc_start_ok worker_count Hw Hc) as Hst0.
  destruct (run_schedule_ok sched _ _ _ Hst0) as (P & taken & Hs & Hm).
  destruct (run_rest_done (5 * length plan + 2) _ _ _ Hs) as (P' & taken' & Hs' & Hma & Hwr & Hl).
  { etrans; [exact Hm|]. unfold measure, total, len. cbn. lia. }
  set (s' := run_rest _ _ _ _ _ _) in *. exists (e_channel s').
  pose proof (po_taken _ _ _ (eo_pipe _ _ _ Hs')) as Ht. cbn in Ht. rewrite Hl in Ht.
  unfold enc_result. rewrite Hma, Hwr, (eo_progress _ _ _ Hs'), <- Ht. split; [done|]. apply Hs'.
Qed.
End Encrypted.

Lemma plan_exact_witness :
  let contents := [[1; 2; 3]; []] in
  mjoin (slice [1; 2; 3] <$> filter (fun ch => cp_file_index ch = 0) (plan_chunks sample_manifest 2)) = [1; 2; 3].
Proof.
  intros contents.
  refine (proj1 (plan_exact sample_manifest 2 contents _ _ _) 0%nat [1; 2; 3] eq_refl); [lia|done|].
  repeat constructor; by vm_compute.
Defined.
