(* ===== verification/Receiver.v ===== *)
(** The receiving half of the data plane, [client/src/receiver.cpp], with [pwrite_all] and
    [preallocate_file] of [common/src/fileio.cpp].

    The output file system is a map from paths to files, so two offered entries with one
    path share a file. What the kernel answers is [dest_env] and, for [pwrite], a list of
    events, after which every [pwrite] writes all it was given.

    The main thread reads frames and submits a job per chunk to the worker pool; it sees
    the workers only in [submit] and [drain], so an interleaving is what the workers do
    before each of those calls: [r_sched] lists it, and when the list is used up or the
    call still has to wait, the workers go on by themselves. *)

From S2P Require Import Prelude Endian Socket Frame Protocol Paths Messages Pipeline Channel.
From S2P Require Import Crypto Manifest AeadPool.

(** * Files *)

Record dfile := mk_dfile { df_content : bytes; df_mode : Z }.

Record dest_env := mk_dest_env {
  de_mkdir : bytes -> option Z;
  de_open : bytes -> option Z;
  de_fallocate : bytes -> Z -> option Z;
  de_truncate : bytes -> option Z;
  de_fsync : bytes -> option Z;
  de_cwd : bytes;
  de_answer : bool;
  de_cores : Z;
  de_sha256 : bytes -> bytes;
}.

Definition zeros (n : Z) : bytes := replicate (Z.to_nat n) 0.

(** A write at an offset: the file grows if it has to, a gap is zero. *)
Definition write_at (offset : Z) (data content : bytes) : bytes :=
  ztake offset (content ++ zeros (offset - len content)) ++ data ++ zdrop (offset + len data) content.

Definition EINVAL : Z := 22.
Definition EOPNOTSUPP : Z := 95.

(** The loop of [pwrite_all] on one file. An [off_t] is signed: a position of 2^63 or more
    is negative and refused. *)
Fixpoint pwrite_loop (evs : list tx_event) (data content : bytes) (position : Z)
  : result unit * bytes * list tx_event :=
  if len data <=? 0 then (Ok tt, content, evs)
  else if 2 ^ 63 <=? position then
    (Err (SysError (str "cannot write to the output file") EINVAL), content, evs)
  else match evs with
       | [] => (Ok tt, write_at position data content, [])
       | TxEintr :: evs => pwrite_loop evs data content position
       | TxAgain _ :: evs => (Err (SysError (str "cannot write to the output file") 11), content, evs)
       | TxFail e :: evs => (Err (SysError (str "cannot write to the output file") e), content, evs)
       | TxWrote n :: evs =>
           let written := moved n (len data) in
           if written =? 0 then (Err (Error (str "the output file accepted no bytes")), content, evs)
           else pwrite_loop evs (zdrop written data) (write_at position (ztake written data) content)
                  (u64 (position + written))
       end.

(** * The receiver's state *)

Record OutputFile := mk_OutputFile {
  of_path : bytes;
  of_expected_size : Z;
  of_mode : Z;
  of_written : Z;
}.

(** A job: the header the loop decoded, its file, and the frame's payload in a vector of
    the capacity given. *)
Record rjob := mk_rjob { j_header : ChunkHeader; j_target : nat; j_sealed : bytes; j_capacity : Z }.

Inductive wturn := WTake | WDone (i : nat).

Record recv {C : Type} := mk_recv {
  r_channel : C;
  r_fs : gmap bytes dfile;
  r_disk : list tx_event;
  r_files : list OutputFile;
  r_pool : AeadPool rjob;
  r_ciphertext : BufferPool;
  r_plaintext : BufferPool;
  r_progress : Z;
  r_sched : list (list wturn);
}.
Arguments recv : clear implicits.

Section Receiver.
Context {C : Type} `{Channel C} `{AeadCipher}.
Context (env : dest_env) (keys : SessionKeys).

Implicit Types s : recv C.

Definition on_channel {A} (m : M C A) : M (recv C) A :=
  mzoom r_channel (fun c s => mk_recv C c (r_fs s) (r_disk s) (r_files s) (r_pool s) (r_ciphertext s)
                               (r_plaintext s) (r_progress s) (r_sched s)) m.

Definition with_fs (fs : gmap bytes dfile) (disk : list tx_event) (s : recv C) : recv C :=
  mk_recv C (r_channel s) fs disk (r_files s) (r_pool s) (r_ciphertext s) (r_plaintext s)
    (r_progress s) (r_sched s).
Definition with_files (fl : list OutputFile) (s : recv C) : recv C :=
  mk_recv C (r_channel s) (r_fs s) (r_disk s) fl (r_pool s) (r_ciphertext s) (r_plaintext s)
    (r_progress s) (r_sched s).
Definition with_pool (p : AeadPool rjob) (s : recv C) : recv C :=
  mk_recv C (r_channel s) (r_fs s) (r_disk s) (r_files s) p (r_ciphertext s) (r_plaintext s)
    (r_progress s) (r_sched s).
Definition with_buffers (c p : BufferPool) (s : recv C) : recv C :=
  mk_recv C (r_channel s) (r_fs s) (r_disk s) (r_files s) (r_pool s) c p (r_progress s) (r_sched s).
Definition with_progress (n : Z) (s : recv C) : recv C :=
  mk_recv C (r_channel s) (r_fs s) (r_disk s) (r_files s) (r_pool s) (r_ciphertext s) (r_plaintext s) n
    (r_sched s).
Definition with_sched (ws : list (list wturn)) (s : recv C) : recv C :=
  mk_recv C (r_channel s) (r_fs s) (r_disk s) (r_files s) (r_pool s) (r_ciphertext s) (r_plaintext s)
    (r_progress s) ws.

(** [pwrite_all] on an open file. *)
Definition pwrite_all (path data : bytes) (offset : Z) : M (recv C) unit := fun s =>
  match r_fs s !! path with
  | None => (Err OutOfBounds, s)
  | Some f =>
      let '(r, content, disk) := pwrite_loop (r_disk s) data (df_content f) offset in
      (r, with_fs (<[path := mk_dfile content (df_mode f)]> (r_fs s)) disk s)
  end.

(** A chunk on disk: the write, the file's count and the progress. *)
Definition commit (target : nat) (data : bytes) (offset : Z) : M (recv C) unit := fun s =>
  match r_files s !! target with
  | None => (Err OutOfBounds, s)
  | Some f =>
      (do* pwrite_all (of_path f) data offset in fun s =>
       let f' := mk_OutputFile (of_path f) (of_expected_size f) (of_mode f) (u64 (of_written f + len data)) in
       (Ok tt, with_progress (u64 (r_progress s + len data))
                 (with_files (<[target := f']> (r_files s)) s))) s
  end.

(** * The offer *)

Definition read_offer : M (recv C) TransferOffer :=
  let* f := on_channel (channel_read_expected OfferT) in
  let tag := flags (header f) in
  if negb (tag =? 1) && negb (tag =? 2) then fail (str "the sender named an unknown cipher for its offer")
  else
    let* plain := mlift (open_standalone (algorithm_of_u8 tag) (offer_key keys) kInfoOfferKey (payload f)) in
    match plain with
    | None => fail (str "could not open the sender's offer; the session keys do not match")
    | Some plain => mlift (TransferOffer_decode plain)
    end.

(** * The outputs *)

(** [open] with [O_CREAT | O_TRUNC]: a new file is 0600, an old one keeps its mode. *)
Definition create_file (path : bytes) : M (recv C) unit := fun s =>
  match de_open env path with
  | Some e => (Err (SysError (str "cannot create '" ++ path ++ str "'") e), s)
  | None =>
      let mode := match r_fs s !! path with Some f => df_mode f | None => 384 end in
      (Ok tt, with_fs (<[path := mk_dfile [] mode]> (r_fs s)) (r_disk s) s)
  end.

Definition set_size (path : bytes) (size : Z) : M (recv C) unit := fun s =>
  match r_fs s !! path with
  | None => (Err OutOfBounds, s)
  | Some f =>
      (Ok tt, with_fs (<[path := mk_dfile (ztake size (df_content f ++ zeros size)) (df_mode f)]> (r_fs s))
                (r_disk s) s)
  end.

(** The Linux branch of [preallocate_file]. *)
Definition preallocate_file (path : bytes) (size : Z) : M (recv C) unit :=
  if size =? 0 then mret tt
  else match de_fallocate env path size with
       | None => set_size path size
       | Some rc =>
           if negb (rc =? EOPNOTSUPP) && negb (rc =? EINVAL) then
             mthrow (SysError (str "cannot reserve space for the output file") rc)
           else match de_truncate env path with
                | Some e => mthrow (SysError (str "cannot set the size of the output file") e)
                | None => set_size path size
                end
       end.

Fixpoint open_outputs (entries : list ManifestEntry) (paths : list bytes) : M (recv C) (list OutputFile) :=
  match entries with
  | [] => mret []
  | entry :: entries =>
      match paths with
      | [] => mthrow OutOfBounds
      | path :: paths =>
          do* mlift (mkdirs (de_mkdir env) (make_directories (parent_path path))) in
          do* create_file path in
          do* preallocate_file path (me_size entry) in
          let* rest := open_outputs entries paths in
          mret (mk_OutputFile path (me_size entry) (me_mode entry) 0 :: rest)
      end
  end.

(** * A chunk *)

Definition validate_chunk (h : ChunkHeader) (files : list OutputFile) (expected_counter max_chunk_size : Z)
  : result unit :=
  if len files <=? c_file_index h then
    Err (Error (str "the sender referred to a file that is not in its own manifest"))
  else if max_chunk_size <? c_plaintext_length h then
    Err (Error (str "the sender sent a chunk larger than the size it declared"))
  else if negb (c_counter h =? expected_counter) then
    Err (Error (str "chunk " ++ to_string (c_counter h) ++ str " arrived where " ++
                to_string expected_counter ++ str " was expected; the transfer is incomplete"))
  else match files !! Z.to_nat (c_file_index h) with
       | None => Err OutOfBounds
       | Some f =>
           if of_expected_size f <? u64 (c_offset h + c_plaintext_length h) then
             Err (Error (str "the sender sent a chunk that runs past the end of '" ++ of_path f ++ str "'"))
           else Ok tt
       end.

(** What a worker does with a chunk. The vector it decrypts into has room for its
    capacity. *)
Definition run_job (algorithm : AeadAlgorithm) (j : rjob) : M (recv C) unit := fun s =>
  let h := j_header j in
  let '(v, plaintext) := acquire (r_plaintext s) in
  let v := resize (c_plaintext_length h) v in
  let s := with_buffers (r_ciphertext s) plaintext s in
  let nonce := build_nonce (receive_nonce_prefix keys) (c_counter h) in
  match aead_open algorithm (receive_key keys) nonce (ztake kChunkHeaderSize (j_sealed j))
          (zdrop kChunkHeaderSize (j_sealed j)) (capacity v) with
  | Err e => (Err e, s)
  | Ok None =>
      fail (str "chunk " ++ to_string (c_counter h) ++
            str " failed authentication; it was corrupted or tampered with") s
  | Ok (Some plain) =>
      if negb (len plain =? c_plaintext_length h) then
        fail (str "chunk " ++ to_string (c_counter h) ++ str " decrypted to the wrong length") s
      else
        (do* commit (j_target j) plain (c_offset h) in fun s =>
         (Ok tt, with_buffers (release (mk_vec (j_sealed j) (j_capacity j)) (r_ciphertext s))
                   (release v (r_plaintext s)) s)) s
  end.

(** * The workers *)

Definition worker_turn (algorithm : AeadAlgorithm) (t : wturn) (s : recv C) : option (recv C) :=
  match t with
  | WTake => match pool_take (r_pool s) with None => None | Some p => Some (with_pool p s) end
  | WDone i =>
      match active_ (r_pool s) !! i with
      | None => None
      | Some j =>
          let '(r, s) := run_job algorithm j s in
          Some (with_pool (pool_finish i (match r with Ok _ => None | Err e => Some e end) (r_pool s)) s)
      end
  end.

Definition run_workers (algorithm : AeadAlgorithm) (ts : list wturn) (s : recv C) : recv C :=
  foldl (fun s t => default s (worker_turn algorithm t s)) s ts.

(** The turn a worker takes when nobody else moves. *)
Definition idle_turn (algorithm : AeadAlgorithm) (s : recv C) : option (recv C) :=
  match worker_turn algorithm (WDone 0) s with
  | Some s' => Some s'
  | None => worker_turn algorithm WTake s
  end.

(** A call of the main thread on the pool, waiting while it has to. *)
Fixpoint wait_pool (algorithm : AeadAlgorithm) (fuel : nat)
    (call : AeadPool rjob -> option (result unit * AeadPool rjob)) (s : recv C) : result unit * recv C :=
  match call (r_pool s) with
  | Some (r, p) => (r, with_pool p s)
  | None =>
      match fuel with
      | O => (Err Blocks, s)
      | S fuel =>
          match idle_turn algorithm s with
          | None => (Err Blocks, s)
          | Some s' => wait_pool algorithm fuel call s'
          end
      end
  end.

(** Every queued job is taken and done, every active one done. *)
Definition on_pool (algorithm : AeadAlgorithm)
    (call : AeadPool rjob -> option (result unit * AeadPool rjob)) : M (recv C) unit := fun s =>
  let s := match r_sched s with
           | [] => s
           | ts :: rest => run_workers algorithm ts (with_sched rest s)
           end in
  wait_pool algorithm (2 * length (queue_ (r_pool s)) + length (active_ (r_pool s))) call s.

(** * The loop *)

Definition handle_chunk (offer : TransferOffer) (f : Frame) (expected_counter : Z) : M (recv C) unit :=
  if len (payload f) <? kChunkHeaderSize then fail (str "a chunk frame is too short to parse")
  else
    let* h := mlift (decode_chunk_header (payload f)) in
    let* s := mget in
    do* mlift (validate_chunk h (r_files s) expected_counter (to_chunk_size offer)) in
    let target := Z.to_nat (c_file_index h) in
    if negb (to_encrypt_payload offer) then
      let payload_length := len (payload f) - kChunkHeaderSize in
      if negb (payload_length =? c_plaintext_length h) then fail (str "a chunk's length does not match its header")
      else commit target (zdrop kChunkHeaderSize (payload f)) (c_offset h)
    else
      let* sealed := (fun s =>
        let '(v, ciphertext) := acquire (r_ciphertext s) in
        (Ok (resize (len (payload f)) v), with_buffers ciphertext (r_plaintext s) s)) in
      on_pool (to_algorithm offer) (submit (mk_rjob h target (payload f) (capacity sealed))).

Fixpoint receive_loop (fuel : nat) (offer : TransferOffer) (expected_counter : Z) : M (recv C) unit :=
  match fuel with
  | O => mthrow Blocks
  | S fuel =>
      let* f := on_channel channel_read_frame in
      let t := type (header f) in
      if bool_decide (t = TransferEndT) then mret tt
      else if bool_decide (t = AbortT) then
        fail_user (str "the sender stopped the transfer: " ++
                   (if len (payload f) =? 0 then str "no reason given" else payload f))
      else if negb (bool_decide (t = ChunkT)) then
        fail (str "expected a chunk but the sender sent a " ++ message_type_name t)
      else
        do* handle_chunk offer f expected_counter in
        receive_loop fuel offer (u64 (expected_counter + 1))
  end.

(** * The end *)

Fixpoint finalise_outputs (files : list OutputFile) : M (recv C) unit :=
  match files with
  | [] => mret tt
  | f :: files =>
      if negb (of_written f =? of_expected_size f) then
        fail (str "'" ++ of_path f ++ str "' received " ++ to_string (of_written f) ++
              str " of " ++ to_string (of_expected_size f) ++ str " bytes")
      else match de_fsync env (of_path f) with
           | Some e => mthrow (SysError (str "cannot flush the output file to disk") e)
           | None =>
               do* (fun s =>
                 match r_fs s !! of_path f with
                 | None => (Err OutOfBounds, s)
                 | Some d => (Ok tt, with_fs (<[of_path f := mk_dfile (df_content d) (Z.land (of_mode f) 511)]>
                                               (r_fs s)) (r_disk s) s)
                 end) in
               finalise_outputs files
           end
  end.

Fixpoint verify_digests (entries : list ManifestEntry) (files : list OutputFile) : M (recv C) unit :=
  match files with
  | [] => mret tt
  | f :: files =>
      let* s := mget in
      match r_fs s !! of_path f with
      | None => mthrow (SysError (str "cannot open '" ++ of_path f ++ str "'") ENOENT)
      | Some d =>
          match entries with
          | [] => mthrow OutOfBounds
          | e :: entries =>
              if negb (bool_decide (de_sha256 env (df_content d) = me_digest e)) then
                fail (str "'" ++ of_path f ++ str "' does not match the digest the sender sent")
              else verify_digests entries files
          end
      end
  end.

Record ReceiveOptions := mk_ReceiveOptions {
  ro_output_directory : bytes;
  ro_prompt : bool;
  ro_require_encryption : bool;
  ro_verify_digests : bool;
  ro_workers : Z;
}.

Record ReceiveResult := mk_ReceiveResult {
  rr_accepted : bool;
  rr_bytes_received : Z;
  rr_display_name : bytes;
  rr_written_paths : list bytes;
}.

Definition decline (reason : bytes) : M (recv C) unit :=
  on_channel (channel_write_frame DecisionT (TransferDecision_encode (mk_TransferDecision false reason [])) 0).

(** The pool and the buffers of an encrypted transfer. *)
Definition start_pool (o : ReceiveOptions) (offer : TransferOffer) (s : recv C) : recv C :=
  let workers := if ro_workers o =? 0 then de_cores env else ro_workers o in
  if to_encrypt_payload offer then
    with_pool (new_pool workers (workers * 2))
      (with_buffers (mk_BufferPool (kChunkHeaderSize + sealed_size (to_chunk_size offer)) [])
         (mk_BufferPool (to_chunk_size offer) []) s)
  else s.

Definition receive_files (fuel : nat) (o : ReceiveOptions) (offer : TransferOffer) (paths : list bytes)
    (output_directory : bytes) : M (recv C) ReceiveResult :=
  let* files := open_outputs (to_entries offer) paths in
  do* on_channel (channel_write_frame DecisionT
                    (TransferDecision_encode (mk_TransferDecision true [] output_directory)) 0) in
  do* on_channel ch_flush in
  do* mmodify (fun s => with_progress 0 (start_pool o offer (with_files files s))) in
  do* receive_loop fuel offer 0 in
  do* (if to_encrypt_payload offer then on_pool (to_algorithm offer) drain else mret tt) in
  let* s := mget in
  do* finalise_outputs (r_files s) in
  do* (if ro_verify_digests o && to_digests_present offer then verify_digests (to_entries offer) (r_files s)
       else mret tt) in
  do* on_channel (channel_write_empty TransferAckT) in
  do* on_channel ch_flush in
  let* s := mget in
  mret (mk_ReceiveResult true (r_progress s) (to_display_name offer) paths).

Definition receive_transfer (fuel : nat) (peer_username : bytes) (o : ReceiveOptions)
  : M (recv C) ReceiveResult :=
  let* offer := read_offer in
  let output_directory := if len (ro_output_directory o) =? 0 then de_cwd env else ro_output_directory o in
  let* s := mget in
  if negb (to_encrypt_payload offer) && bool_decide (ch_kind (r_channel s) = ServerRelay) then
    do* decline (str "this transfer would pass through the rendezvous server, so it must be encrypted") in
    fail_user (peer_username ++ str " tried to send unencrypted files over the relay, which drop-zone refuses")
  else if negb (to_encrypt_payload offer) && ro_require_encryption o then
    do* decline (str "this receiver requires encrypted transfers") in
    fail_user (peer_username ++ str " tried to send unencrypted files, which this receiver refuses")
  else
    let* paths := mlift (resolve_output_paths (to_entries offer) output_directory) in
    if ro_prompt o && negb (de_answer env) then
      do* decline (str "declined") in
      mret (mk_ReceiveResult false 0 (to_display_name offer) [])
    else receive_files fuel o offer paths output_directory.
End Receiver.
