(* ===== verification/ReceiverOk.v ===== *)
(** The receiver given what an honest sender puts on the channel: whatever the workers'
    interleaving and however the disk splits its writes, every file ends up as the sender
    had it. *)

From S2P Require Import Prelude Endian Socket Frame Protocol Paths Messages Pipeline Channel.
From S2P Require Import Crypto Manifest AeadPool Receiver.

(** * Writes at offsets *)

Lemma zeros_len n : 0 <= n -> len (zeros n) = n.
Proof. intros. unfold zeros, len. rewrite length_replicate. lia. Qed.

Lemma write_at_inside offset data content :
  0 <= offset -> offset + len data <= len content ->
  write_at offset data content = ztake offset content ++ data ++ zdrop (offset + len data) content.
Proof.
  intros Ho Hl. unfold write_at. pose proof (len_nonneg data). f_equal. apply ztake_app_le. lia.
Qed.

Lemma write_at_len offset data content :
  0 <= offset -> offset + len data <= len content -> len (write_at offset data content) = len content.
Proof.
  intros Ho Hl. rewrite write_at_inside by done. pose proof (len_nonneg data).
  rewrite !len_app, len_ztake, len_zdrop by lia. lia.
Qed.

(** The byte at a position after a write. *)
Lemma write_at_lookup offset data content pos :
  0 <= offset -> offset + len data <= len content ->
  write_at offset data content !! pos =
    if decide (offset <= Z.of_nat pos < offset + len data) then data !! (pos - Z.to_nat offset)%nat
    else content !! pos.
Proof.
  intros Ho Hl. rewrite write_at_inside by done. pose proof (len_nonneg data).
  assert (length (ztake offset content) = Z.to_nat offset) as Ht.
  { pose proof (len_ztake offset content ltac:(lia)). unfold len in *. lia. }
  destruct (decide (Z.of_nat pos < offset)) as [Hlt|Hge].
  - rewrite decide_False by lia. rewrite lookup_app_l by lia. unfold ztake. apply lookup_take_lt. lia.
  - rewrite lookup_app_r, Ht by lia. destruct (decide (Z.of_nat pos < offset + len data)) as [Hin|Hout].
    + rewrite decide_True by lia. rewrite lookup_app_l; [done|]. unfold len in *. lia.
    + rewrite decide_False by lia. rewrite lookup_app_r by (unfold len in *; lia). unfold zdrop.
      rewrite lookup_drop. f_equal. unfold len in *. lia.
Qed.

Lemma write_at_split k offset data content :
  0 <= offset -> offset + len data <= len content -> 0 <= k <= len data ->
  write_at (offset + k) (zdrop k data) (write_at offset (ztake k data) content) = write_at offset data content.
Proof.
  intros Ho Hl Hk. pose proof (len_ztake k data Hk) as H1. pose proof (len_zdrop k data Hk) as H2.
  pose proof (write_at_len offset (ztake k data) content Ho ltac:(lia)) as H3.
  apply list_eq. intros pos. rewrite !write_at_lookup by lia. rewrite H1, H2.
  destruct (decide (offset + k <= Z.of_nat pos < offset + k + (len data - k))) as [Hb|Hb].
  - rewrite decide_True by lia. unfold zdrop. rewrite lookup_drop. f_equal. lia.
  - destruct (decide (offset <= Z.of_nat pos < offset + k)) as [Ha|Ha].
    + rewrite decide_True by lia. unfold ztake. apply lookup_take_lt. lia.
    + by rewrite decide_False by lia.
Qed.

(** A disk that writes what it is given, in pieces or interrupted. *)
Definition disk_ok (evs : list tx_event) : Prop :=
  Forall (fun ev => match ev with TxWrote n => 0 < n | TxEintr => True | _ => False end) evs.

Lemma pwrite_loop_ok evs data content position :
  disk_ok evs -> 0 <= position -> position + len data <= len content -> len content < 2 ^ 63 ->
  exists evs', pwrite_loop evs data content position = (Ok tt, write_at position data content, evs') /\ disk_ok evs'.
Proof.
  intros Hd. revert data content position. induction Hd as [|ev evs Hev Hd IH]; intros data content position Hp Hl Hm;
    cbn [pwrite_loop]; destruct (Z.leb_spec (len data) 0) as [Hz|Hz].
  1,3: assert (data = []) as -> by (apply len_zero_nil; pose proof (len_nonneg data); lia);
    eexists; split; [|by constructor]; rewrite write_at_inside by done; change (len (@nil Z)) with 0;
    rewrite Z.add_0_r, app_nil_l; by rewrite ztake_zdrop.
  - destruct (Z.leb_spec (2 ^ 63) position); [lia|]. eexists. split; [done|constructor].
  - destruct (Z.leb_spec (2 ^ 63) position); [lia|]. destruct ev as [n| |b|e]; try done.
    + set (k := moved n (len data)). assert (1 <= k <= len data) as Hk by (unfold k, moved; lia).
      destruct (Z.eqb_spec k 0); [lia|]. rewrite u64_small by (unfold is_u; lia).
      pose proof (len_ztake k data ltac:(lia)) as H1. pose proof (len_zdrop k data ltac:(lia)) as H2.
      pose proof (write_at_len position (ztake k data) content Hp ltac:(lia)) as H3.
      destruct (IH (zdrop k data) (write_at position (ztake k data) content) (position + k)) as (evs' & E & Hd');
        [lia|lia|lia|]. exists evs'. rewrite E, write_at_split by lia. done.
    + by apply IH.
Qed.

(** * Chunks *)

Definition zsum (l : list Z) : Z := foldr Z.add 0 l.

Lemma zsum_app a b : zsum (a ++ b) = zsum a + zsum b.
Proof. unfold zsum. induction a as [|x a IH]; cbn; lia. Qed.

Lemma zsum_perm a b : a ≡ₚ b -> zsum a = zsum b.
Proof. unfold zsum. induction 1; cbn; lia. Qed.

Lemma u64_add a b : u64 (u64 a + b) = u64 (a + b).
Proof. unfold u64. apply Zplus_mod_idemp_l. Qed.

(** A chunk as it arrives: what its header says, the file bytes it stands for and the
    payload of its frame. *)
Record rchunk := mk_rchunk { rc_header : ChunkHeader; rc_data : bytes; rc_payload : bytes }.

Definition rc_target (rc : rchunk) : nat := Z.to_nat (c_file_index (rc_header rc)).

Section Transfer.
Context {C : Type} `{ChannelSpec C} `{AeadLaws}.
Context (keys : SessionKeys) (offer : TransferOffer).
Context (outputs : list OutputFile) (contents : list bytes) (fs0 : gmap bytes dfile) (chunks : list rchunk).

Abbreviation algorithm := (to_algorithm offer).

(** The plaintext of a chunk is the range of its file that its header names. *)
Definition rchunk_ok (i : nat) (rc : rchunk) : Prop :=
  let h := rc_header rc in
  decode_chunk_header (rc_payload rc) = Ok h /\ kChunkHeaderSize <= len (rc_payload rc) <= kMaxFrameLength /\
  c_counter h = Z.of_nat i /\ 0 <= c_file_index h < len outputs /\ 0 <= c_offset h /\
  c_plaintext_length h = len (rc_data rc) /\ 1 <= len (rc_data rc) <= to_chunk_size offer /\
  (exists content, contents !! rc_target rc = Some content /\ c_offset h + len (rc_data rc) <= len content /\
     rc_data rc = ztake (len (rc_data rc)) (zdrop (c_offset h) content)) /\
  if to_encrypt_payload offer then
    forall room, len (rc_data rc) <= room ->
      aead_open algorithm (receive_key keys) (build_nonce (receive_nonce_prefix keys) (Z.of_nat i))
        (ztake kChunkHeaderSize (rc_payload rc)) (zdrop kChunkHeaderSize (rc_payload rc)) room =
      Ok (Some (rc_data rc))
  else zdrop kChunkHeaderSize (rc_payload rc) = rc_data rc.

Hypothesis Hchunks : forall i rc, chunks !! i = Some rc -> rchunk_ok i rc.
Hypothesis Hpaths : NoDup (of_path <$> outputs).
Hypothesis Hcontents : Forall2 (fun f c => of_expected_size f = len c /\ len c < 2 ^ 63) outputs contents.

Definition chunk_bytes (P : nat -> Prop) `{forall t, Decision (P t)} (i : nat) : Z :=
  match chunks !! i with
  | Some rc => if decide (P (rc_target rc)) then len (rc_data rc) else 0
  | None => 0
  end.

Definition done_bytes (t : nat) (dn : list nat) : Z := zsum (chunk_bytes (eq t) <$> dn).
Definition all_bytes (dn : list nat) : Z := zsum (chunk_bytes (fun _ => True) <$> dn).

Definition with_written (w : Z) (f : OutputFile) : OutputFile :=
  mk_OutputFile (of_path f) (of_expected_size f) (of_mode f) w.

(** The byte range a chunk covers. *)
Definition covers (rc : rchunk) (pos : nat) : Prop :=
  c_offset (rc_header rc) <= Z.of_nat pos < c_offset (rc_header rc) + len (rc_data rc).

(** The chunks of [dn] are on disk. *)
Record files_ok (dn : list nat) (s : recv C) : Prop := {
  fo_disk : disk_ok (r_disk s);
  fo_fs : forall t f content, outputs !! t = Some f -> contents !! t = Some content ->
    exists d, r_fs s !! of_path f = Some d /\ len (df_content d) = len content /\
      forall i rc pos, i ∈ dn -> chunks !! i = Some rc -> rc_target rc = t -> covers rc pos ->
        df_content d !! pos = content !! pos;
  fo_other : forall p, p ∉ of_path <$> outputs -> r_fs s !! p = fs0 !! p;
  fo_files : r_files s = imap (fun t f => with_written (u64 (done_bytes t dn)) f) outputs;
  fo_progress : r_progress s = u64 (all_bytes dn);
}.

(** Parts of the state the disk is not. *)
Definition same_rest (s s' : recv C) : Prop :=
  r_channel s' = r_channel s /\ r_pool s' = r_pool s /\ r_ciphertext s' = r_ciphertext s /\
  r_plaintext s' = r_plaintext s /\ r_sched s' = r_sched s.

Lemma output_at t : (t < length outputs)%nat -> exists f content, outputs !! t = Some f /\ contents !! t = Some content.
Proof.
  intros Ht. destruct (lookup_lt_is_Some_2 outputs t Ht) as [f Hf].
  destruct (Forall2_lookup_l _ _ _ _ _ Hcontents Hf) as (content & Hc & _). eauto.
Qed.

Lemma same_path t t' f f' :
  outputs !! t = Some f -> outputs !! t' = Some f' -> of_path f = of_path f' -> t = t'.
Proof.
  intros Hf Hf' E. apply (NoDup_lookup _ _ _ (of_path f) Hpaths); rewrite list_lookup_fmap; [by rewrite Hf|].
  by rewrite Hf', E.
Qed.

Lemma done_bytes_snoc t dn i : done_bytes t (dn ++ [i]) = done_bytes t dn + chunk_bytes (eq t) i.
Proof. unfold done_bytes. rewrite fmap_app, zsum_app. cbn. lia. Qed.

Lemma all_bytes_snoc dn i : all_bytes (dn ++ [i]) = all_bytes dn + chunk_bytes (fun _ => True) i.
Proof. unfold all_bytes. rewrite fmap_app, zsum_app. cbn. lia. Qed.

(** Committing a chunk puts it on disk. *)
Lemma commit_ok dn s i rc :
  files_ok dn s -> chunks !! i = Some rc ->
  exists s', commit (rc_target rc) (rc_data rc) (c_offset (rc_header rc)) s = (Ok tt, s') /\
    files_ok (dn ++ [i]) s' /\ same_rest s s'.
Proof.
  intros Hs Hrc. destruct (Hchunks _ _ Hrc) as (_ & _ & Hcnt & Hidx & Hoff & Hpl & Hlen & (content & Hc & Hle & Hd) & _).
  assert (rc_target rc < length outputs)%nat as Ht by (unfold rc_target, len in *; lia).
  destruct (output_at _ Ht) as (f & content' & Hf & Hc'). rewrite Hc in Hc'. injection Hc' as <-.
  destruct (fo_fs _ _ Hs _ _ _ Hf Hc) as (d & Hfs & Hdl & Hpos).
  destruct (Forall2_lookup_lr _ _ _ _ _ _ Hcontents Hf Hc) as [Hexp Hmax].
  destruct (pwrite_loop_ok (r_disk s) (rc_data rc) (df_content d) (c_offset (rc_header rc))) as (evs' & Ew & Hev);
    [apply Hs|done|lia|lia|].
  unfold commit, pwrite_all, mbind. rewrite (fo_files _ _ Hs), list_lookup_imap, Hf. cbn [fmap option_fmap option_map with_written of_path]. rewrite Hfs, Ew.
  eexists. split; [reflexivity|]. split; [|done].
  split; cbn [r_disk r_fs r_files r_progress with_fs with_files with_progress].
  - done.
  - intros t f' content' Hf' Hc'. destruct (decide (t = rc_target rc)) as [->|Hne].
    + rewrite Hf in Hf'. injection Hf' as <-. rewrite Hc in Hc'. injection Hc' as <-.
      rewrite lookup_insert_eq. eexists. split; [done|]. cbn. rewrite write_at_len by lia. split; [done|].
      intros j rc' pos Hj Hrc' Htg Hcov. rewrite write_at_lookup by lia.
      destruct (decide (c_offset (rc_header rc) <= Z.of_nat pos < c_offset (rc_header rc) + len (rc_data rc))) as [Hin|Hout].
      * rewrite Hd. unfold ztake, zdrop. rewrite lookup_take_lt by lia. rewrite lookup_drop. f_equal. lia.
      * apply elem_of_app in Hj as [Hj|Hj%list_elem_of_singleton]; [by eapply Hpos|].
        subst j. rewrite Hrc in Hrc'. injection Hrc' as <-. done.
    + rewrite lookup_insert_ne by (intros E; apply Hne; symmetry; eapply same_path; [exact Hf|exact Hf'|done]).
      destruct (fo_fs _ _ Hs _ _ _ Hf' Hc') as (d' & Hfs' & Hdl' & Hpos'). exists d'. split_and!; [done..|].
      intros j rc' pos Hj Hrc' Htg Hcov. apply elem_of_app in Hj as [Hj|Hj%list_elem_of_singleton]; [by eapply Hpos'|].
      subst j. rewrite Hrc in Hrc'. injection Hrc' as <-. done.
  - intros p Hp. rewrite lookup_insert_ne; [by apply Hs|]. intros <-. apply Hp.
    apply list_elem_of_fmap. exists f. split; [done|]. by eapply list_elem_of_lookup_2.
  - rewrite (fo_files _ _ Hs). apply list_eq. intros t. rewrite list_lookup_imap.
    destruct (decide (t = rc_target rc)) as [->|Hne].
    + rewrite list_lookup_insert_eq by (rewrite length_imap; done). rewrite Hf. cbn. f_equal.
      rewrite done_bytes_snoc. unfold with_written. cbn. f_equal. rewrite u64_add. f_equal. f_equal.
      unfold chunk_bytes. rewrite Hrc. by rewrite decide_True.
    + rewrite list_lookup_insert_ne, list_lookup_imap by done. destruct (outputs !! t); [|done]. cbn.
      rewrite done_bytes_snoc. unfold chunk_bytes. rewrite Hrc, decide_False, Z.add_0_r by done. done.
  - rewrite (fo_progress _ _ Hs), u64_add, all_bytes_snoc. unfold chunk_bytes. by rewrite Hrc, decide_True.
Qed.

(** * The workers *)

Definition is_job (j : rjob) (i : nat) : Prop :=
  exists rc cap, chunks !! i = Some rc /\ j = mk_rjob (rc_header rc) (rc_target rc) (rc_payload rc) cap.

(** The first [k] chunks have been handed out: [dn] are on disk, [ac] with a worker and
    [qs] in the queue. *)
Record pool_state (k : nat) (dn ac qs : list nat) (s : recv C) : Prop := {
  ps_files : files_ok dn s;
  ps_active : Forall2 is_job (active_ (r_pool s)) ac;
  ps_queue : Forall2 is_job (queue_ (r_pool s)) qs;
  ps_perm : dn ++ ac ++ qs ≡ₚ seq 0 k;
  ps_pool : pool_bounds (r_pool s) /\ first_error_ (r_pool s) = None /\ stopping_ (r_pool s) = false;
  ps_plain : pool_ok (r_plaintext s) /\ buffer_size_ (r_plaintext s) = to_chunk_size offer;
}.

(** The channel and the schedule do not move. *)
Definition same_main (s s' : recv C) : Prop := r_channel s' = r_channel s /\ r_sched s' = r_sched s.

Lemma run_job_ok dn s i j :
  to_encrypt_payload offer = true -> files_ok dn s -> is_job j i ->
  pool_ok (r_plaintext s) -> buffer_size_ (r_plaintext s) = to_chunk_size offer ->
  exists s', run_job keys algorithm j s = (Ok tt, s') /\ files_ok (dn ++ [i]) s' /\ same_main s s' /\
    r_pool s' = r_pool s /\ pool_ok (r_plaintext s') /\ buffer_size_ (r_plaintext s') = to_chunk_size offer.
Proof.
  intros Henc Hs (rc & cap & Hrc & ->) Hpo Hbs. unfold run_job. cbn [j_header j_target j_sealed].
  destruct (Hchunks _ _ Hrc) as (_ & _ & Hcnt & _ & _ & Hpl & Hlen & _ & Hopen). rewrite Henc in Hopen.
  destruct (acquire_ok _ Hpo) as (_ & Hcap & Hpo'). destruct (acquire (r_plaintext s)) as [v pl] eqn:Ea.
  cbn [fst snd] in Hcap, Hpo'. rewrite Hcnt, Hopen by (cbn; lia). rewrite Hpl.
  destruct (Z.eqb_spec (len (rc_data rc)) (len (rc_data rc))); [|done]. cbn [negb].
  assert (buffer_size_ pl = to_chunk_size offer) as Hbs'.
  { unfold acquire in Ea. destruct (last _); injection Ea as <- <-; done. }
  destruct (commit_ok dn (with_buffers (r_ciphertext s) pl s) i rc) as (s1 & E1 & Hf1 & Hr1); [by destruct Hs|done|].
  erewrite mbind_ok by exact E1. eexists. split; [reflexivity|].
  destruct Hr1 as (Hr1 & Hr2 & Hr3 & Hr4 & Hr5). cbn in Hr1, Hr2, Hr3, Hr4, Hr5.
  split; [by destruct Hf1|]. split; [by split|]. split; [done|]. cbn [with_buffers r_plaintext]. rewrite Hr4.
  split; [by apply pool_release_ok|]. unfold release. by repeat destruct (_ <? _).
Qed.

Lemma take_turn_ok k dn ac qs s s' :
  pool_state k dn ac qs s -> worker_turn keys algorithm WTake s = Some s' ->
  exists ac' qs', pool_state k dn ac' qs' s' /\ same_main s s' /\
    (length ac' = S (length ac) /\ length qs = S (length qs')).
Proof.
  intros Hs E. cbn in E. destruct (pool_take (r_pool s)) as [p|] eqn:Ep; [|done]. injection E as <-.
  pose proof (ps_pool _ _ _ _ _ Hs) as (Hb & He & Hst). pose proof (take_bounds _ _ Hb Ep) as Hb'.
  unfold pool_take in Ep. destruct (_ <? _); [|done]. destruct (queue_ (r_pool s)) as [|j q] eqn:Eq; [done|].
  injection Ep as <-. pose proof (ps_queue _ _ _ _ _ Hs) as Hq. rewrite Eq in Hq.
  apply Forall2_cons_inv_l in Hq as (i & qs' & Hj & Hq & ->).
  exists (ac ++ [i]), qs'. split; [|split; [done|split; [rewrite length_app; cbn; lia|done]]].
  split; try apply Hs; cbn.
  - by destruct (ps_files _ _ _ _ _ Hs).
  - apply Forall2_app; [apply Hs|]. by repeat constructor.
  - done.
  - rewrite <- (ps_perm _ _ _ _ _ Hs). by rewrite <- app_assoc.
  - done.
Qed.

Lemma done_turn_ok k dn ac qs s s' n :
  to_encrypt_payload offer = true ->
  pool_state k dn ac qs s -> worker_turn keys algorithm (WDone n) s = Some s' ->
  exists dn' ac', pool_state k dn' ac' qs s' /\ same_main s s' /\ length ac = S (length ac').
Proof.
  intros Henc Hs E. cbn in E. destruct (active_ (r_pool s) !! n) as [j|] eqn:Ej; [|done].
  destruct (Forall2_lookup_l _ _ _ _ _ (ps_active _ _ _ _ _ Hs) Ej) as (i & Hi & Hj).
  destruct (ps_plain _ _ _ _ _ Hs) as [Hpo Hbs].
  destruct (run_job_ok dn s i j Henc (ps_files _ _ _ _ _ Hs) Hj Hpo Hbs) as (s1 & E1 & Hf1 & Hm1 & Hp1 & Hpo1 & Hbs1).
  rewrite E1 in E. injection E as <-. pose proof (ps_pool _ _ _ _ _ Hs) as (Hb & He & Hst).
  exists (dn ++ [i]), (delete n ac). split; [|split; [done|]].
  - split; cbn; rewrite ?Hp1.
    + by destruct Hf1.
    + by apply Forall2_delete, Hs.
    + apply Hs.
    + rewrite <- (ps_perm _ _ _ _ _ Hs). rewrite <- app_assoc. apply Permutation_app_head.
      rewrite (delete_Permutation _ _ _ Hi) at 2. done.
    + split_and!; [apply (finish_bounds n None _ Hb)..|by rewrite He|done].
    + done.
  - apply lookup_lt_Some in Hi as Hlt. rewrite length_delete by eauto. lia.
Qed.

Definition pool_work (s : recv C) : nat := 2 * length (queue_ (r_pool s)) + length (active_ (r_pool s)).

(** Any turn of any worker. *)
Lemma worker_turn_ok k dn ac qs s t s' :
  to_encrypt_payload offer = true -> pool_state k dn ac qs s -> worker_turn keys algorithm t s = Some s' ->
  exists dn' ac' qs', pool_state k dn' ac' qs' s' /\ same_main s s' /\ (pool_work s' < pool_work s)%nat.
Proof.
  intros Henc Hs E. unfold pool_work.
  pose proof (Forall2_length _ _ _ (ps_active _ _ _ _ _ Hs)). pose proof (Forall2_length _ _ _ (ps_queue _ _ _ _ _ Hs)).
  destruct t as [|n].
  - destruct (take_turn_ok _ _ _ _ _ _ Hs E) as (ac' & qs' & Hs' & Hm & Hl). exists dn, ac', qs'.
    pose proof (Forall2_length _ _ _ (ps_active _ _ _ _ _ Hs')). pose proof (Forall2_length _ _ _ (ps_queue _ _ _ _ _ Hs')).
    split_and!; [done|done|lia].
  - destruct (done_turn_ok _ _ _ _ _ _ _ Henc Hs E) as (dn' & ac' & Hs' & Hm & Hl). exists dn', ac', qs.
    pose proof (Forall2_length _ _ _ (ps_active _ _ _ _ _ Hs')). pose proof (Forall2_length _ _ _ (ps_queue _ _ _ _ _ Hs')).
    split_and!; [done|done|lia].
Qed.

Lemma run_workers_ok ts k dn ac qs s :
  to_encrypt_payload offer = true -> pool_state k dn ac qs s ->
  exists dn' ac' qs', pool_state k dn' ac' qs' (run_workers keys algorithm ts s) /\
    same_main s (run_workers keys algorithm ts s).
Proof.
  intros Henc. revert dn ac qs s. induction ts as [|t ts IH]; intros dn ac qs s Hs; [by exists dn, ac, qs|].
  unfold run_workers. cbn. destruct (worker_turn keys algorithm t s) as [s1|] eqn:Et; cbn; [|by eapply IH].
  destruct (worker_turn_ok _ _ _ _ _ _ _ Henc Hs Et) as (dn1 & ac1 & qs1 & Hs1 & [Hm1 Hm2] & _).
  destruct (IH dn1 ac1 qs1 s1 Hs1) as (dn' & ac' & qs' & Hs' & [Hn1 Hn2]). unfold run_workers in *.
  exists dn', ac', qs'. split; [done|]. split; congruence.
Qed.

(** A worker can move while there is a job. *)
Lemma idle_turn_some k dn ac qs s :
  pool_state k dn ac qs s -> pool_work s <> 0%nat -> idle_turn keys algorithm s <> None.
Proof.
  intros Hs Hw. unfold idle_turn, worker_turn, pool_work in *.
  destruct (active_ (r_pool s)) as [|j a] eqn:Ea; cbn.
  - unfold pool_take, active_jobs_. rewrite Ea. destruct (ps_pool _ _ _ _ _ Hs) as ((_ & _ & _ & Hwc) & _).
    change (len (@nil rjob)) with 0. destruct (Z.ltb_spec 0 (worker_count (r_pool s))); [|lia].
    by destruct (queue_ (r_pool s)).
  - by destruct (run_job keys algorithm j s).
Qed.

Lemma idle_turn_ok k dn ac qs s s' :
  to_encrypt_payload offer = true -> pool_state k dn ac qs s -> idle_turn keys algorithm s = Some s' ->
  exists dn' ac' qs', pool_state k dn' ac' qs' s' /\ same_main s s' /\ (pool_work s' < pool_work s)%nat.
Proof.
  intros Henc Hs E. unfold idle_turn in E. destruct (worker_turn keys algorithm (WDone 0) s) as [s1|] eqn:E1.
  - injection E as <-. by eapply worker_turn_ok.
  - by eapply worker_turn_ok.
Qed.

(** A call that is possible once the pool is idle, and keeps what [Q] says. *)
Lemma wait_pool_ok (call : AeadPool rjob -> option (result unit * AeadPool rjob)) (Q : recv C -> Prop) fuel k :
  to_encrypt_payload offer = true ->
  (forall dn ac qs s, pool_state k dn ac qs s -> pool_work s = 0%nat -> call (r_pool s) <> None) ->
  (forall dn ac qs s r p, pool_state k dn ac qs s -> call (r_pool s) = Some (r, p) ->
     r = Ok tt /\ Q (with_pool p s)) ->
  forall dn ac qs s, pool_state k dn ac qs s -> (pool_work s <= fuel)%nat ->
  exists s', wait_pool keys algorithm fuel call s = (Ok tt, s') /\ Q s' /\ same_main s s'.
Proof.
  intros Henc Hidle Hcall. induction fuel as [|fuel IH]; intros dn ac qs s Hs Hf; cbn [wait_pool];
    destruct (call (r_pool s)) as [[r p]|] eqn:Ec.
  1,3: destruct (Hcall _ _ _ _ _ _ Hs Ec) as [-> HQ]; eexists; split; [done|]; by split.
  - exfalso. eapply Hidle; [exact Hs|lia|done].
  - assert (pool_work s <> 0%nat) as Hw by (intros Hz; by eapply Hidle).
    pose proof (idle_turn_some _ _ _ _ _ Hs Hw) as Hi.
    destruct (idle_turn keys algorithm s) as [s1|] eqn:E1; [|done].
    destruct (idle_turn_ok _ _ _ _ _ _ Henc Hs E1) as (dn' & ac' & qs' & Hs' & [Hm1 Hm2] & Hlt).
    destruct (IH _ _ _ _ Hs' ltac:(lia)) as (s' & E' & HQ & [Hn1 Hn2]). exists s'. split; [done|].
    split; [done|]. split; congruence.
Qed.

Lemma on_pool_ok (call : AeadPool rjob -> option (result unit * AeadPool rjob)) (Q : recv C -> Prop) k :
  to_encrypt_payload offer = true ->
  (forall dn ac qs s, pool_state k dn ac qs s -> pool_work s = 0%nat -> call (r_pool s) <> None) ->
  (forall dn ac qs s r p, pool_state k dn ac qs s -> call (r_pool s) = Some (r, p) ->
     r = Ok tt /\ Q (with_pool p s)) ->
  forall dn ac qs s, pool_state k dn ac qs s ->
  exists s', on_pool keys algorithm call s = (Ok tt, s') /\ Q s' /\ r_channel s' = r_channel s.
Proof.
  intros Henc Hidle Hcall dn ac qs s Hs. unfold on_pool. destruct (r_sched s) as [|ts rest].
  - destruct (wait_pool_ok call Q (pool_work s) k Henc Hidle Hcall _ _ _ _ Hs ltac:(lia)) as (s' & E & HQ & Hm & _).
    exists s'. split_and!; [exact E|done|done].
  - assert (pool_state k dn ac qs (with_sched rest s)) as Hs1.
    { destruct Hs as [[] ? ? ? ? ?]. by split. }
    destruct (run_workers_ok ts _ _ _ _ _ Henc Hs1) as (dn' & ac' & qs' & Hs2 & [Hm1 _]).
    set (s2 := run_workers _ _ _ _) in *.
    destruct (wait_pool_ok call Q (pool_work s2) k Henc Hidle Hcall _ _ _ _ Hs2 ltac:(lia)) as (s' & E & HQ & Hm & _).
    exists s'. split_and!; [exact E|done|]. etrans; [exact Hm|exact Hm1].
Qed.

Lemma submit_chunk_ok cap k rc dn ac qs s :
  to_encrypt_payload offer = true -> chunks !! k = Some rc -> pool_state k dn ac qs s ->
  exists s', on_pool keys algorithm (submit (mk_rjob (rc_header rc) (rc_target rc) (rc_payload rc) cap)) s = (Ok tt, s') /\
    (exists dn' ac' qs', pool_state (S k) dn' ac' qs' s') /\ r_channel s' = r_channel s.
Proof.
  intros Henc Hrc Hs. eapply on_pool_ok; [done| | |exact Hs].
  - intros dn1 ac1 qs1 s1 Hs1 Hw. destruct (ps_pool _ _ _ _ _ Hs1) as ((_ & _ & Hd & _) & He & Hst).
    unfold submit, pool_work in *. assert (queue_ (r_pool s1) = []) as -> by (apply length_zero_iff_nil; lia).
    rewrite He, Hst. change (len (@nil rjob)) with 0. by destruct (Z.ltb_spec 0 (queue_depth_ (r_pool s1))); [|lia].
  - intros dn1 ac1 qs1 s1 r p Hs1 Es. pose proof (ps_pool _ _ _ _ _ Hs1) as (Hb & He & Hst).
    pose proof (submit_bounds _ _ _ _ Hb Es) as Hb'. unfold submit in Es. rewrite He, Hst in Es.
    destruct (_ || _); [|done]. injection Es as <- <-. split; [done|]. exists dn1, ac1, (qs1 ++ [k]).
    split; cbn [with_pool r_pool queue_ active_ first_error_ stopping_ r_plaintext]; try done.
    + by destruct (ps_files _ _ _ _ _ Hs1).
    + apply Hs1.
    + apply Forall2_app; [apply Hs1|]. constructor; [|constructor]. by exists rc, cap.
    + rewrite !app_assoc, <- (app_assoc dn1), (ps_perm _ _ _ _ _ Hs1), seq_S. done.
    + apply Hs1.
Qed.

Lemma drain_ok k dn ac qs s :
  to_encrypt_payload offer = true -> pool_state k dn ac qs s ->
  exists s', on_pool keys algorithm drain s = (Ok tt, s') /\
    (exists dn', files_ok dn' s' /\ dn' ≡ₚ seq 0 k) /\ r_channel s' = r_channel s.
Proof.
  intros Henc Hs. eapply on_pool_ok; [done| | |exact Hs].
  - intros dn1 ac1 qs1 s1 Hs1 Hw. destruct (ps_pool _ _ _ _ _ Hs1) as (_ & He & Hst).
    unfold drain, pool_work, active_jobs_ in *.
    assert (queue_ (r_pool s1) = []) as -> by (apply length_zero_iff_nil; lia).
    assert (active_ (r_pool s1) = []) as -> by (apply length_zero_iff_nil; lia). by rewrite He.
  - intros dn1 ac1 qs1 s1 r p Hs1 Ed. pose proof (ps_pool _ _ _ _ _ Hs1) as (Hb & He & Hst).
    unfold drain in Ed. rewrite He, Hst, orb_false_r in Ed. destruct (bool_decide _ && _) eqn:Ei; [|done].
    injection Ed as <- <-. split; [done|]. exists dn1. split; [by destruct (ps_files _ _ _ _ _ Hs1)|].
    apply andb_true_iff in Ei as [Eq%bool_decide_eq_true Ea%Z.eqb_eq]. apply len_zero_nil in Ea.
    pose proof (ps_active _ _ _ _ _ Hs1) as Hac. rewrite Ea in Hac. apply Forall2_nil_inv_l in Hac as ->.
    pose proof (ps_queue _ _ _ _ _ Hs1) as Hqs. rewrite Eq in Hqs. apply Forall2_nil_inv_l in Hqs as ->.
    rewrite <- (ps_perm _ _ _ _ _ Hs1). by rewrite !app_nil_r.
Qed.

(** * The loop *)

(** The first [k] chunks have been read. *)
Definition read_state (k : nat) (s : recv C) : Prop :=
  if to_encrypt_payload offer then exists dn ac qs, pool_state k dn ac qs s else files_ok (seq 0 k) s.

Lemma read_state_files k s : read_state k s -> exists dn, files_ok dn s.
Proof. unfold read_state. destruct (to_encrypt_payload offer); [intros (dn & ? & ? & []); eauto|eauto]. Qed.

Lemma validate_chunk_ok k rc s :
  chunks !! k = Some rc -> Z.of_nat k < 2 ^ 64 -> (exists dn, files_ok dn s) ->
  validate_chunk (rc_header rc) (r_files s) (Z.of_nat k) (to_chunk_size offer) = Ok tt.
Proof.
  intros Hrc Hk (dn & Hs). destruct (Hchunks _ _ Hrc) as (_ & _ & Hcnt & Hidx & Hoff & Hpl & Hlen & (content & Hc & Hle & _) & _).
  assert (rc_target rc < length outputs)%nat as Ht by (unfold rc_target, len in *; lia).
  destruct (output_at _ Ht) as (f & content' & Hf & Hc'). rewrite Hc in Hc'. injection Hc' as <-.
  destruct (Forall2_lookup_lr _ _ _ _ _ _ Hcontents Hf Hc) as [Hexp Hmax].
  unfold validate_chunk. rewrite (fo_files _ _ Hs). unfold len at 1. rewrite length_imap. fold (len outputs).
  destruct (Z.leb_spec (len outputs) (c_file_index (rc_header rc))); [lia|].
  destruct (Z.ltb_spec (to_chunk_size offer) (c_plaintext_length (rc_header rc))); [lia|].
  rewrite Hcnt, Z.eqb_refl. cbn [negb]. fold (rc_target rc). rewrite list_lookup_imap, Hf.
  cbn [fmap option_fmap option_map with_written of_expected_size]. rewrite u64_small by (unfold is_u; lia).
  destruct (Z.ltb_spec (of_expected_size f) (c_offset (rc_header rc) + c_plaintext_length (rc_header rc))); [lia|done].
Qed.

Lemma handle_chunk_ok k rc fl s :
  chunks !! k = Some rc -> Z.of_nat k < 2 ^ 64 -> read_state k s ->
  exists s', handle_chunk keys offer (mk_frame (out_header ChunkT fl (len (rc_payload rc))) (rc_payload rc))
      (Z.of_nat k) s = (Ok tt, s') /\ read_state (S k) s' /\ r_channel s' = r_channel s.
Proof.
  intros Hrc Hk Hs. pose proof (Hchunks _ _ Hrc) as (Hdec & Hpay & _ & _ & _ & Hpl & _ & _ & Hopen).
  unfold handle_chunk. cbn [payload]. destruct (Z.ltb_spec (len (rc_payload rc)) kChunkHeaderSize); [lia|].
  unfold mlift at 1, mbind at 1. rewrite Hdec. unfold mget at 1, mbind at 1.
  unfold mlift, mbind at 1. rewrite validate_chunk_ok by (done || by eapply read_state_files).
  unfold read_state in *. destruct (to_encrypt_payload offer) eqn:Henc; cbn [negb].
  - destruct Hs as (dn & ac & qs & Hs). unfold mbind at 1. destruct (acquire (r_ciphertext s)) as [v cb]. set (s1 := with_buffers _ _ s).
    assert (pool_state k dn ac qs s1) as Hs1 by (destruct Hs as [[] ? ? ? ? ?]; by split).
    destruct (submit_chunk_ok (capacity (resize (len (rc_payload rc)) v)) k rc dn ac qs s1 Henc Hrc Hs1) as (s' & E & Hs' & Hc). by exists s'.
  - rewrite Hpl, <- Hopen. rewrite len_zdrop by (unfold kChunkHeaderSize in *; lia). rewrite Z.eqb_refl. cbn [negb].
    rewrite Hopen. destruct (commit_ok (seq 0 k) s k rc Hs Hrc) as (s' & E & Hf & Hr). exists s'.
    split; [exact E|]. split; [by rewrite seq_S|apply Hr].
Qed.

Definition set_channel (c : C) (s : recv C) : recv C :=
  mk_recv C c (r_fs s) (r_disk s) (r_files s) (r_pool s) (r_ciphertext s) (r_plaintext s) (r_progress s) (r_sched s).

Lemma read_state_channel k c s : read_state k s -> read_state k (set_channel c s).
Proof.
  unfold read_state. destruct (to_encrypt_payload offer).
  - intros (dn & ac & qs & [[] ? ? ? ? ?]). exists dn, ac, qs. by split.
  - intros []. by split.
Qed.

(** The frames of the chunks from [k] on. *)
Definition chunk_stream (fl : Z) (k : nat) : bytes :=
  mjoin ((fun rc => frame_bytes ChunkT fl (rc_payload rc)) <$> drop k chunks).

(** What the loop leaves of the channel. *)
Definition channel_after (c c' : C) (b : bytes) : Prop := took b c c' /\ same_transport c c'.

Lemma channel_after_trans c1 c2 c3 b1 b2 :
  channel_after c1 c2 b1 -> channel_after c2 c3 b2 -> channel_after c1 c3 (b1 ++ b2).
Proof. intros [T1 S1] [T2 S2]. split; [by eapply took_trans|by eapply same_transport_trans]. Qed.

Lemma receive_loop_ok fl rest fuel k s :
  is_u16 fl -> Z.of_nat (length chunks) < 2 ^ 63 -> (k <= length chunks)%nat -> (length chunks - k < fuel)%nat ->
  read_state k s -> ch_delivers (r_channel s) (chunk_stream fl k ++ frame_bytes TransferEndT 0 [] ++ rest) ->
  exists s', receive_loop keys fuel offer (Z.of_nat k) s = (Ok tt, s') /\ read_state (length chunks) s' /\
    channel_after (r_channel s) (r_channel s') (chunk_stream fl k ++ frame_bytes TransferEndT 0 []).
Proof.
  intros Hfl Hmax. revert k s. induction fuel as [|fuel IH]; intros k s Hk Hf Hs Hd; [lia|]. cbn [receive_loop].
  destruct (chunks !! k) as [rc|] eqn:Hrc.
  - assert (chunk_stream fl k = frame_bytes ChunkT fl (rc_payload rc) ++ chunk_stream fl (S k)) as Hst.
    { unfold chunk_stream. rewrite (drop_S _ _ _ Hrc), mjoin_fmap_cons. done. }
    rewrite Hst, <- app_assoc in Hd. pose proof (Hchunks _ _ Hrc) as (_ & Hpay & _).
    destruct (channel_read_frame_total ChunkT fl (rc_payload rc) (r_channel s) _ ltac:(done) Hfl ltac:(lia) Hd)
      as (c1 & E1 & T1 & K1).
    unfold on_channel, mzoom, mbind at 1. rewrite E1. cbn [header type out_header].
    rewrite bool_decide_eq_false_2, bool_decide_eq_false_2, bool_decide_eq_true_2 by done. cbn [negb].
    assert (k < length chunks)%nat as Hlt by (by eapply lookup_lt_Some).
    pose proof (read_state_channel k c1 s Hs) as Hs1. fold (set_channel c1 s).
    destruct (handle_chunk_ok k rc fl _ Hrc ltac:(lia) Hs1) as (s2 & E2 & Hs2 & Hc2).
    erewrite mbind_ok by exact E2. rewrite u64_small by (unfold is_u; lia).
    replace (Z.of_nat k + 1) with (Z.of_nat (S k)) by lia.
    assert (ch_delivers (r_channel s2) (chunk_stream fl (S k) ++ frame_bytes TransferEndT 0 [] ++ rest)) as Hd2.
    { rewrite Hc2. by apply T1. }
    destruct (IH (S k) s2 Hlt ltac:(lia) Hs2 Hd2) as (s' & E' & Hs' & Hc').
    exists s'. split; [done|]. split; [done|]. rewrite Hst, <- app_assoc. rewrite Hc2 in Hc'.
    by eapply channel_after_trans.
  - assert (k = length chunks) as ->. { apply lookup_ge_None in Hrc. lia. }
    assert (chunk_stream fl (length chunks) = []) as Hst by (unfold chunk_stream; by rewrite drop_all).
    rewrite Hst in Hd |- *. rewrite app_nil_l in *.
    destruct (channel_read_frame_total TransferEndT 0 [] (r_channel s) rest) as (c1 & E1 & T1 & K1); [done..|].
    unfold on_channel, mzoom, mbind. rewrite E1. cbn [header type out_header].
    rewrite bool_decide_eq_true_2 by done. eexists. split; [reflexivity|].
    split; [by apply (read_state_channel _ c1)|done].
Qed.

(** * The outputs at the end *)

(** Every byte of every file is in a chunk, once. *)
Hypothesis Hcover : forall t content pos, contents !! t = Some content -> (pos < length content)%nat ->
  exists i rc, chunks !! i = Some rc /\ rc_target rc = t /\ covers rc pos.
Hypothesis Hsum : forall t content, contents !! t = Some content ->
  done_bytes t (seq 0 (length chunks)) = len content.

Lemma files_complete dn s t f content :
  files_ok dn s -> dn ≡ₚ seq 0 (length chunks) -> outputs !! t = Some f -> contents !! t = Some content ->
  (exists d, r_fs s !! of_path f = Some d /\ df_content d = content) /\
  r_files s !! t = Some (with_written (len content) f).
Proof.
  intros Hs Hp Hf Hc. destruct (fo_fs _ _ Hs _ _ _ Hf Hc) as (d & Hd & Hl & Hpos). split.
  - exists d. split; [done|]. apply list_eq. intros pos.
    destruct (decide (pos < length content)%nat) as [Hlt|Hge].
    + destruct (Hcover t content pos Hc Hlt) as (i & rc & Hrc & Ht & Hcov). apply (Hpos i rc); try done.
      rewrite Hp. apply elem_of_seq. apply lookup_lt_Some in Hrc. lia.
    + rewrite !lookup_ge_None_2; [done|lia|]. unfold len in Hl. lia.
  - rewrite (fo_files _ _ Hs), list_lookup_imap, Hf. cbn. do 2 f_equal.
    assert (done_bytes t dn = done_bytes t (seq 0 (length chunks))) as ->.
    { unfold done_bytes. apply zsum_perm. by rewrite Hp. }
    rewrite (Hsum _ _ Hc). apply u64_small. destruct (Forall2_lookup_lr _ _ _ _ _ _ Hcontents Hf Hc).
    pose proof (len_nonneg content). unfold is_u. lia.
Qed.
End Transfer.

(** * Opening and closing the outputs *)

(** A file system that refuses nothing. *)
Definition env_ok (env : dest_env) : Prop :=
  (forall p, de_mkdir env p = None) /\ (forall p, de_open env p = None) /\
  (forall p n, de_fallocate env p n = None) /\ (forall p, de_fsync env p = None).

(** The parts the outputs are not. *)
Definition same_but_fs {C} (s s' : recv C) : Prop :=
  r_channel s' = r_channel s /\ r_disk s' = r_disk s /\ r_files s' = r_files s /\ r_pool s' = r_pool s /\
  r_ciphertext s' = r_ciphertext s /\ r_plaintext s' = r_plaintext s /\ r_progress s' = r_progress s /\
  r_sched s' = r_sched s.

Lemma same_but_fs_trans {C} (s1 s2 s3 : recv C) : same_but_fs s1 s2 -> same_but_fs s2 s3 -> same_but_fs s1 s3.
Proof. unfold same_but_fs. intuition congruence. Qed.

Definition output_of (e : ManifestEntry) (p : bytes) : OutputFile := mk_OutputFile p (me_size e) (me_mode e) 0.

Section Outputs.
Context {C : Type} (env : dest_env).
Hypothesis Henv : env_ok env.

Lemma mkdirs_ok dirs : mkdirs (de_mkdir env) dirs = Ok tt.
Proof. destruct Henv as [Hm _]. induction dirs as [|d dirs IH]; cbn; [done|]. by rewrite Hm. Qed.

(** One file opened and given its size. *)
Lemma open_one_ok path size (s : recv C) :
  0 <= size ->
  exists s' d, mbind (create_file env path) (fun _ => preallocate_file env path size) s = (Ok tt, s') /\
    r_fs s' = <[path := d]> (r_fs s) /\ df_content d = zeros size /\ same_but_fs s s'.
Proof.
  destruct Henv as (_ & Ho & Hf & _). intros Hn. unfold create_file, preallocate_file, mbind. rewrite Ho.
  destruct (Z.eqb_spec size 0) as [->|Hne].
  - eexists _, _. split; [reflexivity|]. done.
  - rewrite Hf. unfold set_size. cbn [with_fs r_fs]. rewrite lookup_insert_eq. cbn [df_content df_mode].
    eexists _, _. split; [reflexivity|]. cbn [with_fs r_fs]. rewrite insert_insert_eq. split; [done|].
    cbn [df_content]. split; [|done]. rewrite app_nil_l. apply ztake_len. rewrite zeros_len by done. done.
Qed.

Lemma open_outputs_ok entries paths (s : recv C) :
  length entries = length paths -> NoDup paths -> Forall (fun e => 0 <= me_size e) entries ->
  exists s', open_outputs env entries paths s = (Ok (zip_with output_of entries paths), s') /\ same_but_fs s s' /\
    (forall p, p ∉ paths -> r_fs s' !! p = r_fs s !! p) /\
    (forall t e p, entries !! t = Some e -> paths !! t = Some p ->
       exists d, r_fs s' !! p = Some d /\ df_content d = zeros (me_size e)).
Proof.
  revert paths s. induction entries as [|e entries IH]; intros [|p paths] s Hl Hnd Hsz; try done.
  { exists s. split_and!; done. }
  apply NoDup_cons in Hnd as [Hp Hnd]. apply Forall_cons in Hsz as [He Hsz]. cbn [open_outputs].
  unfold mlift, mbind at 1. rewrite mkdirs_ok.
  destruct (open_one_ok p (me_size e) s He) as (s1 & d & E1 & Hfs & Hd & Hs1).
  rewrite <- mbind_assoc. erewrite mbind_ok by exact E1.
  destruct (IH paths s1 ltac:(cbn in Hl; lia) Hnd Hsz) as (s2 & E2 & Hs2 & Hoth & Hall).
  erewrite mbind_ok by exact E2. exists s2. split; [done|]. split; [by eapply same_but_fs_trans|]. split.
  - intros q Hq. apply not_elem_of_cons in Hq as [Hqp Hq]. rewrite Hoth, Hfs by done. by rewrite lookup_insert_ne.
  - intros [|t] e' p' He' Hp'; [|by eapply Hall]. injection He' as <-. injection Hp' as <-.
    exists d. rewrite Hoth, Hfs by done. by rewrite lookup_insert_eq.
Qed.

Lemma finalise_outputs_ok files (s : recv C) :
  NoDup (of_path <$> files) -> Forall (fun f => of_written f = of_expected_size f) files ->
  Forall (fun f => is_Some (r_fs s !! of_path f)) files ->
  exists s', finalise_outputs env files s = (Ok tt, s') /\ same_but_fs s s' /\
    (forall p, p ∉ of_path <$> files -> r_fs s' !! p = r_fs s !! p) /\
    Forall (fun f => exists d d', r_fs s !! of_path f = Some d /\ r_fs s' !! of_path f = Some d' /\
      df_content d' = df_content d /\ df_mode d' = Z.land (of_mode f) 511) files.
Proof.
  destruct Henv as (_ & _ & _ & Hsync). revert s.
  induction files as [|f files IH]; intros s Hnd Hw Hfs; cbn [finalise_outputs].
  { exists s. by split_and!. }
  cbn in Hnd. apply NoDup_cons in Hnd as [Hf Hnd]. apply Forall_cons in Hw as [Hw1 Hw].
  apply Forall_cons in Hfs as [[d Hd] Hfs]. rewrite Hw1, Z.eqb_refl, Hsync. cbn [negb].
  unfold mbind at 1. rewrite Hd. set (d' := mk_dfile _ _). set (s1 := with_fs _ _ s).
  assert (forall p, p ∈ of_path <$> files -> r_fs s1 !! p = r_fs s !! p) as H1.
  { intros p Hp. cbn. apply lookup_insert_ne. by intros <-. }
  destruct (IH s1 Hnd Hw) as (s2 & E2 & Hs2 & Hoth & Hall).
  { rewrite Forall_forall in Hfs |- *. intros g Hg. rewrite H1; [by apply Hfs|]. by apply list_elem_of_fmap_2. }
  exists s2. split; [done|]. split; [done|]. split.
  - intros p Hp. cbn in Hp. apply not_elem_of_cons in Hp as [Hpf Hp]. rewrite Hoth by done. cbn. by apply lookup_insert_ne.
  - constructor.
    + exists d, d'. split; [done|]. split; [|done]. rewrite Hoth by done. cbn. by rewrite lookup_insert_eq.
    + rewrite Forall_forall in Hall |- *. intros g Hg. destruct (Hall g Hg) as (a & b & Ha & Hb).
      exists a, b. split; [|done]. rewrite <- H1; [done|]. by apply list_elem_of_fmap_2.
Qed.

Lemma verify_digests_ok entries files (s : recv C) :
  Forall2 (fun f e => exists d, r_fs s !! of_path f = Some d /\ de_sha256 env (df_content d) = me_digest e) files entries ->
  verify_digests env entries files s = (Ok tt, s).
Proof.
  induction 1 as [|f e files entries (d & Hd & Hsha) _ IH]; [done|]. cbn. unfold mbind, mget. rewrite Hd.
  by rewrite bool_decide_eq_true_2.
Qed.
End Outputs.

(** * The whole reception *)

Lemma zip_outputs_paths entries paths :
  length entries = length paths -> of_path <$> zip_with output_of entries paths = paths.
Proof.
  revert paths. induction entries as [|e es IH]; intros [|p ps] Hl; try done. cbn. f_equal.
  apply IH. cbn in Hl. lia.
Qed.

Lemma zip_outputs_contents entries paths (contents : list bytes) :
  length entries = length paths -> Forall2 (fun e c => me_size e = len c /\ len c < 2 ^ 63) entries contents ->
  Forall2 (fun f c => of_expected_size f = len c /\ len c < 2 ^ 63) (zip_with output_of entries paths) contents.
Proof.
  intros Hl Hs. revert paths Hl. induction Hs as [|e c es cs He Hs IH]; intros [|p ps] Hl; try done.
  cbn. constructor; [done|]. apply IH. cbn in Hl. lia.
Qed.

Section Reception.
Context {C : Type} `{ChannelSpec C} `{AeadLaws}.
Context (env : dest_env) (keys : SessionKeys) (o : ReceiveOptions) (peer : bytes).
Context (offer : TransferOffer) (paths contents : list bytes) (chunks : list rchunk) (fl : Z) (s0 : recv C).

Abbreviation outputs := (zip_with output_of (to_entries offer) paths).

Definition output_directory : bytes :=
  if len (ro_output_directory o) =? 0 then de_cwd env else ro_output_directory o.
Definition accept_frame : bytes :=
  frame_bytes DecisionT 0 (TransferDecision_encode (mk_TransferDecision true [] output_directory)).
Definition ack_frame : bytes := frame_bytes TransferAckT 0 [].

Hypothesis Henv : env_ok env.
Hypothesis Hdisk : disk_ok (r_disk s0).
Hypothesis Hlen : length (to_entries offer) = length paths.
Hypothesis Hnodup : NoDup paths.
Hypothesis Hsizes : Forall2 (fun e c => me_size e = len c /\ len c < 2 ^ 63) (to_entries offer) contents.
Hypothesis Hchunks : forall i rc, chunks !! i = Some rc -> rchunk_ok keys offer outputs contents i rc.
Hypothesis Hchunk_size : 1 <= to_chunk_size offer.
Hypothesis Hcount : Z.of_nat (length chunks) < 2 ^ 63.
Hypothesis Hcover : forall t content pos, contents !! t = Some content -> (pos < length content)%nat ->
  exists i rc, chunks !! i = Some rc /\ rc_target rc = t /\ covers rc pos.
Hypothesis Hsum : forall t content, contents !! t = Some content ->
  done_bytes chunks t (seq 0 (length chunks)) = len content.
Hypothesis Hdigests : ro_verify_digests o && to_digests_present offer = true ->
  Forall2 (fun e c => de_sha256 env c = me_digest e) (to_entries offer) contents.
Hypothesis Hfl : is_u16 fl.

Lemma outputs_paths : of_path <$> outputs = paths.
Proof. by apply zip_outputs_paths. Qed.

Lemma outputs_contents :
  Forall2 (fun f c => of_expected_size f = len c /\ len c < 2 ^ 63) outputs contents.
Proof. by apply zip_outputs_contents. Qed.

Lemma outputs_lookup t f :
  outputs !! t = Some f -> exists e p, to_entries offer !! t = Some e /\ paths !! t = Some p /\ f = output_of e p.
Proof. rewrite lookup_zip_with_Some. intros (e & p & -> & He & Hp). eauto. Qed.

(** The files as they are when the loop starts. *)
Lemma files_start (s1 : recv C) :
  r_disk s1 = r_disk s0 -> r_files s1 = outputs -> r_progress s1 = 0 ->
  (forall p, p ∉ paths -> r_fs s1 !! p = r_fs s0 !! p) ->
  (forall t e p, to_entries offer !! t = Some e -> paths !! t = Some p ->
     exists d, r_fs s1 !! p = Some d /\ df_content d = zeros (me_size e)) ->
  files_ok outputs contents (r_fs s0) chunks [] s1.
Proof.
  intros Hd Hf Hp Hoth Hall. split.
  - by rewrite Hd.
  - intros t f content Ht Hc. destruct (outputs_lookup _ _ Ht) as (e & p & He & Hpt & ->).
    destruct (Hall _ _ _ He Hpt) as (d & Hdl & Hz). exists d. split; [done|].
    destruct (Forall2_lookup_lr _ _ _ _ _ _ Hsizes He Hc) as [Hs _]. split.
    + rewrite Hz, zeros_len, Hs; [done|]. rewrite Hs. apply len_nonneg.
    + intros i rc pos Hi. by apply elem_of_nil in Hi.
  - intros p Hpn. rewrite outputs_paths in Hpn. by apply Hoth.
  - rewrite Hf. apply list_eq. intros t. rewrite list_lookup_imap.
    destruct (outputs !! t) as [f|] eqn:E; [|done]. destruct (outputs_lookup _ _ E) as (e & p & _ & _ & ->). done.
  - by rewrite Hp.
Qed.

(** After [drain], [finalise_outputs] and [verify_digests] succeed. *)
Lemma closing_ok dn (s : recv C) :
  files_ok outputs contents (r_fs s0) chunks dn s -> dn ≡ₚ seq 0 (length chunks) ->
  exists s', (do* finalise_outputs env (r_files s) in
              if ro_verify_digests o && to_digests_present offer
              then verify_digests env (to_entries offer) (r_files s) else mret tt) s = (Ok tt, s') /\
    same_but_fs s s' /\ (forall p, p ∉ paths -> r_fs s' !! p = r_fs s0 !! p) /\
    (forall t e p content, to_entries offer !! t = Some e -> paths !! t = Some p -> contents !! t = Some content ->
       exists d, r_fs s' !! p = Some d /\ df_content d = content /\ df_mode d = Z.land (me_mode e) 511).
Proof.
  intros Hs Hp. pose proof outputs_contents as Hoc. pose proof outputs_paths as Hop.
  assert (NoDup (of_path <$> outputs)) as Hnd by (by rewrite Hop).
  assert (forall t f content, outputs !! t = Some f -> contents !! t = Some content ->
    (exists d, r_fs s !! of_path f = Some d /\ df_content d = content) /\
    r_files s !! t = Some (with_written (len content) f)) as Hcomp.
  { intros t f content. by eapply files_complete. }
  assert (r_files s = zip_with (fun f c => with_written (len c) f) outputs contents) as Hfiles.
  { apply list_eq. intros t. rewrite (fo_files _ _ _ _ _ _ Hs), list_lookup_imap, (lookup_zip_with _ outputs contents).
    destruct (outputs !! t) as [f|] eqn:Ef; [|done].
    destruct (Forall2_lookup_l _ _ _ _ _ Hoc Ef) as (c & Hc & _). destruct (Hcomp _ _ _ Ef Hc) as [_ Hx].
    rewrite (fo_files _ _ _ _ _ _ Hs), list_lookup_imap, Ef in Hx. rewrite Hc. exact Hx. }
  assert (forall t g, r_files s !! t = Some g -> exists f c, outputs !! t = Some f /\ contents !! t = Some c /\
    g = with_written (len c) f) as Hlook.
  { intros t g Hg. rewrite Hfiles in Hg. apply lookup_zip_with_Some in Hg as (f & c & -> & Hf & Hc). eauto. }
  assert (of_path <$> r_files s = paths) as Hfp.
  { rewrite <- Hop. rewrite (fo_files _ _ _ _ _ _ Hs). apply list_eq. intros t.
    rewrite !list_lookup_fmap, list_lookup_imap. by destruct (outputs !! t). }
  destruct (finalise_outputs_ok env Henv (r_files s) s) as (s1 & E1 & Hs1 & Hoth & Hall).
  { by rewrite Hfp. }
  { apply Forall_lookup. intros t g Hg. destruct (Hlook _ _ Hg) as (f & c & Hf & Hc & ->). cbn.
    by destruct (Forall2_lookup_lr _ _ _ _ _ _ Hoc Hf Hc). }
  { apply Forall_lookup. intros t g Hg. destruct (Hlook _ _ Hg) as (f & c & Hf & Hc & ->). cbn.
    destruct (Hcomp _ _ _ Hf Hc) as [(d & Hd & _) _]. by exists d. }
  assert (forall t e p content, to_entries offer !! t = Some e -> paths !! t = Some p -> contents !! t = Some content ->
       exists d, r_fs s1 !! p = Some d /\ df_content d = content /\ df_mode d = Z.land (me_mode e) 511) as Hend.
  { intros t e p content He Hpt Hc.
    assert (outputs !! t = Some (output_of e p)) as Ho by (apply lookup_zip_with_Some; eauto).
    destruct (Hcomp _ _ _ Ho Hc) as [(d & Hd & Hdc) Hrf].
    destruct (proj1 (Forall_lookup _ _) Hall _ _ Hrf) as (d0 & d1 & Hd0 & Hd1 & Hcont & Hmode). cbn in *.
    rewrite Hd in Hd0. injection Hd0 as <-. exists d1. split_and!; [done|congruence|done]. }
  erewrite mbind_ok by exact E1. exists s1. split_and!; try apply Hs1; try done.
  - destruct (ro_verify_digests o && to_digests_present offer) eqn:Ev; [|done].
    apply verify_digests_ok. specialize (Hdigests eq_refl). apply Forall2_same_length_lookup. split.
    { rewrite <- (length_fmap of_path), Hfp. done. }
    intros t g e Hg He. destruct (Hlook _ _ Hg) as (f & c & Hf & Hc & ->).
    destruct (outputs_lookup _ _ Hf) as (e' & p & He' & Hpt & ->). rewrite He in He'. injection He' as <-.
    destruct (Hend _ _ _ _ He Hpt Hc) as (d & Hd & Hdc & _). exists d. split; [done|]. rewrite Hdc.
    by destruct (Forall2_lookup_lr _ _ _ _ _ _ Hdigests He Hc).
  - intros p Hpn. rewrite Hoth by (by rewrite Hfp). apply (fo_other _ _ _ _ _ _ Hs). by rewrite Hop.
Qed.

Context (rest : bytes) (fuel : nat).

Definition data_stream : bytes := chunk_stream chunks fl 0 ++ frame_bytes TransferEndT 0 [].

Hypothesis Hfuel : (length chunks < fuel)%nat.
Hypothesis Hdirectory : len (TransferDecision_encode (mk_TransferDecision true [] output_directory)) <= kMaxFrameLength.
Hypothesis Hroom : ch_room (r_channel s0) (len accept_frame + len ack_frame).
Hypothesis Hcores : 0 <= ro_workers o < 2 ^ 32 /\ 0 <= de_cores env < 2 ^ 32.

(** The state in which the loop starts. *)
Lemma loop_start (s1 : recv C) :
  r_disk s1 = r_disk s0 -> (forall p, p ∉ paths -> r_fs s1 !! p = r_fs s0 !! p) ->
  (forall t e p, to_entries offer !! t = Some e -> paths !! t = Some p ->
     exists d, r_fs s1 !! p = Some d /\ df_content d = zeros (me_size e)) ->
  forall c, read_state offer outputs contents (r_fs s0) chunks 0
    (with_progress 0 (start_pool env o offer (with_files outputs (set_channel c s1)))).
Proof.
  intros Hd Hoth Hall c. unfold read_state, start_pool.
  set (w := if ro_workers o =? 0 then _ else _).
  assert (0 <= w < 2 ^ 32) as Hw by (unfold w; destruct (_ =? _); lia).
  destruct (to_encrypt_payload offer) eqn:Henc.
  - exists [], [], []. split; cbn [with_progress with_pool with_buffers r_pool r_plaintext new_pool queue_ active_
      first_error_ stopping_]; try done.
    + apply files_start; done.
    + split_and!; try done; apply (new_pool_bounds w (w * 2)); lia.
    + split; [|done]. split_and!; cbn; [lia|done|constructor].
  - apply files_start; done.
Qed.

(** The workers are waited for. *)
Lemma drained_ok (s4 : recv C) :
  read_state offer outputs contents (r_fs s0) chunks (length chunks) s4 ->
  exists s5 dn, (if to_encrypt_payload offer then on_pool keys (to_algorithm offer) drain else mret tt) s4 = (Ok tt, s5) /\
    files_ok outputs contents (r_fs s0) chunks dn s5 /\ dn ≡ₚ seq 0 (length chunks) /\ r_channel s5 = r_channel s4.
Proof.
  intros Hs4. unfold read_state in Hs4. destruct (to_encrypt_payload offer) eqn:Henc.
  - destruct Hs4 as (dn & ac & qs & Hs4).
    destruct (drain_ok keys offer outputs contents (r_fs s0) chunks Hchunks
      ltac:(by rewrite outputs_paths) outputs_contents _ _ _ _ _ Henc Hs4) as (s5 & E5 & (dn' & Hf & Hp) & Hc).
    by exists s5, dn'.
  - by exists s4, (seq 0 (length chunks)).
Qed.

Lemma receive_files_ok (s : recv C) :
  s = set_channel (r_channel s) s0 ->
  ch_delivers (r_channel s) (data_stream ++ rest) -> ch_room (r_channel s) (len accept_frame + len ack_frame) ->
  exists s', receive_files env keys fuel o offer paths output_directory s =
      (Ok (mk_ReceiveResult true (u64 (all_bytes chunks (seq 0 (length chunks)))) (to_display_name offer) paths), s') /\
    (forall b, ch_sent (r_channel s) b -> ch_sent (r_channel s') (b ++ accept_frame ++ ack_frame)) /\
    (forall p, p ∉ paths -> r_fs s' !! p = r_fs s0 !! p) /\
    (forall t e p content, to_entries offer !! t = Some e -> paths !! t = Some p -> contents !! t = Some content ->
       exists d, r_fs s' !! p = Some d /\ df_content d = content /\ df_mode d = Z.land (me_mode e) 511).
Proof.
  intros Hs Hd Hr. unfold receive_files.
  assert (Forall (fun e => 0 <= me_size e) (to_entries offer)) as Hpos.
  { apply Forall_lookup. intros t e He. destruct (Forall2_lookup_l _ _ _ _ _ Hsizes He) as (c & _ & -> & _). apply len_nonneg. }
  destruct (open_outputs_ok env Henv (to_entries offer) paths s Hlen Hnodup Hpos) as (s1 & E1 & Hs1 & Hoth & Hall).
  erewrite mbind_ok by exact E1. assert (r_channel s1 = r_channel s) as Hc1 by apply Hs1.
  pose proof (len_nonneg ack_frame) as Hack.
  destruct (channel_write_frame_total DecisionT (TransferDecision_encode (mk_TransferDecision true [] output_directory)) 0
    (r_channel s1)) as (c2 & E2 & W2 & K2); [done|rewrite Hc1; eapply ch_room_le; [exact Hr|]|].
  { unfold accept_frame, frame_bytes. rewrite len_app, encode_frame_header_len. lia. }
  unfold on_channel at 1, mzoom at 1, mbind at 1. rewrite E2.
  destruct (ch_flush_total c2) as (c3 & E3 & W3 & K3).
  unfold on_channel at 1, mzoom at 1, mbind at 1. cbn [r_channel]. rewrite E3.
  unfold mmodify, mbind at 1. set (s3 := with_progress 0 _).
  assert (read_state offer outputs contents (r_fs s0) chunks 0 s3) as Hs3.
  { apply (loop_start s1); [destruct Hs1 as (_ & -> & _); by rewrite Hs| |done]. intros p Hp. rewrite Hoth, Hs by done. done. }
  assert (r_channel s3 = c3) as Hc3 by (unfold s3, start_pool; by destruct (to_encrypt_payload offer)).
  pose proof (wrote_trans _ _ _ _ _ _ _ _ W2 W3) as W23. rewrite app_nil_r, Hc1 in W23. fold accept_frame in W23.
  assert (ch_delivers (r_channel s3) (chunk_stream chunks fl 0 ++ frame_bytes TransferEndT 0 [] ++ rest)) as Hd3.
  { rewrite Hc3. apply W23. unfold data_stream in Hd. by rewrite <- app_assoc in Hd. }
  destruct (receive_loop_ok keys offer outputs contents (r_fs s0) chunks Hchunks
    ltac:(by rewrite outputs_paths) outputs_contents fl rest fuel 0 s3 Hfl Hcount ltac:(lia) ltac:(lia) Hs3 Hd3)
    as (s4 & E4 & Hs4 & (_ & Hsent4 & Hroom4) & K4).
  change (Z.of_nat 0) with 0 in E4. erewrite mbind_ok by exact E4.
  destruct (drained_ok s4 Hs4) as (s5 & dn & E5 & Hs5 & Hdn & Hc5).
  erewrite mbind_ok by exact E5. unfold mget at 1, mbind at 1.
  destruct (closing_ok dn s5 Hs5 Hdn) as (s6 & E6 & Hs6 & Hoth6 & Hend6).
  rewrite <- mbind_assoc. erewrite mbind_ok by exact E6. assert (r_channel s6 = r_channel s5) as Hc6 by apply Hs6.
  assert (ch_room (r_channel s6) (kFrameHeaderSize + len (@nil Z))) as Hr6.
  { rewrite Hc6, Hc5. apply Hroom4. rewrite Hc3. eapply ch_room_le; [apply (proj2 (proj2 W23) (len ack_frame)); done|]. done. }
  destruct (channel_write_frame_total TransferAckT [] 0 (r_channel s6)) as (c7 & E7 & W7 & K7); [done|done|].
  unfold channel_write_empty, on_channel at 1, mzoom at 1, mbind at 1. rewrite E7.
  destruct (ch_flush_total c7) as (c8 & E8 & W8 & K8).
  unfold on_channel at 1, mzoom at 1, mbind at 1. cbn [r_channel]. rewrite E8.
  assert (r_progress s6 = u64 (all_bytes chunks (seq 0 (length chunks)))) as Hprog.
  { assert (r_progress s6 = r_progress s5) as -> by apply Hs6. rewrite (fo_progress _ _ _ _ _ _ Hs5).
    f_equal. unfold all_bytes. apply zsum_perm. by rewrite Hdn. }
  eexists. split; [unfold mget, mbind, mret; cbn [r_progress]; rewrite Hprog; reflexivity|].
  split; [|split; [exact Hoth6|exact Hend6]].
  intros b Hb. cbn [r_channel]. apply W23 in Hb. rewrite <- Hc3 in Hb. apply Hsent4 in Hb.
  rewrite <- Hc5, <- Hc6 in Hb. apply W7, W8 in Hb. rewrite app_nil_r, <- app_assoc in Hb. exact Hb.
Qed.

Context (algorithm : AeadAlgorithm) (sealed plain : bytes).

Definition offer_frame : bytes := frame_bytes OfferT (algorithm_to_u8 algorithm) sealed.

Hypothesis Hsealed : len sealed <= kMaxFrameLength.
Hypothesis Hopen : open_standalone algorithm (offer_key keys) kInfoOfferKey sealed = Ok (Some plain).
Hypothesis Hdecode : TransferOffer_decode plain = Ok offer.
Hypothesis Hpolicy : to_encrypt_payload offer = true \/
  (ch_kind (r_channel s0) <> ServerRelay /\ ro_require_encryption o = false).
Hypothesis Hresolve : resolve_output_paths (to_entries offer) output_directory = Ok paths.
Hypothesis Hanswer : ro_prompt o = true -> de_answer env = true.

Lemma read_offer_ok tail :
  ch_delivers (r_channel s0) (offer_frame ++ tail) ->
  exists c1, read_offer keys s0 = (Ok offer, set_channel c1 s0) /\ took offer_frame (r_channel s0) c1 /\
    same_transport (r_channel s0) c1.
Proof.
  intros Hd. assert (is_u16 (algorithm_to_u8 algorithm)) as Ha by (unfold is_u; destruct algorithm; cbn; lia).
  destruct (channel_read_expected_total OfferT (algorithm_to_u8 algorithm) sealed (r_channel s0) tail ltac:(done) Ha
    Hsealed Hd) as (c1 & E1 & T1 & K1). exists c1. split; [|done].
  unfold read_offer, on_channel, mzoom, mbind at 1. rewrite E1. cbn [header flags out_header payload].
  assert (negb (algorithm_to_u8 algorithm =? 1) && negb (algorithm_to_u8 algorithm =? 2) = false) as -> by (by destruct algorithm).
  assert (algorithm_of_u8 (algorithm_to_u8 algorithm) = algorithm) as -> by (by destruct algorithm).
  unfold mlift, mbind. by rewrite Hopen, Hdecode.
Qed.

Lemma receive_transfer_ok :
  ch_delivers (r_channel s0) (offer_frame ++ data_stream ++ rest) ->
  exists s', receive_transfer env keys fuel peer o s0 =
      (Ok (mk_ReceiveResult true (u64 (all_bytes chunks (seq 0 (length chunks)))) (to_display_name offer) paths), s') /\
    (forall b, ch_sent (r_channel s0) b -> ch_sent (r_channel s') (b ++ accept_frame ++ ack_frame)) /\
    (forall p, p ∉ paths -> r_fs s' !! p = r_fs s0 !! p) /\
    (forall t e p content, to_entries offer !! t = Some e -> paths !! t = Some p -> contents !! t = Some content ->
       exists d, r_fs s' !! p = Some d /\ df_content d = content /\ df_mode d = Z.land (me_mode e) 511).
Proof.
  intros Hd. destruct (read_offer_ok _ Hd) as (c1 & E1 & (Hd1 & Hs1 & Hr1) & [Hk1 _]).
  unfold receive_transfer. erewrite mbind_ok by exact E1. fold output_directory.
  unfold mget at 1, mbind at 1. cbn [set_channel r_channel].
  assert (negb (to_encrypt_payload offer) && bool_decide (ch_kind c1 = ServerRelay) = false) as ->.
  { destruct Hpolicy as [->|[Hk _]]; [done|]. apply andb_false_intro2. apply bool_decide_eq_false_2. congruence. }
  assert (negb (to_encrypt_payload offer) && ro_require_encryption o = false) as ->.
  { destruct Hpolicy as [->|[_ ->]]; [done|]. by rewrite andb_false_r. }
  unfold mlift, mbind at 1. rewrite Hresolve.
  assert (ro_prompt o && negb (de_answer env) = false) as ->.
  { destruct (ro_prompt o) eqn:Ep; [|done]. by rewrite (Hanswer eq_refl). }
  destruct (receive_files_ok (set_channel c1 s0)) as (s' & E & Hsent & Hoth & Hend).
  { done. }
  { cbn. by apply Hd1. }
  { cbn. by apply Hr1. }
  exists s'. split; [exact E|]. split; [|done]. intros b Hb. apply Hsent. cbn. by apply Hs1.
Qed.
End Reception.
