(* ===== verification/Transfer.v ===== *)
(** A whole transfer: [send_transfer] at one end, [receive_transfer] at the other, each over
    its own channel, and the bytes each puts on its channel being what the other's brings.

    The chunks are described once, [chunk_list]: for every chunk of the plan its header, the
    bytes of the file it stands for and the payload of its frame. *)

From S2P Require Import Prelude Endian Socket Frame Protocol Paths Messages Pipeline Channel.
From S2P Require Import Crypto Manifest AeadPool Sender Receiver ReceiverOk.

(** * What the sender puts on the channel *)

Section Payloads.
Context `{AeadLaws} (keys : SessionKeys) (plan : list ChunkPlan) (contents : list bytes) (chunk_size : Z).

(** The payload of chunk [i] in the clear. *)
Definition plain_payload (i : nat) (ch : ChunkPlan) (content : bytes) : bytes :=
  encode_chunk_header (chunk_header_of ch (Z.of_nat i)) ++ slice content ch.

Definition sealed_payload (i : nat) (ch : ChunkPlan) (content : bytes) : bytes :=
  encode_chunk_header (chunk_header_of ch (Z.of_nat i)) ++
  cipher_seal (sk_algorithm keys) (send_key keys) (build_nonce (send_nonce_prefix keys) (Z.of_nat i))
    (encode_chunk_header (chunk_header_of ch (Z.of_nat i))) (slice content ch).

Definition chunk_at (encrypt : bool) (i : nat) (ch : ChunkPlan) : rchunk :=
  let content := default [] (contents !! Z.to_nat (cp_file_index ch)) in
  mk_rchunk (chunk_header_of ch (Z.of_nat i)) (slice content ch)
    (if encrypt then sealed_payload i ch content else plain_payload i ch content).

Definition chunk_list (encrypt : bool) : list rchunk := imap (chunk_at encrypt) plan.

Hypothesis Hfits : plan_fits plan contents chunk_size.

Lemma fits_lookup i ch :
  plan !! i = Some ch -> exists c, contents !! Z.to_nat (cp_file_index ch) = Some c /\
    1 <= cp_length ch <= chunk_size /\ 0 <= cp_offset ch /\ cp_offset ch + cp_length ch <= len c /\
    len (slice c ch) = cp_length ch.
Proof.
  intros Hch. destruct (proj1 (Forall_lookup _ _) Hfits _ _ Hch) as (c & Hc & Hl & Ho & Hb).
  exists c. split_and!; try done; try lia. unfold slice. rewrite len_ztake; [done|]. rewrite len_zdrop; lia.
Qed.

(** The threads' chunks are the list's. *)
Lemma sealed_chunks_list :
  sealed_chunk keys plan contents chunk_size <$> seqZ 0 (total plan) = rc_payload <$> chunk_list true.
Proof.
  apply list_eq. intros i. rewrite !list_lookup_fmap. unfold chunk_list. rewrite list_lookup_imap.
  destruct (plan !! i) as [ch|] eqn:Hch.
  - assert (i < length plan)%nat as Hi by (by eapply lookup_lt_Some).
    rewrite (lookup_seqZ_lt) by (unfold total, len; lia). cbn [fmap option_fmap option_map]. f_equal.
    destruct (seal_job_ok keys plan contents chunk_size Hfits (0 + Z.of_nat i)) as
      (ch' & c & Hch' & Hc & _ & _ & _ & ->); [unfold total, len; lia|].
    replace (Z.to_nat (0 + Z.of_nat i)) with i in Hch' by lia. rewrite Hch in Hch'. injection Hch' as <-.
    rewrite Z.add_0_l. cbn. by rewrite Hc.
  - apply lookup_ge_None in Hch. rewrite lookup_seqZ_ge by (unfold total, len; lia). done.
Qed.

Lemma payload_len encrypt i rc :
  chunk_size <= max_chunk_size -> chunk_list encrypt !! i = Some rc ->
  kChunkHeaderSize + 1 <= len (rc_payload rc) <= kMaxFrameLength /\
  len (rc_payload rc) = kChunkHeaderSize + len (rc_data rc) + (if encrypt then kAeadTagSize else 0).
Proof.
  intros Hmax Hrc. unfold chunk_list in Hrc. rewrite list_lookup_imap in Hrc.
  destruct (plan !! i) as [ch|] eqn:Hch; [|done]. injection Hrc as <-.
  destruct (fits_lookup _ _ Hch) as (c & Hc & Hl & _ & _ & Hs). unfold chunk_at. rewrite Hc.
  change (default [] (Some c)) with c. cbn [rc_payload rc_data].
  unfold max_chunk_size, kChunkHeaderSize, kAeadTagSize, kMaxFrameLength in *.
  destruct encrypt; unfold sealed_payload, plain_payload; rewrite len_app, encode_chunk_header_len, ?cipher_seal_len, Hs;
    unfold kChunkHeaderSize, kAeadTagSize; lia.
Qed.

(** Every chunk is one the receiver takes. *)
Lemma chunk_list_ok encrypt rkeys offer outputs i rc :
  chunk_size <= max_chunk_size -> chunk_size = to_chunk_size offer -> encrypt = to_encrypt_payload offer ->
  sk_algorithm keys = to_algorithm offer -> receive_key rkeys = send_key keys ->
  receive_nonce_prefix rkeys = send_nonce_prefix keys ->
  length outputs = length contents -> len contents < 2 ^ 32 -> Z.of_nat (length plan) < 2 ^ 64 ->
  Forall (fun c => len c < 2 ^ 63) contents -> Forall (fun ch => 0 <= cp_file_index ch) plan ->
  chunk_list encrypt !! i = Some rc -> rchunk_ok rkeys offer outputs contents i rc.
Proof.
  intros Hmax Hcs Henc Halg Hkey Hpre Hol Hcl Hpl Hcm Hidx Hrc. pose proof (payload_len _ _ _ Hmax Hrc) as [Hlen Hsize].
  unfold chunk_list in Hrc. rewrite list_lookup_imap in Hrc.
  destruct (plan !! i) as [ch|] eqn:Hch; [|done]. injection Hrc as <-.
  destruct (fits_lookup _ _ Hch) as (c & Hc & Hl & Ho & Hb & Hs).
  assert (i < length plan)%nat as Hi by (by eapply lookup_lt_Some).
  pose proof (proj1 (Forall_lookup _ _) Hidx _ _ Hch) as Hfi. pose proof (lookup_lt_Some _ _ _ Hc) as Hfi'.
  pose proof (proj1 (Forall_lookup _ _) Hcm _ _ Hc) as Hcmax. cbn in Hcmax, Hfi.
  unfold max_chunk_size, kMaxFrameLength, kChunkHeaderSize, kAeadTagSize in Hmax.
  assert (ChunkHeader_ok (chunk_header_of ch (Z.of_nat i))) as Hh.
  { unfold ChunkHeader_ok, is_u, len in *. cbn. split_and!; lia. }
  unfold chunk_at in *. rewrite Hc in *. change (default [] (Some c)) with c in *. unfold rchunk_ok. cbn [rc_header rc_data rc_payload] in *.
  assert (decode_chunk_header (if encrypt then sealed_payload i ch c else plain_payload i ch c) =
    Ok (chunk_header_of ch (Z.of_nat i))) as Hdec.
  { destruct encrypt; by apply decode_encode_chunk_header. }
  cbn [chunk_header_of c_counter c_file_index c_offset c_plaintext_length]. rewrite Hs.
  split_and!; try done; try (unfold len in *; lia).
  - exists c. split; [done|]. split; [lia|]. unfold slice. done.
  - rewrite <- Henc. destruct encrypt.
    + intros room Hroom. unfold sealed_payload. rewrite <- (encode_chunk_header_len (chunk_header_of ch (Z.of_nat i))) at 1 2.
      rewrite ztake_app_len, zdrop_app_len, Hkey, Hpre, <- Halg. apply aead_open_seal. by rewrite Hs.
    + unfold plain_payload. rewrite <- (encode_chunk_header_len (chunk_header_of ch (Z.of_nat i))) at 1.
      apply zdrop_app_len.
Qed.
End Payloads.

(** * The plan covers the files *)

Lemma len_mjoin {A} (f : A -> bytes) l : len (mjoin (f <$> l)) = zsum ((fun x => len (f x)) <$> l).
Proof.
  induction l as [|x l IH]; [done|]. rewrite mjoin_fmap_cons, len_app, IH. done.
Qed.

Lemma fmap_imap_const {A B D} (f : B -> D) (g : nat -> A -> B) (h : A -> D) l :
  (forall i x, x ∈ l -> f (g i x) = h x) -> f <$> imap g l = h <$> l.
Proof.
  revert g. induction l as [|x l IH]; intros g E; [done|]. cbn. f_equal; [apply E, list_elem_of_here|].
  apply IH. intros i y Hy. apply E. by apply list_elem_of_further.
Qed.

Lemma zsum_filter {A} (P : A -> Prop) `{forall x, Decision (P x)} (f : A -> Z) l :
  zsum ((fun x => if decide (P x) then f x else 0) <$> l) = zsum (f <$> filter P l).
Proof.
  induction l as [|x l IH]; [done|]. rewrite filter_cons, fmap_cons. cbn. fold (zsum ((fun x => if decide (P x) then f x else 0) <$> l)).
  rewrite IH. destruct (decide (P x)); [|done]. by rewrite fmap_cons.
Qed.

Section Coverage.
Context `{AeadLaws} (keys : SessionKeys) (m : Manifest) (contents : list bytes) (chunk_size : Z) (encrypt : bool).

Hypothesis Hc : 1 <= chunk_size < 2 ^ 32.
Hypothesis Hn : len (m_files m) < 2 ^ 32.
Hypothesis Hm : contents_match chunk_size (m_files m) contents.

Abbreviation plan := (plan_chunks m chunk_size).
Abbreviation chunks := (chunk_list keys plan contents encrypt).

Lemma plan_is_fit : plan_fits plan contents chunk_size.
Proof.
  pose proof (plan_files_index 0 (m_files m) chunk_size contents Hc ltac:(lia) ltac:(lia) Hm) as Hx.
  eapply (Forall_impl _ _ _ Hx). cbn. intros ch (_ & Hch). by rewrite Z.sub_0_r in Hch.
Qed.

Lemma plan_indices : Forall (fun ch => 0 <= cp_file_index ch) plan.
Proof.
  pose proof (plan_files_index 0 (m_files m) chunk_size contents Hc ltac:(lia) ltac:(lia) Hm) as Hx.
  eapply (Forall_impl _ _ _ Hx). cbn. intros ch (? & _). lia.
Qed.

Lemma plan_of_file t content :
  contents !! t = Some content ->
  filter (fun ch => cp_file_index ch = Z.of_nat t) plan = plan_file (Z.of_nat t) (len content) chunk_size.
Proof.
  intros Ht. destruct (Forall2_lookup_r _ _ _ _ _ Hm Ht) as (f & Hf & Hs & Hb).
  pose proof (plan_files_filter 0 (m_files m) chunk_size contents t f Hc ltac:(lia) ltac:(lia) Hm Hf) as E.
  rewrite Z.add_0_l, Hs in E. exact E.
Qed.

Lemma chunks_cover t content pos :
  contents !! t = Some content -> (pos < length content)%nat ->
  exists i rc, chunks !! i = Some rc /\ rc_target rc = t /\ covers rc pos.
Proof.
  intros Ht Hpos. destruct (Forall2_lookup_r _ _ _ _ _ Hm Ht) as (f & Hf & Hs & Hb).
  pose proof (len_nonneg content).
  destruct (plan_loop_position (Z.of_nat t) (len content) chunk_size Hc ltac:(lia)
    (Z.to_nat (len content / chunk_size + 1)) 0 (Z.of_nat pos) ltac:(lia)
    (plan_fuel (len content) chunk_size Hc ltac:(lia)) ltac:(unfold len; lia)) as (ch & Hin & Hcov).
  fold (plan_file (Z.of_nat t) (len content) chunk_size) in Hin. rewrite <- (plan_of_file t content Ht) in Hin.
  apply list_elem_of_filter in Hin as [Hfi Hin]. apply list_elem_of_lookup in Hin as [i Hi].
  destruct (fits_lookup plan contents chunk_size plan_is_fit _ _ Hi) as (c & Hcc & _ & _ & _ & Hsl).
  exists i, (chunk_at keys contents encrypt i ch). split; [unfold chunk_list; by rewrite list_lookup_imap, Hi|].
  unfold rc_target, covers, chunk_at. rewrite Hfi, Nat2Z.id in Hcc |- *. cbn [rc_header rc_data chunk_header_of c_file_index c_offset].
  rewrite Hfi, Nat2Z.id, Hcc. change (default [] (Some c)) with c. rewrite Hsl. done.
Qed.

Lemma chunk_sizes i ch :
  ch ∈ plan -> rc_target (chunk_at keys contents encrypt i ch) = Z.to_nat (cp_file_index ch) /\
  len (rc_data (chunk_at keys contents encrypt i ch)) = cp_length ch.
Proof.
  intros Hin. apply list_elem_of_lookup in Hin as [j Hj].
  destruct (fits_lookup plan contents chunk_size plan_is_fit _ _ Hj) as (c & Hcc & _ & _ & _ & Hsl).
  split; [done|]. unfold chunk_at. cbn [rc_data]. rewrite Hcc. exact Hsl.
Qed.

Lemma chunk_bytes_seq (P : nat -> Prop) `{forall t, Decision (P t)} :
  chunk_bytes chunks P <$> seq 0 (length chunks) =
  (fun ch => if decide (P (Z.to_nat (cp_file_index ch))) then cp_length ch else 0) <$> plan.
Proof.
  trans ((fun rc => if decide (P (rc_target rc)) then len (rc_data rc) else 0) <$> chunks).
  - apply list_eq. intros i. rewrite !list_lookup_fmap. unfold chunk_bytes.
    destruct (decide (i < length chunks)%nat) as [Hi|Hi].
    + rewrite lookup_seq_lt by done. cbn. destruct (lookup_lt_is_Some_2 chunks i Hi) as [rc Hrc]. by rewrite Hrc.
    + rewrite lookup_seq_ge, lookup_ge_None_2 by lia. done.
  - apply fmap_imap_const. intros i ch Hin. destruct (chunk_sizes i ch Hin) as [-> ->]. done.
Qed.

Lemma chunks_sum t content :
  contents !! t = Some content -> done_bytes chunks t (seq 0 (length chunks)) = len content.
Proof.
  intros Ht. unfold done_bytes. rewrite chunk_bytes_seq.
  destruct (Forall2_lookup_r _ _ _ _ _ Hm Ht) as (f & Hf & Hs & Hb). pose proof (len_nonneg content).
  destruct (plan_file_covers (Z.of_nat t) (len content) chunk_size Hc ltac:(lia) content ltac:(done)) as [Hcov Hall].
  rewrite <- Hcov. rewrite len_mjoin, <- (plan_of_file t content Ht).
  rewrite <- zsum_filter. f_equal. apply list_fmap_ext. intros i ch Hch.
  pose proof (proj1 (Forall_lookup _ _) plan_indices _ _ Hch) as Hfi. cbn in Hfi.
  destruct (decide (t = Z.to_nat (cp_file_index ch))) as [E|E].
  - rewrite decide_True by lia. destruct (fits_lookup plan contents chunk_size plan_is_fit _ _ Hch) as (c & Hcc & _ & _ & _ & Hsl).
    rewrite <- E, Ht in Hcc. injection Hcc as <-. done.
  - by rewrite decide_False by lia.
Qed.
End Coverage.

Lemma plan_files_total k files chunk_size contents :
  1 <= chunk_size < 2 ^ 32 -> contents_match chunk_size files contents ->
  zsum (cp_length <$> plan_files k files chunk_size) = zsum (len <$> contents).
Proof.
  intros Hc Hm. revert k. induction Hm as [|f c files contents [Hs Hb] Hm IH]; intros k; [done|]. cbn [plan_files].
  rewrite fmap_app, zsum_app, IH, fmap_cons. cbn [zsum foldr]. f_equal. pose proof (len_nonneg c).
  destruct (plan_file_covers k (lf_size f) chunk_size Hc ltac:(lia) c ltac:(done)) as [Hcov Hall].
  rewrite <- Hcov. rewrite len_mjoin. f_equal. apply list_fmap_ext. intros i ch Hch.
  destruct (proj1 (Forall_lookup _ _) Hall _ _ Hch) as (_ & Ho & Hl & He). cbn in *. unfold slice.
  rewrite len_ztake; [done|]. rewrite len_zdrop; lia.
Qed.

(** * The sender, in the clear *)

Section Plaintext.
Context {C : Type} `{ChannelSpec C} `{AeadLaws}.
Context (fs : source_fs) (m : Manifest) (keys : SessionKeys) (plan : list ChunkPlan) (contents : list bytes)
  (chunk_size : Z).

Hypothesis Hfits : plan_fits plan contents chunk_size.
Hypothesis Hmax : chunk_size <= max_chunk_size.
Hypothesis Hopen : Forall2 (fun f c => fs_content fs (lf_source_path f) = Some c) (m_files m) contents.
Hypothesis Hindex : Forall (fun ch => 0 <= cp_file_index ch) plan.
Hypothesis Hfiles : len contents < 0xffffffff.
Hypothesis Hplan : Z.of_nat (length plan) < 2 ^ 63.

Lemma open_source_ok i c : 0 <= i -> contents !! Z.to_nat i = Some c -> open_source fs m i = Ok c.
Proof.
  intros Hi Hc. unfold open_source. destruct (Forall2_lookup_r _ _ _ _ _ Hopen Hc) as (f & -> & ->). done.
Qed.

(** A chunk is the same frame whether it is spliced or copied. *)
Lemma send_plain_chunk_total k ch c (cn : C) :
  plan !! k = Some ch -> contents !! Z.to_nat (cp_file_index ch) = Some c ->
  ch_room cn (kFrameHeaderSize + len (plain_payload k ch c)) ->
  exists cn', send_plain_chunk ch (Z.of_nat k) c cn = (Ok tt, cn') /\
    wrote (frame_bytes ChunkT 1 (plain_payload k ch c)) cn cn' /\ same_transport cn cn'.
Proof.
  intros Hk Hc Hr. destruct (fits_lookup plan contents chunk_size Hfits _ _ Hk) as (c' & Hc' & Hl & Ho & Hb & Hs).
  rewrite Hc in Hc'. injection Hc' as <-.
  assert (len (plain_payload k ch c) = kChunkHeaderSize + cp_length ch) as Hlen.
  { unfold plain_payload. by rewrite len_app, encode_chunk_header_len, Hs. }
  unfold send_plain_chunk. destruct (ch_can_splice cn) eqn:Esp.
  - set (hdr := encode_frame_header _). set (chh := encode_chunk_header _).
    assert (len hdr = kFrameHeaderSize) as Hhl by done. assert (len chh = kChunkHeaderSize) as Hcl by done.
    destruct (ch_pair_total cn hdr chh) as (c1 & E1 & W1 & K1).
    { eapply ch_room_le; [exact Hr|]. rewrite Hlen. lia. }
    erewrite mbind_ok by exact E1. rewrite <- Hs.
    destruct (ch_sendfile_total c1 (slice c ch)) as (c2 & E2 & W2 & K2).
    { destruct K1 as [_ ->]. done. }
    { apply W1; [apply len_nonneg|]. eapply ch_room_le; [exact Hr|]. rewrite len_app, Hlen, Hs. lia. }
    exists c2. split; [exact E2|]. split; [|by eapply same_transport_trans].
    pose proof (wrote_trans _ _ _ _ _ _ _ _ W1 W2) as W. unfold frame_bytes, plain_payload, out_header.
    rewrite len_app, encode_chunk_header_len, Hs. rewrite <- app_assoc in W. exact W.
  - destruct (Z.ltb_spec (len c) (cp_offset ch + cp_length ch)); [lia|].
    fold (plain_payload k ch c). apply channel_write_frame_total; [|done].
    rewrite Hlen. unfold max_chunk_size, kChunkHeaderSize, kAeadTagSize in *. lia.
Qed.

Abbreviation chunks := (chunk_list keys plan contents false).

Lemma plaintext_loop_total k current content progress (cn : C) :
  (k <= length plan)%nat ->
  (current = 0xffffffff \/ contents !! Z.to_nat current = Some content) -> 0 <= current ->
  ch_room cn (len (chunk_stream chunks 1 k)) ->
  exists cn', plaintext_loop fs m (drop k plan) (Z.of_nat k) current content (u64 progress) cn =
      (Ok (u64 (progress + zsum (cp_length <$> drop k plan))), cn') /\
    wrote (chunk_stream chunks 1 k) cn cn' /\ same_transport cn cn'.
Proof.
  remember (length plan - k)%nat as r eqn:Er. revert k current content progress cn Er.
  induction r as [|r IH]; intros k current content progress cn Er Hk Hcur Hcur0 Hroom.
  - assert (k = length plan) as -> by lia.
    assert (chunk_stream chunks 1 (length plan) = []) as ->.
    { unfold chunk_stream. rewrite drop_ge; [done|]. unfold chunk_list. by rewrite length_imap. }
    rewrite drop_all. cbn. rewrite Z.add_0_r. exists cn. split; [done|]. split; [apply wrote_nil|apply same_transport_refl].
  - destruct (lookup_lt_is_Some_2 plan k) as [ch Hch]; [lia|]. rewrite (drop_S _ _ _ Hch). cbn [plaintext_loop].
    destruct (fits_lookup plan contents chunk_size Hfits _ _ Hch) as (c & Hc & Hl & Ho & Hb & Hs).
    pose proof (proj1 (Forall_lookup _ _) Hindex _ _ Hch) as Hfi. cbn in Hfi.
    assert (cp_file_index ch < len contents) as Hfi'.
    { pose proof (lookup_lt_Some _ _ _ Hc). unfold len. lia. }
    assert ((if cp_file_index ch =? current then mret content else mlift (open_source fs m (cp_file_index ch))) cn = (Ok c, cn)) as Eo.
    { destruct (Z.eqb_spec (cp_file_index ch) current) as [E|E].
      - destruct Hcur as [Hcur|Hcur]; [lia|]. rewrite <- E, Hc in Hcur. by injection Hcur as ->.
      - unfold mlift. by rewrite (open_source_ok _ c). }
    erewrite mbind_ok by exact Eo.
    assert (chunk_stream chunks 1 k = frame_bytes ChunkT 1 (plain_payload k ch c) ++ chunk_stream chunks 1 (S k)) as Hst.
    { unfold chunk_stream, chunk_list. rewrite (drop_S _ (chunk_at keys contents false k ch) k);
        [|by rewrite list_lookup_imap, Hch]. rewrite mjoin_fmap_cons. do 2 f_equal. unfold chunk_at. cbn [rc_payload].
      by rewrite Hc. }
    rewrite Hst in Hroom |- *. rewrite len_app in Hroom. pose proof (len_nonneg (chunk_stream chunks 1 (S k))).
    destruct (send_plain_chunk_total k ch c cn Hch Hc) as (c1 & E1 & W1 & K1).
    { eapply ch_room_le; [exact Hroom|]. unfold frame_bytes. rewrite len_app, encode_frame_header_len. lia. }
    erewrite mbind_ok by exact E1. rewrite u64_add, u64_small by (unfold is_u; lia).
    replace (Z.of_nat k + 1) with (Z.of_nat (S k)) by lia.
    destruct (IH (S k) (cp_file_index ch) c (progress + cp_length ch) c1) as (c2 & E2 & W2 & K2); [lia|lia|by right|done| |].
    { by apply W1. }
    exists c2. split; [|split; [by eapply wrote_trans|by eapply same_transport_trans]].
    rewrite E2. do 3 f_equal. rewrite fmap_cons. unfold zsum. cbn [foldr]. lia.
Qed.
End Plaintext.

(** * Both ends *)

(** Everything a transfer is made of, but its channels. *)
Record transfer := mk_transfer {
  t_senv : sender_env;
  t_fs : source_fs;
  t_manifest : Manifest;
  t_entries : list ManifestEntry;
  t_contents : list bytes;
  t_skeys : SessionKeys;
  t_username : bytes;
  t_so : SendOptions;
  t_denv : dest_env;
  t_rkeys : SessionKeys;
  t_ro : ReceiveOptions;
}.

Section Names.
Context `{AeadCipher} (t : transfer).

Definition t_plan : list ChunkPlan := plan_chunks (t_manifest t) (so_chunk_size (t_so t)).
Definition t_offer : TransferOffer :=
  mk_TransferOffer (t_username t) (m_display_name (t_manifest t)) (t_entries t) (m_total_bytes (t_manifest t))
    (so_encrypt (t_so t)) (sk_algorithm (t_skeys t)) (so_chunk_size (t_so t)) (so_compute_digests (t_so t)).
Definition t_sealed : bytes :=
  env_random (t_senv t) ++ cipher_seal (sk_algorithm (t_skeys t)) (offer_key (t_skeys t)) (env_random (t_senv t))
    kInfoOfferKey (TransferOffer_encode t_offer).
Definition t_chunks : list rchunk := chunk_list (t_skeys t) t_plan (t_contents t) (so_encrypt (t_so t)).
Definition t_flags : Z := if so_encrypt (t_so t) then 0 else 1.
Definition t_directory : bytes := output_directory (t_denv t) (t_ro t).
Definition t_paths : list bytes :=
  (fun f => join_path t_directory (lf_relative_path f)) <$> m_files (t_manifest t).

(** The two streams. *)
Definition to_receiver : bytes :=
  offer_frame (sk_algorithm (t_skeys t)) t_sealed ++ data_stream t_chunks t_flags.
Definition to_sender : bytes := accept_frame (t_denv t) (t_ro t) ++ ack_frame.
End Names.

(** Two users who agreed on their keys, files that stay as the manifest found them, and
    machines that do what they are asked. *)
Record transfer_ok `{AeadCipher} (t : transfer) : Prop := {
  to_manifest : exists fuel inputs, build_manifest fuel (t_fs t) inputs = Ok (t_manifest t);
  to_files : Forall2 (fun f c => fs_content (t_fs t) (lf_source_path f) = Some c /\ lf_size f = len c /\ len c < 2 ^ 62)
    (m_files (t_manifest t)) (t_contents t);
  to_offered : offer_entries (env_sha256 (t_senv t)) (t_fs t) (t_manifest t) (so_compute_digests (t_so t)) = Ok (t_entries t);
  to_names : Forall (fun f => bytes_ok (lf_relative_path f)) (m_files (t_manifest t)) /\
    short_bytes (m_display_name (t_manifest t)) /\ valid_name (t_username t);
  to_distinct : NoDup (lf_relative_path <$> m_files (t_manifest t));
  to_chunking : 1 <= so_chunk_size (t_so t) <= max_chunk_size /\ len (t_plan t) + 2 ^ 40 < 2 ^ 63;
  to_hash : (forall b, fixed kSha256Size (env_sha256 (t_senv t) b)) /\
    (forall b, de_sha256 (t_denv t) b = env_sha256 (t_senv t) b);
  to_random : len (env_random (t_senv t)) = kAeadNonceSize;
  to_keys : receive_key (t_rkeys t) = send_key (t_skeys t) /\
    receive_nonce_prefix (t_rkeys t) = send_nonce_prefix (t_skeys t) /\
    offer_key (t_rkeys t) = offer_key (t_skeys t);
  to_fits : len (t_sealed t) <= kMaxFrameLength /\
    len (TransferDecision_encode (mk_TransferDecision true [] (t_directory t))) <= kMaxFrameLength;
  to_directory : short_bytes (t_directory t);
  to_workers : 0 <= so_workers (t_so t) < 2 ^ 32 /\ 0 <= env_cores (t_senv t) < 2 ^ 32 /\
    0 <= ro_workers (t_ro t) < 2 ^ 32 /\ 0 <= de_cores (t_denv t) < 2 ^ 32;
  to_accepted : env_ok (t_denv t) /\ (ro_prompt (t_ro t) = true -> de_answer (t_denv t) = true) /\
    (so_encrypt (t_so t) = true \/ ro_require_encryption (t_ro t) = false);
}.

Section Both.
Context `{AeadLaws} (t : transfer) (Ht : transfer_ok t).

Lemma t_match : contents_match (so_chunk_size (t_so t)) (m_files (t_manifest t)) (t_contents t).
Proof.
  destruct (to_chunking _ Ht) as [[_ Hc] _]. unfold max_chunk_size, kMaxFrameLength, kChunkHeaderSize, kAeadTagSize in Hc.
  eapply Forall2_impl; [apply (to_files _ Ht)|]. cbn. intros f c (_ & Hs & Hm). split; [done|lia].
Qed.

Lemma t_chunk_size : 1 <= so_chunk_size (t_so t) < 2 ^ 32.
Proof.
  destruct (to_chunking _ Ht) as [Hc _]. unfold max_chunk_size, kMaxFrameLength, kChunkHeaderSize, kAeadTagSize in Hc. lia.
Qed.

Lemma t_manifest_inv :
  Forall (listed (t_fs t)) (m_files (t_manifest t)) /\ 1 <= len (m_files (t_manifest t)) <= kMaxManifestEntries /\
  Forall (fun f => is_safe_relative_path (lf_relative_path f) = true) (m_files (t_manifest t)) /\
  m_total_bytes (t_manifest t) = foldl (fun s f => u64 (s + lf_size f)) 0 (m_files (t_manifest t)).
Proof. destruct (to_manifest _ Ht) as (fuel & inputs & E). by eapply build_manifest_inv. Qed.

Lemma t_files_len : len (m_files (t_manifest t)) < 0xffffffff /\ len (t_contents t) = len (m_files (t_manifest t)).
Proof.
  destruct t_manifest_inv as (_ & Hn & _). unfold kMaxManifestEntries in Hn.
  pose proof (Forall2_length _ _ _ (to_files _ Ht)). unfold len in *. lia.
Qed.

Lemma t_fit : plan_fits (t_plan t) (t_contents t) (so_chunk_size (t_so t)).
Proof. apply plan_is_fit; [apply t_chunk_size|pose proof t_files_len; lia|apply t_match]. Qed.

(** The bytes counted at either end. *)
Lemma sum_total {A} (f : A -> Z) (l : list A) x :
  foldl (fun s y => u64 (s + f y)) (u64 x) l = u64 (x + zsum (f <$> l)).
Proof.
  revert x. induction l as [|y l IH]; intros x; cbn; [by rewrite Z.add_0_r|].
  rewrite u64_add, IH. f_equal. unfold zsum. cbn. lia.
Qed.

Lemma t_total : u64 (zsum (cp_length <$> t_plan t)) = m_total_bytes (t_manifest t).
Proof.
  destruct t_manifest_inv as (_ & _ & _ & ->). unfold t_plan, plan_chunks.
  rewrite (plan_files_total 0 _ _ (t_contents t) t_chunk_size t_match).
  pose proof (sum_total lf_size (m_files (t_manifest t)) 0) as E. change (u64 0) with 0 in E.
  rewrite E, Z.add_0_l. do 2 f_equal. clear E. pose proof (to_files _ Ht) as Hf.
  induction Hf as [|f c fs cs (_ & Hs & _) _ IH]; [done|]. rewrite !fmap_cons. f_equal; [done|exact IH].
Qed.

(** The offer the receiver reads is the one the sender made. *)
Lemma t_offer_ok : TransferOffer_decode (TransferOffer_encode (t_offer t)) = Ok (t_offer t).
Proof.
  destruct (to_manifest _ Ht) as (fuel & inputs & E). destruct (to_names _ Ht) as (Hb & Hd & Hu).
  destruct (to_hash _ Ht) as [Hsha _]. destruct (to_chunking _ Ht) as [Hc _].
  pose proof (to_offered _ Ht).
  by apply (offer_accepted fuel (t_fs t) inputs (t_manifest t) (env_sha256 (t_senv t)) (so_compute_digests (t_so t))).
Qed.

Lemma t_same : Forall2 same_entry (m_files (t_manifest t)) (t_entries t).
Proof. eapply offer_entries_same, (to_offered _ Ht). Qed.

Lemma t_resolve : resolve_output_paths (t_entries t) (t_directory t) = Ok (t_paths t).
Proof.
  destruct t_manifest_inv as (_ & _ & Hs & _). pose proof t_same as Hsame.
  rewrite resolve_output_paths_ok.
  - f_equal. unfold t_paths. induction Hsame as [|f e fs es (Hp & _) _ IH]; [done|].
    apply Forall_cons in Hs as [_ Hs]. rewrite !fmap_cons, Hp. f_equal. by apply IH.
  - induction Hsame as [|f e fs es (Hp & _) _ IH]; [constructor|]. apply Forall_cons in Hs as [Hf Hs].
    constructor; [by rewrite Hp|by apply IH].
Qed.

Lemma t_paths_nodup : NoDup (t_paths t).
Proof.
  destruct t_manifest_inv as (_ & _ & Hs & _). pose proof (to_distinct _ Ht) as Hd. unfold t_paths.
  induction (m_files (t_manifest t)) as [|f fs IH]; [constructor|]. apply Forall_cons in Hs as [Hf Hs].
  cbn in Hd |- *. apply NoDup_cons in Hd as [Hn Hd]. apply NoDup_cons. split; [|by apply IH].
  intros Hin. apply Hn. apply list_elem_of_fmap in Hin as (g & Hg & Hin). apply list_elem_of_fmap. exists g. split; [|done].
  eapply join_path_inj; [done| |exact Hg]. by eapply (proj1 (Forall_forall _ _) Hs).
Qed.

(** ** The sender *)

Lemma map_files_ok : map_files (t_fs t) (m_files (t_manifest t)) = Ok (t_contents t).
Proof.
  pose proof (to_files _ Ht) as Hf. induction Hf as [|f c fs cs (Hc & Hs & _) _ IH]; [done|]. cbn.
  by rewrite Hc, Hs, Z.eqb_refl, IH.
Qed.

Lemma send_offer_ok {C} `{ChannelSpec C} (c : C) :
  ch_room c (len (offer_frame (sk_algorithm (t_skeys t)) (t_sealed t))) ->
  exists c', send_offer (t_senv t) (t_fs t) (t_manifest t) (t_skeys t) (t_username t) (t_so t) c = (Ok tt, c') /\
    wrote (offer_frame (sk_algorithm (t_skeys t)) (t_sealed t)) c c' /\ same_transport c c'.
Proof.
  intros Hr. unfold send_offer, mlift, mbind at 1. rewrite (to_offered _ Ht). unfold mbind. fold (t_offer t).
  rewrite seal_standalone_ok. fold (t_sealed t). apply channel_write_frame_total; [apply (to_fits _ Ht)|].
  unfold offer_frame, frame_bytes in Hr. by rewrite len_app, encode_frame_header_len in Hr.
Qed.

Lemma chunk_stream_all fl : chunk_stream (t_chunks t) fl 0 = mjoin (frame_bytes ChunkT fl <$> (rc_payload <$> t_chunks t)).
Proof. unfold chunk_stream. rewrite drop_0. by rewrite <- list_fmap_compose. Qed.

Lemma payload_sum_total :
  so_encrypt (t_so t) = true -> payload_sum (rc_payload <$> t_chunks t) = m_total_bytes (t_manifest t).
Proof.
  intros Henc. rewrite <- t_total. unfold payload_sum.
  pose proof (sum_total (fun b => len b - kChunkHeaderSize - kAeadTagSize) (rc_payload <$> t_chunks t) 0) as E.
  change (u64 0) with 0 in E.
  trans (u64 (0 + zsum ((fun b : bytes => len b - kChunkHeaderSize - kAeadTagSize) <$> (rc_payload <$> t_chunks t)))); [exact E|].
  rewrite Z.add_0_l. do 2 f_equal. apply list_eq. intros i. rewrite !list_lookup_fmap.
  destruct (t_chunks t !! i) as [rc|] eqn:Hrc; cbn [fmap option_fmap option_map].
  - pose proof (payload_len _ _ _ _ t_fit _ _ _ (proj2 (proj1 (to_chunking _ Ht))) Hrc) as [_ Hl].
    unfold t_chunks, chunk_list in Hrc. rewrite list_lookup_imap in Hrc.
    destruct (t_plan t !! i) as [ch|] eqn:Hch; [|done]. cbn in Hrc |- *. f_equal.
    destruct (chunk_sizes (t_skeys t) (t_manifest t) (t_contents t) (so_chunk_size (t_so t)) (so_encrypt (t_so t))
      t_chunk_size ltac:(pose proof t_files_len; lia) t_match i ch ltac:(by eapply list_elem_of_lookup_2)) as [_ Hd].
    injection Hrc as <-. rewrite Hl, Hd, Henc. lia.
  - unfold t_chunks, chunk_list in Hrc. rewrite list_lookup_imap in Hrc. by destruct (t_plan t !! i).
Qed.

Lemma send_data_ok {C} `{ChannelSpec C} sched (c : C) :
  ch_room c (len (chunk_stream (t_chunks t) (t_flags t) 0)) ->
  exists c', (if so_encrypt (t_so t)
              then send_encrypted (t_senv t) (t_fs t) (t_manifest t) (t_skeys t) (t_plan t) (so_chunk_size (t_so t))
                     (so_workers (t_so t)) sched
              else send_plaintext (t_fs t) (t_manifest t) (t_plan t)) c =
      (Ok (m_total_bytes (t_manifest t)), c') /\
    wrote (chunk_stream (t_chunks t) (t_flags t) 0) c c' /\ same_transport c c'.
Proof.
  intros Hr. destruct (to_chunking _ Ht) as [[_ Hmax] Hcount]. destruct (to_workers _ Ht) as (Hw1 & Hw2 & _).
  unfold t_flags in *. destruct (so_encrypt (t_so t)) eqn:Henc.
  - unfold send_encrypted, mlift, mbind. rewrite map_files_ok.
    pose proof (sealed_chunks_list (t_skeys t) (t_plan t) (t_contents t) (so_chunk_size (t_so t)) t_fit) as Hlist.
    rewrite chunk_stream_all in *. unfold t_chunks in *. rewrite Henc in *. rewrite <- Hlist in *.
    destruct (run_encrypted_total (t_senv t) (t_skeys t) (t_plan t) (t_contents t) (so_chunk_size (t_so t)) c t_fit Hmax
      ltac:(unfold total; lia) Hr sched _ Hw1 Hw2) as (c' & E & Hw). exists c'. split; [|exact Hw].
    rewrite E. do 2 f_equal. rewrite Hlist. pose proof (payload_sum_total Henc) as Hp. unfold t_chunks in Hp. by rewrite Henc in Hp.
  - assert (Forall2 (fun f c => fs_content (t_fs t) (lf_source_path f) = Some c) (m_files (t_manifest t)) (t_contents t)) as Hop.
    { eapply Forall2_impl; [apply (to_files _ Ht)|]. naive_solver. }
    pose proof t_files_len as [Hfl Hcl].
    unfold t_chunks in *. rewrite Henc in *.
    destruct (plaintext_loop_total (t_fs t) (t_manifest t) (t_skeys t) (t_plan t) (t_contents t) (so_chunk_size (t_so t))
      t_fit Hmax Hop ltac:(apply (plan_indices _ (t_contents t)); [apply t_chunk_size|lia|apply t_match]) ltac:(lia)
      ltac:(unfold len in Hcount; lia) 0 0xffffffff [] 0 c ltac:(lia) ltac:(by left) ltac:(lia) Hr) as (c' & E & Hw).
    exists c'. split; [|exact Hw]. unfold send_plaintext. change (Z.of_nat 0) with 0 in E. change (u64 0) with 0 in E.
    rewrite drop_0 in E. rewrite E, Z.add_0_l. by rewrite t_total.
Qed.

Lemma t_decision_ok :
  TransferDecision_decode (TransferDecision_encode (mk_TransferDecision true [] (t_directory t))) =
    Ok (mk_TransferDecision true [] (t_directory t)).
Proof.
  assert (TransferDecision_ok (mk_TransferDecision true [] (t_directory t))) as Hd.
  { split; [split; [done|constructor]|apply (to_directory _ Ht)]. }
  pose proof (wm_roundtrip (mk_TransferDecision true [] (t_directory t)) Hd) as Hr. exact Hr.
Qed.

Lemma send_transfer_ok {C} `{ChannelSpec C} sched (c0 : C) :
  (so_encrypt (t_so t) = false -> ch_kind c0 <> ServerRelay) ->
  ch_room c0 (len (to_receiver t)) -> ch_delivers c0 (to_sender t) ->
  exists c', send_transfer (t_senv t) (t_fs t) (t_manifest t) (t_skeys t) (t_username t) (t_so t) sched c0 =
      (Ok (mk_SendResult (m_total_bytes (t_manifest t)) (t_directory t)), c') /\
    (forall b, ch_sent c0 b -> ch_sent c' (b ++ to_receiver t)).
Proof.
  intros Hk Hroom Hdel. unfold send_transfer.
  assert (negb (so_encrypt (t_so t)) && bool_decide (ch_kind c0 = ServerRelay) = false) as ->.
  { destruct (so_encrypt (t_so t)); [done|]. cbn. apply bool_decide_eq_false_2. auto. }
  unfold to_receiver, data_stream in Hroom. rewrite !len_app in Hroom.
  pose proof (len_nonneg (chunk_stream (t_chunks t) (t_flags t) 0)). pose proof (len_nonneg (frame_bytes TransferEndT 0 [])).
  destruct (send_offer_ok c0) as (c1 & E1 & W1 & K1); [by eapply ch_room_le; [exact Hroom|lia]|].
  erewrite mbind_ok by exact E1. apply W1 in Hdel. apply (proj2 (proj2 W1)) in Hroom; [|lia].
  unfold to_sender, accept_frame in Hdel.
  destruct (channel_read_expected_total DecisionT 0 _ c1 _ ltac:(done) ltac:(done) (proj2 (to_fits _ Ht)) Hdel)
    as (c2 & E2 & (D2 & S2 & R2) & K2). apply D2 in Hdel. apply R2 in Hroom.
  unfold await_decision, mbind at 1, mbind at 1. rewrite E2. unfold mlift. cbn [payload].
  rewrite t_decision_ok. cbn [td_accepted negb td_output_directory].
  fold (t_plan t). destruct (send_data_ok sched c2) as (c3 & E3 & W3 & K3); [by eapply ch_room_le; [exact Hroom|lia]|].
  erewrite mbind_ok by exact E3. apply W3 in Hdel. apply (proj2 (proj2 W3)) in Hroom; [|lia].
  destruct (channel_write_frame_total TransferEndT [] 0 c3) as (c4 & E4 & W4 & K4); [done|exact Hroom|].
  unfold channel_write_empty, mbind at 1. rewrite E4. apply W4 in Hdel.
  destruct (ch_flush_total c4) as (c5 & E5 & W5 & K5). unfold mbind at 1. rewrite E5. apply W5 in Hdel.
  rewrite <- (app_nil_r ack_frame) in Hdel.
  destruct (channel_read_expected_total TransferAckT 0 [] c5 [] ltac:(done) ltac:(done) ltac:(done) Hdel)
    as (c6 & E6 & (D6 & S6 & R6) & K6). unfold mbind at 1. rewrite E6.
  exists c6. split; [done|]. intros b Hb. apply S6. apply W1, S2, W3, W4, W5 in Hb.
  unfold to_receiver, data_stream. rewrite !app_nil_r, <- !app_assoc in Hb. exact Hb.
Qed.

(** ** The receiver *)

Lemma t_entry_sizes : Forall2 (fun e c => me_size e = len c /\ len c < 2 ^ 63) (t_entries t) (t_contents t).
Proof.
  pose proof t_same as Hsame. pose proof (Forall2_length _ _ _ Hsame) as Hlen. pose proof (Forall2_length _ _ _ (to_files _ Ht)) as Hlenc.
  apply Forall2_same_length_lookup. split; [lia|]. intros i e c He Hc.
  destruct (Forall2_lookup_r _ _ _ _ _ Hsame He) as (f & Hf & _ & Hse & _).
  destruct (Forall2_lookup_lr _ _ _ _ _ _ (to_files _ Ht) Hf Hc) as (_ & Hs & Hm). cbn in *. split; [congruence|lia].
Qed.

Lemma t_digests :
  so_compute_digests (t_so t) = true -> Forall2 (fun e c => de_sha256 (t_denv t) c = me_digest e) (t_entries t) (t_contents t).
Proof.
  intros Hd. destruct (to_hash _ Ht) as [_ Hsha]. pose proof (to_offered _ Ht) as Ho. unfold offer_entries in Ho. rewrite Hd in Ho.
  eapply Forall2_impl; [apply (digests_of _ _ _ _ _ _ Ho (wire_entries_same _)
    ltac:(eapply Forall2_impl; [apply (to_files _ Ht)|]; naive_solver))|]. cbn. intros e c <-. apply Hsha.
Qed.

Lemma receive_transfer_of_t {C} `{ChannelSpec C} peer fuel (s0 : recv C) :
  (so_encrypt (t_so t) = false -> ch_kind (r_channel s0) <> ServerRelay) ->
  disk_ok (r_disk s0) -> (length (t_plan t) < fuel)%nat ->
  ch_room (r_channel s0) (len (to_sender t)) -> ch_delivers (r_channel s0) (to_receiver t) ->
  exists s', receive_transfer (t_denv t) (t_rkeys t) fuel peer (t_ro t) s0 =
      (Ok (mk_ReceiveResult true (m_total_bytes (t_manifest t)) (m_display_name (t_manifest t)) (t_paths t)), s') /\
    (forall b, ch_sent (r_channel s0) b -> ch_sent (r_channel s') (b ++ to_sender t)) /\
    (forall p, p ∉ t_paths t -> r_fs s' !! p = r_fs s0 !! p) /\
    (forall i f c, m_files (t_manifest t) !! i = Some f -> t_contents t !! i = Some c ->
       exists d, r_fs s' !! join_path (t_directory t) (lf_relative_path f) = Some d /\
         df_content d = c /\ df_mode d = lf_mode f).
Proof.
  intros Hkind Hdisk Hfuel Hroom Hdel. pose proof t_files_len as [Hfl Hcl].
  assert (len (m_files (t_manifest t)) < 2 ^ 32) as Hf32 by lia. pose proof t_same as Hsame.
  pose proof t_manifest_inv as (Hlisted & _). pose proof t_chunk_size as Hcs.
  destruct (to_chunking _ Ht) as [[Hmin Hmax] Hcount]. destruct (to_keys _ Ht) as (Hk1 & Hk2 & Hk3).
  destruct (to_hash _ Ht) as [_ Hsha]. destruct (to_accepted _ Ht) as (Henv & Hans & Hreq).
  destruct (to_workers _ Ht) as (_ & _ & Hw).
  pose proof (Forall2_length _ _ _ Hsame) as Hlen. pose proof (Forall2_length _ _ _ (to_files _ Ht)) as Hlenc.
  assert (length (t_entries t) = length (t_paths t)) as Hlp by (unfold t_paths; rewrite length_fmap; lia).
  assert (length (t_chunks t) = length (t_plan t)) as Hlch by (unfold t_chunks, chunk_list; by rewrite length_imap).
  pose proof t_entry_sizes as Hsizes. pose proof t_digests as Hdig.
  destruct (receive_transfer_ok (t_denv t) (t_rkeys t) (t_ro t) peer (t_offer t) (t_paths t) (t_contents t) (t_chunks t)
    (t_flags t) s0) with (rest := @nil Z) (fuel := fuel) (algorithm := sk_algorithm (t_skeys t)) (sealed := t_sealed t)
    (plain := TransferOffer_encode (t_offer t)) as (s' & E & Hsent & Hoth & Hend); try done.
  - apply t_paths_nodup.
  - intros i rc. unfold t_chunks. apply (chunk_list_ok (t_skeys t) (t_plan t) (t_contents t) (so_chunk_size (t_so t)) t_fit);
      try done; try lia.
    + rewrite length_zip_with. cbn. lia.
    + unfold len in Hcount. lia.
    + eapply Forall2_Forall_r; [apply (to_files _ Ht)|]. apply Forall_true. cbn. intros f. intros c (_ & _ & ?). lia.
    + apply (plan_indices _ (t_contents t)); [done|lia|apply t_match].
  - rewrite Hlch. unfold len in Hcount. lia.
  - intros i content pos. apply (chunks_cover _ _ _ _ _ Hcs Hf32 t_match).
  - intros i content. apply (chunks_sum _ _ _ _ _ Hcs Hf32 t_match).
  - intros Hv. apply Hdig. by apply andb_true_iff in Hv as [_ ?].
  - unfold t_flags. by destruct (so_encrypt (t_so t)).
  - lia.
  - apply (to_fits _ Ht).
  - unfold to_sender in Hroom. by rewrite len_app in Hroom.
  - apply (to_fits _ Ht).
  - rewrite Hk3. apply open_seal_standalone, (to_random _ Ht).
  - apply t_offer_ok.
  - cbn. destruct (so_encrypt (t_so t)); [by left|]. right. split; [by apply Hkind|]. by destruct Hreq.
  - apply t_resolve.
  - rewrite app_nil_r. exact Hdel.
  - exists s'. split_and!; try done.
    + rewrite E. do 3 f_equal. rewrite <- t_total. f_equal. unfold all_bytes, t_chunks.
      rewrite (chunk_bytes_seq _ _ _ _ _ Hcs Hf32 t_match). do 2 f_equal.
    + intros i f c Hf Hc. destruct (Forall2_lookup_l _ _ _ _ _ Hsame Hf) as (e & He & _ & _ & Hmode).
      destruct (Hend i e (join_path (t_directory t) (lf_relative_path f)) c) as (d & Hd & Hdc & Hdm).
      { done. }
      { unfold t_paths. by rewrite list_lookup_fmap, Hf. }
      { done. }
      exists d. split_and!; [done..|]. rewrite Hdm, Hmode.
      destruct (proj1 (Forall_lookup _ _) Hlisted _ _ Hf) as (info & _ & _ & _ & ->).
      pose proof (u32_range (st_mode info)) as [Hu _]. by destruct (land_511_u32 (u32 (st_mode info)) Hu) as [_ ->].
Qed.
End Both.

(** C1. A transfer works. Over any two channels that carry each end's bytes to the
    other, for any interleaving of the sender's threads ([sched]) and of the receiver's
    workers ([r_sched]), and however the disk splits its writes: the sender returns
    success and has put exactly [to_receiver] on its channel, the receiver returns
    success and has put exactly [to_sender] on its own, both report the size of the
    manifest, and every file of the manifest is at its place under the output
    directory with the sender's bytes and permissions. Nothing else in the receiver's
    file system has changed. *)
Theorem transfer_correct {S R : Type} `{ChannelSpec S} `{ChannelSpec R} `{AeadLaws}
    (t : transfer) (c0 : S) (s0 : recv R) sched peer fuel :
  transfer_ok t ->
  (so_encrypt (t_so t) = false -> ch_kind c0 <> ServerRelay /\ ch_kind (r_channel s0) <> ServerRelay) ->
  disk_ok (r_disk s0) -> (length (t_plan t) < fuel)%nat ->
  ch_room c0 (len (to_receiver t)) -> ch_room (r_channel s0) (len (to_sender t)) ->
  ch_delivers c0 (to_sender t) -> ch_delivers (r_channel s0) (to_receiver t) ->
  exists c' s',
    send_transfer (t_senv t) (t_fs t) (t_manifest t) (t_skeys t) (t_username t) (t_so t) sched c0 =
      (Ok (mk_SendResult (m_total_bytes (t_manifest t)) (t_directory t)), c') /\
    receive_transfer (t_denv t) (t_rkeys t) fuel peer (t_ro t) s0 =
      (Ok (mk_ReceiveResult true (m_total_bytes (t_manifest t)) (m_display_name (t_manifest t)) (t_paths t)), s') /\
    (forall b, ch_sent c0 b -> ch_sent c' (b ++ to_receiver t)) /\
    (forall b, ch_sent (r_channel s0) b -> ch_sent (r_channel s') (b ++ to_sender t)) /\
    (forall i f c, m_files (t_manifest t) !! i = Some f -> t_contents t !! i = Some c ->
       exists d, r_fs s' !! join_path (t_directory t) (lf_relative_path f) = Some d /\
         df_content d = c /\ df_mode d = lf_mode f) /\
    (forall p, p ∉ t_paths t -> r_fs s' !! p = r_fs s0 !! p).
Proof.
  intros Ht Hk Hd Hf Hr1 Hr2 Hd1 Hd2.
  destruct (send_transfer_ok t Ht sched c0) as (c' & E1 & S1); [naive_solver|done..|].
  destruct (receive_transfer_of_t t Ht peer fuel s0) as (s' & E2 & S2 & Hoth & Hend); [naive_solver|done..|].
  exists c', s'. split_and!; done.
Qed.

(** * The theorem at work *)

(** The two files of [sample_manifest], encrypted, in chunks of two bytes, over TCP. *)
Definition sample_keys (send receive : Z) : SessionKeys :=
  mk_SessionKeys (replicate 32 send) (replicate 32 receive) (replicate 4 send) (replicate 4 receive)
    (replicate 32 9) (replicate 32 10) Aes256Gcm.
Definition sample_dest : dest_env :=
  mk_dest_env (fun _ => None) (fun _ => None) (fun _ _ => None) (fun _ => None) (fun _ => None) (str "cwd") true 2
    sample_sha256.
Definition sample_transfer : transfer :=
  mk_transfer (mk_sender_env sample_sha256 (replicate 12 5) 2) (sample_fs sample_names) sample_manifest
    (to_wire_entries sample_manifest) [[1; 2; 3]; []] (sample_keys 1 2) (str "bob") (mk_SendOptions true false 2 2)
    sample_dest (sample_keys 2 1) (mk_ReceiveOptions (str "out") true true false 2).
Definition sample_recv (stream : bytes) : recv ksock :=
  mk_recv ksock (mk_ksock [RxData stream] (replicate 100 (TxWrote 7)) []) ∅ [TxWrote 1; TxEintr] []
    (new_pool 1 1) (mk_BufferPool 0 []) (mk_BufferPool 0 []) 0 [[WTake]; [WDone 0; WTake]].

Lemma sample_transfer_ok : transfer_ok (H := plain_cipher) sample_transfer.
Proof.
  split.
  - exists 3%nat, [str "d"]. apply sample_manifest_built.
  - repeat constructor; by vm_compute.
  - by vm_compute.
  - split_and!; [|split|]; repeat constructor; by vm_compute.
  - apply NoDup_cons. split; [|apply NoDup_singleton]. by intros ?%list_elem_of_singleton.
  - by vm_compute.
  - split; [apply sample_sha256_fixed|done].
  - done.
  - done.
  - by vm_compute.
  - split; [done|]. repeat constructor; by vm_compute.
  - done.
  - split; [done|]. split; [done|by left].
Qed.

Lemma transfer_correct_witness :
  let up := to_receiver (H := plain_cipher) sample_transfer in
  let down := to_sender sample_transfer in
  exists c' s',
    send_transfer (H0 := plain_cipher) (t_senv sample_transfer) (sample_fs sample_names) sample_manifest (sample_keys 1 2)
      (str "bob") (t_so sample_transfer) [] (mk_ksock [RxData down] (replicate 1000 (TxWrote 50)) []) =
      (Ok (mk_SendResult 3 (str "out")), c') /\
    receive_transfer (H0 := plain_cipher) sample_dest (sample_keys 2 1) 10 (str "bob") (t_ro sample_transfer)
      (sample_recv up) = (Ok (mk_ReceiveResult true 3 (str "d") [str "out/d/x"; str "out/d/y"]), s') /\
    exists d, r_fs s' !! str "out/d/x" = Some d /\ df_content d = [1; 2; 3].
Proof.
  intros up down.
  assert (so_encrypt (t_so sample_transfer) = false -> ch_kind (mk_ksock [RxData down] (replicate 1000 (TxWrote 50)) []) <> ServerRelay /\
    ch_kind (r_channel (sample_recv up)) <> ServerRelay) as Hk by (intros E; discriminate E).
  assert (disk_ok (r_disk (sample_recv up))) as Hd by (repeat constructor).
  assert (length (t_plan sample_transfer) < 10)%nat as Hf by (vm_compute; lia).
  assert (exists rest, rx_stream [RxData down] = down ++ rest) as Hdown by (by exists []).
  assert (exists rest, rx_stream [RxData up] = up ++ rest) as Hup by (by exists []).
  destruct (transfer_correct (H3 := plain_cipher) (H4 := plain_cipher_laws) sample_transfer
    (mk_ksock [RxData down] (replicate 1000 (TxWrote 50)) []) (sample_recv up) [] (str "bob") 10 sample_transfer_ok Hk Hd Hf)
    as (c' & s' & Es & Er & _ & _ & Hfiles & _).
  - by vm_compute.
  - by vm_compute.
  - exact Hdown.
  - exact Hup.
  - exists c', s'. split; [exact Es|]. split; [exact Er|].
    destruct (Hfiles 0%nat _ _ eq_refl eq_refl) as (d & E & Ed & _). exists d. split; [exact E|exact Ed].
Defined.
