(* ===== verification/ReceiverSafety.v ===== *)
(** The receiver against any sender: whatever arrives, nothing outside the offered paths is
    touched and no file grows past the size that was offered and shown to the user.

    [rsafe D m Q]: from a state that satisfies the invariant, [m] ends in one that does and,
    when it returns, its result satisfies [Q]; [D] says which exceptions it may throw. *)

From S2P Require Import Prelude Endian Socket Frame Protocol Paths Messages Pipeline Channel.
From S2P Require Import Crypto Manifest AeadPool Receiver ReceiverOk Sender Transfer.

Lemma write_at_len_max offset data content :
  0 <= offset -> len (write_at offset data content) = Z.max (len content) (offset + len data).
Proof.
  intros Ho. unfold write_at. rewrite !len_app. pose proof (len_nonneg data). pose proof (len_nonneg content).
  assert (len (ztake offset (content ++ zeros (offset - len content))) = offset) as ->.
  { apply len_ztake. rewrite len_app. unfold zeros, len at 2. rewrite length_replicate. lia. }
  unfold len at 2, zdrop. rewrite length_drop. unfold len in *. lia.
Qed.

(** A write reaches no further than its data, whether or not it succeeds. *)
Lemma pwrite_loop_len evs data content position r content' evs' :
  pwrite_loop evs data content position = (r, content', evs') -> 0 <= position -> len data < 2 ^ 63 ->
  len content' <= Z.max (len content) (position + len data) /\ r <> Err OutOfBounds.
Proof.
  revert data content position. induction evs as [|ev evs IH]; intros data content position; cbn [pwrite_loop];
    (destruct (Z.leb_spec (len data) 0); [intros [= <- <- <-]; split; [lia|done]|]);
    (destruct (Z.leb_spec (2 ^ 63) position); [intros [= <- <- <-]; split; [lia|done]|]).
  - intros [= <- <- <-] Hp _. rewrite write_at_len_max by done. split; [lia|done].
  - destruct ev as [n| |b|e]; [|by apply IH|intros [= <- <- <-]; split; [lia|done]..].
    set (k := moved n (len data)). assert (0 <= k <= len data) as Hk by (apply moved_range; lia).
    destruct (Z.eqb_spec k 0); [intros [= <- <- <-]; split; [lia|done]|]. intros E Hp Hm.
    pose proof (len_ztake k data Hk) as H1. pose proof (len_zdrop k data Hk) as H2.
    rewrite u64_small in E by (unfold is_u; lia). apply IH in E as [E ?]; [|lia|lia]. split; [|done].
    rewrite write_at_len_max in E by done. lia.
Qed.

(** A position the kernel refuses changes nothing. *)
Lemma pwrite_loop_refused evs data content position r content' evs' :
  pwrite_loop evs data content position = (r, content', evs') -> 2 ^ 63 <= position ->
  content' = content /\ r <> Err OutOfBounds.
Proof.
  intros E Hp. destruct evs as [|ev evs]; cbn [pwrite_loop] in E; (destruct (_ <=? 0); [by injection E as <- <- <-|]);
    (destruct (Z.leb_spec (2 ^ 63) position); [by injection E as <- <- <-|lia]).
Qed.

Section Safety.
Context {C : Type} `{ChannelSpec C} `{AeadLaws}.
Context (env : dest_env) (keys : SessionKeys) (offer : TransferOffer) (paths : list bytes) (fs0 : gmap bytes dfile).

Hypothesis Hlen : length (to_entries offer) = length paths.
Hypothesis Hsizes : Forall (fun e => is_u64 (me_size e)) (to_entries offer).
Hypothesis Hchunk : 1 <= to_chunk_size offer <= max_chunk_size.

(** A file no longer than an entry with its path says. *)
Definition bounded (p : bytes) (d : dfile) : Prop :=
  exists t e, to_entries offer !! t = Some e /\ paths !! t = Some p /\ len (df_content d) <= me_size e.

(** A file is as it was, or of the offer and no longer than offered. *)
Definition contained (s : recv C) : Prop :=
  forall p, r_fs s !! p = fs0 !! p \/ exists d, r_fs s !! p = Some d /\ bounded p d.

(** The outputs are open. *)
Definition opened (s : recv C) : Prop :=
  Forall2 (fun f e => of_expected_size f = me_size e) (r_files s) (to_entries offer) /\
  of_path <$> r_files s = paths /\
  forall p, p ∈ paths -> exists d, r_fs s !! p = Some d /\ bounded p d.

(** A chunk that passed [validate_chunk]. *)
Definition valid_chunk (h : ChunkHeader) : Prop :=
  ChunkHeader_ok h /\ c_plaintext_length h <= to_chunk_size offer /\
  exists e, to_entries offer !! Z.to_nat (c_file_index h) = Some e /\
    u64 (c_offset h + c_plaintext_length h) <= me_size e.

Definition job_ok (j : rjob) : Prop := valid_chunk (j_header j) /\ j_target j = Z.to_nat (c_file_index (j_header j)).

Record receiving (s : recv C) : Prop := {
  rc_inv : ch_inv (r_channel s);
  rc_contained : contained s;
  rc_opened : opened s;
  rc_jobs : Forall job_ok (queue_ (r_pool s) ++ active_ (r_pool s));
}.

(** An access outside a buffer is possible only where a ciphertext is opened. *)
Definition allowed (e : exn) : Prop := to_encrypt_payload offer = true \/ e <> OutOfBounds.

Definition rsafe {A} (m : M (recv C) A) (Q : A -> Prop) : Prop :=
  forall s, receiving s -> receiving (m s).2 /\ match (m s).1 with Ok a => Q a | Err e => allowed e end.

Lemma rsafe_bind {A B} (m : M (recv C) A) (k : A -> M (recv C) B) P Q :
  rsafe m P -> (forall a, P a -> rsafe (k a) Q) -> rsafe (mbind m k) Q.
Proof.
  intros Hm Hk s Hs. unfold mbind. destruct (Hm s Hs) as [H1' H2']. destruct (m s) as [[a|e] s']; [|done].
  by apply Hk.
Qed.

Lemma rsafe_ret {A} (a : A) (Q : A -> Prop) : Q a -> rsafe (mret a) Q.
Proof. intros Ha s Hs. done. Qed.

Lemma rsafe_throw {A} (e : exn) (Q : A -> Prop) : allowed e -> rsafe (mthrow e) Q.
Proof. intros He s Hs. done. Qed.

Lemma rsafe_fail {A} msg (Q : A -> Prop) : rsafe (fail msg) Q.
Proof. apply rsafe_throw. by right. Qed.

Lemma rsafe_impl {A} (m : M (recv C) A) (P Q : A -> Prop) : rsafe m P -> (forall a, P a -> Q a) -> rsafe m Q.
Proof. intros Hm HPQ s Hs. destruct (Hm s Hs) as [? Hr]. split; [done|]. destruct (m s).1; auto. Qed.

Lemma rsafe_channel {A} (m : M C A) P :
  (forall c, ch_inv c -> any_outcome ch_inv P c (m c)) -> rsafe (on_channel m) P.
Proof.
  intros Hm s Hs. destruct (Hm _ (rc_inv _ Hs)) as (Hc & _ & Hr). unfold on_channel, mzoom.
  destruct (m (r_channel s)) as [[a|e] c']; cbn in *; (split; [by destruct Hs; split|]); [done|by right].
Qed.

Lemma entry_lt t e : to_entries offer !! t = Some e -> exists p, paths !! t = Some p.
Proof. intros He. apply lookup_lt_is_Some_2. rewrite <- Hlen. by eapply lookup_lt_Some. Qed.

(** Committing a valid chunk of its declared length. *)
Lemma rsafe_commit h data :
  valid_chunk h -> len data = c_plaintext_length h ->
  rsafe (commit (Z.to_nat (c_file_index h)) data (c_offset h)) (fun _ => True).
Proof.
  intros (Hh & Hcs & e & He & Hle) Hd s Hs. destruct (entry_lt _ _ He) as [p Hp].
  destruct (rc_opened _ Hs) as (Hsz & Hpa & Hex). set (t := Z.to_nat (c_file_index h)) in *.
  destruct (Forall2_lookup_r _ _ _ _ _ Hsz He) as (f & Hf & Hfe).
  assert (of_path f = p) as Hfp.
  { rewrite <- Hpa, list_lookup_fmap, Hf in Hp. by injection Hp. }
  assert (p ∈ paths) as Hin by (by eapply list_elem_of_lookup_2).
  destruct (Hex p Hin) as (d & Hdf & (t0 & e0 & He0 & Hp0 & Hb0)).
  unfold commit, pwrite_all, mbind. rewrite Hf, Hfp, Hdf.
  destruct (pwrite_loop (r_disk s) data (df_content d) (c_offset h)) as [[r content'] evs'] eqn:Ew.
  destruct Hh as (_ & [Hpl0 _] & [Ho0 Ho1] & _). cbn in Hpl0.
  unfold max_chunk_size, kMaxFrameLength, kChunkHeaderSize, kAeadTagSize in Hchunk.
  assert (len content' <= Z.max (me_size e0) (me_size e) /\ r <> Err OutOfBounds) as [Hl Hr].
  { destruct (Z.le_gt_cases (2 ^ 63) (c_offset h)).
    - destruct (pwrite_loop_refused _ _ _ _ _ _ _ Ew) as [-> ?]; [done|]. split; [lia|done].
    - rewrite u64_small in Hle by (unfold is_u; lia).
      destruct (pwrite_loop_len _ _ _ _ _ _ _ Ew) as [? ?]; [done|lia|]. split; [lia|done]. }
  assert (bounded p (mk_dfile content' (df_mode d))) as Hbd.
  { destruct (Z.max_spec (me_size e0) (me_size e)) as [[_ E]|[_ E]]; [exists t, e|exists t0, e0]; split_and!; try done; cbn; lia. }
  assert (forall s1, r_fs s1 = <[p := mk_dfile content' (df_mode d)]> (r_fs s) -> r_channel s1 = r_channel s ->
    r_pool s1 = r_pool s -> of_path <$> r_files s1 = paths ->
    Forall2 (fun f e => of_expected_size f = me_size e) (r_files s1) (to_entries offer) -> receiving s1) as Hnew.
  { intros s1 Hfs Hch Hpo Hpa1 Hsz1. split; [rewrite Hch; apply Hs| | |rewrite Hpo; apply Hs].
    - intros q. rewrite Hfs. destruct (decide (p = q)) as [<-|Hne].
      + right. rewrite lookup_insert_eq. eauto.
      + rewrite lookup_insert_ne by done. apply (rc_contained _ Hs).
    - split_and!; [done..|]. intros q Hq. rewrite Hfs. destruct (decide (p = q)) as [<-|Hne].
      + rewrite lookup_insert_eq. eauto.
      + rewrite lookup_insert_ne by done. by apply Hex. }
  destruct r as [[]|x]; cbn [fst snd].
  - split; [|done]. apply Hnew; try done; cbn.
    + rewrite list_fmap_insert. cbn. rewrite list_insert_id; [done|]. rewrite list_lookup_fmap, Hf. cbn. by rewrite Hfp.
    + apply Forall2_same_length_lookup. split; [rewrite length_insert; by eapply Forall2_length|].
      intros i g e' Hg He'. destruct (decide (i = t)) as [->|Hne].
      * rewrite list_lookup_insert_eq in Hg by (by eapply lookup_lt_Some). injection Hg as <-. cbn. congruence.
      * rewrite list_lookup_insert_ne in Hg by done. by destruct (Forall2_lookup_lr _ _ _ _ _ _ Hsz Hg He').
  - split; [|right; congruence]. by apply Hnew.
Qed.

Lemma receiving_buffers c p s : receiving s -> receiving (with_buffers c p s).
Proof. intros []. by split. Qed.

Lemma rsafe_job j : to_encrypt_payload offer = true -> job_ok j -> rsafe (run_job keys (to_algorithm offer) j) (fun _ => True).
Proof.
  intros Henc [Hv Ht] s Hs. unfold run_job. rewrite Ht.
  destruct (acquire (r_plaintext s)) as [v pl]. set (s1 := with_buffers _ _ s).
  assert (receiving s1) as Hs1 by (by apply receiving_buffers).
  destruct (aead_open _ _ _ _ _ _) as [[plain|]|e]; [|split; [done|by left]|split; [done|by left]].
  destruct (Z.eqb_spec (len plain) (c_plaintext_length (j_header j))) as [El|]; cbn [negb]; [|split; [done|by left]].
  apply (rsafe_bind (commit _ plain _) _ (fun _ => True)); [by apply rsafe_commit| |done].
  intros _ _ s2 Hs2. split; [by apply receiving_buffers|done].
Qed.

Lemma receiving_pool p s :
  receiving s -> Forall job_ok (queue_ p ++ active_ p) -> receiving (with_pool p s).
Proof. intros [] Hp. by split. Qed.

Lemma worker_turn_safe t s s' :
  to_encrypt_payload offer = true -> receiving s -> worker_turn keys (to_algorithm offer) t s = Some s' -> receiving s'.
Proof.
  intros Henc Hs E. pose proof (rc_jobs _ Hs) as Hj. apply Forall_app in Hj as [Hq Ha]. destruct t as [|i]; cbn in E.
  - destruct (pool_take (r_pool s)) as [p|] eqn:Ep; [|done]. injection E as <-. apply receiving_pool; [done|].
    unfold pool_take in Ep. destruct (_ <? _); [|done]. destruct (queue_ (r_pool s)) as [|j q]; [done|].
    injection Ep as <-. cbn. apply Forall_cons in Hq as [? ?]. rewrite !Forall_app. split_and!; auto.
  - destruct (active_ (r_pool s) !! i) as [j|] eqn:Ej; [|done].
    destruct (rsafe_job j Henc (proj1 (Forall_lookup _ _) Ha _ _ Ej) s Hs) as [Hs1 _].
    destruct (run_job keys (to_algorithm offer) j s) as [r s1]. cbn in Hs1. injection E as <-.
    apply receiving_pool; [done|]. pose proof (rc_jobs _ Hs1) as Hj1. apply Forall_app in Hj1 as [Hq1 Ha1]. cbn.
    apply Forall_app. split; [done|]. by apply Forall_delete.
Qed.

Lemma run_workers_safe ts s :
  to_encrypt_payload offer = true -> receiving s -> receiving (run_workers keys (to_algorithm offer) ts s).
Proof.
  intros Henc. revert s. induction ts as [|t ts IH]; intros s Hs; [done|]. unfold run_workers. cbn.
  destruct (worker_turn keys (to_algorithm offer) t s) as [s1|] eqn:E; cbn; [|by apply IH].
  apply IH. by eapply worker_turn_safe.
Qed.

Lemma wait_pool_safe call fuel s :
  to_encrypt_payload offer = true ->
  (forall p r p', Forall job_ok (queue_ p ++ active_ p) -> call p = Some (r, p') -> Forall job_ok (queue_ p' ++ active_ p')) ->
  receiving s -> receiving (wait_pool keys (to_algorithm offer) fuel call s).2.
Proof.
  intros Henc Hcall. revert s. induction fuel as [|fuel IH]; intros s Hs; cbn [wait_pool];
    (destruct (call (r_pool s)) as [[r p]|] eqn:Ec; [apply receiving_pool; [done|]; eapply Hcall; [apply Hs|exact Ec]|]); [done|].
  destruct (idle_turn keys (to_algorithm offer) s) as [s1|] eqn:E1; [|done]. apply IH. unfold idle_turn in E1.
  destruct (worker_turn keys (to_algorithm offer) (WDone 0) s) eqn:E2; [injection E1 as <-|]; by eapply worker_turn_safe.
Qed.

Lemma rsafe_pool call :
  to_encrypt_payload offer = true ->
  (forall p r p', Forall job_ok (queue_ p ++ active_ p) -> call p = Some (r, p') -> Forall job_ok (queue_ p' ++ active_ p')) ->
  rsafe (on_pool keys (to_algorithm offer) call) (fun _ => True).
Proof.
  intros Henc Hcall s Hs. unfold on_pool.
  set (s1 := match r_sched s with [] => s | _ => _ end).
  assert (receiving s1) as Hs1.
  { unfold s1. destruct (r_sched s); [done|]. apply run_workers_safe; [done|]. by destruct Hs; split. }
  split; [by apply wait_pool_safe|]. by destruct (wait_pool _ _ _ _ _) as [[[]|] ?]; [|left].
Qed.

Lemma submit_jobs j p r p' :
  job_ok j -> Forall job_ok (queue_ p ++ active_ p) -> submit j p = Some (r, p') -> Forall job_ok (queue_ p' ++ active_ p').
Proof.
  intros Hj Hp E. unfold submit in E. apply Forall_app in Hp as Hp'. destruct Hp' as [Hq Ha].
  destruct (first_error_ p), (stopping_ p); destruct (_ || _); try done; injection E as <- <-; try done.
  cbn. rewrite !Forall_app. split_and!; auto.
Qed.

Lemma drain_jobs p r p' :
  Forall job_ok (queue_ p ++ active_ p) -> drain p = Some (r, p') -> Forall job_ok (queue_ p' ++ active_ p').
Proof.
  intros Hp E. unfold drain in E. destruct (first_error_ p); destruct (_ || _); try done; by injection E as <- <-.
Qed.

(** ** The loop *)

Lemma validated s h counter :
  receiving s -> ChunkHeader_ok h ->
  match validate_chunk h (r_files s) counter (to_chunk_size offer) with
  | Ok _ => valid_chunk h
  | Err e => e <> OutOfBounds
  end.
Proof.
  intros Hs Hh. destruct (rc_opened _ Hs) as (Hsz & _). unfold validate_chunk.
  destruct (Z.leb_spec (len (r_files s)) (c_file_index h)); [done|].
  destruct (Z.ltb_spec (to_chunk_size offer) (c_plaintext_length h)); [done|]. destruct (negb _); [done|].
  pose proof Hh as ([Hi0 _] & _).
  destruct (lookup_lt_is_Some_2 (r_files s) (Z.to_nat (c_file_index h))) as [f Hf]; [unfold len in *; lia|].
  rewrite Hf. destruct (Z.ltb_spec (of_expected_size f) (u64 (c_offset h + c_plaintext_length h))); [done|].
  destruct (Forall2_lookup_l _ _ _ _ _ Hsz Hf) as (e & He & Hfe). split; [done|]. split; [lia|].
  exists e. split; [done|lia].
Qed.

Lemma rsafe_chunk f counter :
  bytes_ok (payload f) -> len (payload f) <= kMaxFrameLength ->
  rsafe (handle_chunk keys offer f counter) (fun _ => True).
Proof.
  intros Hb Hm. unfold handle_chunk. destruct (Z.ltb_spec (len (payload f)) kChunkHeaderSize); [apply rsafe_fail|].
  destruct (decode_chunk_header_ok (payload f) Hb ltac:(lia)) as (h & Ed & Hh).
  intros s Hs. unfold mlift, mget, mbind. rewrite Ed.
  pose proof (validated s h counter Hs Hh) as Hv.
  destruct (validate_chunk _ _ _ _) as [[]|e]; [|split; [done|cbn; by right]].
  destruct (to_encrypt_payload offer) eqn:Henc; cbn [negb].
  - destruct (acquire (r_ciphertext s)) as [v cb]. apply rsafe_pool; [done| |by apply receiving_buffers].
    intros p r p'. apply submit_jobs. by split.
  - destruct (Z.eqb_spec (len (payload f) - kChunkHeaderSize) (c_plaintext_length h)); cbn [negb]; [|by apply rsafe_fail].
    apply rsafe_commit; [done| |done]. rewrite len_zdrop; unfold kChunkHeaderSize in *; lia.
Qed.

Lemma rsafe_loop fuel counter : rsafe (receive_loop keys fuel offer counter) (fun _ => True).
Proof.
  revert counter. induction fuel as [|fuel IH]; intros counter; cbn [receive_loop]; [apply rsafe_throw; by right|].
  eapply rsafe_bind; [apply rsafe_channel; intros c Hc; by apply channel_read_frame_any|].
  intros f (Hb & _ & Hl). cbv zeta. destruct (bool_decide _); [by apply rsafe_ret|].
  destruct (bool_decide _); [apply rsafe_throw; by right|]. destruct (negb _); [apply rsafe_fail|].
  eapply rsafe_bind; [by apply rsafe_chunk|]. intros [] _. apply IH.
Qed.
(** ** Opening the outputs *)

Record opening (have : list bytes) (s : recv C) : Prop := {
  op_inv : ch_inv (r_channel s);
  op_contained : contained s;
  op_idle : queue_ (r_pool s) ++ active_ (r_pool s) = [];
  op_have : forall p, p ∈ have -> exists d, r_fs s !! p = Some d /\ bounded p d;
}.

Definition offered (e : ManifestEntry) (p : bytes) : Prop :=
  exists t, to_entries offer !! t = Some e /\ paths !! t = Some p.

Lemma opening_touch have p content mode e disk s :
  opening have s -> offered e p -> len content <= me_size e ->
  opening (p :: have) (with_fs (<[p := mk_dfile content mode]> (r_fs s)) disk s).
Proof.
  intros Hs (t & He & Hp) Hl. assert (bounded p (mk_dfile content mode)) as Hb by (by exists t, e).
  split; [apply Hs| |apply Hs|].
  - intros q. cbn. destruct (decide (p = q)) as [<-|]; [right; rewrite lookup_insert_eq; eauto|].
    rewrite lookup_insert_ne by done. apply (op_contained _ _ Hs).
  - intros q Hq. cbn. destruct (decide (p = q)) as [<-|]; [rewrite lookup_insert_eq; eauto|].
    rewrite lookup_insert_ne by done. apply (op_have _ _ Hs). by apply elem_of_cons in Hq as [->|].
Qed.

Lemma opening_again have p s : p ∈ have -> opening (p :: have) s -> opening have s.
Proof. intros Hp []. split; [done..|]. intros q Hq. apply op_have0. by right. Qed.

(** However it ends: nothing runs, or what runs is safe. *)
Definition settled (s : recv C) : Prop := opening [] s \/ receiving s.

Definition opens {A} (m : M (recv C) A) (before after : recv C -> Prop) (P : A -> Prop) : Prop :=
  forall s, before s ->
    match m s with
    | (Ok a, s') => after s' /\ P a
    | (Err x, s') => settled s' /\ allowed x
    end.

Lemma opening_none have s : opening have s -> settled s.
Proof. intros []. left. split; [done..|]. intros q Hq. by apply elem_of_nil in Hq. Qed.

Lemma opens_bind {A B} (m : M (recv C) A) (k : A -> M (recv C) B) h1 h2 h3 P Q :
  opens m h1 h2 P -> (forall a, P a -> opens (k a) h2 h3 Q) -> opens (mbind m k) h1 h3 Q.
Proof.
  intros Hm Hk s Hs. unfold mbind. specialize (Hm s Hs). destruct (m s) as [[a|x] s']; [|done].
  destruct Hm as [? ?]. by apply Hk.
Qed.

Lemma opens_throw {A} x have h P : x <> OutOfBounds -> opens (mthrow (A := A) x) (opening have) h P.
Proof. intros Hx s Hs. split; [by eapply opening_none|by right]. Qed.

Lemma opens_mkdirs dirs have : opens (mlift (mkdirs (de_mkdir env) dirs)) (opening have) (opening have) (fun _ => True).
Proof.
  intros s Hs. unfold mlift. induction dirs as [|d dirs IH]; cbn; [done|].
  destruct (de_mkdir env d); [|done]. split; [by eapply opening_none|by right].
Qed.

Lemma opens_create e p have :
  offered e p -> 0 <= me_size e -> opens (create_file env p) (opening have) (opening (p :: have)) (fun _ => True).
Proof.
  intros Hp Hz s Hs. unfold create_file. destruct (de_open env p); [split; [by eapply opening_none|by right]|].
  split; [|done]. by eapply opening_touch.
Qed.

Lemma opens_set_size e p have :
  offered e p -> 0 <= me_size e -> p ∈ have -> opens (set_size p (me_size e)) (opening have) (opening have) (fun _ => True).
Proof.
  intros Hp Hz Hin s Hs. unfold set_size. destruct (op_have _ _ Hs p Hin) as (d & -> & _). split; [|done].
  eapply opening_again; [exact Hin|]. eapply opening_touch; [done..|].
  rewrite len_ztake; [done|]. rewrite len_app. pose proof (len_nonneg (df_content d)).
  unfold zeros, len at 2. rewrite length_replicate. lia.
Qed.

Lemma opens_preallocate e p have :
  offered e p -> 0 <= me_size e -> p ∈ have ->
  opens (preallocate_file env p (me_size e)) (opening have) (opening have) (fun _ => True).
Proof.
  intros Hp Hz Hin. unfold preallocate_file. destruct (_ =? 0); [by intros s Hs|].
  destruct (de_fallocate env p (me_size e)); [|by apply opens_set_size].
  destruct (_ && _); [by apply opens_throw|]. destruct (de_truncate env p); [by apply opens_throw|].
  by apply opens_set_size.
Qed.

Lemma opens_outputs es ps have :
  Forall2 offered es ps -> Forall (fun e => is_u64 (me_size e)) es ->
  opens (open_outputs env es ps) (opening have) (opening (reverse ps ++ have)) (fun fl =>
    Forall2 (fun f e => of_expected_size f = me_size e) fl es /\ of_path <$> fl = ps).
Proof.
  intros Hoff. revert have. induction Hoff as [|e p es ps Hp _ IH]; intros have Hu; cbn [open_outputs].
  { intros s Hs. by split. }
  apply Forall_cons in Hu as [[Hz _] Hu]. eapply opens_bind; [apply opens_mkdirs|intros _ _].
  eapply opens_bind; [by eapply opens_create|intros _ _].
  eapply opens_bind; [eapply opens_preallocate; [done..|by left]|intros _ _].
  eapply opens_bind; [by apply IH|]. intros fl [Hf Hpa] s Hs. rewrite reverse_cons, <- app_assoc. split; [done|].
  split; [by constructor|]. cbn; by f_equal.
Qed.

(** ** The end *)

Lemma rsafe_finalise files :
  (forall f, f ∈ files -> of_path f ∈ paths) -> rsafe (finalise_outputs env files) (fun _ => True).
Proof.
  induction files as [|f files IH]; intros Hin; cbn [finalise_outputs]; [by apply rsafe_ret|].
  destruct (negb _); [apply rsafe_fail|]. destruct (de_fsync env (of_path f)); [apply rsafe_throw; by right|].
  apply (rsafe_bind _ _ (fun _ => True)); [|intros _ _; apply IH; intros g Hg; apply Hin; by right].
  intros s Hs. pose proof (rc_opened _ Hs) as (Hsz & Hpa & Hex).
  destruct (Hex (of_path f) (Hin f ltac:(by left))) as (d & Ed & (t & e & He & Hp & Hl)). rewrite Ed.
  set (d' := mk_dfile (df_content d) _). assert (bounded (of_path f) d') by (by exists t, e).
  split; [|done]. split; [apply Hs| | |apply Hs].
  - intros q. cbn. destruct (decide (of_path f = q)) as [<-|]; [right; rewrite lookup_insert_eq; eauto|].
    rewrite lookup_insert_ne by done. apply (rc_contained _ Hs).
  - split_and!; [done..|]. intros q Hq. cbn.
    destruct (decide (of_path f = q)) as [<-|]; [rewrite lookup_insert_eq; eauto|].
    rewrite lookup_insert_ne by done. by apply Hex.
Qed.

Lemma rsafe_digests es files :
  (length files <= length es)%nat -> rsafe (verify_digests env es files) (fun _ => True).
Proof.
  revert es. induction files as [|f files IH]; intros es Hl s Hs; [by destruct es|].
  destruct es as [|e es]; [cbn in Hl; lia|]. cbn [verify_digests]. unfold mget, mbind.
  destruct (r_fs s !! of_path f); [|apply rsafe_throw; [by right|done]]. destruct (negb _); [by apply rsafe_fail|].
  apply IH; [|done]. cbn in Hl. lia.
Qed.

Lemma rsafe_write {A} (m : M C A) :
  (forall c, ch_inv c -> any_outcome ch_inv (fun _ => True) c (m c)) -> rsafe (on_channel m) (fun _ => True).
Proof. apply rsafe_channel. Qed.

Lemma rsafe_drain :
  rsafe (if to_encrypt_payload offer then on_pool keys (to_algorithm offer) drain else mret tt) (fun _ => True).
Proof.
  destruct (to_encrypt_payload offer) eqn:E; [|by apply rsafe_ret].
  apply rsafe_pool; [done|]. intros p r p'. apply drain_jobs.
Qed.

Lemma rsafe_closing o files :
  (forall f, f ∈ files -> of_path f ∈ paths) -> (length files <= length (to_entries offer))%nat ->
  rsafe
    (do* finalise_outputs env files in
     do* (if ro_verify_digests o && to_digests_present offer then verify_digests env (to_entries offer) files
          else mret tt) in
     do* on_channel (channel_write_empty TransferAckT) in
     do* on_channel ch_flush in
     let* s := mget in
     mret (mk_ReceiveResult true (r_progress s) (to_display_name offer) paths)) (fun _ => True).
Proof.
  intros Hin Hn. eapply rsafe_bind; [by apply rsafe_finalise|intros _ _].
  apply (rsafe_bind _ _ (fun _ => True)).
  { destruct (_ && _); [by apply rsafe_digests|by apply rsafe_ret]. }
  intros _ _. eapply rsafe_bind; [apply rsafe_write; intros c Hc; by apply channel_write_frame_any|intros _ _].
  eapply rsafe_bind; [apply rsafe_write; intros c Hc; by apply ch_flush_any|intros _ _].
  by intros s Hs.
Qed.

Lemma opens_channel {A} (m : M C A) have :
  (forall c, ch_inv c -> any_outcome ch_inv (fun _ => True) c (m c)) -> opens (on_channel m) (opening have) (opening have) (fun _ => True).
Proof.
  intros Hm s Hs. destruct (Hm _ (op_inv _ _ Hs)) as (Hc & _ & Hr). unfold on_channel, mzoom.
  destruct (m (r_channel s)) as [[a|e] c']; cbn in *.
  - split; [|done]. by destruct Hs; split.
  - split; [|by right]. apply (opening_none have). by destruct Hs; split.
Qed.

Lemma receiving_start o files s :
  opening (reverse paths ++ []) s -> Forall2 (fun f e => of_expected_size f = me_size e) files (to_entries offer) ->
  of_path <$> files = paths -> receiving (with_progress 0 (start_pool env o offer (with_files files s))).
Proof.
  intros [Hi Hc Hj Hh] Hsz Hpa. assert (opened (with_files files s)) as Ho.
  { split_and!; [done..|]. intros p Hp. apply Hh. rewrite app_nil_r. by apply elem_of_reverse. }
  unfold start_pool. destruct (to_encrypt_payload offer); split; try done; cbn; by rewrite Hj.
Qed.

(** Opening the outputs, answering, and everything after. *)
Lemma receive_files_safe fuel o dir :
  opens (receive_files env keys fuel o offer paths dir) (opening []) settled (fun _ => True).
Proof.
  assert (Forall2 offered (to_entries offer) paths) as Hoff.
  { apply Forall2_same_length_lookup. split; [done|]. intros i e p He Hp. by exists i. }
  eapply opens_bind; [by apply opens_outputs|]. intros files [Hsz Hpa].
  eapply opens_bind; [apply opens_channel; intros c Hc; by apply channel_write_frame_any|intros _ _].
  eapply opens_bind; [apply opens_channel; intros c Hc; by apply ch_flush_any|intros _ _].
  intros s Hs. unfold mmodify, mbind at 1. cbv beta iota zeta.
  pose proof (receiving_start o files s Hs Hsz Hpa) as Hr. revert Hr.
  generalize (with_progress 0 (start_pool env o offer (with_files files s))). intros s1 Hs1.
  match goal with |- match ?m s1 with _ => _ end => assert (rsafe m (fun _ => True)) as Hm end.
  { eapply rsafe_bind; [apply rsafe_loop|intros _ _]. eapply rsafe_bind; [apply rsafe_drain|intros _ _].
    intros s2 Hs2. pose proof (rc_opened _ Hs2) as (Hsz2 & Hpa2 & _). apply rsafe_closing; [| |done].
    - intros f Hf. rewrite <- Hpa2. by apply list_elem_of_fmap_2.
    - by rewrite (Forall2_length _ _ _ Hsz2). }
  specialize (Hm s1 Hs1). revert Hm. match goal with |- _ -> match ?o with _ => _ end => destruct o as [[a|e] s2] end;
    intros [? ?]; (split; [by right|done]).
Qed.
Lemma settled_contained s : settled s -> contained s.
Proof. by intros [[] | []]. Qed.

Lemma settled_workers ts s :
  to_encrypt_payload offer = true -> settled s -> contained (run_workers keys (to_algorithm offer) ts s).
Proof.
  intros Henc [Hs|Hs]; [|by destruct (run_workers_safe ts s Henc Hs)].
  destruct (app_eq_nil _ _ (op_idle _ _ Hs)) as [Hq Ha].
  assert (run_workers keys (to_algorithm offer) ts s = s) as ->; [|apply Hs].
  induction ts as [|[|i] ts IH]; cbn; [done|..]; unfold pool_take; rewrite ?Hq, ?Ha; cbn; [|done].
  by destruct (_ <? _).
Qed.
End Safety.

(** * The whole receiver *)

Section Whole.
Context {C : Type} `{ChannelSpec C} `{AeadLaws}.
Context (env : dest_env) (keys : SessionKeys).

Lemma on_channel_any {A} (m : M C A) P (s : recv C) :
  ch_inv (r_channel s) -> any_outcome ch_inv P (r_channel s) (m (r_channel s)) ->
  exists c', ch_inv c' /\ on_channel m s = ((m (r_channel s)).1, set_channel c' s) /\
    match (m (r_channel s)).1 with Ok a => P a | Err e => e <> OutOfBounds end.
Proof.
  intros Hc (Hi & _ & Hr). unfold on_channel, mzoom. destruct (m (r_channel s)) as [r c']. by exists c'.
Qed.

Lemma read_offer_any (s : recv C) :
  ch_inv (r_channel s) ->
  exists r c', read_offer keys s = (r, set_channel c' s) /\ ch_inv c' /\
    match r with Ok offer => TransferOffer_ok offer | Err e => e <> OutOfBounds end.
Proof.
  intros Hc. unfold read_offer, mbind at 1.
  destruct (on_channel_any (channel_read_expected OfferT) _ s Hc (channel_read_expected_any _ _ Hc))
    as (c' & Hc' & -> & Hr).
  destruct (channel_read_expected OfferT (r_channel s)).1 as [f|e]; [|eauto]. destruct Hr as (Hb & _).
  cbv zeta. destruct (_ && _); [eexists _, c'; by split_and!|]. unfold mbind, mlift.
  destruct (open_standalone_safe (algorithm_of_u8 (flags (header f))) (offer_key keys) kInfoOfferKey (payload f)) as [o Eo].
  rewrite Eo. destruct o as [plain|]; [|eexists _, c'; by split_and!].
  pose proof (wm_sound plain (open_standalone_bytes _ _ _ _ _ Hb Eo)) as Hs. cbn in Hs.
  destruct (TransferOffer_decode plain) as [offer|e]; eexists _, c'; (split; [done|]); (split; [done|]).
  - apply Hs.
  - by destruct e.
Qed.

Lemma decline_any reason (s : recv C) :
  ch_inv (r_channel s) ->
  exists r c', decline reason s = (r, set_channel c' s) /\ ch_inv c' /\ r <> Err OutOfBounds.
Proof.
  intros Hc. unfold decline.
  match goal with |- context [on_channel ?m s] =>
    destruct (on_channel_any m _ s Hc (channel_write_frame_any _ _ _ _ Hc)) as (c' & Hc' & E & Hr);
    rewrite E; exists (m (r_channel s)).1, c'; split_and!; [done..|]; destruct (m (r_channel s)).1; congruence
  end.
Qed.

(** Where the output of an offer goes. *)
Definition output_paths (o : ReceiveOptions) (offer : TransferOffer) : list bytes :=
  (fun e => join_path (if len (ro_output_directory o) =? 0 then de_cwd env else ro_output_directory o) (me_path e))
    <$> to_entries offer.

Lemma decline_then {A} reason (k : M (recv C) A) (s : recv C) r s' :
  ch_inv (r_channel s) -> (forall s1, (k s1).2 = s1 /\ (k s1).1 <> Err OutOfBounds) ->
  (do* decline reason in k) s = (r, s') -> r_fs s' = r_fs s /\ r <> Err OutOfBounds.
Proof.
  intros Hc Hk. unfold mbind. destruct (decline_any reason s Hc) as (rd & c' & -> & _ & Hr).
  destruct rd as [[]|e]; [|intros [= <- <-]; split; [done|congruence]].
  intros E. destruct (Hk (set_channel c' s)) as [H1' H2']. rewrite E in H1', H2'. cbn in *. by subst.
Qed.

(** C9. Whatever the peer sends and however the workers are scheduled, every file is
    as it was before, or is at the path of an entry of the offer that was read, which
    the path check accepted, and no longer than that entry's size; this still holds after any turns
    the workers take once the call has returned or thrown. With a plaintext offer the
    receiver never leaves a buffer. *)
Theorem receiver_contained fuel peer o (s : recv C) r s' :
  ch_inv (r_channel s) -> queue_ (r_pool s) = [] -> active_ (r_pool s) = [] ->
  receive_transfer env keys fuel peer o s = (r, s') ->
  r_fs s' = r_fs s /\ r <> Err OutOfBounds \/
  exists offer s1, read_offer keys s = (Ok offer, s1) /\
    Forall (fun e => is_safe_relative_path (me_path e) = true) (to_entries offer) /\
    contained offer (output_paths o offer) (r_fs s) s' /\
    if to_encrypt_payload offer
    then forall ts, contained offer (output_paths o offer) (r_fs s) (run_workers keys (to_algorithm offer) ts s')
    else r <> Err OutOfBounds.
Proof.
  intros Hc Hq Ha. unfold receive_transfer, mbind at 1.
  destruct (read_offer_any s Hc) as (ro & c1 & Er & Hc1 & Hoffer). rewrite Er.
  destruct ro as [offer|e]; [|intros [= <- <-]; left; split; [done|congruence]].
  destruct Hoffer as (_ & _ & Hes & _ & _ & Hchunk). cbv zeta. unfold mget at 1, mbind at 1.
  destruct (_ && bool_decide _); [intros E; left; by apply (decline_then _ _ (set_channel c1 s)) in E|].
  destruct (_ && ro_require_encryption o); [intros E; left; by apply (decline_then _ _ (set_channel c1 s)) in E|].
  assert (Forall (fun e => is_safe_relative_path (me_path e) = true) (to_entries offer)) as Hsafe.
  { eapply Forall_impl; [exact Hes|]. by intros e []. }
  rewrite resolve_output_paths_ok by done. unfold mlift, mbind at 1. fold (output_paths o offer).
  destruct (_ && negb _); [intros E; left; by apply (decline_then _ _ (set_channel c1 s)) in E|].
  assert (opening offer (output_paths o offer) (r_fs s) [] (set_channel c1 s)) as Hop.
  { split; [done|by left|cbn; by rewrite Hq, Ha|]. intros q Hx. by apply elem_of_nil in Hx. }
  assert (Forall (fun e => is_u64 (me_size e)) (to_entries offer)) as Hu.
  { eapply Forall_impl; [exact Hes|]. by intros e (_ & _ & ? & _). }
  assert (length (to_entries offer) = length (output_paths o offer)) as Hlen by (symmetry; apply length_fmap).
  intros E. pose proof (receive_files_safe env keys offer _ _ Hlen Hu Hchunk fuel o
    (if len (ro_output_directory o) =? 0 then de_cwd env else ro_output_directory o) _ Hop) as Hf.
  rewrite E in Hf. right. exists offer, (set_channel c1 s). split; [done|]. split; [done|].
  assert (settled offer (output_paths o offer) (r_fs s) s') as Hset by (by destruct r; destruct Hf).
  split; [by apply settled_contained|]. destruct (to_encrypt_payload offer) eqn:Henc.
  - intros ts. eapply settled_workers; eauto.
  - destruct r as [|e]; [done|]. destruct Hf as [_ [Hf|Hf]]; congruence.
Qed.
End Whole.

(** * The length of a sealed chunk *)

Section SealedLength.
Context {C : Type} `{Channel C} `{AeadCipher}.
Context (keys : SessionKeys).

(** A job leaves the buffer it decrypts into exactly when the ciphertext is too long
    for it, whatever the key, the cipher and the tag. *)
Lemma run_job_overruns a j (s : recv C) :
  kChunkHeaderSize <= len (j_sealed j) ->
  let room := capacity (resize (c_plaintext_length (j_header j)) (acquire (r_plaintext s)).1) in
  0 <= room -> kChunkHeaderSize + sealed_size room < len (j_sealed j) ->
  run_job keys a j s = (Err OutOfBounds, with_buffers (r_ciphertext s) (acquire (r_plaintext s)).2 s).
Proof.
  intros Hh room Hr Hl. unfold run_job, room in *. destruct (acquire (r_plaintext s)) as [v pl]. cbn [fst snd] in *.
  unfold aead_open, sealed_size in *. rewrite len_zdrop by (unfold kChunkHeaderSize in *; lia).
  destruct (Z.ltb_spec (len (j_sealed j) - kChunkHeaderSize) kAeadTagSize); [unfold kAeadTagSize in *; lia|].
  destruct (Z.ltb_spec (capacity (resize (c_plaintext_length (j_header j)) v))
    (len (j_sealed j) - kChunkHeaderSize - kAeadTagSize)); [done|lia].
Qed.

Lemma validate_chunk_len h files n size : validate_chunk h files n size = Ok tt -> c_plaintext_length h <= size.
Proof. unfold validate_chunk. destruct (_ <=? _); [done|]. by destruct (Z.ltb_spec size (c_plaintext_length h)). Qed.

(** Nothing compares the length of a sealed chunk with the length its header
    declares: an encrypted chunk whose header is acceptable and whose frame is longer
    than the agreed chunk size allows is queued, and the worker that opens it writes
    past its buffer before any tag is looked at. It takes no key to send one. *)
Theorem forged_chunk_overruns offer f h n workers (s : recv C) :
  to_encrypt_payload offer = true -> decode_chunk_header (payload f) = Ok h ->
  0 <= c_plaintext_length h -> 0 <= to_chunk_size offer ->
  validate_chunk h (r_files s) n (to_chunk_size offer) = Ok tt ->
  kChunkHeaderSize + sealed_size (to_chunk_size offer) < len (payload f) ->
  0 < workers -> r_pool s = new_pool workers (workers * 2) ->
  r_plaintext s = mk_BufferPool (to_chunk_size offer) [] -> r_sched s = [] ->
  exists s1 s2 s3,
    handle_chunk keys offer f n s = (Ok tt, s1) /\
    worker_turn keys (to_algorithm offer) WTake s1 = Some s2 /\
    worker_turn keys (to_algorithm offer) (WDone 0) s2 = Some s3 /\
    first_error_ (r_pool s3) = Some OutOfBounds.
Proof.
  intros Henc Hd Hp0 Hc0 Hv Hl Hw Hpool Hbuf Hsched. unfold handle_chunk, sealed_size, kAeadTagSize in *.
  destruct (Z.ltb_spec (len (payload f)) kChunkHeaderSize); [lia|].
  unfold mlift, mget, mbind. rewrite Hd, Hv, Henc. cbn [negb].
  destruct (acquire (r_ciphertext s)) as [v cb]. unfold on_pool. cbn [with_buffers r_sched r_pool]. rewrite Hsched.
  destruct s as [ch fs dk fl po cb0 pb pr sc]. cbn in Hpool, Hbuf, Hsched |- *. subst po pb.
  assert ((0 <? workers * 2) = true) as Hq by (apply Z.ltb_lt; lia).
  unfold submit, new_pool. cbn. destruct (Z.eqb_spec (workers * 2) 0); [lia|]. destruct (Z.eqb_spec workers 0); [lia|].
  change (len (@nil rjob)) with 0. rewrite Hq. cbn. eexists _, _, _. split; [done|]. unfold pool_take, active_jobs_. cbn [worker_turn].
  unfold pool_take, active_jobs_. cbn [r_pool with_pool queue_ active_ worker_count app].
  change (len (@nil rjob)) with 0. destruct (Z.ltb_spec 0 workers); [|lia]. split; [done|]. cbn [with_pool r_pool active_ lookup list_lookup].
  rewrite run_job_overruns; cbn [j_sealed j_header].
  - by split.
  - done.
  - cbn. lia.
  - cbn. unfold sealed_size, kAeadTagSize.
    assert (c_plaintext_length h <= to_chunk_size offer) by (by eapply validate_chunk_len). lia.
Qed.
End SealedLength.

(** * The theorems at work *)

Lemma receiver_contained_witness :
  let s := sample_recv (to_receiver (H := plain_cipher) sample_transfer) in
  let s' := (receive_transfer (H0 := plain_cipher) sample_dest (sample_keys 2 1) 10 (str "bob") (t_ro sample_transfer) s).2 in
  exists offer s1, read_offer (H0 := plain_cipher) (sample_keys 2 1) s = (Ok offer, s1) /\
    contained offer (output_paths sample_dest (t_ro sample_transfer) offer) (r_fs s) s'.
Proof.
  intros s s'.
  destruct (receiver_contained (H1 := plain_cipher) (H2 := plain_cipher_laws) sample_dest (sample_keys 2 1) 10 (str "bob")
    (t_ro sample_transfer) s
    (receive_transfer (H0 := plain_cipher) sample_dest (sample_keys 2 1) 10 (str "bob") (t_ro sample_transfer) s).1 s')
    as [[E _]|(offer & s1 & Er & _ & Hc & _)].
  - constructor; [|constructor]. apply (bool_decide_unpack (bytes_ok _)). vm_compute. exact I.
  - reflexivity.
  - reflexivity.
  - apply surjective_pairing.
  - exfalso. apply (f_equal (fun m => m !! str "out/d/x")) in E. vm_compute in E. discriminate E.
  - exists offer, s1. split; [exact Er|exact Hc].
Defined.

Lemma forged_chunk_overruns_witness :
  let offer := t_offer sample_transfer in
  let h := mk_ChunkHeader 0 2 0 0 in
  let f := mk_frame (out_header ChunkT 0 124) (encode_chunk_header h ++ replicate 100 0) in
  let s := mk_recv ksock (mk_ksock [] [] []) ∅ [] [mk_OutputFile (str "out/d/x") 3 420 0] (new_pool 2 4)
             (mk_BufferPool 42 []) (mk_BufferPool 2 []) 0 [] in
  exists s1 s2 s3,
    handle_chunk (H0 := plain_cipher) (sample_keys 2 1) offer f 0 s = (Ok tt, s1) /\
    worker_turn (H0 := plain_cipher) (sample_keys 2 1) Aes256Gcm WTake s1 = Some s2 /\
    worker_turn (H0 := plain_cipher) (sample_keys 2 1) Aes256Gcm (WDone 0) s2 = Some s3 /\
    first_error_ (r_pool s3) = Some OutOfBounds.
Proof.
  intros offer h f s.
  apply (forged_chunk_overruns (H0 := plain_cipher) (sample_keys 2 1) offer f h 0 2 s); try reflexivity; try by vm_compute.
Defined.
