(* ===== verification/Session.v ===== *)
(** One conversation of the client: [ControlConnection] of [client/src/rendezvous.cpp],
    [Endpoint::resolve] of [common/src/socket.cpp], and [prepare_sockets], [send_to_one] and
    the body of [command_accept] of [client/src/main.cpp].

    [Session] is the record of known peers and the network, whose control connection is the
    one to the rendezvous server. [ChannelPtr] is a channel: its methods are those of the
    transport it holds. *)

From S2P Require Import Prelude Endian Socket Frame Protocol Paths Messages Channel Text Getopt Cli Storage KnownPeers Config Crypto.
From S2P Require Import Identity Handshake ReliableUdp UdpStream Transport Manifest Pipeline AeadPool Sender Receiver.

(** * Channels *)

(** [sendfile_fd] is -1 as over the relay, and [write_pair] is the default. *)
#[global] Instance UdpChannelOps : Channel UdpChannel := {|
  ch_kind _ := HolePunchUdp;
  ch_read_exactly := udp_read_exactly;
  ch_write_bytes := udp_write_bytes;
  ch_write_pair := default_write_pair udp_write_bytes;
  ch_flush := udp_flush;
  ch_can_splice _ := false;
  ch_sendfile _ _ := mthrow (SysError (str "sendfile failed") 9);
|}.

(** A virtual call. *)
Definition dispatch {A} (tcp : M ksock A) (udp : M UdpChannel A) (relay : M RelayChannel A) : M ChannelPtr A := fun c =>
  match c with
  | OverTcp s peer => let '(r, s') := tcp s in (r, OverTcp s' peer)
  | OverUdp u peer => let '(r, u') := udp u in (r, OverUdp u' peer)
  | OverRelay l => let '(r, l') := relay l in (r, OverRelay l')
  end.

#[global] Instance ChannelPtrOps : Channel ChannelPtr := {|
  ch_kind c := match c with OverTcp _ _ => DirectTcp | OverUdp _ _ => HolePunchUdp | OverRelay _ => ServerRelay end;
  ch_read_exactly n := dispatch (ch_read_exactly n) (ch_read_exactly n) (ch_read_exactly n);
  ch_write_bytes b := dispatch (ch_write_bytes b) (ch_write_bytes b) (ch_write_bytes b);
  ch_write_pair a b := dispatch (ch_write_pair a b) (ch_write_pair a b) (ch_write_pair a b);
  ch_flush := dispatch ch_flush ch_flush ch_flush;
  ch_can_splice c := match c with OverTcp s _ => ch_can_splice s | OverUdp u _ => ch_can_splice u | OverRelay l => ch_can_splice l end;
  ch_sendfile b n := dispatch (ch_sendfile b n) (ch_sendfile b n) (ch_sendfile b n);
|}.

(** [TcpChannel] shuts its socket down for writing. *)
Definition close_gracefully : M ChannelPtr unit := dispatch (mret tt) udp_close_gracefully relay_close_gracefully.

(** * The rendezvous server *)

(** [getaddrinfo] gives addresses with their lengths or an error code. *)
Record net_env := mk_net_env {
  ne_getaddrinfo : bytes -> bytes -> list (Endpoint * Z) + Z;
  ne_gai_strerror : Z -> bytes;
  ne_strerror : Z -> bytes;
  ne_allow_loopback : option bytes;
  ne_interfaces : bool -> list Endpoint;
  ne_peers : peers_env;
  ne_prefers_aes : bool;
}.

(** What one conversation draws and is given: the port its sockets get, its session key, the
    UDP socket to come, and the results of waiting for an introduction. *)
Record session_env := mk_session_env {
  se_binds : list bind_answer;
  se_secret : bytes;
  se_udp : udp_socket;
  se_waits : list bool;
}.

Record Session := mk_Session { s_known : KnownPeers; s_net : net }.

Definition on_net {A} (m : M net A) : M Session A := mzoom s_net (fun n s => mk_Session (s_known s) n) m.

Definition set_control (c : option ksock) (n : net) : net :=
  mk_net (n_clock n) (n_waits n) (n_connects n) (n_polls n) (n_errors n) (n_accepts n) (n_datagrams n) (n_sends n) (n_sent n) c.
Definition set_clock (l : list Z) (n : net) : net :=
  mk_net l (n_waits n) (n_connects n) (n_polls n) (n_errors n) (n_accepts n) (n_datagrams n) (n_sends n) (n_sent n) (n_control n).
Definition set_connects (l : list connect_event) (n : net) : net :=
  mk_net (n_clock n) (n_waits n) l (n_polls n) (n_errors n) (n_accepts n) (n_datagrams n) (n_sends n) (n_sent n) (n_control n).

(** A computation on the control connection, the record and the clock. *)
Definition on_peer {A} (m : M Peer A) : M Session A := fun s =>
  match n_control (s_net s) with
  | None => (Err OutOfBounds, s)
  | Some c =>
      let '(r, p) := m (mk_Peer c (s_known s) (n_clock (s_net s))) in
      (r, mk_Session (known p) (set_clock (millis p) (set_control (Some (control p)) (s_net s))))
  end.

Definition on_control_stream {A} (m : M ksock A) : M Session A := on_peer (on_stream m).

Section Conversation.
Context `{AeadCipher} `{Openssl} (ne : net_env).

(** The loop over the candidates: the one that answered, or the last error. *)
Fixpoint connect_first (candidates : list Endpoint) (last_error : bytes) : M net (Endpoint + bytes) :=
  match candidates with
  | [] => mret (inr last_error)
  | candidate :: candidates =>
      let* ev := answer n_connects set_connects in
      match ev with
      | NoSocket => connect_first candidates last_error
      | ConnectNow s => do* mmodify (set_control (Some s)) in mret (inl candidate)
      | ConnectErrno e _ => connect_first candidates (ne_strerror ne e)
      end
  end.

(** The constructor; the result is [server_endpoint()]. *)
Definition control_connection (c : Config) (host_override : bytes) (port_override : Z) : M Session Endpoint :=
  let host := if empty host_override then c_server_host c else host_override in
  let port := if negb (port_override =? 0) then port_override else c_server_port c in
  let* candidates := mlift (resolve (ne_getaddrinfo ne) (ne_gai_strerror ne) host port) in
  let* found := on_net (connect_first candidates []) in
  match found with
  | inl e => mret e
  | inr last_error =>
      fail_user (str "cannot reach the rendezvous server at " ++ host ++ str ":" ++ to_string port ++
                 (if empty last_error then [] else str " (" ++ last_error ++ str ")"))
  end.

Definition should_include_loopback : bool :=
  match ne_allow_loopback ne with
  | Some value => negb (empty value) && negb (bool_decide (value = str "0"))
  | None => false
  end.

(** The sockets and the family of the UDP one. *)
Definition prepare_sockets (se : session_env) (server_endpoint : Endpoint) : M Session (LocalSockets * Z) :=
  let* opened := mlift (open_local_sockets (ne_interfaces ne should_include_loopback) (se_binds se)) in
  let* sockets := on_net (discover_reflexive_address opened.1 opened.2 server_endpoint) in
  mret (sockets, opened.2).

Definition x25519_generate (secret : bytes) : X25519KeyPair := mk_X25519KeyPair secret (x25519_public secret).

Definition kTcpBudgetMs : Z := 1500.
Definition kUdpBudgetMs : Z := 4000.

(** The request for a path, from an introduction. *)
Definition transport_request (is_sender : bool) (i : Introduction) : TransportRequest :=
  mk_TransportRequest is_sender (in_peer_candidates i) (handshake_key (in_keys i)) (in_transport_hint i)
    kTcpBudgetMs kUdpBudgetMs (in_pairing_id i).

(** The end of a conversation: over the relay the channel had the control connection. *)
Definition hang_up (channel : ChannelPtr) : M Session unit :=
  do* on_net (mmodify (fun n => match channel with OverRelay l => set_control (Some (control_ l)) n | _ => n end)) in
  on_control_stream say_goodbye.

(** * Sending to one peer *)

Record transfer_env := mk_transfer_env {
  te_session : session_env;
  te_sender : sender_env;
  te_source : source_fs;
  te_sched : list turn;
}.

Definition party (c : Config) (i : Identity) (se : session_env) : Party :=
  mk_Party (c_username c) i (x25519_generate (se_secret se)).

(** From the connection to the server up to a channel. *)
Definition open_send (c : Config) (i : Identity) (args : CommandLine) (te : transfer_env) (target public_password group_name : bytes)
  : M Session (Introduction * ChannelPtr) :=
  let se := te_session te in
  let* server := control_connection c (server_host args) (server_port args) in
  let* sockets := prepare_sockets se server in
  let self := party c i se in
  do* on_control_stream (say_hello Sender (c_username c) i (session_key self) sockets.1) in
  let* introduction := on_peer (request_introduction (ne_peers ne) (ne_prefers_aes ne) self target public_password
                                  (force_transport args) group_name) in
  let* channel := on_net (establish_channel sockets.2 (se_udp se) (transport_request true introduction)) in
  mret (introduction, channel).

Definition send_options (c : Config) (args : CommandLine) : SendOptions :=
  mk_SendOptions (if encrypt_set args then encrypt args else c_encrypt_by_default c)
    (if verify_set args then verify args else c_verify_digests c) kDefaultChunkSize 0.

Definition send_to_one (c : Config) (i : Identity) (m : Manifest) (args : CommandLine) (te : transfer_env)
    (target public_password group_name : bytes) : M Session Z :=
  let* opened := open_send c i args te target public_password group_name in
  let '(sent, channel) := send_transfer (te_sender te) (te_source te) m (in_keys opened.1) (c_username c)
    (send_options c args) (te_sched te) opened.2 in
  do* mlift sent in
  let '(closed, channel) := close_gracefully channel in
  do* mlift closed in
  do* hang_up channel in
  mret 0.

(** * Accepting one transfer *)

Record accept_env := mk_accept_env {
  ae_session : session_env;
  ae_dest : dest_env;
  ae_disk : list tx_event;
  ae_sched : list (list wturn);
  ae_fuel : nat;
}.

(** What [accept] settled before it connects. *)
Record Accepting := mk_Accepting {
  ac_config : Config;
  ac_identity : Identity;
  ac_public_password : bytes;
  ac_output_directory : bytes;
}.

Definition personal_password_key (a : Accepting) : bytes :=
  derive_public_password_key (ac_public_password a) (c_username (ac_config a)).

Definition receive_options (a : Accepting) (args : CommandLine) : ReceiveOptions :=
  mk_ReceiveOptions (ac_output_directory a) (negb (assume_yes args) && c_prompt_before_accepting (ac_config a)) false
    (if verify_set args then verify args else c_verify_digests (ac_config a)) 0.

(** The files received so far and the keys typed for a group's password. *)
Record Acceptor := mk_Acceptor { a_session : Session; a_input : list in_event; a_files : gmap bytes dfile }.

Definition on_session {A} (m : M Session A) : M Acceptor A :=
  mzoom a_session (fun s a => mk_Acceptor s (a_input a) (a_files a)) m.
Definition at_prompt {A} (m : M (list in_event) A) : M Acceptor A :=
  mzoom a_input (fun i a => mk_Acceptor (a_session a) i (a_files a)) m.

(** The key of the group's password, asked for once. *)
Definition group_password_key (a : Accepting) (group : bytes) (cached : option bytes) : M Acceptor bytes :=
  match cached with
  | Some key => mret key
  | None =>
      let* status := on_session (on_control_stream (query_group group)) in
      let* password := (if negb (gs_exists status) then mret (ac_public_password a) else at_prompt read_password) in
      mret (derive_public_password_key password group)
  end.

(** Announcing: the group's key afterwards, [None] where there is no group. *)
Definition announce (a : Accepting) (args : CommandLine) (cached : option bytes) : M Acceptor (option bytes) :=
  if empty (group args) then mret cached
  else
    let* key := group_password_key a (group args) cached in
    let* result := on_session (on_control_stream (join_group (group args) key)) in
    match gr_outcome result with
    | OutCreated | OutJoined | OutAlreadyMember => mret (Some key)
    | OutWrongPassword => fail_user (str "wrong password for group '" ++ group args ++ str "'")
    | OutFull => fail_user (str "group '" ++ group args ++ str "' is full")
    | OutInvalidName => fail_user (str "'" ++ group args ++ str "' is not a usable group name")
    end.

(** From the connection to the server up to a channel; [None] is the timeout. *)
Definition open_accept (a : Accepting) (args : CommandLine) (ae : accept_env) (cached : option bytes)
  : M Acceptor (option (Introduction * ChannelPtr) * option bytes) :=
  let se := ae_session ae in
  let* server := on_session (control_connection (ac_config a) (server_host args) (server_port args)) in
  let* sockets := on_session (prepare_sockets se server) in
  let self := party (ac_config a) (ac_identity a) se in
  do* on_session (on_control_stream (say_hello Receiver (c_username (ac_config a)) (ac_identity a) (session_key self) sockets.1)) in
  let* key := announce a args cached in
  let* introduction := on_session (on_peer (await_introduction (ne_peers ne) (ne_prefers_aes ne) self (personal_password_key a)
                                              key (group args) (force_transport args) 0 (se_waits se))) in
  match introduction with
  | None => mret (None, key)
  | Some i =>
      let* channel := on_session (on_net (establish_channel sockets.2 (se_udp se) (transport_request false i))) in
      mret (Some (i, channel), key)
  end.

(** [receive_transfer] on the files there are. *)
Definition receive_into (ae : accept_env) (keys : SessionKeys) (peer_username : bytes) (o : ReceiveOptions) (channel : ChannelPtr)
  : M Acceptor (ReceiveResult * ChannelPtr) := fun w =>
  let '(r, s) := receive_transfer (ae_dest ae) keys (ae_fuel ae) peer_username o
    (mk_recv ChannelPtr channel (a_files w) (ae_disk ae) [] (new_pool 0 0) (mk_BufferPool 0 []) (mk_BufferPool 0 []) 0 (ae_sched ae)) in
  (match r with Ok result => Ok (result, r_channel s) | Err e => Err e end, mk_Acceptor (a_session w) (a_input w) (r_fs s)).

(** One turn of the outer loop; the inner loop ends in every case after one round. [inl] is
    the value returned, [inr] connects again with the group's key. *)
Definition accept_turn (a : Accepting) (args : CommandLine) (ae : accept_env) (cached : option bytes) : M Acceptor (Z + option bytes) :=
  let* opened := open_accept a args ae cached in
  match opened.1 with
  | None => do* on_session (on_control_stream say_goodbye) in mret (inl 0)
  | Some (i, channel) =>
      let* received := receive_into ae (in_keys i) (in_peer_username i) (receive_options a args) channel in
      let '(closed, channel) := close_gracefully received.2 in
      do* mlift closed in
      do* on_session (hang_up channel) in
      mret (if once args then inl 0 else inr opened.2)
  end.

Fixpoint accept_turns (a : Accepting) (args : CommandLine) (envs : list accept_env) (cached : option bytes) : M Acceptor Z :=
  match envs with
  | [] => mthrow Blocks
  | ae :: envs =>
      let* turn := accept_turn a args ae cached in
      match turn with
      | inl code => mret code
      | inr key => accept_turns a args envs key
      end
  end.
End Conversation.

(** * Whoever is at the other end *)

(** An outcome: a value and a state with [Q], or an exception of the program. *)
Definition ends {S A} (Q : A -> S -> Prop) (o : result A * S) : Prop :=
  match o.1 with Ok a => Q a o.2 | Err e => e <> OutOfBounds end.

Section Ends.
Context {S A B : Type}.

Lemma ends_bind (Q : A -> S -> Prop) (Q' : B -> S -> Prop) m k s :
  ends Q (m s) -> (forall a s', Q a s' -> ends Q' (k a s')) -> ends Q' (mbind m k s).
Proof. unfold ends, mbind. destruct (m s) as [[a|e] s']; [|done]. intros Hq Hk. by apply Hk. Qed.

Lemma ends_lift (Q : A -> S -> Prop) r s :
  match r with Ok a => Q a s | Err e => e <> OutOfBounds end -> ends Q (mlift r s).
Proof. done. Qed.

Lemma ends_weaken (Q Q' : A -> S -> Prop) o : ends Q o -> (forall a s, Q a s -> Q' a s) -> ends Q' o.
Proof. unfold ends. destruct o as [[a|e] s]; [|done]. cbn. auto. Qed.

Lemma ends_zoom {T} (Q : A -> T -> Prop) (Q' : A -> S -> Prop) (get : S -> T) set m s :
  ends Q (m (get s)) -> (forall a t, Q a t -> Q' a (set t s)) -> ends Q' (mzoom get set m s).
Proof. unfold ends, mzoom. destruct (m (get s)) as [[a|e] t]; [|done]. cbn. auto. Qed.
End Ends.

(** The sockets the network has in store give bytes. *)
Definition sockets_ok (n : net) : Prop := forall s, ConnectNow s ∈ n_connects n -> rx_ok (rx s).

(** The control connection is open, and the record is [k]. *)
Definition connected (k : KnownPeers) (s : Session) : Prop :=
  s_known s = k /\ exists c, n_control (s_net s) = Some c /\ rx_ok (rx c).

Lemma connect_first_ends ne candidates last n :
  sockets_ok n -> ends (fun r n' => forall e, r = inl e -> exists c, n_control n' = Some c /\ rx_ok (rx c)) (connect_first ne candidates last n).
Proof.
  revert last n. induction candidates as [|candidate cs IH]; intros last n Hn; [done|]. cbn [connect_first]. unfold mbind at 1, answer.
  destruct (n_connects n) as [|ev evs] eqn:E; [done|].
  assert (sockets_ok (set_connects evs n)) as Hn' by (intros s Hs; apply Hn; rewrite E; by right).
  destruct ev as [|s|e s]; [by apply IH| |by apply IH]. intros e [= <-]. exists s. split; [done|]. apply Hn. rewrite E. by left.
Qed.

Lemma control_connection_ends ne c host port s :
  sockets_ok (s_net s) -> ends (fun _ s' => connected (s_known s) s') (control_connection ne c host port s).
Proof.
  intros Hs. unfold control_connection. eapply (ends_bind (fun _ s' => s' = s)).
  { apply ends_lift. pose proof (resolve_error (ne_getaddrinfo ne) (ne_gai_strerror ne) (if empty host then c_server_host c else host)
      (if negb (port =? 0) then port else c_server_port c)) as Hr. destruct (resolve _ _ _ _); [done|congruence]. }
  intros candidates ? ->. eapply ends_bind.
  { eapply (ends_zoom _ (fun r s' => forall e, r = inl e -> connected (s_known s) s')); [by apply connect_first_ends|].
    intros r n' Hr e He. split; [done|]. by eapply Hr. }
  intros [e|last] s' Hs'; [|done]. by eapply Hs'.
Qed.

(** ** The network between two calls on the control connection *)

Lemma net_probe_server n0 target n : later n0 n -> net_out n0 (fun _ => True) (probe_server target n).
Proof.
  intros Hn. eapply net_bind; [by apply net_sendto|]. intros written n1 H1 _. destruct (negb _); [by apply net_ret|].
  eapply net_bind; [by apply net_wait|]. intros ready n2 H2 _. destruct (negb _); [by apply net_ret|].
  eapply net_bind; [apply net_answer; [done|later_tail]|]. intros d n3 H3 _. destruct d as [data addr alen|e]; [|by apply net_ret].
  cbv zeta. destruct (len _ <=? 0); by apply net_ret.
Qed.

Lemma net_probe_loop n0 target tries : forall n, later n0 n -> net_out n0 (fun _ => True) (probe_loop tries target n).
Proof.
  induction tries as [|tries IH]; intros n Hn; [by apply net_ret|]. cbn [probe_loop].
  eapply net_bind; [by apply net_probe_server|]. intros [e|] n1 H1 _; [by apply net_ret|by apply IH].
Qed.

Lemma net_reflexive n0 sockets family server n :
  later n0 n -> net_out n0 (fun _ => True) (discover_reflexive_address sockets family server n).
Proof.
  intros Hn. unfold discover_reflexive_address. destruct (adapt_endpoint_for_socket _ _) as [target|]; [|by apply net_ret].
  eapply net_bind; [by apply net_probe_loop|]. intros [e|] n1 H1 _; by apply net_ret.
Qed.

Lemma on_net_ends {A} n0 (Q : A -> Prop) (m : M net A) k s :
  connected k s -> n0 = s_net s -> net_out n0 Q (m n0) -> ends (fun a s' => Q a /\ connected k s') (on_net m s).
Proof.
  intros (Hk & c & Hc & Hrx) -> Hm. unfold on_net, mzoom, ends, net_out in *. destruct (m (s_net s)) as [[a|e] n']; [|done].
  destruct Hm as [(_ & _ & _ & Hl) Hq]. split; [done|]. split; [done|]. exists c. cbn in *. by rewrite Hl.
Qed.

Lemma bind_listener_error port a : bind_listener port a <> Err OutOfBounds.
Proof. unfold bind_listener. by destruct (ba_v6 a), (ba_v4 a), (ba_bound a), (ba_listening a). Qed.

Lemma bind_udp_error port a : bind_udp port a <> Err OutOfBounds.
Proof. unfold bind_udp. by destruct (ba_v6 a), (ba_v4 a), (ba_bound a). Qed.

Lemma find_port_error attempts answers : find_port attempts answers <> Err OutOfBounds.
Proof.
  revert answers. induction attempts as [|attempts IH]; intros [|a answers]; try done. cbn [find_port].
  pose proof (bind_listener_error 0 a). destruct (bind_listener 0 a) as [[[f port]|]|e]; [|apply IH|congruence].
  destruct answers as [|b answers]; [done|]. pose proof (bind_udp_error port b).
  destruct (bind_udp port b) as [[[f' p']|]|e]; [done|apply IH|congruence].
Qed.

Lemma prepare_sockets_ends ne se server k s : connected k s -> ends (fun _ s' => connected k s') (prepare_sockets ne se server s).
Proof.
  intros Hs. unfold prepare_sockets. eapply (ends_bind (fun _ s' => s' = s)).
  { apply ends_lift. unfold open_local_sockets. pose proof (find_port_error kPortAttempts (se_binds se)).
    destruct (find_port _ _) as [[[port f]|]|e]; [done|done|congruence]. }
  intros opened ? ->. eapply ends_bind; [eapply on_net_ends; [done|done|by apply net_reflexive]|].
  intros sockets s' [_ Hs']. done.
Qed.

(** ** The control connection *)

Lemma on_peer_ends {A} K (Q : A -> Peer -> Prop) (m : M Peer A) k s :
  connected k s ->
  (forall c, n_control (s_net s) = Some c -> rx_ok (rx c) -> peer_out K Q (m (mk_Peer c k (n_clock (s_net s))))) ->
  ends (fun a s' => exists p, Q a p /\ connected (known p) s' /\ n_control (s_net s') = Some (control p)) (on_peer m s).
Proof.
  intros (Hk & c & Hc & Hrx) Hm. unfold on_peer, ends. rewrite Hc, Hk. specialize (Hm c Hc Hrx) as (H1 & _ & H3).
  destruct (m _) as [[a|e] p]; [|done]. cbn in *. exists p. split; [done|]. split; [|done]. split; [done|]. by exists (control p).
Qed.

Lemma control_stream_ends {A} (P : A -> Prop) (m : M ksock A) k s :
  connected k s -> (forall c, rx_ok (rx c) -> any_outcome (fun c => rx_ok (rx c)) P c (m c)) ->
  ends (fun a s' => P a /\ connected k s') (on_control_stream m s).
Proof.
  intros Hs Hm. eapply ends_weaken.
  - eapply (on_peer_ends (fun _ => True) (fun a p => P a /\ known p = k)); [done|]. intros c _ Hrx. by apply (peer_stream _ P); [|apply Hm].
  - intros a s' (p & [Hp <-] & Hc & _). done.
Qed.

Lemma wire_decode_any {A} `{WireMessage A} b :
  bytes_ok b -> match wm_decode b with Ok _ => True | Err e => e <> OutOfBounds end.
Proof. intros Hb. pose proof (wm_sound b Hb) as Hs. destruct (wm_decode b); [done|]. by intros ->. Qed.

Abbreviation stream_any := (any_outcome (fun c : ksock => rx_ok (rx c))).

Lemma lift_any {A} (P : A -> Prop) (r : result A) (c : ksock) :
  rx_ok (rx c) -> match r with Ok a => P a | Err e => e <> OutOfBounds end -> stream_any P c (mlift r c).
Proof. intros Hc Hr. split_and!; [done..|]. exact Hr. Qed.

Lemma catch_any {A} (P : A -> Prop) (m handler : M ksock A) c :
  stream_any P c (m c) -> (forall c', rx_ok (rx c') -> stream_any P c' (handler c')) -> stream_any P c (mcatch m handler c).
Proof.
  intros Hm Hh. unfold mcatch. destruct (m c) as [[a|e] c']; [done|]. destruct (is_dz_error e); [|done].
  destruct Hm as (Hc' & Hs & _). eapply any_trans; [exact Hs|by apply Hh].
Qed.

(** A request and the answer of a given type, decoded. *)
Lemma exchange_any {A} (decode : bytes -> result A) t payload_ answer_t c :
  (forall b, bytes_ok b -> match decode b with Ok _ => True | Err e => e <> OutOfBounds end) -> rx_ok (rx c) ->
  stream_any (fun _ => True) c
    ((do* write_frame t payload_ 0 in let* frame := read_expected answer_t in mlift (decode (payload frame))) c).
Proof.
  intros Hd Hc. eapply any_bind; [by apply write_frame_any|]. intros [] c1 _ H1 _.
  eapply any_bind; [by apply read_expected_any|]. intros f c2 Hf H2 _. apply lift_any; [done|by apply Hd].
Qed.

Lemma say_hello_any role username i key sockets c :
  rx_ok (rx c) -> stream_any (fun _ => True) c (say_hello role username i key sockets c).
Proof.
  intros Hc. unfold say_hello. eapply any_bind; [by apply write_frame_any|]. intros [] c1 _ H1 _.
  eapply any_bind; [by apply read_expected_any|]. intros f c2 Hf H2 _.
  pose proof (wire_decode_any (A := ServerHello) _ Hf) as Hd. cbn in Hd.
  eapply (any_bind _ (fun _ => True)); [apply lift_any; [done|]; by destruct (ServerHello_decode _)|].
  intros reply c3 _ H3 _. by destruct (negb _).
Qed.

Lemma say_goodbye_any c : rx_ok (rx c) -> stream_any (fun _ => True) c (say_goodbye c).
Proof. intros Hc. apply catch_any; [by apply write_frame_any|]. done. Qed.

Lemma query_group_any name c : rx_ok (rx c) -> stream_any (fun _ => True) c (query_group name c).
Proof. intros Hc. apply catch_any; [|done]. apply exchange_any; [exact (wire_decode_any (A := GroupStatus))|done]. Qed.

Lemma join_group_any `{Openssl} name key c : rx_ok (rx c) -> stream_any (fun _ => True) c (join_group name key c).
Proof. intros Hc. apply catch_any; [|done]. apply exchange_any; [exact (wire_decode_any (A := GroupResult))|done]. Qed.

(** ** Both ends *)

Section Authenticated.
Context `{AeadCipher} `{Openssl} (ne : net_env).

(** What [send_to_one] knows of the end it sends to: the receiver proved the public
    password and its identity, which is on record, and the path proved the key the two
    agreed on. *)
Definition reached (c : Config) (i : Identity) (args : CommandLine) (te : transfer_env) (target public_password group_name : bytes)
    (k0 k : KnownPeers) (opened : Introduction * ChannelPtr) : Prop :=
  exists p p' n,
    known p = k0 /\ known p' = k /\ n_control n = Some (control p') /\
    authentic_receiver (ne_prefers_aes ne) (party c i (te_session te)) target public_password group_name (force_transport args) p p' opened.1 /\
    proven_path (se_udp (te_session te)) (transport_request true opened.1) n opened.2.

Lemma open_send_ends c i args te target public_password group_name s :
  sockets_ok (s_net s) ->
  ends (fun opened s' => reached c i args te target public_password group_name (s_known s) (s_known s') opened)
    (open_send ne c i args te target public_password group_name s).
Proof.
  intros Hs. unfold open_send. eapply ends_bind; [by apply control_connection_ends|]. intros server s1 H1.
  eapply ends_bind; [by apply (prepare_sockets_ends _ _ _ (s_known s))|]. intros sockets s2 H2.
  eapply ends_bind; [by apply (control_stream_ends (fun _ => True) _ (s_known s)); [|apply say_hello_any]|]. intros hello s3 [_ H3].
  eapply ends_bind.
  { eapply (on_peer_ends (fun _ => True) (fun a p' => exists p, known p = s_known s /\
      authentic_receiver (ne_prefers_aes ne) (party c i (te_session te)) target public_password group_name (force_transport args) p p' a)); [done|].
    intros control Hc Hrx. eapply peer_weaken; [by apply request_any|]. intros a p' Ha. eexists. split; [|exact Ha]. done. }
  intros introduction s4 (p' & (p & Hp & Ha) & (Hk & c4 & Hc4 & Hrx4) & Hc).
  unfold on_net, mbind, mzoom.
  pose proof (establish_any sockets.2 (se_udp (te_session te)) (transport_request true introduction) (s_net s4)) as He.
  destruct (establish_channel _ _ _ _) as [[channel|e] n'].
  - exists p, p', (s_net s4). split_and!; [done|by rewrite <- Hk|done|done|]. apply He. intros s' Hs'. congruence.
  - apply He. intros s' Hs'. congruence.
Qed.

Lemma hang_up_known channel s r s' : hang_up channel s = (r, s') -> s_known s' = s_known s.
Proof.
  unfold hang_up, on_control_stream, on_peer, on_net, mmodify, mzoom, mbind. cbn [s_net s_known].
  destruct (n_control _); [|by intros [= <- <-]]. unfold on_stream, mzoom. destruct (say_goodbye _). by intros [= <- <-].
Qed.

Lemma relay_encrypts c i m args te opened sent channel :
  send_transfer (te_sender te) (te_source te) m (in_keys i) (c_username c) (send_options c args) (te_sched te) opened = (Ok sent, channel) ->
  ch_kind opened = ServerRelay -> so_encrypt (send_options c args) = true.
Proof.
  unfold send_transfer. destruct (so_encrypt _); [done|]. intros E Hk. rewrite bool_decide_eq_true_2 in E by done. done.
Qed.


(** ** Accepting *)

(** What [accept] knows of the end it receives from. *)
Definition answered (a : Accepting) (args : CommandLine) (ae : accept_env) (key : option bytes) (k0 k : KnownPeers)
    (opened : Introduction * ChannelPtr) : Prop :=
  exists p' n,
    known p' = k /\ n_control n = Some (control p') /\
    authentic_sender (ne_prefers_aes ne) (party (ac_config a) (ac_identity a) (ae_session ae)) (personal_password_key a) key
      (group args) (force_transport args) k0 p' opened.1 /\
    proven_path (se_udp (ae_session ae)) (transport_request false opened.1) n opened.2.

Lemma on_session_ends {A} (Q : A -> Session -> Prop) (m : M Session A) w :
  ends Q (m (a_session w)) -> ends (fun x w' => Q x (a_session w')) (on_session m w).
Proof. intros Hm. by eapply ends_zoom; [exact Hm|]. Qed.

Lemma on_session_control {A} (m : M ksock A) k w :
  connected k (a_session w) -> (forall c, rx_ok (rx c) -> stream_any (fun _ => True) c (m c)) ->
  ends (fun _ w' => connected k (a_session w')) (on_session (on_control_stream m) w).
Proof.
  intros Hw Hm. eapply ends_weaken; [apply on_session_ends, (control_stream_ends (fun _ => True) _ k); done|]. by intros ? ? [].
Qed.

Lemma announce_ends a args cached k w :
  connected k (a_session w) -> ends (fun _ w' => connected k (a_session w')) (announce a args cached w).
Proof.
  intros Hw. unfold announce. destruct (empty _); [done|].
  eapply (ends_bind (fun _ w' => connected k (a_session w'))).
  { unfold group_password_key. destruct cached; [done|]. eapply ends_bind; [apply on_session_control; [done|by apply query_group_any]|].
    intros status w1 H1. eapply (ends_bind (fun _ w' => connected k (a_session w'))); [|done].
    destruct (negb _); [done|]. unfold at_prompt, mzoom, read_password. by destruct (read_raw_line _ _). }
  intros key w1 H1. eapply ends_bind; [apply on_session_control; [done|by apply join_group_any]|].
  intros result w2 H2. by destruct (gr_outcome result).
Qed.

Lemma open_accept_ends a args ae cached w :
  sockets_ok (s_net (a_session w)) ->
  ends (fun o w' => match o.1 with
                    | Some opened => answered a args ae o.2 (s_known (a_session w)) (s_known (a_session w')) opened
                    | None => s_known (a_session w') = s_known (a_session w)
                    end) (open_accept ne a args ae cached w).
Proof.
  intros Hw. set (k := s_known (a_session w)). unfold open_accept.
  eapply ends_bind; [by apply on_session_ends, control_connection_ends|]. intros server w1 H1.
  eapply ends_bind; [by apply on_session_ends, (prepare_sockets_ends _ _ _ k)|]. intros sockets w2 H2.
  eapply ends_bind; [by apply (on_session_control _ k); [|intros; apply say_hello_any]|]. intros hello w3 H3.
  eapply ends_bind; [by apply (announce_ends _ _ _ k)|]. intros key w4 H4.
  eapply ends_bind.
  { apply on_session_ends. eapply (on_peer_ends (pinned_only_proven _ _ _ _ k) (awaited _ _ _ _ _ _ k)); [exact H4|]. intros c Hc Hrx.
    by apply (await_any _ _ _ _ _ _ _ _ _ (mk_Peer c k _)). }
  intros [i|] w5 (p' & Ha & (Hk & c5 & Hc5 & Hrx5) & Hc); [|by cbn in *; congruence].
  unfold on_session, on_net, mbind, mzoom.
  pose proof (establish_any sockets.2 (se_udp (ae_session ae)) (transport_request false i) (s_net (a_session w5))) as He.
  destruct (establish_channel _ _ _ _) as [[channel|e] n'].
  - exists p', (s_net (a_session w5)). split_and!; [by rewrite <- Hk|done|exact Ha|]. apply He. intros s' Hs'. congruence.
  - apply He. intros s' Hs'. congruence.
Qed.

End Authenticated.

(** * The theorems at work: one whole transfer *)

(** [ann] sends the two files of [sample_manifest] to [bob] over TCP; the server is one that
    introduces them. *)
Definition ann_config : Config := mk_Config (str "ann") (str "rv") 4000 [] true false false (replicate 16 7) (str "/h/ann").
Definition bob_config : Config := mk_Config (str "bob") (str "rv") 4000 [] true false false (replicate 16 7) (str "/h/bob").

Definition sample_ne : net_env :=
  mk_net_env (fun _ _ => inl [(addr_a, 16)]) (fun _ => []) (fun _ => []) None (fun _ => [addr_a]) sample_peers_env true.

Definition sample_se (secret : Z) : session_env :=
  mk_session_env [mk_bind_answer true None true true 5000; mk_bind_answer true None true true 5000] (replicate 32 secret) stream_kA [true].

Definition sample_te : transfer_env :=
  mk_transfer_env (sample_se 2) (mk_sender_env sample_sha256 (replicate 12 5) 2) (sample_fs sample_names) [].

Definition sample_ae : accept_env :=
  mk_accept_env (sample_se 4)
    (mk_dest_env (fun _ => None) (fun _ => None) (fun _ _ => None) (fun _ => None) (fun _ => None) (str "cwd") true 2 sample_sha256)
    [] [] 10.

Definition send_args : CommandLine := with_transport (with_target (with_command CommandLine_default CmdSend) (str "bob")) DirectTcp.
Definition accept_args : CommandLine := with_once (with_command CommandLine_default CmdAccept).

Definition hello_frame : bytes :=
  frame_bytes ServerHelloT 0 (ServerHello_encode (mk_ServerHello true (str "hi") addr_a addr_a 300)).

Definition stream_of (incoming : bytes) : ksock := mk_ksock [RxData incoming] (replicate 40 (TxWrote 4000)) [].

(** The network of a client whose server says hello and then [i]. *)
Definition sample_net (t : MessageType) (i : PeerIntroduction) (dialled accepted : list ksock) : net :=
  mk_net (Z.of_nat <$> seq 0 40) [Ready false; Ready false; Ready false; Ready true]
    (ConnectNow (stream_of (hello_frame ++ frame_bytes t 0 (PeerIntroduction_encode i))) :: (ConnectErrno EINPROGRESS <$> dialled))
    [PollEvents [true]] [Some 0] ((fun s => Accepted s addr_a 16) <$> accepted) [] [] [] None.

Definition sample_handshake : bytes :=
  match (request_introduction (H := toy_openssl) sample_peers_env true ann (str "bob") (str "open sesame") DirectTcp []
           (sample_peer MatchedT sample_matched)).1 with
  | Ok i => handshake_key (in_keys i)
  | Err _ => []
  end.

Definition bob_says : bytes :=
  own_proof (H := toy_openssl) sample_handshake false ++
  frame_bytes DecisionT 0 (TransferDecision_encode (mk_TransferDecision true [] (str "out"))) ++ frame_bytes TransferAckT 0 [].

Definition ann_session : Session := mk_Session no_peers (sample_net MatchedT sample_matched [stream_of bob_says] []).

Abbreviation ann_sends :=
  (send_to_one (H := plain_cipher) (H0 := toy_openssl) sample_ne ann_config (pa_identity ann) sample_manifest send_args sample_te
    (str "bob") (str "open sesame") [] ann_session).

Lemma ann_sends_ok : exists s', ann_sends = (Ok 0, s').
Proof. eexists. vm_compute. reflexivity. Qed.

(** What [ann] put on the connection. *)
Definition ann_says : bytes :=
  match (open_send (H0 := toy_openssl) sample_ne ann_config (pa_identity ann) send_args sample_te (str "bob") (str "open sesame") [] ann_session).1 with
  | Ok opened =>
      match (send_transfer (H0 := plain_cipher) (te_sender sample_te) (te_source sample_te) sample_manifest (in_keys opened.1) (str "ann")
               (send_options ann_config send_args) [] opened.2).2 with
      | OverTcp s _ => wire s
      | _ => []
      end
  | Err _ => []
  end.

Definition bob_accepting : Accepting := mk_Accepting bob_config (pa_identity bob) (str "open sesame") (str "out").

Definition bob_acceptor (incoming : bytes) : Acceptor :=
  mk_Acceptor (mk_Session no_peers (sample_net IncomingT sample_incoming [] [stream_of incoming])) [] ∅.

Abbreviation bob_accepts incoming :=
  (accept_turn (H := plain_cipher) (H0 := toy_openssl) sample_ne bob_accepting accept_args sample_ae None (bob_acceptor incoming)).

Lemma bob_accepts_ok : exists w', bob_accepts ann_says = (Ok (inl 0), w') /\
  df_content <$> a_files w' !! str "out/d/x" = Some [1; 2; 3] /\ len (peers_ (s_known (a_session w'))) = 1.
Proof. eexists. split; [vm_compute; reflexivity|]. split; vm_compute; reflexivity. Qed.

Lemma sample_sockets_ok t i dialled accepted :
  bytes_ok (hello_frame ++ frame_bytes t 0 (PeerIntroduction_encode i)) -> sockets_ok (sample_net t i dialled accepted).
Proof.
  intros Hb s Hs. cbn in Hs. apply elem_of_cons in Hs as [Hs|Hs].
  - injection Hs as ->. constructor; [exact Hb|constructor].
  - apply list_elem_of_fmap in Hs as (x & [=] & _).
Qed.



(** [ann] connects and hangs up before the offer. *)
Definition hangs_up : Acceptor :=
  mk_Acceptor (mk_Session no_peers (sample_net IncomingT sample_incoming []
    [mk_ksock [RxData (own_proof (H := toy_openssl) sample_handshake true); RxEof] (replicate 40 (TxWrote 4000)) []])) [] ∅.

(** A sender that hangs up in the middle ends [accept] as a whole, also when it was not
    told to stop after one transfer: no further turn is made. *)
Theorem broken_transfer_ends_accept later_turns :
  (accept_turns (H := plain_cipher) (H0 := toy_openssl) sample_ne bob_accepting (with_command CommandLine_default CmdAccept)
     (sample_ae :: later_turns) None hangs_up).1 = Err PeerClosed.
Proof. vm_compute. reflexivity. Qed.
