(* ===== verification/Program.v ===== *)
(** The client program, [client/src/main.cpp]: [command_send], [command_accept], [run] and
    [main].

    [World] is the machine, the network and the files received. The record of known peers is
    read when a command starts and is on disk whenever it is not in use. *)

From S2P Require Import Prelude Endian Socket Frame Protocol Paths Messages Channel Text Getopt Cli Storage KnownPeers Config Crypto.
From S2P Require Import Identity Log Client Handshake ReliableUdp UdpStream Transport Manifest Pipeline AeadPool Sender Receiver Session.

Record World := mk_World { w_machine : Machine; w_net : net; w_files : gmap bytes dfile }.

Definition on_machine {A} (m : cmd A) : M World A :=
  mzoom w_machine (fun x w => mk_World x (w_net w) (w_files w)) m.

(** A command that has the record of known peers at [path] in memory. *)
Definition with_known_peers {A} (path : bytes) (body : M Acceptor A) : M World A := fun w =>
  let d := file_at path (w_machine w) in
  let known := (load (mk_KnownPeers [] (df_file d) (df_tmp d))).2 in
  let '(r, a) := body (mk_Acceptor (mk_Session known (w_net w)) (m_input (w_machine w)) (w_files w)) in
  let after := s_known (a_session a) in
  (r, mk_World (mk_Machine (<[path := mk_disk_file (known_file after) (known_tmp after)]> (m_disk (w_machine w))) (a_input a) (m_output (w_machine w)))
        (s_net (a_session a)) (a_files a)).

(** What the threads of a command will meet: the walk over the inputs, the conversation of a
    single send, the one that asks for the roster, those of the members with their networks,
    the order in which the members' threads come to the record, and the turns of [accept]. *)
Record program_env := mk_program_env {
  pe_client : client_env;
  pe_net : net_env;
  pe_about : list bytes;
  pe_fuel : nat;
  pe_send : transfer_env;
  pe_roster : session_env;
  pe_members : list (transfer_env * net);
  pe_order : list nat;
  pe_turns : list accept_env;
}.

Section Program.
Context `{AeadCipher} `{Openssl} (env : program_env).

(** * [send] *)

(** The roster, on a connection of its own. *)
Definition fetch_roster (c : Config) (i : Identity) (args : CommandLine) : M Session (list bytes) :=
  let* server := control_connection (pe_net env) c (server_host args) (server_port args) in
  let* sockets := prepare_sockets (pe_net env) (pe_roster env) server in
  do* on_control_stream (say_hello Sender (c_username c) i (session_key (party c i (pe_roster env))) sockets.1) in
  let* members := on_control_stream (request_group_roster (group args)) in
  do* on_control_stream say_goodbye in
  mret (gro_usernames members).

(** One worker thread; the caught error goes to [errors[i]]. *)
Definition send_to_member (c : Config) (i : Identity) (m : Manifest) (args : CommandLine) (public_password member : bytes)
    (te : transfer_env) (n : net) : M KnownPeers (option exn) := fun k =>
  let '(r, s) := send_to_one (pe_net env) c i m args te member public_password (group args) (mk_Session k n) in
  (match r with
   | Ok _ => Ok None
   | Err e => if is_dz_error e then Ok (Some e) else Err e
   end, s_known s).

Fixpoint run_members (c : Config) (i : Identity) (m : Manifest) (args : CommandLine) (public_password : bytes) (roster : list bytes)
    (order : list nat) (errors : list (option exn)) : M KnownPeers (list (option exn)) :=
  match order with
  | [] => mret errors
  | j :: order =>
      match roster !! j, pe_members env !! j with
      | Some member, Some (te, n) =>
          let* e := send_to_member c i m args public_password member te n in
          run_members c i m args public_password roster order (<[j := e]> errors)
      | _, _ => mthrow OutOfBounds
      end
  end.

Definition failures (errors : list (option exn)) : Z := len (filter is_Some errors).

Definition send_to_group (c : Config) (i : Identity) (m : Manifest) (args : CommandLine) (public_password : bytes) : M Acceptor Z :=
  let* roster := on_session (fetch_roster c i args) in
  if len roster =? 0 then
    fail_user (str "nobody in group '" ++ group args ++ str "' is accepting files right now")
  else
    let* errors := on_session (mzoom s_known (fun k s => mk_Session k (s_net s))
                     (run_members c i m args public_password roster (pe_order env) (replicate (length roster) None))) in
    if negb (failures errors =? 0) then
      fail_user (str "group send finished with " ++ to_string (failures errors) ++ str " failure" ++
                 (if failures errors =? 1 then [] else str "s") ++ str " out of " ++ to_string (len roster))
    else mret 0.

Definition command_send (args : CommandLine) : M World Z :=
  let ce := pe_client env in
  let* config := on_machine (load_config_of ce args) in
  let* manifest := mlift (build_manifest (pe_fuel env) (te_source (pe_send env)) (inputs args)) in
  let* private_password := on_machine (keyboard read_password) in
  let* identity := on_machine (unlock ce config private_password) in
  let* password := (if empty (public_password args) then on_machine (keyboard read_password) else mret (public_password args)) in
  with_known_peers (known_peers_path config)
    (if empty (group args) then
       on_session (send_to_one (pe_net env) config identity manifest args (pe_send env) (target args) password [])
     else send_to_group config identity manifest args password).

(** * [accept] *)

(** The public password: the one given for this run, the one sealed at setup, or, for a
    keystore that has none, one that is asked for and sealed. *)
Definition accept_password (args : CommandLine) (c : Config) (i : Identity) (private_password : bytes) : cmd (bytes * Identity) :=
  if negb (empty (public_password args)) then mret (public_password args, i)
  else if negb (empty (id_public_password i)) then mret (id_public_password i, i)
  else
    let* password := keyboard read_password in
    let i := mk_Identity (id_keys i) password in
    do* save_identity_file (pe_client env) c i private_password in
    mret (password, i).

Definition command_accept (args : CommandLine) : M World Z :=
  let ce := pe_client env in
  let* config := on_machine (load_config_of ce args) in
  let* private_password := on_machine (keyboard read_password) in
  let* identity := on_machine (unlock ce config private_password) in
  let* public := on_machine (accept_password args config identity private_password) in
  let directory := if empty (output_directory args) then c_default_output_directory config
                   else expand_user_path (ce_home ce) (output_directory args) in
  let* directory := (if empty directory then mlift (current_directory ce) else mret directory) in
  do* mlift (mkdirs (ce_mkdir ce) (make_directories directory)) in
  with_known_peers (known_peers_path config)
    (accept_turns (pe_net env) (mk_Accepting config public.2 public.1 directory) args (pe_turns env) None).

(** * [run] and [main] *)

(** The level the arguments ask for; [None] is an unknown one. *)
Definition chosen_level (args : CommandLine) : option Level :=
  if negb (empty (log_level args)) then parse_level (log_level args)
  else if quiet args then Some LevelError
  else if verbose args then Some LevelDebug
  else Some LevelWarn.

(** [print_help] ends the process with a status. *)
Definition run (argv : list bytes) : M World Z :=
  match parse_command_line argv with
  | Exits e => mret (if e is Some _ then 1 else 0)
  | Parsed args =>
      match chosen_level args with
      | None => mret 1
      | Some _ =>
          match command args with
          | CmdSetup => on_machine (command_setup (pe_client env) (pe_fuel env) args)
          | CmdAccept => command_accept args
          | CmdSend => command_send args
          | CmdWhoAmI => on_machine (command_whoami (pe_client env) args)
          | CmdStatus => on_machine (command_status (pe_client env) (pe_about env) args)
          | CmdSetServer => on_machine (command_set_server (pe_client env) args)
          | CmdSetOutput => on_machine (command_set_output (pe_client env) args)
          | CmdSetPublicPassword => on_machine (command_set_public_password (pe_client env) args)
          | CmdVersion => mret 0
          | CmdHelp => mret 0
          | CmdNone => mret 1
          end
      end
  end.

(** Both handlers return 1. *)
Definition main (argv : list bytes) : M World Z := mcatch (run argv) (mret 1).
End Program.

(** * A send to a group *)

Section Group.
Context `{AeadCipher} `{Openssl} (env : program_env).
Context (c : Config) (i : Identity) (m : Manifest) (args : CommandLine) (password : bytes) (roster : list bytes).

(** What the thread of member [j] ended with. *)
Definition attempted (j : nat) (e : option exn) : Prop :=
  exists member te n k, roster !! j = Some member /\ pe_members env !! j = Some (te, n) /\
    match (send_to_one (pe_net env) c i m args te member password (group args) (mk_Session k n)).1 with
    | Ok _ => e = None
    | Err x => e = Some x
    end.

Lemma run_members_spec order : forall errors k,
  NoDup order -> Forall (fun j => j < length errors)%nat order ->
  match (run_members env c i m args password roster order errors k).1 with
  | Ok errors' => length errors' = length errors /\ (forall j, j ∈ order -> exists e, errors' !! j = Some e /\ attempted j e) /\
                  (forall j, j ∉ order -> errors' !! j = errors !! j)
  | Err e => is_dz_error e = false
  end.
Proof.
  induction order as [|j order IH]; intros errors k Hnd Hlt; cbn [run_members].
  { cbn. split_and!; [done| |done]. intros j Hj. by apply elem_of_nil in Hj. }
  apply NoDup_cons in Hnd as [Hj Hnd]. apply Forall_cons in Hlt as [Hjl Hlt].
  destruct (roster !! j) as [member|] eqn:Er; [|done]. destruct (pe_members env !! j) as [[te n]|] eqn:Em; [|done].
  unfold mbind, send_to_member. destruct (send_to_one _ _ _ _ _ _ _ _ _ _) as [r s] eqn:Es.
  assert (forall e, match r with Ok _ => e = None | Err x => e = Some x end ->
    match (run_members env c i m args password roster order (<[j:=e]> errors) (s_known s)).1 with
    | Ok errors' => length errors' = length errors /\ (forall j', j' ∈ j :: order -> exists e, errors' !! j' = Some e /\ attempted j' e) /\
                    (forall j', j' ∉ j :: order -> errors' !! j' = errors !! j')
    | Err e => is_dz_error e = false
    end) as Hrest.
  { intros e He. specialize (IH (<[j:=e]> errors) (s_known s) Hnd).
    rewrite length_insert in IH. specialize (IH Hlt). destruct (run_members _ _ _ _ _ _ _ _ _ _) as [[errors'|x] k']; [|done]. cbn in *.
    destruct IH as (Hl & Hin & Hout). split_and!; [done| |].
    - intros j' [->|Hj']%elem_of_cons; [|by apply Hin]. exists e. rewrite Hout, list_lookup_insert_eq by done. split; [done|].
      exists member, te, n, k. by rewrite Es.
    - intros j' [Hne Hj']%not_elem_of_cons. by rewrite Hout, list_lookup_insert_ne. }
  destruct r as [code|e]; [by apply Hrest|]. destruct (is_dz_error e) eqn:Ee; [by apply Hrest|done].
Qed.
End Group.

Lemma failures_none errors : failures errors = 0 <-> Forall (fun e => e = None) errors.
Proof.
  unfold failures. split.
  - intros Hf%len_zero_nil. apply Forall_forall. intros e He. destruct e as [x|]; [|done].
    assert (Some x ∈ filter is_Some errors) as Hx by (by apply list_elem_of_filter). rewrite Hf in Hx. by apply elem_of_nil in Hx.
  - intros Hf. induction Hf as [|e errors -> _ IH]; [done|]. rewrite filter_cons_False; [done|]. by intros [? [=]].
Qed.


(** * The exit status *)

(** A computation that can return nothing but zero. *)
Definition returns0 {S} (m : M S Z) : Prop := forall s, match (m s).1 with Ok code => code = 0 | Err _ => True end.

Lemma returns0_bind {S A} (m : M S A) k : (forall a, returns0 (k a)) -> returns0 (mbind m k).
Proof. intros Hk s. unfold mbind. destruct (m s) as [[a|e] s']; [apply Hk|done]. Qed.

Lemma returns0_ret {S} : returns0 (@mret S Z 0).
Proof. done. Qed.

Lemma returns0_throw {S} e : returns0 (@mthrow S Z e).
Proof. done. Qed.

Lemma returns0_if {S} (b : bool) (m1 m2 : M S Z) : returns0 m1 -> returns0 m2 -> returns0 (if b then m1 else m2).
Proof. by destruct b. Qed.

Lemma returns0_zoom {S T} (get : S -> T) set m : returns0 m -> returns0 (mzoom get set m).
Proof. intros Hm s. unfold mzoom. specialize (Hm (get s)). by destruct (m (get s)) as [[]]. Qed.

Create HintDb returns.
#[export] Hint Resolve returns0_bind returns0_ret returns0_throw returns0_if returns0_zoom : returns.

Section Status.
Context `{AeadCipher} `{Openssl} (env : program_env).

Lemma send_to_one_returns c i m args te target password group_name :
  returns0 (send_to_one (pe_net env) c i m args te target password group_name).
Proof.
  apply returns0_bind. intros opened s. cbv zeta beta. destruct (send_transfer _ _ _ _ _ _ _ _) as [[sent|e] channel]; [|done].
  unfold mlift, mbind. destruct (close_gracefully channel) as [[[]|e] channel']; [|done]. by destruct (hang_up channel' s) as [[]].
Qed.

Lemma accept_turn_returns a args ae cached w :
  match (accept_turn (pe_net env) a args ae cached w).1 with Ok (inl code) => code = 0 | _ => True end.
Proof.
  unfold accept_turn, mbind at 1. destruct (open_accept _ _ _ _ _ _) as [[[[[i channel]|] key]|e] w1]; [| |done]; cbn [fst snd].
  - unfold mbind at 1. destruct (receive_into _ _ _ _ _ _) as [[received|e] w2]; [|done].
    destruct (close_gracefully received.2) as [[[]|e] channel']; [|done]. unfold mlift, mbind. destruct (on_session _ w2) as [[]]; [|done].
    by destruct (once args).
  - unfold mbind. by destruct (on_session _ w1) as [[]].
Qed.

Lemma accept_turns_return a args envs : forall cached, returns0 (accept_turns (pe_net env) a args envs cached).
Proof.
  induction envs as [|ae envs IH]; intros cached w; [done|]. cbn [accept_turns]. unfold mbind.
  pose proof (accept_turn_returns a args ae cached w) as Ht. destruct (accept_turn _ _ _ _ _ _) as [[[code|key]|e] w']; [done|apply IH|done].
Qed.

Lemma with_known_peers_returns path body : returns0 body -> returns0 (with_known_peers path body).
Proof. intros Hb w. unfold with_known_peers. specialize (Hb (mk_Acceptor (mk_Session (load (mk_KnownPeers [] (df_file (file_at path (w_machine w))) (df_tmp (file_at path (w_machine w))))).2 (w_net w)) (m_input (w_machine w)) (w_files w))).
  by destruct (body _) as [[]].
Qed.

Lemma command_send_returns args : returns0 (command_send env args).
Proof.
  unfold command_send. repeat (apply returns0_bind; intros ?). apply with_known_peers_returns, returns0_if.
  - apply returns0_zoom, send_to_one_returns.
  - unfold send_to_group, fail_user. apply returns0_bind. intros roster. apply returns0_if; [auto with returns|].
    apply returns0_bind. intros errors. auto with returns.
Qed.

Lemma command_accept_returns args : returns0 (command_accept env args).
Proof.
  unfold command_accept. repeat (apply returns0_bind; intros ?). apply with_known_peers_returns, accept_turns_return.
Qed.

Lemma command_setup_returns ce fuel args : returns0 (command_setup ce fuel args).
Proof.
  unfold command_setup. repeat (apply returns0_bind; intros ?). apply returns0_if; [done|]. apply returns0_bind. intros username.
  destruct (if negb _ then _ else _) as [host port]. repeat (apply returns0_bind; intros ?). done.
Qed.

Lemma run_returns argv : forall w, match (run env argv w).1 with Ok code => code = 0 \/ code = 1 | Err _ => True end.
Proof.
  intros w. unfold run. destruct (parse_command_line argv) as [args|[]]; [|by right|by left].
  destruct (chosen_level args); [|by right].
  enough (forall (m : M World Z), returns0 m -> match (m w).1 with Ok code => code = 0 \/ code = 1 | Err _ => True end) as Hr.
  { destruct (command args); try (apply Hr; done); try (by right); apply Hr.
    all: try apply returns0_zoom.
    - apply command_setup_returns.
    - apply command_accept_returns.
    - apply command_send_returns.
    - unfold command_whoami, fail_user. repeat (apply returns0_bind; intros ?). apply returns0_if; [done|]. repeat (apply returns0_bind; intros ?). done.
    - unfold command_status. repeat (apply returns0_bind; intros ?). apply returns0_if; repeat (apply returns0_bind; intros ?); done.
    - unfold command_set_server. repeat (apply returns0_bind; intros ?). done.
    - unfold command_set_output. repeat (apply returns0_bind; intros ?). done.
    - unfold command_set_public_password. repeat (apply returns0_bind; intros ?). done. }
  intros m Hm. specialize (Hm w). destruct (m w).1; [by left|done].
Qed.

(** Whatever the arguments and whatever happens, the program that ends does so with
    status 0 or 1, and every exception is the status 1: none escapes [main]. *)
Theorem exit_status argv w :
  match (main env argv w).1 with
  | Ok code => code = 0 \/ code = 1
  | Err e => e = OutOfBounds \/ e = Blocks
  end /\
  forall e w', run env argv w = (Err e, w') -> is_dz_error e = true -> main env argv w = (Ok 1, w').
Proof.
  unfold main, mcatch. pose proof (run_returns argv w) as Hr. split.
  - destruct (run env argv w) as [[code|e] w']; cbn in *; [done|]. destruct e; cbn; auto.
  - intros e w' -> ->. done.
Qed.
End Status.

(** * The theorems at work *)

(** [ann] sends to the group of [bob], who is there, and [cleo], whose server does not answer. *)
Definition group_incoming : PeerIntroduction :=
  let q := honest_request (H := toy_openssl) ann bob (str "open sesame") DirectTcp (str "g") in
  mk_PeerIntroduction (str "ann") (replicate 32 1) (replicate 32 2) [EpV4 9 [10; 0; 0; 1]] (sr_proof q) (sr_signature q) 77 DirectTcp (str "g").

Definition group_key : bytes := shared_password_key (H := toy_openssl) bob (str "open sesame") (str "g").

Definition group_matched : PeerIntroduction :=
  let reply := build_reply (H := toy_openssl) bob group_incoming group_key NoTransport in
  mk_PeerIntroduction (str "bob") (replicate 32 3) (replicate 32 4) [EpV4 8 [10; 0; 0; 2]] (pi_proof reply) (pi_signature reply) 77 DirectTcp (str "g").

Definition group_handshake : bytes :=
  match (request_introduction (H := toy_openssl) sample_peers_env true ann (str "bob") (str "open sesame") DirectTcp (str "g")
           (sample_peer MatchedT group_matched)).1 with
  | Ok i => handshake_key (in_keys i)
  | Err _ => []
  end.

Definition bob_says_to_group : bytes :=
  own_proof (H := toy_openssl) group_handshake false ++
  frame_bytes DecisionT 0 (TransferDecision_encode (mk_TransferDecision true [] (str "out"))) ++ frame_bytes TransferAckT 0 [].

Definition bob_net : net := sample_net MatchedT group_matched [stream_of bob_says_to_group] [].
Definition cleo_net : net := mk_net [] [] [ConnectErrno 111 (stream_of [])] [] [] [] [] [] [] None.

Definition roster_net : net :=
  mk_net (Z.of_nat <$> seq 0 40) [Ready false; Ready false; Ready false]
    [ConnectNow (stream_of (hello_frame ++ frame_bytes GroupRosterT 0 (GroupRoster_encode (mk_GroupRoster [str "bob"; str "cleo"]))))]
    [] [] [] [] [] [] None.

Definition group_env : program_env :=
  mk_program_env (sample_env 1 None) sample_ne [] 3 sample_te (sample_se 2) [(sample_te, bob_net); (sample_te, cleo_net)] [1; 0]%nat [].

Definition group_args : CommandLine := with_transport (with_group (with_command CommandLine_default CmdSend) (str "g")) DirectTcp.

Definition group_start : Acceptor := mk_Acceptor (mk_Session no_peers roster_net) [] ∅.

Lemma group_roster : exists s1, fetch_roster (H0 := toy_openssl) group_env ann_config (pa_identity ann) group_args (a_session group_start) =
  (Ok [str "bob"; str "cleo"], s1).
Proof. eexists. vm_compute. reflexivity. Qed.

Lemma group_result : exists a', send_to_group (H := plain_cipher) (H0 := toy_openssl) group_env ann_config (pa_identity ann) sample_manifest group_args
    (str "open sesame") group_start =
  (Err (UserError (str "group send finished with 1 failure out of 2")), a').
Proof. eexists. vm_compute. reflexivity. Qed.

