(* ===== verification/ShardLoop.v ===== *)
(** The thread of a shard: the wait of the Linux half of [server/src/poller.cpp] and [Server::run_shard] of
    [server/src/server.cpp].

    [Loop] is the thread's local variables with the server it shares. A [turn] holds what the
    world does during one turn of the loop: whether [stopping_] is set when the turn begins,
    what [epoll_wait] answers, and with each event it serves the connections and datagrams
    that wait for it and the steps other threads, the network and the clock make first. *)

From S2P Require Import Prelude Endian Socket Frame Protocol Messages Connection RateLimiter SessionTable Server.
From S2P Require Import ServerSafety ServerProtocol ServerClaims.

(** * The poller *)

Definition EPOLLIN : Z := 1.
Definition EPOLLOUT : Z := 4.
Definition EPOLLERR : Z := 8.
Definition EPOLLHUP : Z := 16.
Definition EPOLLRDHUP : Z := 0x2000.
Definition EPOLLET : Z := 2 ^ 31.

Definition to_epoll_events (interest : Interest) : Z :=
  let events := Z.lor EPOLLET EPOLLRDHUP in
  let events := if want_readable interest then Z.lor events EPOLLIN else events in
  if want_writable interest then Z.lor events EPOLLOUT else events.

(** What [epoll_wait] answers: descriptors with their event masks. *)
Inductive epoll_answer :=
  | EpollEintr
  | EpollFailed (errno : Z)
  | EpollEvents (scratch : list (Z * Z)).

Definition ready_of (event : Z * Z) : Z * ReadyEvent :=
  let has mask := negb (Z.land event.2 mask =? 0) in
  (event.1, mk_ReadyEvent (has EPOLLIN) (has EPOLLOUT) (has (Z.lor EPOLLHUP (Z.lor EPOLLERR EPOLLRDHUP)))).

(** [Poller::wait]; [out] is the caller's vector, which an interrupted wait leaves as it is. *)
Definition poller_wait (out : list (Z * ReadyEvent)) (a : epoll_answer) : result (list (Z * ReadyEvent)) :=
  match a with
  | EpollEintr => Ok out
  | EpollFailed e => Err (SysError (str "epoll_wait failed") e)
  | EpollEvents scratch => Ok (ready_of <$> scratch)
  end.

(** * The loop *)

Record shard_fds := mk_shard_fds { sf_listener : Z; sf_reflexive : option Z; sf_wake_read : Z }.

Record event_world := mk_event_world {
  ew_others : list sevent;
  ew_accepts : list accept_event;
  ew_probes : list (bytes * Endpoint * Z);
}.
Definition quiet_world : event_world := mk_event_world [] [] [].

Record turn := mk_turn {
  t_stopping : bool;
  t_waiting : list sevent;
  t_answer : epoll_answer;
  t_worlds : list event_world;
  t_after : list sevent;
}.

Record Loop := mk_Loop {
  lp_server : Server;
  lp_events : list (Z * ReadyEvent);
  lp_maintenance : Z;
  lp_replies : list (bytes * Endpoint);
}.

Definition on_server {A} (m : srv A) : M Loop A := fun l =>
  let '(r, s) := m (lp_server l) in (r, mk_Loop s (lp_events l) (lp_maintenance l) (lp_replies l)).

Section Shard.
Context (hmac_sha256 : bytes -> bytes) (fds : shard_fds) (shard : Z).

Fixpoint steps (evs : list sevent) : M Loop unit :=
  match evs with
  | [] => mret tt
  | ev :: evs => do* on_server (step hmac_sha256 ev) in steps evs
  end.

(** The body of the loop over the events. *)
Definition shard_event (w : event_world) (event : Z * ReadyEvent) : M Loop unit :=
  do* steps (ew_others w) in
  if event.1 =? sf_listener fds then on_server (step hmac_sha256 (EvAccept shard (ew_accepts w)))
  else if bool_decide (sf_reflexive fds = Some event.1) then
    let* replies := mlift (handle_reflexive_probes (ew_probes w)) in
    mmodify (fun l => mk_Loop (lp_server l) (lp_events l) (lp_maintenance l) (lp_replies l ++ replies))
  else if event.1 =? sf_wake_read fds then on_server (step hmac_sha256 (EvWake shard))
  else on_server (step hmac_sha256 (EvReady shard event.1 event.2)).

Fixpoint shard_events (worlds : list event_world) (events : list (Z * ReadyEvent)) : M Loop unit :=
  match events with
  | [] => mret tt
  | event :: events => do* shard_event (default quiet_world (head worlds)) event in shard_events (tail worlds) events
  end.

Definition shard_turn (t : turn) : M Loop unit :=
  do* steps (t_waiting t) in
  let* l := mget in
  let* events := mlift (poller_wait (lp_events l) (t_answer t)) in
  do* mmodify (fun l => mk_Loop (lp_server l) events (lp_maintenance l) (lp_replies l)) in
  do* shard_events (t_worlds t) events in
  do* steps (t_after t) in
  let* l := mget in
  let now_ms := clock (lp_server l) in
  if 1000 <=? u64 (now_ms - lp_maintenance l) then
    do* on_server (step hmac_sha256 (EvMaintenance shard)) in
    mmodify (fun l => mk_Loop (lp_server l) (lp_events l) now_ms (lp_replies l))
  else mret tt.

(** What follows the loop. *)
Definition tear_down : srv unit :=
  let* sh := get_shard shard in
  do* for_each (close_connection shard) (map_to_list (connections sh)).*2 in
  collect.

Fixpoint run_turns (turns : list turn) : M Loop unit :=
  match turns with
  | [] => mthrow Blocks
  | t :: turns => if t_stopping t then on_server tear_down else do* shard_turn t in run_turns turns
  end.

Definition run_shard (turns : list turn) (s : Server) : result unit * Loop := run_turns turns (mk_Loop s [] (clock s) []).
End Shard.

(** * Connection ids *)

(** [m] hands out no connection id. *)
Definition no_ids {A} (m : srv A) : Prop := forall s, next_connection_id_ (m s).2 = next_connection_id_ s.

Lemma no_ids_quietly {A} (m : srv A) : quietly m -> no_ids m.
Proof. intros H s. apply (q_next _ _ (H s)). Qed.

Lemma no_ids_bind {A B} (m : srv A) (k : A -> srv B) : no_ids m -> (forall a, no_ids (k a)) -> no_ids (mbind m k).
Proof. intros Hm Hk s. unfold mbind. specialize (Hm s). destruct (m s) as [[a|e] s1]; [|done]. by rewrite Hk. Qed.

Lemma no_ids_upd id f : no_ids (upd_conn id f).
Proof. done. Qed.
Lemma no_ids_upd_shard i f : no_ids (upd_shard i f).
Proof. done. Qed.
Lemma no_ids_collect : no_ids collect.
Proof. done. Qed.
Lemma no_ids_on_sessions {A} (f : heap -> SessionTable -> A * SessionTable) : no_ids (on_sessions f).
Proof. intros s. unfold on_sessions. by destruct (f _ _). Qed.

Ltac ids_walk :=
  repeat first
    [ apply no_ids_upd | apply no_ids_upd_shard | apply no_ids_collect | apply no_ids_on_sessions
    | solve [eauto with no_ids]
    | solve [apply no_ids_quietly; eauto with quiet]
    | apply no_ids_bind; [|intros ?]
    | match goal with
      | |- no_ids (if ?b then _ else _) => destruct b
      | |- no_ids (match ?x with _ => _ end) => destruct x
      end ].

Create HintDb no_ids.

Lemma no_ids_handle_frame id f : no_ids (handle_frame id f).
Proof.
  destruct (decide (type (header f) = ClientHelloT)) as [E|E]; [|by apply no_ids_quietly, quietly_handle_frame].
  unfold handle_frame. rewrite E. unfold handle_client_hello. ids_walk.
Qed.

Lemma no_ids_close shard id : no_ids (close_connection shard id).
Proof. unfold close_connection, detach, session_update. ids_walk. Qed.

Lemma no_ids_next_frame id : no_ids (do_next_frame id).
Proof. unfold do_next_frame. ids_walk. Qed.
#[local] Hint Resolve no_ids_handle_frame no_ids_close no_ids_next_frame : no_ids.

Lemma no_ids_handle_buffered fuel : forall id p, no_ids (handle_buffered fuel id p).
Proof. induction fuel as [|fuel IH]; intros id p; cbn [handle_buffered]; ids_walk. Qed.

Lemma no_ids_try id : no_ids (try_handle_buffered id).
Proof.
  intros s. unfold try_handle_buffered. destruct (objects s !! id) as [c|]; [|done].
  pose proof (no_ids_handle_buffered (S (length (input_ (inb c)))) id false s) as Hb.
  destruct (handle_buffered _ _ _ s) as [[a|e] s']; [done|]. by destruct (is_dz_error e).
Qed.
#[local] Hint Resolve no_ids_try : no_ids.

Lemma no_ids_read fuel shard id : no_ids (read_and_handle fuel shard id).
Proof.
  induction fuel as [|fuel IH]; cbn [read_and_handle]; [ids_walk|].
  apply no_ids_bind; [apply no_ids_quietly, quietly_read|intros ?].
  apply no_ids_bind; [ids_walk|intros ?]. unfold flush_output. ids_walk.
Qed.
#[local] Hint Resolve no_ids_read : no_ids.

Lemma no_ids_service shard id ev : no_ids (service_connection shard id ev).
Proof.
  unfold service_connection, finish_service. pose proof (no_ids_quietly _ (quietly_flush id)).
  pose proof (no_ids_quietly _ (quietly_resume id)). pose proof (no_ids_quietly _ (quietly_update_interest shard id)). ids_walk.
Qed.
#[local] Hint Resolve no_ids_service : no_ids.

Lemma no_ids_service_fd shard f ev : no_ids (service_fd shard f ev).
Proof. unfold service_fd. ids_walk. Qed.
#[local] Hint Resolve no_ids_service_fd : no_ids.

Lemma no_ids_for_each {A} (m : A -> srv unit) xs : (forall x, no_ids (m x)) -> no_ids (for_each m xs).
Proof. intros Hm. induction xs as [|x xs IH]; cbn; ids_walk. Qed.

(** The connections an event may open. *)
Definition accepts_of (ev : sevent) : Z := match ev with EvAccept _ evs => len evs | _ => 0 end.

Lemma accept_ids hmac shard evs : forall s,
  0 <= next_connection_id_ s ->
  0 <= next_connection_id_ (accept_connections hmac shard evs s).2 <= next_connection_id_ s + len evs.
Proof.
  induction evs as [|a evs IH]; intros s Hs; cbn [accept_connections]; [unfold len; cbn; lia|].
  rewrite len_cons. pose proof (len_nonneg evs). pose proof (IH s Hs) as IHs. destruct a as [| | |f from n k]; [lia|cbn; lia|lia|].
  set (ok_ids := fun n => 0 <= n <= next_connection_id_ s + (1 + len evs)). change (ok_ids (next_connection_id_ (mbind (mlift (from_sockaddr from n))
    (fun e => let* key := mlift (key_for hmac e) in let* ok := on_limiter (fun l now b => allow_connection l key now b) in
      do* (if ok then register shard f e key k else mret tt) in accept_connections hmac shard evs) s).2)).
  assert (ok_ids (next_connection_id_ s)) as Hsame by (unfold ok_ids; lia).
  unfold mbind at 1, mlift at 1. destruct (from_sockaddr from n) as [e|]; [|done].
  unfold mbind at 1, mlift at 1. destruct (key_for hmac e) as [key|]; [|done].
  unfold mbind at 1, on_limiter. destruct (allow_connection _ _ _ _) as [ok b].
  destruct ok; [|pose proof (IH (set_limiter b s) Hs) as Hl; unfold mbind, mret, ok_ids; cbn in Hl |- *; lia].
  unfold mbind at 1. destruct (register shard f e key k (set_limiter b s)) as [r s1] eqn:E.
  assert (r = Ok tt /\ next_connection_id_ s1 = u64 (next_connection_id_ s + 1)) as [-> E1] by (injection E as <- <-; done).
  assert (0 <= next_connection_id_ s1 <= next_connection_id_ s + 1).
  { rewrite E1. unfold u64. split; [apply Z.mod_pos_bound; lia|apply Z.mod_le; lia]. }
  pose proof (IH s1 ltac:(lia)). unfold ok_ids. lia.
Qed.

Lemma step_ids hmac ev s : 0 <= next_connection_id_ s -> next_connection_id_ (step hmac ev s).2 <= next_connection_id_ s + accepts_of ev.
Proof.
  intros Hs. unfold step. cut (next_connection_id_ (handle_event hmac ev s).2 <= next_connection_id_ s + accepts_of ev).
  { unfold mbind. by destruct (handle_event hmac ev s) as [[]]. }
  assert (forall m : srv unit, no_ids m -> next_connection_id_ (m s).2 <= next_connection_id_ s + 0) as Hm by (intros m ->; lia).
  destruct ev; cbn [handle_event accepts_of]; [| | |apply accept_ids; lia|cbn; lia|cbn; lia]; apply Hm.
  - ids_walk.
  - unfold drain_wake_queue. apply no_ids_bind; [ids_walk|intros ?]. apply no_ids_bind; [ids_walk|intros ?]. apply no_ids_for_each. intros. ids_walk.
  - unfold run_maintenance, session_update. do 2 (apply no_ids_bind; [ids_walk|intros ?]).
    apply no_ids_bind; [apply no_ids_for_each; intros; ids_walk|intros ?]. ids_walk.
Qed.

(** * The loop keeps the server's invariants *)

Section Serves.
Context (hmac_sha256 : bytes -> bytes) (hmac_len : forall b, 8 <= len (hmac_sha256 b)).
Context (fds : shard_fds) (shard : Z) (shards : Z) (Hshard : 0 <= shard < shards).

(** What the kernel and the other threads may do, in a server of so many shards. *)
Definition sevent_ok (ev : sevent) : Prop :=
  match ev with
  | EvReady i _ _ | EvWake i | EvMaintenance i => 0 <= i < shards
  | EvAccept i evs =>
      0 <= i < shards /\
      Forall (fun a => match a with Accepted _ from n k => sockaddr_ok from n /\ rx_ok (rx k) | _ => True end) evs
  | EvClock now => is_u64 now
  | EvNetwork _ more _ => rx_ok more
  end.

Definition world_ok (w : event_world) : Prop :=
  Forall sevent_ok (ew_others w) /\ sevent_ok (EvAccept shard (ew_accepts w)) /\
  Forall (fun d => sockaddr_ok d.1.2 d.2) (ew_probes w).

Definition turn_ok (t : turn) : Prop :=
  Forall sevent_ok (t_waiting t) /\ Forall world_ok (t_worlds t) /\ Forall sevent_ok (t_after t).

(** The connections that may be opened. *)
Definition accepts (evs : list sevent) : Z := foldr (fun ev n => accepts_of ev + n) 0 evs.
Definition world_accepts (ws : list event_world) : Z :=
  foldr (fun w n => accepts (ew_others w) + len (ew_accepts w) + n) 0 ws.
Definition turn_accepts (t : turn) : Z := accepts (t_waiting t) + world_accepts (t_worlds t) + accepts (t_after t).
Definition all_accepts (ts : list turn) : Z := foldr (fun t n => turn_accepts t + n) 0 ts.

(** The server's invariants, with ids left for [n] more connections. *)
Definition loop_ok (n : Z) (l : Loop) : Prop :=
  server_ok (lp_server l) /\ named ∅ ∅ (lp_server l) /\ len (shards_ (lp_server l)) = shards /\
  next_connection_id_ (lp_server l) + n < 2 ^ 64.

(** How a shard's thread may end early. *)
Definition ends_early (answers : list epoll_answer) (e : exn) (l : Loop) : Prop :=
  (e = Blocks /\ 2 ^ 64 < Z.of_nat (size (pairings_ (sessions_ (lp_server l)))) + 2) \/
  exists errno, EpollFailed errno ∈ answers /\ e = SysError (str "epoll_wait failed") errno.

Definition serves (answers : list epoll_answer) (n : Z) {A} (m : M Loop A) : Prop := forall l k,
  0 <= k -> loop_ok (n + k) l ->
  match m l with
  | (Ok _, l') => loop_ok k l'
  | (Err e, l') => ends_early answers e l'
  end.

Lemma serves_bind {A B} ans n1 n2 (m : M Loop A) (k : A -> M Loop B) :
  0 <= n2 -> serves ans n1 m -> (forall a, serves ans n2 (k a)) -> serves ans (n1 + n2) (mbind m k).
Proof.
  intros Hn Hm Hk l j Hj Hl. rewrite <- Z.add_assoc in Hl. specialize (Hm l (n2 + j) ltac:(lia) Hl). unfold mbind.
  destruct (m l) as [[a|e] l']; [|done]. by apply Hk.
Qed.

Lemma serves_same {A} ans (m : M Loop A) :
  (forall l, exists a l', m l = (Ok a, l') /\ lp_server l' = lp_server l) -> serves ans 0 m.
Proof. intros Hm l k _. destruct (Hm l) as (a & l' & -> & E). unfold loop_ok. by rewrite E. Qed.

Lemma serves_after {A B} ans n (m : M Loop A) (k : A -> M Loop B) :
  0 <= n -> serves ans 0 m -> (forall a, serves ans n (k a)) -> serves ans n (mbind m k).
Proof. intros Hn Hm Hk. by apply (serves_bind ans 0 n). Qed.

Lemma serves_if {A} ans n (b : bool) (m1 m2 : M Loop A) : serves ans n m1 -> serves ans n m2 -> serves ans n (if b then m1 else m2).
Proof. by destruct b. Qed.

Lemma serves_fewer {A} ans n1 n2 (m : M Loop A) : n1 <= n2 -> serves ans n1 m -> serves ans n2 m.
Proof.
  intros Hn Hm l k Hk (H1 & H2 & H3 & H4). apply (Hm l k Hk). split_and!; try done. lia.
Qed.

Lemma serves_step ans ev : sevent_ok ev -> serves ans (accepts_of ev) (on_server (step hmac_sha256 ev)).
Proof.
  intros Hev l k Hk (Hs & N & Hsh & Hn). set (s := lp_server l) in *.
  assert (event_ok s ev) as He.
  { destruct ev; cbn in Hev |- *; unfold shard_ok; rewrite ?Hsh; try done. destruct Hev. cbn [accepts_of] in Hn. split_and!; try done; lia. }
  unfold on_server. fold s. pose proof (step_ok _ hmac_len s ev Hs He) as Hok. pose proof (nm_next _ _ _ N) as H0.
  pose proof (step_ids hmac_sha256 ev s ltac:(lia)) as Hi.
  pose proof (handle_event_ok _ hmac_len s ev Hs He) as Hh.
  destruct (step hmac_sha256 ev s) as [[[]|e] s'] eqn:E; [|by left].
  split_and!; cbn [lp_server]; [done|by apply (step_named hmac_sha256 s ev)| |cbn in Hi; lia].
  unfold step in E. apply mbind_ok_inv in E as ([] & s1 & E1 & [= <-]). rewrite E1 in Hh. destruct Hh as (_ & [Hl _] & _).
  unfold len in *. cbn. by rewrite Hl.
Qed.

Lemma accepts_nonneg evs : 0 <= accepts evs.
Proof.
  induction evs as [|ev evs IH]; cbn; [done|]. fold (accepts evs). destruct ev; cbn; try done. pose proof (len_nonneg evs0). lia.
Qed.

Lemma serves_steps ans evs : Forall sevent_ok evs -> serves ans (accepts evs) (steps hmac_sha256 evs).
Proof.
  induction 1 as [|ev evs He _ IH]; cbn [steps accepts foldr]; [apply serves_same; intros l; by exists tt, l|].
  apply serves_bind; [apply accepts_nonneg|by apply serves_step|by intros _].
Qed.

Lemma probes_total ds : Forall (fun d => sockaddr_ok d.1.2 d.2) ds -> exists replies, handle_reflexive_probes ds = Ok replies.
Proof.
  induction 1 as [|[[request from] n] ds Hd _ [replies IH]]; cbn [handle_reflexive_probes]; [eauto|]. rewrite IH.
  destruct (_ <? _); [eauto|]. destruct (negb _); [eauto|].
  destruct (from_sockaddr_ok from n Hd) as (e & -> & He). destruct (reflexive_reply_roundtrip e He) as (b & -> & _). eauto.
Qed.

Lemma serves_event ans w ev :
  world_ok w -> serves ans (accepts (ew_others w) + len (ew_accepts w)) (shard_event hmac_sha256 fds shard w ev).
Proof.
  intros (Ho & Ha & Hp). pose proof (len_nonneg (ew_accepts w)). apply serves_bind; [done|by apply serves_steps|intros _].
  apply serves_if; [by apply (serves_step ans (EvAccept shard (ew_accepts w)))|]. apply (serves_fewer ans 0); [done|]. repeat apply serves_if.
  - destruct (probes_total _ Hp) as [replies E]. apply serves_same. intros l. unfold mbind, mlift. rewrite E. by eexists _, _.
  - by apply (serves_step ans (EvWake shard)).
  - by apply (serves_step ans (EvReady shard ev.1 ev.2)).
Qed.

Lemma world_accepts_nonneg ws : 0 <= world_accepts ws.
Proof.
  induction ws as [|w ws IH]; cbn; [done|]. fold (world_accepts ws). pose proof (accepts_nonneg (ew_others w)). pose proof (len_nonneg (ew_accepts w)). lia.
Qed.

Lemma serves_events ans evs : forall ws, Forall world_ok ws -> serves ans (world_accepts ws) (shard_events hmac_sha256 fds shard ws evs).
Proof.
  induction evs as [|ev evs IH]; intros ws Hw; cbn [shard_events].
  - apply (serves_fewer ans 0); [apply world_accepts_nonneg|]. apply serves_same. intros l. by exists tt, l.
  - destruct Hw as [|w ws Hw Hws]; cbn [head tail default].
    + apply (serves_bind ans 0 0); [done| |intros _; by apply (IH [])]. by apply (serves_event ans quiet_world).
    + apply serves_bind; [apply world_accepts_nonneg|by apply serves_event|intros _; by apply IH].
Qed.

Lemma serves_wait ans t l : t_answer t ∈ ans -> serves ans 0 (mlift (S := Loop) (poller_wait (lp_events l) (t_answer t))).
Proof.
  intros Hin. destruct (t_answer t) as [|errno|] eqn:E; [by apply serves_same; intros l'; eexists _, l'| |by apply serves_same; intros l'; eexists _, l'].
  intros l' k _ _. right. eauto.
Qed.

Lemma serves_turn ans t : turn_ok t -> t_answer t ∈ ans -> serves ans (turn_accepts t) (shard_turn hmac_sha256 fds shard t).
Proof.
  intros (Hw & Hws & Ha) Hin. pose proof (accepts_nonneg (t_after t)). pose proof (world_accepts_nonneg (t_worlds t)).
  unfold turn_accepts. rewrite <- Z.add_assoc. apply serves_bind; [lia|by apply serves_steps|intros _].
  apply serves_after; [lia|by apply serves_same; intros l; exists l, l|intros l].
  apply serves_after; [lia|by apply serves_wait|intros events].
  apply serves_after; [lia|by apply serves_same; intros l'; eexists _, _|intros _].
  apply serves_bind; [lia|by apply serves_events|intros _]. rewrite <- (Z.add_0_r (accepts _)).
  apply serves_bind; [done|by apply serves_steps|intros _].
  apply serves_after; [done|by apply serves_same; intros l'; exists l', l'|intros l'].
  apply serves_if; [|by apply serves_same; intros l2; exists tt, l2].
  apply serves_after; [done|by apply (serves_step ans (EvMaintenance shard))|intros _].
  by apply serves_same; intros l2; eexists _, _.
Qed.

(** ** The end of the loop *)

(** After the connections in [ids] are closed, the shard has only others. *)
Lemma close_all_empties ids : forall X s s' sh,
  named X X s -> NoDup ids -> Forall (fun id => (id ∉ X) /\ owned s shard id) ids ->
  shards_ s !! Z.to_nat shard = Some sh -> (forall f id, connections sh !! f = Some id -> id ∈ ids) ->
  for_each (close_connection shard) ids s = (Ok tt, s') ->
  exists X' sh', named X' X' s' /\ shards_ s' !! Z.to_nat shard = Some sh' /\ connections sh' = ∅.
Proof.
  induction ids as [|id ids IH]; intros X s s' sh N Hnd Hown Hsh Hin E.
  { injection E as <-. exists X, sh. split_and!; [done..|]. apply map_empty. intros f.
    destruct (connections sh !! f) as [id|] eqn:Ef; [|done]. apply Hin in Ef. by apply not_elem_of_nil in Ef. }
  cbn [for_each] in E. apply mbind_ok_inv in E as ([] & s1 & E1 & E).
  apply NoDup_cons in Hnd as [Hni Hnd]. apply Forall_cons in Hown as [[HX Ho] Hown].
  pose proof Ho as (Hpos & sh0 & f0 & Hsh0 & Hf0). rewrite Hsh in Hsh0. injection Hsh0 as <-.
  destruct (nm_shards _ _ _ N _ _ _ _ Hsh Hf0) as (_ & c & Hc & Hfd & _).
  pose proof (f_equal (fun l => l !! Z.to_nat shard) (close_shards _ _ _ _ _ _ _ N HX Hc E1)) as H1. cbn in H1.
  rewrite list_lookup_alter_eq, !list_lookup_fmap, Hsh in H1. destruct (shards_ s1 !! _) as [sh1|] eqn:Hsh1; [|done].
  injection H1 as H1. eapply (IH ({[id]} ∪ X) s1 s' sh1); [by eapply close_named|done| |done| |done].
  - apply Forall_forall. intros id' Hin'. rewrite Forall_forall in Hown. destruct (Hown id' Hin') as [HX' Ho'].
    assert (id' <> id) by (by intros ->). split; [set_solver|]. by eapply (close_owned X s shard id id').
  - intros f id' Hf. rewrite H1 in Hf. apply lookup_delete_Some in Hf as [Hne Hf].
    pose proof (Hin _ _ Hf) as [->|?]%elem_of_cons; [|done].
    destruct (nm_shards _ _ _ N _ _ _ _ Hsh Hf) as (_ & c' & Hc' & Hfd' & _). congruence.
Qed.

(** Nothing of the shard is left: no connection, and no name one of its connections held. *)
Definition torn_down (s : Server) : Prop :=
  server_ok s /\ named ∅ ∅ s /\
  (exists sh, shards_ s !! Z.to_nat shard = Some sh /\ connections sh = ∅) /\
  forall u w, lookup_claim (objects s) u (sessions_ s) = Some w -> exists c, objects s !! w = Some c /\ shard_index c <> shard.

Lemma collected_elsewhere s sh :
  named ∅ ∅ (collect s).2 -> shards_ s !! Z.to_nat shard = Some sh -> connections sh = ∅ ->
  forall w c, objects (collect s).2 !! w = Some c -> shard_index c <> shard.
Proof.
  intros N Hsh Hempty w c Hc Hsi. pose proof Hc as [_ Hr]%map_lookup_filter_Some.
  apply referenced_owned in Hr as (i & sh' & f & Hi & Hf).
  destruct (nm_shards _ _ _ N i sh' f w Hi Hf) as (_ & c' & Hc' & _ & Hsi'). rewrite Hc in Hc'. injection Hc' as <-.
  rewrite Hsi in Hsi'. assert (Z.to_nat shard = i) as Ei by lia. rewrite Ei, Hi in Hsh. injection Hsh as ->. by rewrite Hempty in Hf.
Qed.

Lemma tear_down_ok ans l :
  loop_ok 0 l ->
  match on_server (tear_down shard) l with
  | (Ok _, l') => torn_down (lp_server l')
  | (Err e, l') => ends_early ans e l'
  end.
Proof.
  intros (Hs & N & Hsh & _). set (s := lp_server l) in *.
  assert (shard_ok s shard) as Hi by (unfold shard_ok; lia).
  destruct (get_shard_ok s shard Hs Hi) as (sh & Eg & Hids).
  unfold on_server. fold s. unfold tear_down. rewrite (mbind_ok _ _ _ _ _ Eg).
  assert (shards_ s !! Z.to_nat shard = Some sh) as Esh.
  { unfold get_shard in Eg. by destruct (shards_ s !! _); [injection Eg as ->|]. }
  set (ids := (map_to_list _).*2).
  assert (forall id, id ∈ ids <-> exists f, connections sh !! f = Some id) as Hel.
  { intros id. unfold ids. rewrite list_elem_of_fmap. split.
    - intros ([f id'] & -> & Hm%elem_of_map_to_list). eauto.
    - intros [f Hf]. exists (f, id). split; [done|]. by apply elem_of_map_to_list. }
  assert (safe false (dom (objects s)) (for_each (close_connection shard) ids) (fun _ => True)) as Hc.
  { apply safe_for_each, Forall_forall. intros id [f Hf]%Hel. apply safe_close. by apply (Hids f). }
  specialize (Hc s Hs eq_refl). unfold mbind.
  destruct (for_each (close_connection shard) ids s) as [[[]|e] s1] eqn:E; destruct Hc as (Hs1 & _ & Hr).
  - apply (close_all_empties ids ∅ s s1 sh) in E as (X & sh1 & N1 & Hsh1 & He1); [|done|by eapply connections_inj| |done|].
    + cbn [lp_server collect mmodify]. pose proof (collect_named X s1 N1) as Nc. split_and!; [by apply (collect_ok s1)|done|by exists sh1|].
      intros u w Hw. unfold lookup_claim, expired in Hw. destruct (claims_ _ !! u) as [w'|]; [|done].
      destruct (objects _ !! w') as [c|] eqn:Hc; [|done]. injection Hw as <-. exists c. split; [done|]. by eapply collected_elsewhere.
    + apply Forall_forall. intros id [f Hf]%Hel. split; [set_solver|]. split; [lia|eauto].
    + intros f id Hf. apply Hel. eauto.
  - left. by destruct Hr as [[? _]|?].
Qed.

Lemma turn_accepts_nonneg t : 0 <= turn_accepts t.
Proof.
  unfold turn_accepts. pose proof (accepts_nonneg (t_waiting t)). pose proof (accepts_nonneg (t_after t)).
  pose proof (world_accepts_nonneg (t_worlds t)). lia.
Qed.

Lemma all_accepts_nonneg ts : 0 <= all_accepts ts.
Proof. induction ts as [|t ts IH]; cbn; [done|]. fold (all_accepts ts). pose proof (turn_accepts_nonneg t). lia. Qed.

Lemma run_turns_ok ans ts : forall l,
  Forall turn_ok ts -> Forall (fun t => t_answer t ∈ ans) ts -> loop_ok (all_accepts ts) l ->
  match run_turns hmac_sha256 fds shard ts l with
  | (Ok _, l') => torn_down (lp_server l')
  | (Err e, l') => ends_early ans e l' \/ (e = Blocks /\ Forall (fun t => t_stopping t = false) ts)
  end.
Proof.
  induction ts as [|t ts IH]; intros l Hts Hans Hl; cbn [run_turns]; [by right|].
  apply Forall_cons in Hts as [Ht Hts], Hans as [Ha Hans]. cbn [all_accepts foldr] in Hl. fold (all_accepts ts) in Hl.
  pose proof (all_accepts_nonneg ts) as H0. pose proof (turn_accepts_nonneg t) as H1. destruct (t_stopping t) eqn:Hst.
  - assert (loop_ok 0 l) as Hl0 by (destruct Hl as (? & ? & ? & ?); split_and!; try done; lia).
    pose proof (tear_down_ok ans l Hl0) as Htd. destruct (on_server _ l) as [[]]; [done|by left].
  - pose proof (serves_turn ans t Ht Ha l (all_accepts ts) H0 Hl) as Hsv. unfold mbind.
    destruct (shard_turn _ _ _ t l) as [[[]|e] l1]; [|by left].
    pose proof (IH l1 Hts Hans Hsv) as IHl. destruct (run_turns _ _ _ ts l1) as [[]]; [done|].
    destruct IHl as [?|[-> Hf]]; [by left|right]. split; [done|by constructor].
Qed.
End Serves.


(** * The theorem at work *)

(** A receiver connects, says hello and is served; then the server is stopped. *)
Definition sample_fds : shard_fds := mk_shard_fds 3 (Some 9) 4.
Definition sample_ksock : ksock :=
  mk_ksock [RxData (frame_bytes ClientHelloT 0 (ClientHello_encode sample_hello)); RxAgain false] [TxWrote 1000] [].
Definition sample_turns : list turn := [
  mk_turn false [EvClock 5] (EpollEvents [(3, EPOLLIN); (9, EPOLLIN)])
    [mk_event_world [] [Accepted 5 sample_address 16 sample_ksock] []; mk_event_world [] [] [(kReflexiveProbeMagic, sample_address, 16)]] [];
  mk_turn false [] (EpollEvents [(5, EPOLLIN)]) [] [EvClock 2000];
  mk_turn false [] EpollEintr [] [];
  mk_turn true [] EpollEintr [] []].

Lemma sample_turns_ok : Forall (turn_ok 0 1) sample_turns.
Proof.
  repeat constructor; by vm_compute.
Qed.

Lemma sample_run_ends : exists l, run_shard sample_hmac sample_fds 0 sample_turns sample_initial = (Ok tt, l).
Proof. eexists. vm_compute. reflexivity. Qed.


(** ** Interrupted waits *)

(** A client on descriptor 5 hangs up, the next client is accepted on the same
    descriptor, then the wait is interrupted by a signal. *)
Definition interrupted_turns : list turn := [
  mk_turn false [] (EpollEvents [(3, EPOLLIN)]) [mk_event_world [] [Accepted 5 sample_address 16 (mk_ksock [RxEof] [] [])] []] [];
  mk_turn false [] (EpollEvents [(5, Z.lor EPOLLIN EPOLLRDHUP); (3, EPOLLIN)])
    [quiet_world; mk_event_world [] [Accepted 5 sample_address 16 (mk_ksock [RxAgain false; RxAgain false] [] [])] []] [];
  mk_turn false [] EpollEintr [] []].

Definition clients_after (k : nat) : list (Z * Z) :=
  match shards_ (lp_server (run_shard sample_hmac sample_fds 0 (take k interrupted_turns) sample_initial).2) with
  | sh :: _ => map_to_list (connections sh)
  | [] => []
  end.

(** [Poller::wait] returns from an interrupted wait without clearing the vector of events, and
    the loop serves the events of the turn before again: here the hang-up of the first client
    closes the second one, which has done nothing. *)
Lemma interrupted_wait_drops_client : clients_after 1 = [(5, 1)] /\ clients_after 2 = [(5, 2)] /\ clients_after 3 = [].
Proof. by vm_compute. Qed.
