(* ===== verification/Kqueue.v ===== *)
(** The two pollers: the half of [server/src/poller.cpp] for kqueue, and the calls of the half
    for epoll that [ShardLoop] does not have.

    [Kq] is a kqueue as kevent(2) documents it, whether each registered filter is enabled, and
    [Ep] an epoll instance as epoll_ctl(2) does, the mask of each descriptor. A list of changes
    is applied in order up to the first that fails; [fails] is where the kernel refuses one for
    a reason of its own, such as a closed descriptor. *)

From S2P Require Import Prelude Server ShardLoop.

(** * kqueue *)

Definition EVFILT_READ : Z := -1.
Definition EVFILT_WRITE : Z := -2.
Definition EV_ADD : Z := 0x1.
Definition EV_DELETE : Z := 0x2.
Definition EV_DISABLE : Z := 0x8.
Definition EV_CLEAR : Z := 0x20.
Definition EV_ERROR : Z := 0x4000.
Definition EV_EOF : Z := 0x8000.

Definition has_flag (flags bit : Z) : bool := negb (Z.land flags bit =? 0).

(** [struct kevent]. *)
Record kevent := mk_kevent { ident : Z; filter_ : Z; flags_ : Z }.

Abbreviation Kq := (gmap (Z * Z) bool).

Definition kq_change (c : kevent) (q : Kq) : result unit * Kq :=
  let key := (ident c, filter_ c) in
  if has_flag (flags_ c) EV_DELETE then
    match q !! key with
    | Some _ => (Ok tt, delete key q)
    | None => (Err (SysError [] 2), q)
    end
  else if has_flag (flags_ c) EV_ADD then (Ok tt, <[key := negb (has_flag (flags_ c) EV_DISABLE)]> q)
  else (Ok tt, q).

Fixpoint kq_changes (fails : option (nat * Z)) (cs : list kevent) : M Kq unit :=
  match cs with
  | [] => mret tt
  | c :: cs =>
      match fails with
      | Some (O, e) => mthrow (SysError [] e)
      | _ =>
          do* kq_change c in
          kq_changes (match fails with Some (S n, e) => Some (n, e) | _ => None end) cs
      end
  end.

(** [Poller::modify]; [add] is the same. *)
Definition interest_changes (fd : Z) (interest : Interest) : list kevent :=
  [ mk_kevent fd EVFILT_READ (if want_readable interest then Z.lor EV_ADD EV_CLEAR else Z.lor EV_ADD EV_DISABLE);
    mk_kevent fd EVFILT_WRITE (if want_writable interest then Z.lor EV_ADD EV_CLEAR else Z.lor EV_ADD EV_DISABLE) ].

Definition kq_modify (fails : option (nat * Z)) (fd : Z) (interest : Interest) : M Kq unit := fun q =>
  match kq_changes fails (interest_changes fd interest) q with
  | (Err (SysError _ e), q) => (Err (SysError (str "cannot register a descriptor with kqueue") e), q)
  | o => o
  end.

Definition kq_add := kq_modify.

(** [Poller::remove]: how the call ends is ignored. *)
Definition kq_remove (fails : option (nat * Z)) (fd : Z) : M Kq unit := fun q =>
  (Ok tt, (kq_changes fails [mk_kevent fd EVFILT_READ EV_DELETE; mk_kevent fd EVFILT_WRITE EV_DELETE] q).2).

(** The [timespec] of [Poller::wait], seconds and nanoseconds, or no limit. *)
Definition kq_timeout (timeout_ms : Z) : option (Z * Z) :=
  if 0 <=? timeout_ms then Some (Z.quot timeout_ms 1000, Z.rem timeout_ms 1000 * 1000000) else None.

Definition event_fd (e : kevent) : Z := i32 (u32 (ident e)).

Definition note_event (e : kevent) (r : ReadyEvent) : ReadyEvent :=
  mk_ReadyEvent (readable r || (filter_ e =? EVFILT_READ)) (writable r || (filter_ e =? EVFILT_WRITE))
    (closed r || (has_flag (flags_ e) EV_EOF || has_flag (flags_ e) EV_ERROR)).

(** A turn of the loop: the entry of the descriptor, or a new one at the end. *)
Definition fold_event (out : list (Z * ReadyEvent)) (e : kevent) : list (Z * ReadyEvent) :=
  let existing := list_find (fun candidate => candidate.1 = event_fd e) out in
  let index := match existing with Some (i, _) => i | None => length out end in
  let out := match existing with Some _ => out | None => out ++ [(event_fd e, mk_ReadyEvent false false false)] end in
  alter (fun entry => (entry.1, note_event e entry.2)) index out.

Inductive kevent_answer := KeventEintr | KeventFailed (errno : Z) | KeventEvents (scratch : list kevent).

(** [Poller::wait]; [out] is the caller's vector. *)
Definition kq_wait (out : list (Z * ReadyEvent)) (a : kevent_answer) : result (list (Z * ReadyEvent)) :=
  match a with
  | KeventEintr => Ok out
  | KeventFailed e => Err (SysError (str "kevent failed") e)
  | KeventEvents scratch => Ok (foldl fold_event [] scratch)
  end.

(** * epoll *)

Abbreviation Ep := (gmap Z Z).

(** [Poller::add], [modify] and [remove]; [refuses] is an [errno] of the kernel's own. *)
Definition ep_add (refuses : option Z) (fd : Z) (interest : Interest) : M Ep unit := fun p =>
  match refuses, p !! fd with
  | Some e, _ => (Err (SysError (str "cannot add a descriptor to epoll") e), p)
  | None, Some _ => (Err (SysError (str "cannot add a descriptor to epoll") 17), p)
  | None, None => (Ok tt, <[fd := to_epoll_events interest]> p)
  end.

Definition ep_modify (refuses : option Z) (fd : Z) (interest : Interest) : M Ep unit := fun p =>
  match refuses, p !! fd with
  | Some e, _ => (Err (SysError (str "cannot update a descriptor in epoll") e), p)
  | None, None => (Err (SysError (str "cannot update a descriptor in epoll") 2), p)
  | None, Some _ => (Ok tt, <[fd := to_epoll_events interest]> p)
  end.

Definition ep_remove (refuses : option Z) (fd : Z) : M Ep unit := fun p =>
  (Ok tt, if bool_decide (refuses = None) then delete fd p else p).

(** * What both are *)

Inductive poller_call := PollAdd (fd : Z) (i : Interest) | PollModify (fd : Z) (i : Interest) | PollRemove (fd : Z).

Definition kq_call (c : poller_call) : M Kq unit :=
  match c with PollAdd fd i => kq_add None fd i | PollModify fd i => kq_modify None fd i | PollRemove fd => kq_remove None fd end.

Definition ep_call (c : poller_call) : M Ep unit :=
  match c with PollAdd fd i => ep_add None fd i | PollModify fd i => ep_modify None fd i | PollRemove fd => ep_remove None fd end.

Fixpoint calls {S} (call : poller_call -> M S unit) (cs : list poller_call) : M S unit :=
  match cs with [] => mret tt | c :: cs => do* call c in calls call cs end.

(** The interest of each descriptor. *)
Definition spec_call (c : poller_call) (m : gmap Z Interest) : gmap Z Interest :=
  match c with PollAdd fd i | PollModify fd i => <[fd := i]> m | PollRemove fd => delete fd m end.

Definition spec_calls (cs : list poller_call) (m : gmap Z Interest) : gmap Z Interest := foldl (fun m c => spec_call c m) m cs.

(** A descriptor is added once, and modified while it is there. *)
Fixpoint proper_calls (cs : list poller_call) (m : gmap Z Interest) : bool :=
  match cs with
  | [] => true
  | c :: cs =>
      match c with
      | PollAdd fd _ => bool_decide (m !! fd = None)
      | PollModify fd _ => bool_decide (is_Some (m !! fd))
      | PollRemove _ => true
      end && proper_calls cs (spec_call c m)
  end.

Definition kq_watches (q : Kq) (fd : Z) : option Interest :=
  match q !! (fd, EVFILT_READ), q !! (fd, EVFILT_WRITE) with
  | Some r, Some w => Some (mk_Interest r w)
  | _, _ => None
  end.

Definition ep_watches (p : Ep) (fd : Z) : option Interest :=
  match p !! fd with
  | Some mask => Some (mk_Interest (has_flag mask EPOLLIN) (has_flag mask EPOLLOUT))
  | None => None
  end.

(** The descriptors of a report, each at its first place. *)
Definition firsts (fds : list Z) : list Z := foldl (fun seen fd => if decide (fd ∈ seen) then seen else seen ++ [fd]) [] fds.

(** What a report says of a descriptor. *)
Definition summary (events : list kevent) (fd : Z) : ReadyEvent :=
  let some_ (f : kevent -> bool) := existsb (fun e => (event_fd e =? fd) && f e) events in
  mk_ReadyEvent (some_ (fun e => filter_ e =? EVFILT_READ)) (some_ (fun e => filter_ e =? EVFILT_WRITE))
    (some_ (fun e => has_flag (flags_ e) EV_EOF || has_flag (flags_ e) EV_ERROR)).

Definition merged (events : list kevent) : list (Z * ReadyEvent) :=
  (fun fd => (fd, summary events fd)) <$> firsts (event_fd <$> events).

(** * The interests *)

Lemma kq_changes_add fd i q :
  kq_modify None fd i q = (Ok tt, <[(fd, EVFILT_WRITE) := want_writable i]> (<[(fd, EVFILT_READ) := want_readable i]> q)).
Proof. by destruct i as [[] []]. Qed.

Lemma filters_differ (fd g : Z) : (fd, EVFILT_WRITE) <> (g, EVFILT_READ).
Proof. intros E. apply (f_equal snd) in E. discriminate E. Qed.

Ltac keys := first [done | apply filters_differ | apply not_eq_sym, filters_differ | congruence].

Lemma kq_deletes fd q b : q !! (fd, EVFILT_READ) = Some b -> is_Some (q !! (fd, EVFILT_WRITE)) ->
  kq_remove None fd q = (Ok tt, delete (fd, EVFILT_WRITE) (delete (fd, EVFILT_READ) q)).
Proof.
  intros Hr [c Hw]. unfold kq_remove. cbn [kq_changes]. unfold kq_change, mbind, mret. cbn [ident filter_ flags_].
  change (has_flag EV_DELETE EV_DELETE) with true. cbn iota. rewrite Hr. cbn iota beta. by rewrite lookup_delete_ne, Hw by keys.
Qed.

Lemma kq_deletes_none fd q : q !! (fd, EVFILT_READ) = None -> kq_remove None fd q = (Ok tt, q).
Proof.
  intros Hr. unfold kq_remove. cbn [kq_changes]. unfold kq_change, mbind, mret. cbn [ident filter_ flags_].
  change (has_flag EV_DELETE EV_DELETE) with true. cbn iota. by rewrite Hr.
Qed.

(** Both filters of a descriptor are registered, or neither. *)
Definition paired (q : Kq) (m : gmap Z Interest) : Prop :=
  forall fd, q !! (fd, EVFILT_READ) = want_readable <$> m !! fd /\ q !! (fd, EVFILT_WRITE) = want_writable <$> m !! fd.

Lemma paired_watches q m fd : paired q m -> kq_watches q fd = m !! fd.
Proof. intros Hp. unfold kq_watches. destruct (Hp fd) as [-> ->]. by destruct (m !! fd) as [[]|]. Qed.

Lemma kq_call_paired c q m : paired q m -> exists q', kq_call c q = (Ok tt, q') /\ paired q' (spec_call c m).
Proof.
  intros Hp. assert (forall fd i, paired (<[(fd, EVFILT_WRITE) := want_writable i]> (<[(fd, EVFILT_READ) := want_readable i]> q)) (<[fd := i]> m)) as Hadd.
  { intros fd i g. destruct (decide (fd = g)) as [<-|Hne].
    - by rewrite !lookup_insert_eq, lookup_insert_ne, lookup_insert_eq by keys.
    - rewrite !lookup_insert_ne by keys. apply Hp. }
  destruct c as [fd i|fd i|fd]; cbn [kq_call spec_call]; unfold kq_add; [rewrite kq_changes_add; eauto..|].
  destruct (Hp fd) as [Hr Hw]. destruct (m !! fd) as [i|] eqn:Em; cbn in Hr, Hw.
  - rewrite (kq_deletes _ _ _ Hr) by by rewrite Hw. eexists. split; [done|]. intros g. destruct (decide (fd = g)) as [<-|Hne].
    + by rewrite !lookup_delete_eq, lookup_delete_ne, lookup_delete_eq by keys.
    + rewrite !lookup_delete_ne by keys. apply Hp.
  - rewrite kq_deletes_none by done. eexists. split; [done|]. by rewrite delete_id.
Qed.

Lemma mask_interest i : has_flag (to_epoll_events i) EPOLLIN = want_readable i /\ has_flag (to_epoll_events i) EPOLLOUT = want_writable i.
Proof. by destruct i as [[] []]. Qed.

Lemma ep_call_ok c (p : Ep) m : p = to_epoll_events <$> m -> proper_calls [c] m = true ->
  ep_call c p = (Ok tt, to_epoll_events <$> spec_call c m).
Proof.
  intros -> Hc. cbn in Hc. rewrite andb_true_r in Hc. destruct c as [fd i|fd i|fd]; cbn.
  - apply bool_decide_eq_true in Hc. unfold ep_add. by rewrite lookup_fmap, Hc, fmap_insert.
  - apply bool_decide_eq_true in Hc as [j Hj]. unfold ep_modify. by rewrite lookup_fmap, Hj, fmap_insert.
  - unfold ep_remove. cbn. by rewrite fmap_delete.
Qed.

Lemma calls_ok cs : forall q m, paired q m -> proper_calls cs m = true ->
  (exists q', calls kq_call cs q = (Ok tt, q') /\ paired q' (spec_calls cs m)) /\
  calls ep_call cs (to_epoll_events <$> m) = (Ok tt, to_epoll_events <$> spec_calls cs m).
Proof.
  induction cs as [|c cs IH]; intros q m Hp Hc; [split; [by exists q|done]|]. cbn [proper_calls] in Hc. apply andb_prop in Hc as [H1 H2].
  destruct (kq_call_paired c q m Hp) as (q' & E & Hp'). destruct (IH q' (spec_call c m) Hp' H2) as [(q2 & E2 & Hp2) Hep].
  cbn [calls]. unfold mbind. rewrite E, (ep_call_ok c _ m) by (done || cbn [proper_calls]; by rewrite H1). split; [by exists q2|done].
Qed.

(** * The report *)

Lemma firsts_snoc fds fd : firsts (fds ++ [fd]) = if decide (fd ∈ firsts fds) then firsts fds else firsts fds ++ [fd].
Proof. unfold firsts. by rewrite foldl_app. Qed.

Lemma firsts_spec fds : NoDup (firsts fds) /\ forall fd, fd ∈ firsts fds <-> fd ∈ fds.
Proof.
  induction fds as [|fd fds [IH1 IH2]] using rev_ind; [split; [constructor|done]|]. rewrite firsts_snoc. case_decide as Hin.
  - split; [done|]. intros g. rewrite elem_of_app, list_elem_of_singleton, IH2. split; [by left|]. intros [?| ->]; [done|by apply IH2].
  - split; [|intros g; by rewrite !elem_of_app, IH2]. apply NoDup_app. split; [done|]. split; [|apply NoDup_singleton].
    intros g Hg ->%list_elem_of_singleton. done.
Qed.

Lemma summary_snoc events e fd :
  summary (events ++ [e]) fd = if event_fd e =? fd then note_event e (summary events fd) else summary events fd.
Proof.
  unfold summary, note_event. rewrite !existsb_app. cbn [existsb]. destruct (event_fd e =? fd); cbn [andb readable writable closed]; by rewrite ?orb_false_r.
Qed.

Lemma summary_unseen events fd : fd ∉ firsts (event_fd <$> events) -> summary events fd = mk_ReadyEvent false false false.
Proof.
  intros Hn. rewrite (proj2 (firsts_spec _)) in Hn. unfold summary.
  assert (forall f : kevent -> bool, existsb (fun e => (event_fd e =? fd) && f e) events = false) as Hf; [|by rewrite !Hf].
  intros f. apply not_true_is_false. intros (e & He & Hb)%existsb_exists. apply andb_prop in Hb as [Hb%Z.eqb_eq _].
  apply Hn, list_elem_of_fmap. exists e. split; [done|]. by apply list_elem_of_In.
Qed.

Lemma merged_snoc events e : merged (events ++ [e]) = fold_event (merged events) e.
Proof.
  unfold merged. rewrite fmap_app. cbn [fmap list_fmap]. rewrite firsts_snoc.
  set (fds := firsts (event_fd <$> events)). destruct (firsts_spec (event_fd <$> events)) as [Hnd _]. fold fds in Hnd.
  unfold fold_event. case_decide as Hin.
  - apply list_elem_of_lookup in Hin as [i Hi].
    assert (list_find (fun c : Z * ReadyEvent => c.1 = event_fd e) ((fun fd => (fd, summary events fd)) <$> fds) = Some (i, (event_fd e, summary events (event_fd e)))) as Hf.
    { apply list_find_Some. rewrite list_lookup_fmap, Hi. split_and!; [done..|]. intros j y Hj Hlt.
      apply list_lookup_fmap_Some in Hj as (fd & -> & Hj). cbn. intros ->. pose proof (NoDup_lookup _ _ _ _ Hnd Hi Hj). lia. }
    rewrite Hf. apply list_eq. intros j. rewrite list_lookup_fmap, list_lookup_alter. destruct (decide (i = j)) as [<-|Hne].
    + rewrite list_lookup_fmap, Hi. cbn. by rewrite summary_snoc, Z.eqb_refl.
    + rewrite list_lookup_fmap. destruct (fds !! j) as [fd|] eqn:Hj; cbn; [|done]. rewrite summary_snoc.
      destruct (Z.eqb_spec (event_fd e) fd) as [<-|]; [|done]. destruct Hne. by eapply NoDup_lookup.
  - assert (list_find (fun c : Z * ReadyEvent => c.1 = event_fd e) ((fun fd => (fd, summary events fd)) <$> fds) = None) as Hf.
    { apply list_find_None, Forall_fmap, Forall_forall. intros fd Hfd. cbn. by intros ->. }
    rewrite Hf, fmap_app. cbn [fmap list_fmap]. rewrite summary_snoc, Z.eqb_refl, summary_unseen by done.
    rewrite length_fmap. rewrite alter_app_r_alt by (rewrite length_fmap; lia). rewrite length_fmap, Nat.sub_diag. cbn. f_equal.
    apply list_fmap_ext. intros j fd Hj. rewrite summary_snoc. destruct (Z.eqb_spec (event_fd e) fd) as [<-|]; [|done].
    destruct Hin. by eapply list_elem_of_lookup_2.
Qed.

Lemma fold_merged events : foldl fold_event [] events = merged events.
Proof. induction events as [|e events IH] using rev_ind; [done|]. by rewrite foldl_app, IH, merged_snoc. Qed.

(** * The pollers agree *)


(** A descriptor whose reading and writing come apart is one event, and [wait] has no limit
    for a negative time. *)
Example sample_report :
  kq_wait [] (KeventEvents [mk_kevent 7 EVFILT_READ 0; mk_kevent 4 EVFILT_READ EV_EOF; mk_kevent 7 EVFILT_WRITE 0]) =
    Ok [(7, mk_ReadyEvent true true false); (4, mk_ReadyEvent true false true)] /\
  kq_timeout 1500 = Some (1, 500000000) /\ kq_timeout (-1) = None.
Proof. vm_compute. repeat split; reflexivity. Qed.

