(* ===== verification/ServerRun.v ===== *)
(** The server program: [server/src/main.cpp], the start, the shard loop and the stop of
    [server/src/server.cpp], the start of the epoll poller of [server/src/poller.cpp], and
    [hardware_threads] of [common/src/cpu.cpp].

    [Boot] is what [start] builds, with the kernel's answers to the calls on each socket.
    [shard_run] is one thread in its loop: the vector of events it keeps from one wait to the
    next, and the server it shares. What other threads, the network and the clock do in
    between are steps of the server given with each turn. *)

From S2P Require Import Prelude Double Endian Socket Frame Protocol Text Getopt Address Connection RateLimiter SessionTable Server.
From S2P Require Import ServerSafety ServerProtocol ServerClaims Crypto Log.

(** * Options *)

Definition server_help {A} (error : option bytes) : parse_outcome A := Exits error.

Definition parse_number (text : bytes) (flag : string) : parse_outcome Z :=
  let '(value, end_) := strtoul text in
  if bool_decide (end_ = text) || negb (len end_ =? 0) then server_help (Some (str flag ++ str " needs a number"))
  else Parsed value.

Definition kIdleTimeout : Z := 1000.
Definition kPairingTimeout : Z := 1001.
Definition kNoRelay : Z := 1002.
Definition kConnectionsPerMinute : Z := 1003.
Definition kRequestsPerMinute : Z := 1004.

Definition server_short_options : bytes := str "hVb:p:s:l:v".

Definition server_long_options : list long_option := [
  mk_long_option (str "help") false 104; mk_long_option (str "version") false 86; mk_long_option (str "bind") true 98;
  mk_long_option (str "port") true 112; mk_long_option (str "shards") true 115; mk_long_option (str "log-level") true 108;
  mk_long_option (str "verbose") false 118; mk_long_option (str "idle-timeout") true kIdleTimeout;
  mk_long_option (str "pairing-timeout") true kPairingTimeout; mk_long_option (str "no-relay") false kNoRelay;
  mk_long_option (str "connections-per-min") true kConnectionsPerMinute;
  mk_long_option (str "requests-per-min") true kRequestsPerMinute].

Definition with_bind v o := mk_ServerOptions v (opt_port o) (opt_shards o) (idle_timeout_seconds o) (pairing_timeout_seconds o) (rate_limits o) (allow_relay o).
Definition with_port v o := mk_ServerOptions (bind_address o) v (opt_shards o) (idle_timeout_seconds o) (pairing_timeout_seconds o) (rate_limits o) (allow_relay o).
Definition with_shards v o := mk_ServerOptions (bind_address o) (opt_port o) v (idle_timeout_seconds o) (pairing_timeout_seconds o) (rate_limits o) (allow_relay o).
Definition with_idle v o := mk_ServerOptions (bind_address o) (opt_port o) (opt_shards o) v (pairing_timeout_seconds o) (rate_limits o) (allow_relay o).
Definition with_pairing v o := mk_ServerOptions (bind_address o) (opt_port o) (opt_shards o) (idle_timeout_seconds o) v (rate_limits o) (allow_relay o).
Definition with_limits v o := mk_ServerOptions (bind_address o) (opt_port o) (opt_shards o) (idle_timeout_seconds o) (pairing_timeout_seconds o) v (allow_relay o).
Definition without_relay o := mk_ServerOptions (bind_address o) (opt_port o) (opt_shards o) (idle_timeout_seconds o) (pairing_timeout_seconds o) (rate_limits o) false.

(** The options and the log level. *)
Abbreviation settings := (ServerOptions * Level)%type.

(** The [switch]; [None] is the version, printed with status 0. *)
Definition server_option (opt : Z) (optarg : bytes) (s : settings) : parse_outcome (option settings) :=
  let '(o, level) := s in
  let number flag (f : Z -> ServerOptions) := obind (parse_number optarg flag) (fun v => Parsed (Some (f v, level))) in
  if opt =? 104 then server_help None
  else if opt =? 86 then Parsed None
  else if opt =? 98 then Parsed (Some (with_bind optarg o, level))
  else if opt =? 112 then number "--port"%string (fun v => with_port (u16 v) o)
  else if opt =? 115 then number "--shards"%string (fun v => with_shards (u32 v) o)
  else if opt =? 108 then
    match parse_level optarg with
    | Some l => Parsed (Some (o, l))
    | None => server_help (Some (str "unknown log level"))
    end
  else if opt =? 118 then Parsed (Some (o, LevelDebug))
  else if opt =? kIdleTimeout then number "--idle-timeout"%string (fun v => with_idle (u32 v) o)
  else if opt =? kPairingTimeout then number "--pairing-timeout"%string (fun v => with_pairing (u32 v) o)
  else if opt =? kNoRelay then Parsed (Some (without_relay o, level))
  else if opt =? kConnectionsPerMinute then
    number "--connections-per-min"%string (fun v => let l := rate_limits o in
      with_limits (mk_RateLimits (d_of_Z v) (requests_per_minute l) (burst l) (max_buckets l)) o)
  else if opt =? kRequestsPerMinute then
    number "--requests-per-min"%string (fun v => let l := rate_limits o in
      with_limits (mk_RateLimits (connections_per_minute l) (d_of_Z v) (burst l) (max_buckets l)) o)
  else server_help (Some (str "unrecognised option")).

Fixpoint server_options (evs : list getopt_event) (s : settings) : parse_outcome (option settings) :=
  match evs with
  | [] => Parsed (Some s)
  | GotError :: _ => server_help (Some (str "unrecognised option"))
  | GotOption opt optarg :: evs =>
      obind (server_option opt optarg s) (fun r =>
        match r with
        | Some s => server_options evs s
        | None => Parsed None
        end)
  end.

(** [argv] without the name of the program. *)
Definition parse_server_options (args : list bytes) : parse_outcome (option settings) :=
  let '(evs, operands) := getopt_long server_short_options server_long_options args in
  obind (server_options evs (default_options, LevelInfo)) (fun r =>
    match r with
    | None => Parsed None
    | Some s => if negb (len operands =? 0) then server_help (Some (str "unexpected extra argument")) else Parsed (Some s)
    end).

(** * Starting *)

Definition hardware_threads (hardware_concurrency : Z) : Z :=
  let count := if hardware_concurrency =? 0 then 4 else hardware_concurrency in
  if 16 <? count then 16 else count.

(** [Server::Server]. *)
Definition new_server_options (hardware_concurrency : Z) (o : ServerOptions) : ServerOptions :=
  if opt_shards o =? 0 then with_shards (hardware_threads hardware_concurrency) o else o.

(** How the calls that set up a socket end: each is the errno of a failure or [None]. *)
Record socket_answer := mk_socket_answer {
  sa_socket : Z + Z;
  sa_getfd : option Z;
  sa_setfd : option Z;
  sa_reuse_addr : option Z;
  sa_reuse_port : bool;
  sa_bind : option Z;
  sa_ephemeral : Z;
  sa_listen : option Z;
  sa_getfl : option Z;
  sa_setfl : option Z;
  sa_getsockname : option Z;
}.

Record pipe_answer := mk_pipe_answer { pa_pipe : (Z * Z) + Z; pa_flags : list (option (string * Z)) }.

Record start_env := mk_start_env {
  st_getaddrinfo : bytes -> bytes -> list (Endpoint * Z) + Z;
  st_gai_strerror : Z -> bytes;
  st_listeners : list socket_answer;
  st_reflexive : socket_answer;
  st_pipes : list pipe_answer;
  st_adds : list (option Z);
}.

(** An open socket and the address it is bound to. *)
Record bound := mk_bound { b_fd : Z; b_address : Endpoint }.

Record boot_shard := mk_boot_shard {
  bs_index : Z;
  bs_listener : bound;
  bs_reflexive : option bound;
  bs_wake_read : Z;
  bs_wake_write : Z;
  bs_polled : list Z;
}.

Record Boot := mk_Boot { bound_port_ : Z; boot_shards : list boot_shard; poll_adds : list (option Z) }.

Definition check_syscall (failed : option Z) (what : string) : result unit :=
  match failed with Some e => Err (SysError (str what) e) | None => Ok tt end.

Definition set_close_on_exec (a : socket_answer) : result unit :=
  let? _ := check_syscall (sa_getfd a) "fcntl(F_GETFD)" in check_syscall (sa_setfd a) "fcntl(F_SETFD)".

Definition set_nonblocking (a : socket_answer) : result unit :=
  let? _ := check_syscall (sa_getfl a) "fcntl(F_GETFL)" in check_syscall (sa_setfl a) "fcntl(F_SETFL)".

(** [bind]: the kernel picks a port for port 0. *)
Definition bound_to (address : Endpoint) (a : socket_answer) : Endpoint :=
  if port address =? 0 then set_port (sa_ephemeral a) address else address.

(** [local_endpoint]. *)
Definition local_endpoint (s : bound) (a : socket_answer) : result Endpoint :=
  let? _ := check_syscall (sa_getsockname a) "getsockname" in from_sockaddr (b_address s) sizeof_sockaddr_in6.

Section Start.
Context `{Inet} (env : start_env) (o : ServerOptions).

(** [candidates.front()]; there is one. *)
Definition first_address (wanted : Z) : result Endpoint :=
  let? candidates := resolve (st_getaddrinfo env) (st_gai_strerror env) (bind_address o) wanted in
  match candidates with e :: _ => Ok e | [] => Err OutOfBounds end.

(** [shards] is [shards_.size()]. *)
Definition open_listener (a : socket_answer) (bound_port shards : Z) : result bound :=
  let wanted := if negb (bound_port =? 0) then bound_port else opt_port o in
  let? address := first_address wanted in
  match sa_socket a with
  | inr e => Err (SysError (str "cannot create the listening socket") e)
  | inl fd =>
      let? _ := set_close_on_exec a in
      let? _ := check_syscall (sa_reuse_addr a) "setsockopt(SO_REUSEADDR)" in
      if negb (sa_reuse_port a) && (0 <? shards) then
        Err (Error (str "this platform has no SO_REUSEPORT, so only one shard can listen; start the server with --shards=1"))
      else
        match sa_bind a with
        | Some e => Err (SysError (str "cannot bind " ++ endpoint_to_string address) e)
        | None =>
            let? _ := check_syscall (sa_listen a) "cannot listen" in
            let? _ := set_nonblocking a in
            Ok (mk_bound fd (bound_to address a))
        end
  end.

Definition open_reflexive_socket (a : socket_answer) (bound_port : Z) : result bound :=
  let? address := first_address bound_port in
  match sa_socket a with
  | inr e => Err (SysError (str "cannot create the reflexive probe socket") e)
  | inl fd =>
      let? _ := set_close_on_exec a in
      let? _ := check_syscall (sa_reuse_addr a) "setsockopt(SO_REUSEADDR)" in
      match sa_bind a with
      | Some e => Err (SysError (str "cannot bind the reflexive probe socket") e)
      | None =>
          let? _ := set_nonblocking a in
          Ok (mk_bound fd (bound_to address a))
      end
  end.

(** The flags of both ends, one call after another. *)
Fixpoint check_all (calls : list (option (string * Z))) : result unit :=
  match calls with
  | [] => Ok tt
  | Some (what, e) :: _ => Err (SysError (str what) e)
  | None :: calls => check_all calls
  end.

Definition create_wake_pipe (a : pipe_answer) : result (Z * Z) :=
  match pa_pipe a with
  | inr e => Err (SysError (str "cannot create a shard wake pipe") e)
  | inl ends => let? _ := check_all (pa_flags a) in Ok ends
  end.

(** [poller.add]. *)
Definition poller_add : M Boot unit := fun b =>
  match poll_adds b with
  | Some e :: adds => (Err (SysError (str "cannot add a descriptor to epoll") e), mk_Boot (bound_port_ b) (boot_shards b) adds)
  | None :: adds => (Ok tt, mk_Boot (bound_port_ b) (boot_shards b) adds)
  | [] => (Ok tt, b)
  end.

(** One turn of the loop that opens the shards. *)
Definition start_shard (i : Z) (a : socket_answer) (p : pipe_answer) : M Boot unit :=
  let* b := mget in
  let* listener := mlift (open_listener a (bound_port_ b) (len (boot_shards b))) in
  let* name := mlift (if bound_port_ b =? 0 then local_endpoint listener a else Ok (b_address listener)) in
  let bound_port := if bound_port_ b =? 0 then port name else bound_port_ b in
  do* mmodify (fun b => mk_Boot bound_port (boot_shards b) (poll_adds b)) in
  let* ends := mlift (create_wake_pipe p) in
  do* poller_add in
  do* poller_add in
  let* reflexive := (if i =? 0 then
      let* s := mlift (open_reflexive_socket (st_reflexive env) bound_port) in
      do* poller_add in
      mret (Some s)
    else mret None) in
  mmodify (fun b => mk_Boot (bound_port_ b)
    (boot_shards b ++ [mk_boot_shard i listener reflexive ends.1 ends.2
       ([b_fd listener; ends.1] ++ match reflexive with Some s => [b_fd s] | None => [] end)]) (poll_adds b)).

Fixpoint start_shards (n : nat) (i : Z) (listeners : list socket_answer) (pipes : list pipe_answer) : M Boot unit :=
  match n, listeners, pipes with
  | O, _, _ => mret tt
  | S n, a :: listeners, p :: pipes => do* start_shard i a p in start_shards n (i + 1) listeners pipes
  | S _, _, _ => mthrow Blocks
  end.

(** [Server::start] up to the threads. *)
Definition start : M Boot unit := start_shards (Z.to_nat (opt_shards o)) 0 (st_listeners env) (st_pipes env).
End Start.

(** [Server::stop]: the flag afterwards and the pipes written to. *)
Definition stop (stopping : bool) (shards : list boot_shard) : bool * list Z :=
  if stopping then (true, []) else (true, bs_wake_write <$> shards).

(** ** One port for all shards *)

(** What the resolver and the kernel do: addresses are Internet addresses with the port that
    was asked for, and a port that is picked is a port. *)
Record start_laws (env : start_env) : Prop := {
  sl_resolver : forall host p results, is_u16 p -> st_getaddrinfo env host (to_string p) = inl results ->
    Forall (fun r => port r.1 = p /\ match r.1 with EpOther _ => False | _ => True end) results;
  sl_ephemeral : Forall (fun a => 1 <= sa_ephemeral a <= 65535) (st_listeners env);
}.

Lemma from_sockaddr_port a n e :
  from_sockaddr a n = Ok e -> port e = port a /\ (match a with EpOther _ => False | _ => True end -> match e with EpOther _ => False | _ => True end).
Proof. unfold from_sockaddr. destruct (_ <? _); [done|]. destruct a as [| |]; try (by intros [= <-]). destruct (IN6_IS_ADDR_V4MAPPED _); by intros [= <-]. Qed.

Lemma endpoints_of_ports p results : forall es,
  Forall (fun r => port r.1 = p /\ match r.1 with EpOther _ => False | _ => True end) results -> endpoints_of results = Ok es ->
  Forall (fun e => port e = p /\ match e with EpOther _ => False | _ => True end) es.
Proof.
  induction results as [|[a n] results IH]; intros es Hr; cbn; [intros [= <-]; constructor|].
  apply Forall_cons in Hr as [[Hp Ho] Hr]. cbn in *. destruct (from_sockaddr a n) as [e|] eqn:E; [|done].
  apply from_sockaddr_port in E as [Ep Eo]. destruct (endpoints_of results) as [es'|] eqn:E'; [|done]. intros [= <-].
  constructor; [|by apply IH]. split; [by rewrite Ep|by apply Eo].
Qed.

Section OnePort.
Context `{Inet} (env : start_env) (o : ServerOptions) (Hlaws : start_laws env) (Hport : is_u16 (opt_port o)).

Lemma first_address_port wanted e :
  is_u16 wanted -> first_address env o wanted = Ok e -> port e = wanted /\ match e with EpOther _ => False | _ => True end.
Proof.
  intros Hw. unfold first_address, resolve. destruct (st_getaddrinfo _ _ _) as [results|rc] eqn:Eg; [|done].
  apply (sl_resolver _ Hlaws _ _ _ Hw) in Eg. destruct (endpoints_of results) as [es|] eqn:Ee; [|done].
  pose proof (endpoints_of_ports _ _ _ Eg Ee) as Hes. destruct (_ =? _); [done|]. destruct Hes as [|e' es He _]; [done|]. by intros [= <-].
Qed.

Lemma bound_to_port address a :
  match address with EpOther _ => False | _ => True end ->
  port (bound_to address a) = if port address =? 0 then sa_ephemeral a else port address.
Proof. unfold bound_to. destruct address; cbn; try done; intros _; by destruct (_ =? 0). Qed.

Lemma open_listener_port a bound_port shards s :
  is_u16 bound_port -> open_listener env o a bound_port shards = Ok s ->
  port (b_address s) = let wanted := if negb (bound_port =? 0) then bound_port else opt_port o in
                       if wanted =? 0 then sa_ephemeral a else wanted.
Proof.
  intros Hb. unfold open_listener. set (wanted := if negb _ then _ else _).
  assert (is_u16 wanted) as Hw by (unfold wanted; by destruct (negb _)). destruct (first_address _ _ _) as [e|] eqn:E; [|done].
  apply (first_address_port _ _ Hw) in E as [Hp Ho]. destruct (sa_socket a); [|done]. destruct (set_close_on_exec a); [|done].
  destruct (check_syscall _ _); [|done]. destruct (_ && _); [done|]. destruct (sa_bind a); [done|]. destruct (check_syscall _ _); [|done].
  destruct (set_nonblocking a); [|done]. intros [= <-]. cbn [b_address]. by rewrite bound_to_port, Hp.
Qed.

Lemma open_reflexive_port a bound_port s :
  is_u16 bound_port -> open_reflexive_socket env o a bound_port = Ok s -> bound_port <> 0 -> port (b_address s) = bound_port.
Proof.
  intros Hw. unfold open_reflexive_socket. destruct (first_address _ _ _) as [e|] eqn:E; [|done].
  apply (first_address_port _ _ Hw) in E as [Hp Ho]. destruct (sa_socket a); [|done]. destruct (set_close_on_exec a); [|done].
  destruct (check_syscall _ _); [|done]. destruct (sa_bind a); [done|].
  destruct (set_nonblocking a); [|done]. intros [= <-] Hb. cbn [b_address]. rewrite bound_to_port, Hp by done. by destruct (Z.eqb_spec bound_port 0).
Qed.

(** A shard on [p] with everything its loop waits for. *)
Definition shard_on (p i : Z) (sh : boot_shard) : Prop :=
  bs_index sh = i /\ port (b_address (bs_listener sh)) = p /\
  match bs_reflexive sh with
  | Some r => i = 0 /\ port (b_address r) = p /\ bs_polled sh = [b_fd (bs_listener sh); bs_wake_read sh; b_fd r]
  | None => i <> 0 /\ bs_polled sh = [b_fd (bs_listener sh); bs_wake_read sh]
  end.

(** The shards opened so far. *)
Definition boot_ok (b : Boot) : Prop :=
  is_u16 (bound_port_ b) /\
  match boot_shards b with
  | [] => bound_port_ b = 0
  | _ => bound_port_ b <> 0 /\ (opt_port o <> 0 -> bound_port_ b = opt_port o)
  end /\ forall i sh, boot_shards b !! i = Some sh -> shard_on (bound_port_ b) (Z.of_nat i) sh.

Lemma poller_add_same b b' : poller_add b = (Ok tt, b') -> boot_shards b' = boot_shards b /\ bound_port_ b' = bound_port_ b.
Proof. unfold poller_add. destruct (poll_adds b) as [|[]]; [by intros [= <-]|done|by intros [= <-]]. Qed.

Lemma opened_port listener a b name :
  1 <= sa_ephemeral a <= 65535 -> boot_ok b -> open_listener env o a (bound_port_ b) (len (boot_shards b)) = Ok listener ->
  (if bound_port_ b =? 0 then local_endpoint listener a else Ok (b_address listener)) = Ok name ->
  let q := if bound_port_ b =? 0 then port name else bound_port_ b in
  is_u16 q /\ q <> 0 /\ port (b_address listener) = q /\ (opt_port o <> 0 -> q = opt_port o) /\ (boot_shards b <> [] -> q = bound_port_ b).
Proof.
  intros Ha (Hu & Hb & _) El%open_listener_port; [|done]. cbn zeta in El |- *. destruct (Z.eqb_spec (bound_port_ b) 0) as [Hz|Hz].
  - rewrite Hz in El. cbn in El. unfold local_endpoint. destruct (check_syscall _ _); [|done]. intros [-> _]%from_sockaddr_port.
    rewrite El. destruct (boot_shards b) eqn:Es; [|by destruct Hb]. destruct (Z.eqb_spec (opt_port o) 0); split_and!; try done; unfold is_u in *; lia.
  - intros _. cbn in El. rewrite (proj2 (Z.eqb_neq _ 0) Hz) in El. split_and!; try done.
    destruct (boot_shards b) eqn:Es; [by rewrite Hb in Hz|]. apply Hb.
Qed.

Lemma start_shard_ok a p b b' :
  1 <= sa_ephemeral a <= 65535 -> boot_ok b -> start_shard env o (len (boot_shards b)) a p b = (Ok tt, b') ->
  boot_ok b' /\ len (boot_shards b') = len (boot_shards b) + 1.
Proof.
  intros Ha Hok Hr. unfold start_shard in Hr. cbv delta [mget mlift mmodify] in Hr. cbn beta in Hr.
  apply mbind_ok_inv in Hr as (? & ? & [= <- <-] & Hr).
  apply mbind_ok_inv in Hr as (listener & ? & [= El <-] & Hr).
  apply mbind_ok_inv in Hr as (name & ? & [= En <-] & Hr).
  destruct (opened_port _ _ _ _ Ha Hok El En) as (Hu & Hq & Hl & Ho & Hs).
  set (q := if _ =? 0 then port name else _) in *.
  apply mbind_ok_inv in Hr as (? & ? & [= <- <-] & Hr).
  apply mbind_ok_inv in Hr as (ends & ? & [= _ <-] & Hr).
  apply mbind_ok_inv in Hr as ([] & b1 & [Hs1 Hp1]%poller_add_same & Hr).
  apply mbind_ok_inv in Hr as ([] & b2 & [Hs2 Hp2]%poller_add_same & Hr).
  apply mbind_ok_inv in Hr as (r & b3 & Hr & [= <-]). cbn [boot_shards bound_port_] in *.
  assert (boot_shards b3 = boot_shards b /\ bound_port_ b3 = q /\
    match r with Some s => len (boot_shards b) = 0 /\ port (b_address s) = q | None => len (boot_shards b) <> 0 end) as (-> & -> & Hr3).
  { destruct (Z.eqb_spec (len (boot_shards b)) 0).
    - apply mbind_ok_inv in Hr as (s & ? & [= Es <-] & Hr). apply mbind_ok_inv in Hr as ([] & b4 & [Hs4 Hp4]%poller_add_same & [= <- <-]).
      rewrite Hs4, Hp4, Hs2, Hs1, Hp2, Hp1. split_and!; try done. by apply open_reflexive_port in Es.
    - injection Hr as <- <-. by rewrite Hs2, Hs1, Hp2, Hp1. }
  split; [|unfold len; rewrite length_app; cbn; lia].
  split; [done|]. split; [by destruct (boot_shards b)|].
  intros i sh. cbn [bound_port_ boot_shards]. rewrite lookup_snoc_Some. intros [[_ Hi]|[-> <-]].
  - rewrite Hs; [by apply Hok|]. intros Hn. by rewrite Hn in Hi.
  - split_and!; cbn; [done|done|]. destruct r as [s|]; [|done]. destruct Hr3 as [Hz ?]. by rewrite <- Hz.
Qed.

Lemma start_shards_ok n : forall listeners pipes b b',
  Forall (fun a => 1 <= sa_ephemeral a <= 65535) listeners -> boot_ok b ->
  start_shards env o n (len (boot_shards b)) listeners pipes b = (Ok tt, b') ->
  boot_ok b' /\ len (boot_shards b') = len (boot_shards b) + Z.of_nat n.
Proof.
  induction n as [|n IH]; intros [|a listeners] [|p pipes] b b' Ha Hok Hr; try done;
    try (cbn in Hr; injection Hr as <-; split; [done|lia]).
  apply Forall_cons in Ha as [Ha Has]. cbn [start_shards] in Hr. apply mbind_ok_inv in Hr as ([] & b1 & H1 & Hr).
  apply start_shard_ok in H1 as [Hok1 Hlen]; [|done..]. rewrite <- Hlen in Hr.
  apply IH in Hr as [Hok' Hlen']; [|done..]. split; [done|lia].
Qed.
End OnePort.


(** Two shards on a port the kernel picks. *)
Definition fine_socket (fd ephemeral : Z) : socket_answer :=
  mk_socket_answer (inl fd) None None None true None ephemeral None None None None.
Definition sample_resolver (host service : bytes) : list (Endpoint * Z) + Z := inl [(EpV6 (strtoul service).1 0 (replicate 16 0) 0, 28)].
Definition sample_start : start_env :=
  mk_start_env sample_resolver (fun _ => []) [fine_socket 3 40000; fine_socket 6 40001] (fine_socket 5 40002)
    [mk_pipe_answer (inl (10, 11)) []; mk_pipe_answer (inl (12, 13)) []] [].

Lemma sample_start_laws : start_laws sample_start.
Proof.
  split; [|repeat constructor; cbn; lia]. intros host p results Hp [= <-]. repeat constructor. cbn.
  rewrite strtoul_to_string; [done|]. unfold is_u in *. lia.
Qed.

Lemma sample_start_ends : exists b, start (H := hex_inet) sample_start (with_shards 2 (with_port 0 default_options)) (mk_Boot 0 [] []) = (Ok tt, b) /\
  bound_port_ b = 40000.
Proof. eexists. split; vm_compute; reflexivity. Qed.


(** * The options *)

Lemma parse_number_text n flag : is_u64 n -> parse_number (to_string n) flag = Parsed n.
Proof.
  intros Hn. unfold parse_number. rewrite strtoul_to_string by done. rewrite bool_decide_eq_false_2; [done|].
  destruct (to_string_digits n ltac:(apply Hn)) as [Hne _]. congruence.
Qed.

Lemma server_setting name value val :
  forallb (fun x => negb (x =? 61)) (str name) = true ->
  find_long server_long_options (str name) = Some (mk_long_option (str name) true val) ->
  says server_short_options server_long_options (setting name value) (GotOption val value).
Proof. intros Hn Hf. by apply (setting_says _ _ name value _ (not_in_check _ _ Hn) Hf). Qed.

(** Every setting can be given on the command line of the server and arrives, but a number
    arrives modulo the width of its field and without a complaint: port 65536 asks the kernel
    for any port, port 65616 is port 80, and 2^32 shards are as many as the machine has cores. *)
Theorem server_numbers_wrap (bind : bytes) (port shards idle pairing connections requests : Z) (relay : bool) (level : Level) (operands args : list bytes) :
  Forall (is_u 64) [port; shards; idle; pairing; connections; requests] ->
  merged ([setting "bind" bind; setting "port" (to_string port); setting "shards" (to_string shards);
           setting "idle-timeout" (to_string idle); setting "pairing-timeout" (to_string pairing);
           setting "connections-per-min" (to_string connections); setting "requests-per-min" (to_string requests);
           setting "log-level" (level_name level)] ++ (if relay then [] else [flag "no-relay"])) operands args ->
  parse_server_options args =
    if len operands =? 0 then
      Parsed (Some (mk_ServerOptions bind (u16 port) (u32 shards) (u32 idle) (u32 pairing)
        (mk_RateLimits (d_of_Z connections) (d_of_Z requests) (burst default_limits) (max_buckets default_limits)) relay, level))
    else server_help (Some (str "unexpected extra argument")).
Proof.
  intros Hn Hm. repeat (apply Forall_cons in Hn as [? Hn]). unfold parse_server_options.
  rewrite (getopt_merged _ _ _ _ _ ([GotOption 98 bind; GotOption 112 (to_string port); GotOption 115 (to_string shards);
    GotOption kIdleTimeout (to_string idle); GotOption kPairingTimeout (to_string pairing); GotOption kConnectionsPerMinute (to_string connections);
    GotOption kRequestsPerMinute (to_string requests); GotOption 108 (level_name level)] ++ (if relay then [] else [GotOption kNoRelay []])) Hm).
  - cbn [server_options app]. unfold server_option. cbn -[parse_number parse_level level_name default_options u16 u32].
    rewrite !parse_number_text by done. cbn [obind]. rewrite parse_level_name.
    destruct relay; cbn -[parse_number default_options u16 u32]; by destruct (len operands =? 0).
  - cbn [app]. do 8 (constructor; [apply server_setting; vm_compute; reflexivity|]).
    destruct relay; constructor; [|constructor]. by apply (flag_says _ _ "no-relay"%string (mk_long_option (str "no-relay") false kNoRelay)).
Qed.

Lemma server_numbers_wrap_witness :
  parse_server_options [str "--bind=0.0.0.0"; str "--port=65616"; str "--shards=4294967296"; str "--idle-timeout=60"; str "--pairing-timeout=30";
    str "--connections-per-min=5"; str "--requests-per-min=7"; str "--log-level=debug"; str "--no-relay"] =
  Parsed (Some (mk_ServerOptions (str "0.0.0.0") 80 0 60 30 (mk_RateLimits (d_of_Z 5) (d_of_Z 7) (burst default_limits) (max_buckets default_limits)) false, LevelDebug)).
Proof.
  refine (server_numbers_wrap (str "0.0.0.0") 65616 4294967296 60 30 5 7 false LevelDebug [] _ _ _).
  - repeat constructor; discriminate.
  - repeat apply merged_option. apply merged_nil.
Defined.

(** * The program *)

(** The body of a shard's thread, given how its loop ends: the flag and the pipes written to. *)
Definition shard_thread (run : result unit) (stopping : bool) (shards : list boot_shard) : bool * list Z :=
  match run with
  | Ok _ => (stopping, [])
  | Err _ => stop stopping shards
  end.

(** The exit status of [main], [runs] being how the loops of the shards end. *)
Definition server_main `{Inet} (args : list bytes) (hardware_concurrency : Z) (env : start_env) (runs : list (result unit)) : Z * bool :=
  match parse_server_options args with
  | Exits None | Parsed None => (0, false)
  | Exits (Some _) => (1, false)
  | Parsed (Some (o, level)) =>
      match start env (new_server_options hardware_concurrency o) (mk_Boot 0 [] (st_adds env)) with
      | (Err _, _) => (1, false)
      | (Ok _, b) => (0, foldl (fun stopping run => (shard_thread run stopping (boot_shards b)).1) false runs)
      end
  end.

(** A shard that ends with an exception stops every shard, and the program still exits with 0. *)
Lemma crashed_shard_exits_zero `{Inet} args hw env runs o level b e :
  parse_server_options args = Parsed (Some (o, level)) ->
  start env (new_server_options hw o) (mk_Boot 0 [] (st_adds env)) = (Ok tt, b) -> Err e ∈ runs ->
  server_main args hw env runs = (0, true).
Proof.
  intros Ho Hs Hin. unfold server_main. rewrite Ho, Hs. f_equal.
  assert (forall stopping : bool, stopping = true \/ Err e ∈ runs -> foldl (fun stopping run => (shard_thread run stopping (boot_shards b)).1) stopping runs = true) as Hf;
    [|by apply Hf; right].
  clear Hin. induction runs as [|run runs IH]; intros stopping; cbn [foldl]; [intros [->|[]%not_elem_of_nil]; done|].
  rewrite elem_of_cons. intros [->|[<-|?]]; apply IH; [left|left|by right].
  - by destruct run.
  - by destruct stopping.
Qed.
